(* ===== verification/_CoqProject ===== *)
-Q . S2P
Prelude.v
Utf8.v
Time.v
Machine.v
Protos.v
StewardList.v
Mls.v
Toy.v
Buffer.v
Queues.v
Scoring.v
CommitRound.v
ApplyResult.v
Config.v
Display.v
Conversation.v
Room.v
Net.v
Voting.v
Steward.v
HandleOutcome.v
Bus.v
Inbound.v
Messaging.v
Poll.v
Quiet.v
Construct.v
Invariant.v
Elections.v
System.v
Joining.v
Harness.v
Recovery.v
Candidate.v
Agreement.v
Merge.v
Wakeup.v
Landing.v
Retries.v
Succession.v
InStep.v
Silent.v
Lone.v
Steps.v
Fork.v
Newcomer.v
Arrival.v
Interleave.v
Conform.v
ConformSteward.v
ConformScoring.v
ConformQueues.v
ConformRound.v
ConformBasics.v
ConformHandle.v
ConformProtocol.v
ConformMembership.v
ConformGroup.v
