(* ===== verification/Prelude.v ===== *)
(** * A verification library for the de-mls conversation protocol

    The crate runs a group conversation over MLS in which membership changes are
    voted on and then committed by elected stewards. One [Conversation] holds
    everything a member knows of one group. The integrator hands it incoming packets
    ([process_inbound]), calls of its own ([add_member], [vote], [leave], ...) and the
    passing of time ([poll]), and takes away events and packets to send. A proposal
    goes to the consensus library; its outcome comes back over a bus and is applied
    to the queues; approved changes wait for a commit round, in which each steward
    broadcasts a commit and every member picks the same one; a merged commit advances
    the epoch, after which the steward list, the scores and the buffered requests are
    brought up to date. When no steward commits, the members re-elect, and when that
    fails too they open a recovery in which any member may commit.

    ** Files

    The files follow the source; a definition has the name of the function it
    translates, with a prefix where two parts of the crate share a name ([sm_] for
    the state machine, [ts_] for timestamps, [sl_] and [svc_] for the steward list
    and its service, [bs_] for [BoundedSet], [mls_] for [MlsService], [conv_] for the
    conversation). Paths are relative to [src/src/].

    - [Prelude]: results, methods (a state, then a result), sorting by a comparison,
      insertion-ordered maps, hash-map iteration, machine integers, automation, two
      runs in lockstep. [Utf8]: [String::from_utf8_lossy].
    - [Time]: [wall_clock.rs], [phase_timer.rs]. [Machine]:
      [conversation/state_machine.rs]. [Config]: [conversation/config.rs].
    - [Protos]: the wire messages, [protos.rs], [process_result.rs],
      [proposal_kind.rs], [error.rs], [events.rs]. [Display]: their texts.
    - [StewardList]: [steward_list/]. [Scoring]: [peer_scoring/] and the storage of
      [defaults.rs]. [Mls]: [mls_crypto/].
    - [Buffer]: [commit_round/buffer.rs]. [CommitRound]: the rest of [commit_round/].
    - [Queues]: [conversation/queues.rs], [conversation/util.rs]. [ApplyResult]:
      [consensus/apply_result.rs].
    - [Conversation]: [conversation/handle.rs], [conversation/query.rs]. [Voting]:
      [consensus/voting.rs]. [Steward]: [conversation/steward.rs]. [HandleOutcome]:
      [consensus/handle_outcome.rs] and [tick_deadlines]. [Bus]: [consensus/plugin.rs],
      [consensus/outcome_bus.rs], the consensus plugin of [defaults.rs].
      [Inbound]: [conversation/inbound.rs]. [Messaging]: [conversation/messaging.rs].
      [Poll]: [conversation/poll.rs]. [Construct]: [conversation/construct.rs].
    - [Invariant]: what every handler preserves. [Quiet]: what the housekeeping of a
      conversation leaves alone. [Elections]: how lists get installed
      and shared. [Recovery]: failing elections. [System]: a
      conversation from its construction on. [Joining]: the two ways into a
      conversation. [Candidate]: our own commit. [Agreement]: two members' views of one
      round. [Merge]: what merging its commit makes of both. [Interleave]: candidates
      that run ahead of decisions. [Landing]: the round of the member that commits. [Retries]: recovery rounds without a commit.
      [Succession]: the steward list after a commit. [InStep]: two conversations with
      one group, work, list and mode, through the end of a round. [Silent]: elected
      stewards that never commit. [Steps]: the same two through everything else. [Lone]: a round with one candidate, at its author and
      at another member. [Fork]: when both land, and when they fork. [Newcomer]:
      elections in the epoch of a join. [Arrival]: a joiner and the member that let it
      in.
      [Wakeup]: the sleep between two polls.
    - [Toy] and [Room]: concrete instances of the parameters, for the examples. [Net]:
      the instances several members share, for the integration tests.
    - [Conform], [ConformSteward], [ConformScoring], [ConformQueues], [ConformRound],
      [ConformBasics], [ConformHandle]: the unit tests of the crate, run on the model.
      [Harness]: the harness of [src/tests/]. [ConformProtocol], [ConformMembership],
      [ConformGroup]: the integration tests.

    ** How the code is modelled

    A method that takes [&mut self] and returns a [Result] is a [method]: a function
    from the state to the new state and a result. The state is kept on an error, as
    Rust keeps it: what was written before a [?] returned stays written. [let!] is
    [?], [scatch] a [match] on the result, [attempt] an error that is only logged.
    Logging is left out. [szoom] runs a method of a part on the whole.

    Integers keep their width where they can reach it: a [u32] or [u64] is an [N] and
    an [i64] a [Z], with the saturation, wrap-around and [as] conversions of the
    source written out; a length is a [usize] and an [N]. Three values are left
    exact where Rust would overflow: the epoch after a merge ([ctx_current_epoch + 1], a
    [u64]), the sum of two [Duration]s in [recovery_window], and the retry round given to
    [responsible_proposer], a [u32] in every reachable state
    ([reachable_states_typed]). A [Duration] is its number of nanoseconds. A [HashMap] is a [gmap] walked in an order the class [HashIter]
    leaves open, so no theorem depends on it; an [IndexMap] is an association list; a
    [HashSet] used for membership is a [gset].

    What the crate only calls is a parameter: OpenMLS ([OpenMls], with the two facts
    relied on in [OpenMlsLaws]; [OpenMlsSetup] for making and joining a group;
    [OpenMlsPeers] for what two members' views of one group share, [OpenMlsMerge] for
    what merging one commit on two sides makes of them), SHA-256 ([Hash]), prost ([Codec]), the consensus
    library ([ConsensusLib], [ConsensusTexts], [ConsensusService]) and the integrator's score table
    ([PeerScoreStorage], with [PeerScoreStorageLaws], and [ScoreWritesSucceed] for a
    table whose writes do not fail; the crate's own in-memory table is an instance of
    all three). That a failed write leaves the table as it was, one of these laws, is an
    assumption of ours: the trait does not document it. Only the theorems that say so assume laws; [WireTypes] is the law
    that decoded messages and epochs fit their Rust types. The randomness of
    proposal names is part of the engine. The clock is a value that the environment
    moves forward between calls ([tick_clock] in [System]).

    ** What the theorems show

    - The whole conversation ([System], over [Invariant]): [reachable_states_sound],
      the invariant of every state any sequence of calls leads to;
      [reachable_states_typed], that its integers, and those it sends, fit their types;
      [selection_is_transient], a poll never leaves a conversation between two
      phases; [outcome_applied_once] for resolved proposals. [Bus]: the
      conversations of one process do not see one another's outcomes.
    - Commit rounds ([Buffer], [CommitRound]): what is admitted to a round, that all
      members rank alike, what a peer's commit must pass to be merged, who wins and
      who is scored. [Candidate]: what a steward puts up, that it is what its peers
      check for exactly when nothing voted is left out, why there may be none, and
      how it is sent again. [Agreement]: two members with the same candidates, in
      whatever order, end the round the same way ([members_agree]); an honest
      candidate is not refused; a renamed copy of one costs its author. [Interleave]:
      how decisions and candidates interleave does not matter.
    - Two members ([Steps], over [Merge] and [InStep]): [members_never_fork], that two
      members that start in step end in step, each living at its own pace and doing
      whatever it does by itself, when they go through the same moments in the same
      order: messages of others, resolved proposals, re-election retries, ended rounds,
      of which every poll is made. A round is taken to
      end for both with the same candidates in hand and no error of the engine; a
      member that cannot read a commit is out of step and stays behind. A candidate
      of one of the two needs less ([Lone], [Fork]): alone in the round it lands for
      both when its commit makes exactly the voted changes ([voted_commit_lands]), and
      for its author only when it does not ([unvoted_commit_forks]). A member that joins
      is in step with the one whose sync it adopts, but for the joins of that epoch,
      which it does not know of, and they never fork either ([joiner_never_forks],
      [Arrival]).
    - Proposals ([Voting], [Inbound], [ApplyResult]): what may be opened, what a
      peer's proposal leaves behind, that a proposal without a vote only removes its
      sender, and what each resolution does to the queues.
    - Steward lists ([StewardList], [Elections]): generation is deterministic and
      checkable, the authority of an epoch and of an election round, honest elections
      are accepted, lists travel by election and by sync unchanged, and a joiner names
      the same stewards as any member whose sync it adopted, but does not follow the
      elections of the epoch it joined in ([Newcomer]). [Succession]: members that
      agree on the stewards before a commit agree on them after it. [Joining]: creator and
      joiner agree on the conversation's id and salt, and keep them.
    - Liveness: failing elections escalate, by exactly one member, to a Deadlock
      emergency ([Recovery]); accepted ones whose stewards stay silent do not, they are
      held again for the same list ([Silent]); a recovery that misses its rounds ends
      ([Retries]). [Landing]: a steward lands the approved work, alone if need be, any
      member does in a recovery, and what is reported of it ([removals_unreported]).
    - Parts: dedup windows, early candidates, pending updates and membership
      bookkeeping ([Queues]); scores refine a fold and survive the sparse sync
      ([Scoring]); member handles and staging ([Mls]); the wire timing ([Config]);
      the sleep between polls ([Wakeup]).

    A theorem with hypotheses is followed by a witness that applies it to a concrete
    state, most often the two-member room of [Room].

    The model is also tested against the crate's own expectations. Every unit test
    under [src/src/] is a boolean of a [Conform] file, with its assertions in
    conjunction, and a lemma per tests module says that all its tests hold. The tests
    that need OpenMLS, the consensus library or a hash use [toy_mls], [toy_consensus]
    and [test_hash]. The integration tests of [src/tests/] run whole conversations of up
    to eleven members, created, joined and polled over a bus by [Harness]; there the
    parameters are [net_mls] (a tree of keys with an epoch secret that a commit moves,
    so that a fork shows), [net_consensus] (a two-thirds quorum with the liveness rule
    at the timeout) and [net_codec]. Every test passes on the model, and the two the
    source ignores fail on it, the second in the way its note describes
    ([silent_steward_is_reelected]). Whatever such a test does, every conversation on
    its bus is sound ([bus_sound]).

    ** Fuel

    Two loops are not structural. [evict] of [BoundedSet::insert] runs on the length
    of the queue, which [bounded_set_insert] shows to be enough. The [while let] that
    drains the outcome bus can be fed by what it handles, so it has no bound in the
    code either: [drain_outcomes] takes fuel, [drains] is the loop itself, and
    [drain_fuel] relates the two: if the loop ends, some fuel and any larger one is
    enough. [poll] takes that fuel, and its theorems hold for any; the harness
    gives it [DRAIN], fifty, and [process_until] the six hundred steps of fifty
    milliseconds that make its thirty seconds.

    ** What is not modelled

    The configuration values handed to OpenMLS when a group is made or joined,
    and the warning about a missing ratchet-tree extension; tracing; generated code,
    the build script and re-exports; of the tests, the one that only reads the group
    through OpenMLS ([mls_group_is_readable_through_openmls]). Poisoned mutexes are not modelled: the
    buffers they guard are not shared between threads. *)

From stdpp Require Export base tactics decidable countable numbers list gmap strings sorting pretty.
From Stdlib.Strings Require Export Byte.

(** ** Scopes, tactics and hint databases *)

Declare Scope rust_scope.
Delimit Scope rust_scope with rust.

Create HintDb demls.
Create HintDb demls_rw.

(** Split every [match] and [if] of the goal and of the hypotheses, and clean up. *)
Ltac split_cases :=
  repeat (case_match || case_decide || case_bool_decide); simplify_eq/=.

(** Destruct the scrutinee a hypothesis is stuck on. *)
Ltac step_in H :=
  match type of H with
  | context [match ?x with _ => _ end] => destruct x eqn:?; simplify_eq/=
  end.

Ltac bool_simpl :=
  repeat match goal with
  | H : _ && _ = true |- _ => apply andb_true_iff in H as [? ?]
  | H : _ || _ = false |- _ => apply orb_false_iff in H as [? ?]
  | H : negb _ = true |- _ => apply negb_true_iff in H
  | H : negb _ = false |- _ => apply negb_false_iff in H
  | H : bool_decide _ = true |- _ => apply bool_decide_eq_true in H
  | H : bool_decide _ = false |- _ => apply bool_decide_eq_false in H
  | H : N.leb _ _ = true |- _ => apply N.leb_le in H
  | H : N.leb _ _ = false |- _ => apply N.leb_gt in H
  | H : N.ltb _ _ = true |- _ => apply N.ltb_lt in H
  | H : N.ltb _ _ = false |- _ => apply N.ltb_ge in H
  | H : N.eqb _ _ = true |- _ => apply N.eqb_eq in H
  | H : N.eqb _ _ = false |- _ => apply N.eqb_neq in H
  end.

(** ** Bytes *)

#[export] Instance byte_eq_dec : EqDecision byte := Byte.byte_eq_dec.
#[export] Program Instance byte_countable : Countable byte :=
  inj_countable Byte.to_N Byte.of_N Byte.of_to_N.

Abbreviation bytes := (list byte).

(** The byte [n as u8]. *)
Definition byte_of_N (n : N) : byte :=
  default x00 (Byte.of_N (n mod 256)).

Lemma to_N_byte_of_N n : Byte.to_N (byte_of_N n) = (n mod 256)%N.
Proof.
  unfold byte_of_N. pose proof (N.mod_lt n 256 ltac:(done)) as Hlt.
  destruct (Byte.of_N (n mod 256)) as [b|] eqn:E; cbn -[N.modulo].
  - by apply Byte.to_of_N.
  - apply Byte.of_N_None_iff in E. lia.
Qed.

Lemma byte_of_to_N b : byte_of_N (Byte.to_N b) = b.
Proof.
  unfold byte_of_N. rewrite N.mod_small by (pose proof (Byte.to_N_bounded b); lia).
  by rewrite Byte.of_to_N.
Qed.

Lemma to_N_inj b c : Byte.to_N b = Byte.to_N c → b = c.
Proof. intros H. rewrite <-(byte_of_to_N b), <-(byte_of_to_N c). by rewrite H. Qed.

(** [x.to_be_bytes()] of a [k]-byte integer. *)
Fixpoint be_bytes (k : nat) (n : N) : bytes :=
  match k with
  | O => []
  | S k => byte_of_N (n / 256 ^ N.of_nat k) :: be_bytes k n
  end.

(** [from_be_bytes]. *)
Definition be_value (bs : bytes) : N :=
  foldl (λ acc b, 256 * acc + Byte.to_N b)%N 0%N bs.

Lemma length_be_bytes k n : length (be_bytes k n) = k.
Proof. induction k; simpl; congruence. Qed.

Lemma be_value_acc bs a :
  foldl (λ acc b, 256 * acc + Byte.to_N b)%N a bs = (a * 256 ^ N.of_nat (length bs) + be_value bs)%N.
Proof.
  unfold be_value. revert a. induction bs as [|b bs IH]; intros a; [simpl; lia|].
  cbn [foldl length]. rewrite IH, (IH (256 * 0 + Byte.to_N b)%N).
  rewrite Nat2N.inj_succ, N.pow_succ_r'. lia.
Qed.

Lemma be_value_cons b bs :
  be_value (b :: bs) = (Byte.to_N b * 256 ^ N.of_nat (length bs) + be_value bs)%N.
Proof. unfold be_value at 1. cbn [foldl]. rewrite be_value_acc. lia. Qed.

Lemma be_value_bound bs : (be_value bs < 256 ^ N.of_nat (length bs))%N.
Proof.
  induction bs as [|b bs IH]; [done|].
  rewrite be_value_cons. cbn [length]. rewrite Nat2N.inj_succ, N.pow_succ_r'.
  pose proof (Byte.to_N_bounded b). nia.
Qed.

Lemma be_value_be_bytes k n : be_value (be_bytes k n) = (n mod 256 ^ N.of_nat k)%N.
Proof.
  induction k as [|k IH]; [by rewrite N.mod_1_r|].
  cbn [be_bytes]. rewrite be_value_cons, IH, to_N_byte_of_N, length_be_bytes.
  rewrite Nat2N.inj_succ, N.pow_succ_r', (N.mul_comm 256).
  rewrite (N.Div0.mod_mul_r n). lia.
Qed.

Lemma mixed_radix_inj a x y p q :
  (x < a)%N → (y < a)%N → (x + a * p = y + a * q)%N → x = y ∧ p = q.
Proof. intros Hx Hy H. assert (p = q) as -> by nia. split; [lia|done]. Qed.

Lemma be_bytes_mod k n m :
  (n mod 256 ^ N.of_nat k = m mod 256 ^ N.of_nat k)%N → be_bytes k n = be_bytes k m.
Proof.
  revert n m. induction k as [|k IH]; intros n m H; [done|].
  rewrite Nat2N.inj_succ, N.pow_succ_r', (N.mul_comm 256) in H.
  rewrite !N.Div0.mod_mul_r in H.
  pose proof (N.pow_nonzero 256 (N.of_nat k) ltac:(done)) as Hnz.
  pose proof (N.mod_lt n _ Hnz). pose proof (N.mod_lt m _ Hnz).
  apply mixed_radix_inj in H as [Hlo Hhi]; [|done..].
  cbn [be_bytes]. f_equal; [|by apply IH].
  unfold byte_of_N. by rewrite Hhi.
Qed.

Lemma be_bytes_be_value bs : be_bytes (length bs) (be_value bs) = bs.
Proof.
  induction bs as [|b bs IH]; [done|].
  cbn [length be_bytes]. rewrite be_value_cons.
  pose proof (be_value_bound bs) as Hb.
  pose proof (N.pow_nonzero 256 (N.of_nat (length bs)) ltac:(done)) as Hnz.
  f_equal.
  - rewrite N.div_add_l, (N.div_small _ _ Hb), N.add_0_r by done. apply byte_of_to_N.
  - etransitivity; [|exact IH]. apply be_bytes_mod.
    by rewrite N.add_comm, N.Div0.mod_add.
Qed.

(** ** Machine integers *)

Definition u32_max : N := 4294967295.
Definition u64_max : N := 18446744073709551615.
Definition i64_min : Z := -9223372036854775808.
Definition i64_max : Z := 9223372036854775807.

(** [n as u32]: truncation to the low 32 bits. *)
Definition as_u32 (n : N) : N := n mod 4294967296.

(** [x.saturating_add(1)] and the wrapping [x + 1] of a release build. *)
Definition u32_saturating_add (a b : N) : N := N.min (a + b) u32_max.
Definition u32_wrapping_add (a b : N) : N := (a + b) mod 4294967296.
Definition u64_saturating_add (a b : N) : N := N.min (a + b) u64_max.
Definition u64_wrapping_add (a b : N) : N := (a + b) mod 18446744073709551616.

(** [a.saturating_sub(b)] is truncated subtraction at every unsigned width. *)
Definition saturating_sub (a b : N) : N := a - b.

Definition i64_saturating_add (a b : Z) : Z := Z.max i64_min (Z.min i64_max (a + b)).

Definition is_i64 (z : Z) : Prop := (i64_min ≤ z ≤ i64_max)%Z.

Lemma i64_saturating_add_range a b : is_i64 (i64_saturating_add a b).
Proof. unfold is_i64, i64_saturating_add, i64_min, i64_max. lia. Qed.

Lemma i64_saturating_add_exact a b : is_i64 (a + b)%Z → i64_saturating_add a b = (a + b)%Z.
Proof. unfold is_i64, i64_saturating_add. lia. Qed.

#[export] Hint Resolve i64_saturating_add_range : demls.

(** ** Results and the state monad of a [&mut] operation

    [result E A] is Rust's [Result<A, E>]. A method that takes [&mut self] and
    returns a [Result] is a [state_result S E A]: the state survives an [Err],
    as the effects made before the [?] do in the source. *)

Inductive result (E A : Type) :=
  | Ok (a : A)
  | Err (e : E).
Arguments Ok {E A} _.
Arguments Err {E A} _.

#[export] Instance result_eq_dec `{EqDecision E, EqDecision A} : EqDecision (result E A).
Proof. solve_decision. Defined.

Definition result_bind {E A B} (m : result E A) (k : A → result E B) : result E B :=
  match m with Ok a => k a | Err e => Err e end.

Definition result_map_err {E E' A} (f : E → E') (m : result E A) : result E' A :=
  match m with Ok a => Ok a | Err e => Err (f e) end.

(** [o.ok_or(e)] and [r.ok()]. *)
Definition ok_or {E A} (o : option A) (e : E) : result E A :=
  match o with Some a => Ok a | None => Err e end.
Definition result_ok {E A} (m : result E A) : option A :=
  match m with Ok a => Some a | Err _ => None end.

Definition is_ok {E A} (m : result E A) : bool :=
  match m with Ok _ => true | Err _ => false end.

Definition state_result (S E A : Type) := S → S * result E A.

Section state_result.
Context {S E : Type}.

Definition sret {A} (a : A) : state_result S E A := λ s, (s, Ok a).
Definition sfail {A} (e : E) : state_result S E A := λ s, (s, Err e).
Definition sbind {A B} (m : state_result S E A) (k : A → state_result S E B) :
    state_result S E B :=
  λ s, match m s with
       | (s', Ok a) => k a s'
       | (s', Err e) => (s', Err e)
       end.
Definition sget {A} (f : S → A) : state_result S E A := λ s, (s, Ok (f s)).
Definition smodify (f : S → S) : state_result S E unit := λ s, (f s, Ok tt).
Definition slift {A} (m : result E A) : state_result S E A := λ s, (s, m).
(** [match m { Ok(a) => .., Err(e) => .. }]: the error becomes a value. *)
Definition scatch {A B} (m : state_result S E A) (k : result E A → state_result S E B) :
    state_result S E B :=
  λ s, let '(s', r) := m s in k r s'.
(** Run a method of a component held in a field. *)
Definition szoom {T A} (get : S → T) (set : T → S → S) (m : state_result T E A) :
    state_result S E A :=
  λ s, let '(t, r) := m (get s) in (set t s, r).
(** [for x in l { body(x)?; }]. *)
Fixpoint sfor {X} (l : list X) (body : X → state_result S E unit) : state_result S E unit :=
  match l with
  | [] => sret tt
  | x :: l => sbind (body x) (λ _, sfor l body)
  end.
End state_result.

Notation "'let?' x := m 'in' k" := (result_bind m (λ x, k))
  (at level 10, x pattern, m at level 100, k at level 200) : rust_scope.
Notation "'let!' x := m 'in' k" := (sbind m (λ x, k))
  (at level 10, x pattern, m at level 100, k at level 200) : rust_scope.
Notation "m ;! k" := (sbind m (λ _, k))
  (at level 100, k at level 200, right associativity) : rust_scope.
#[global] Open Scope rust_scope.

Lemma sbind_ok {S E A B} (m : state_result S E A) (k : A → state_result S E B) s s' b :
  sbind m k s = (s', Ok b) ↔ ∃ s1 a, m s = (s1, Ok a) ∧ k a s1 = (s', Ok b).
Proof. unfold sbind. destruct (m s) as [s1 [a|e]]; naive_solver. Qed.

Lemma sbind_err {S E A B} (m : state_result S E A) (k : A → state_result S E B) s e :
  (m s).2 = Err e → sbind m k s = ((m s).1, Err e).
Proof. unfold sbind. destruct (m s) as [s' r]. cbn. by intros ->. Qed.

Lemma sbind_seq {S E A B} (m : state_result S E A) (k : state_result S E B) s :
  is_ok (m s).2 = true → sbind m (λ _, k) s = k (m s).1.
Proof. unfold sbind. destruct (m s) as [s' [a|e]]; by cbn. Qed.

Lemma sbind_step {S E A B} (m : state_result S E A) (k : A → state_result S E B) s s' a :
  m s = (s', Ok a) → sbind m k s = k a s'.
Proof. unfold sbind. by intros ->. Qed.

Lemma sbind_assoc {S E A B C} (m : state_result S E A) (k : A → state_result S E B) (h : B → state_result S E C) s :
  sbind m (λ a, sbind (k a) h) s = sbind (sbind m k) h s.
Proof. unfold sbind. by destruct (m s) as [s' [a|e]]. Qed.

Lemma smodify_ok {S E} (f : S → S) s s' : smodify (E := E) f s = (s', Ok tt) → s' = f s.
Proof. by intros [= <-]. Qed.

Lemma sget_ok {S E A} (f : S → A) s s' a : sget (E := E) f s = (s', Ok a) → s' = s ∧ a = f s.
Proof. by intros [= <- <-]. Qed.

(** A property every method of a chain preserves is preserved by the chain. *)
Definition preserves {S E A} (I : S → Prop) (m : state_result S E A) : Prop :=
  ∀ s, I s → I (m s).1.

Section preserves.
Context {S E : Type} (I : S → Prop).

Lemma preserves_ret {A} (a : A) : preserves I (sret (E := E) a).
Proof. by intros s Hs. Qed.
Lemma preserves_fail {A} (e : E) : preserves I (sfail (A := A) e).
Proof. by intros s Hs. Qed.
Lemma preserves_get {A} (f : S → A) : preserves I (sget (E := E) f).
Proof. by intros s Hs. Qed.
Lemma preserves_lift {A} (r : result E A) : preserves I (slift r).
Proof. by intros s Hs. Qed.
Lemma preserves_modify f : (∀ s, I s → I (f s)) → preserves I (smodify (E := E) f).
Proof. intros Hf s Hs. by apply Hf. Qed.
Lemma preserves_bind {A B} (m : state_result S E A) (k : A → state_result S E B) :
  preserves I m → (∀ a, preserves I (k a)) → preserves I (sbind m k).
Proof.
  intros Hm Hk s Hs. unfold sbind. specialize (Hm s Hs).
  destruct (m s) as [s1 [a|e]]; [|done]. by apply Hk.
Qed.
Lemma preserves_catch {A B} (m : state_result S E A) (k : result E A → state_result S E B) :
  preserves I m → (∀ r, preserves I (k r)) → preserves I (scatch m k).
Proof.
  intros Hm Hk s Hs. unfold scatch. specialize (Hm s Hs).
  destruct (m s) as [s1 r]. by apply Hk.
Qed.
Lemma preserves_for {X} (l : list X) (body : X → state_result S E unit) :
  (∀ x, x ∈ l → preserves I (body x)) → preserves I (sfor l body).
Proof.
  induction l as [|x l IH]; intros Hb; [apply preserves_ret|].
  apply preserves_bind; [apply Hb; set_solver|]. intros _. apply IH. set_solver.
Qed.
End preserves.
#[export] Hint Resolve preserves_ret preserves_fail preserves_get preserves_lift : demls.

(** ** Orderings and the stable sort

    [Ord::cmp] is a function to [comparison]; [then_with] composes two of them
    and [slice::sort_by] is a stable sort, here an insertion sort. *)

Definition then_with (a b : comparison) : comparison :=
  match a with Eq => b | _ => a end.

Definition cmp_on {A B} (f : A → B) (cmp : B → B → comparison) (x y : A) : comparison :=
  cmp (f x) (f y).
Definition cmp_lex {A} (c1 c2 : A → A → comparison) (x y : A) : comparison :=
  then_with (c1 x y) (c2 x y).
Definition cmp_rev {A} (c : A → A → comparison) (x y : A) : comparison := c y x.

(** Lexicographic order of slices; a strict prefix is smaller. *)
Fixpoint slice_cmp {A} (cmp : A → A → comparison) (l1 l2 : list A) : comparison :=
  match l1, l2 with
  | [], [] => Eq
  | [], _ :: _ => Lt
  | _ :: _, [] => Gt
  | x :: l1, y :: l2 => then_with (cmp x y) (slice_cmp cmp l1 l2)
  end.

Definition byte_cmp : byte → byte → comparison := cmp_on Byte.to_N N.compare.
Definition bytes_cmp : bytes → bytes → comparison := slice_cmp byte_cmp.

#[global] Typeclasses Opaque cmp_on cmp_rev cmp_lex slice_cmp.
Arguments cmp_on {A B} _ _ _ _ /.
Arguments cmp_rev {A} _ _ _ /.

(** A total preorder, and one whose ties are equalities. *)
Class CmpOrder {A} (cmp : A → A → comparison) : Prop := {
  cmp_opp x y : cmp x y = CompOpp (cmp y x);
  cmp_trans x y z : cmp x y ≠ Gt → cmp y z ≠ Gt → cmp x z ≠ Gt;
}.
Class CmpEq {A} (cmp : A → A → comparison) : Prop :=
  cmp_eq x y : cmp x y = Eq → x = y.

Arguments cmp_opp {A} cmp {_} x y.
Arguments cmp_trans {A} cmp {_} x y z.

Section cmp_facts.
Context {A} (cmp : A → A → comparison) `{!CmpOrder cmp}.

Lemma cmp_refl x : cmp x x = Eq.
Proof. pose proof (cmp_opp cmp x x) as H. by destruct (cmp x x). Qed.

Lemma cmp_sym_eq x y : cmp x y = Eq → cmp y x = Eq.
Proof. intros H. by rewrite (cmp_opp cmp), H. Qed.

Lemma cmp_total x y : cmp x y ≠ Gt ∨ cmp y x ≠ Gt.
Proof. rewrite (cmp_opp cmp y x). destruct (cmp x y); cbn; naive_solver. Qed.

Lemma cmp_lt_trans_l x y z : cmp x y = Lt → cmp y z ≠ Gt → cmp x z = Lt.
Proof.
  intros Hxy Hyz. pose proof (cmp_trans cmp x y z ltac:(congruence) Hyz) as Hxz.
  destruct (cmp x z) eqn:E; [|done|done].
  pose proof (cmp_trans cmp y z x Hyz ltac:(rewrite (cmp_sym_eq _ _ E); done)) as Hyx.
  rewrite (cmp_opp cmp), Hxy in Hyx. by cbn in Hyx.
Qed.

Lemma cmp_lt_trans_r x y z : cmp x y ≠ Gt → cmp y z = Lt → cmp x z = Lt.
Proof.
  intros Hxy Hyz. pose proof (cmp_trans cmp x y z Hxy ltac:(congruence)) as Hxz.
  destruct (cmp x z) eqn:E; [|done|done].
  pose proof (cmp_trans cmp z x y ltac:(rewrite (cmp_sym_eq _ _ E); done) Hxy) as Hzy.
  rewrite (cmp_opp cmp), Hyz in Hzy. by cbn in Hzy.
Qed.

Lemma cmp_eq_trans x y z : cmp x y = Eq → cmp y z = Eq → cmp x z = Eq.
Proof.
  intros Hxy Hyz.
  pose proof (cmp_trans cmp x y z ltac:(congruence) ltac:(congruence)).
  pose proof (cmp_trans cmp z y x ltac:(by rewrite (cmp_sym_eq _ _ Hyz)) ltac:(by rewrite (cmp_sym_eq _ _ Hxy))) as H2.
  rewrite (cmp_opp cmp) in H2. destruct (cmp x z); naive_solver.
Qed.
End cmp_facts.

#[export] Instance N_cmp_order : CmpOrder N.compare.
Proof.
  split.
  - intros x y. apply N.compare_antisym.
  - intros x y z. rewrite !N.compare_le_iff. lia.
Qed.
#[export] Instance N_cmp_eq : CmpEq N.compare.
Proof. intros x y. apply N.compare_eq. Qed.

#[export] Instance cmp_on_order {A B} (f : A → B) cmp : CmpOrder cmp → CmpOrder (cmp_on f cmp).
Proof.
  intros H. split; unfold cmp_on; [intros; apply (cmp_opp cmp)|].
  intros x y z. apply (cmp_trans cmp).
Qed.
#[export] Instance cmp_rev_order {A} (cmp : A → A → comparison) :
  CmpOrder cmp → CmpOrder (cmp_rev cmp).
Proof.
  intros H. split; unfold cmp_rev; [intros; apply (cmp_opp cmp)|].
  intros x y z Hxy Hyz. by apply (cmp_trans cmp z y x).
Qed.
#[export] Instance cmp_lex_order {A} (c1 c2 : A → A → comparison) :
  CmpOrder c1 → CmpOrder c2 → CmpOrder (cmp_lex c1 c2).
Proof.
  intros H1 H2. split; unfold cmp_lex, then_with.
  - intros x y. rewrite (cmp_opp c1 x y), (cmp_opp c2 x y).
    by destruct (c1 y x).
  - intros x y z Hxy Hyz.
    destruct (c1 x y) eqn:E1; [|clear Hxy|done].
    + destruct (c1 y z) eqn:E2; [|clear Hyz|done].
      * rewrite (cmp_eq_trans c1 _ _ _ E1 E2). by apply (cmp_trans c2 x y z).
      * by rewrite (cmp_lt_trans_r c1 x y z ltac:(congruence) E2).
    + destruct (c1 y z) eqn:E2; [|clear Hyz|done];
        by rewrite (cmp_lt_trans_l c1 x y z E1 ltac:(congruence)).
Qed.

#[export] Instance cmp_lex_eq {A} (c1 c2 : A → A → comparison) : CmpEq c2 → CmpEq (cmp_lex c1 c2).
Proof. intros H x y. unfold cmp_lex, then_with. destruct (c1 x y); [apply H|done..]. Qed.

Lemma slice_cmp_lt_cons {A} (cmp : A → A → comparison) x y l1 l2 :
  slice_cmp cmp (x :: l1) (y :: l2) = then_with (cmp x y) (slice_cmp cmp l1 l2).
Proof. done. Qed.

#[export] Instance slice_cmp_order {A} (cmp : A → A → comparison) :
  CmpOrder cmp → CmpOrder (slice_cmp cmp).
Proof.
  intros H. split.
  - intros l1. induction l1 as [|x l1 IH]; intros [|y l2]; try done.
    rewrite !slice_cmp_lt_cons. unfold then_with.
    rewrite (cmp_opp cmp x y), (IH l2). by destruct (cmp y x).
  - intros l1. induction l1 as [|x l1 IH]; intros [|y l2] [|z l3]; try done.
    rewrite !slice_cmp_lt_cons. unfold then_with. intros Hxy Hyz.
    destruct (cmp x y) eqn:E1; [|clear Hxy|done].
    + destruct (cmp y z) eqn:E2; [|clear Hyz|done].
      * rewrite (cmp_eq_trans cmp _ _ _ E1 E2). by apply (IH l2 l3).
      * by rewrite (cmp_lt_trans_r cmp x y z ltac:(congruence) E2).
    + destruct (cmp y z) eqn:E2; [|clear Hyz|done];
        by rewrite (cmp_lt_trans_l cmp x y z E1 ltac:(congruence)).
Qed.
#[export] Instance slice_cmp_eq {A} (cmp : A → A → comparison) :
  CmpEq cmp → CmpEq (slice_cmp cmp).
Proof.
  intros H l1. induction l1 as [|x l1 IH]; intros [|y l2]; try done.
  rewrite slice_cmp_lt_cons. unfold then_with.
  destruct (cmp x y) eqn:E; [|done|done]. intros Hl. f_equal; [by apply H|by apply IH].
Qed.

#[export] Instance byte_cmp_order : CmpOrder byte_cmp.
Proof. apply cmp_on_order, N_cmp_order. Qed.
#[export] Instance byte_cmp_eq : CmpEq byte_cmp.
Proof. intros x y H. apply to_N_inj. by apply N_cmp_eq. Qed.
#[global] Typeclasses Opaque byte_cmp bytes_cmp.
#[export] Instance bytes_cmp_order : CmpOrder bytes_cmp.
Proof. apply slice_cmp_order, byte_cmp_order. Qed.
#[export] Instance bytes_cmp_eq : CmpEq bytes_cmp.
Proof. apply slice_cmp_eq, byte_cmp_eq. Qed.

Section sort.
Context {A : Type} (cmp : A → A → comparison).

Fixpoint insert_sorted (x : A) (l : list A) : list A :=
  match l with
  | [] => [x]
  | y :: l' => match cmp x y with
               | Gt => y :: insert_sorted x l'
               | _ => x :: l
               end
  end.

(** [l.sort_by(cmp)]. *)
Fixpoint sort_by (l : list A) : list A :=
  match l with
  | [] => []
  | x :: l => insert_sorted x (sort_by l)
  end.

Definition cmp_le (x y : A) : Prop := cmp x y ≠ Gt.

Lemma insert_sorted_perm x l : insert_sorted x l ≡ₚ x :: l.
Proof.
  induction l as [|y l IH]; simpl; [done|].
  case_match; [done|done|]. rewrite IH. by apply Permutation_swap.
Qed.

Lemma sort_by_perm l : sort_by l ≡ₚ l.
Proof. induction l as [|x l IH]; simpl; [done|]. by rewrite insert_sorted_perm, IH. Qed.

Lemma length_sort_by l : length (sort_by l) = length l.
Proof. by rewrite sort_by_perm. Qed.

Lemma elem_of_sort_by x l : x ∈ sort_by l ↔ x ∈ l.
Proof. by rewrite sort_by_perm. Qed.

(** A sorted list is left alone, whatever the order is. *)
Lemma sort_by_sorted_id l : StronglySorted cmp_le l → sort_by l = l.
Proof.
  induction 1 as [|x l Hl IH Hx]; simpl; [done|]. rewrite IH.
  destruct l as [|y l]; simpl; [done|].
  inversion Hx as [|? ? Hxy]; subst. unfold cmp_le in Hxy. by destruct (cmp x y).
Qed.

Context `{!CmpOrder cmp}.

Lemma insert_sorted_sorted x l :
  StronglySorted cmp_le l → StronglySorted cmp_le (insert_sorted x l).
Proof.
  induction 1 as [|y l Hl IH Hy]; simpl; [by repeat constructor|].
  destruct (cmp x y) eqn:E.
  1, 2: constructor; [by constructor|]; constructor; [unfold cmp_le; congruence|];
    eapply Forall_impl; [exact Hy|]; intros z Hz; apply (cmp_trans cmp x y z); [congruence|done].
  constructor; [done|]. rewrite insert_sorted_perm. constructor; [|done].
  unfold cmp_le. rewrite (cmp_opp cmp y x), E. done.
Qed.

Lemma sort_by_sorted l : StronglySorted cmp_le (sort_by l).
Proof. induction l; simpl; [constructor|]. by apply insert_sorted_sorted. Qed.

(** The result does not depend on the input order when ties are equalities. *)
Lemma sort_by_unique l l' :
  (∀ x y, x ∈ l → y ∈ l → cmp x y = Eq → x = y) →
  l ≡ₚ l' → sort_by l = sort_by l'.
Proof.
  intros Heq Hp. apply (StronglySorted_unique_strong cmp_le); [|apply sort_by_sorted..|].
  - intros x y Hx Hy Hxy Hyx. rewrite elem_of_sort_by in Hx, Hy.
    rewrite <-Hp in Hy. apply Heq; [done..|].
    unfold cmp_le in *. rewrite (cmp_opp cmp) in Hyx. destruct (cmp x y); naive_solver.
  - by rewrite !sort_by_perm.
Qed.

(** The head of the sorted list is below everything. *)
Lemma sort_by_head x l l' y : sort_by l = x :: l' → y ∈ l → cmp x y ≠ Gt.
Proof.
  intros E Hy. pose proof (sort_by_sorted l) as Hs. rewrite E in Hs.
  inversion Hs as [|? ? _ Hall]; subst.
  rewrite <-elem_of_sort_by, E, elem_of_cons in Hy. destruct Hy as [->|Hy].
  - by rewrite cmp_refl.
  - rewrite Forall_forall in Hall. by apply Hall.
Qed.
End sort.

(** Sorting keys that determine the values sorts the values. *)
Section sort_fmap.
Context {A B : Type} (f : A → B) (c : A → A → comparison) (d : B → B → comparison).

Lemma insert_sorted_fmap x l :
  (∀ y, y ∈ l → c x y = d (f x) (f y)) →
  f <$> insert_sorted c x l = insert_sorted d (f x) (f <$> l).
Proof.
  induction l as [|y l IH]; intros H; [done|].
  cbn. rewrite <-(H y) by set_solver. destruct (c x y); [done|done|].
  cbn. f_equal. apply IH. set_solver.
Qed.

Lemma sort_by_fmap l :
  (∀ x y, x ∈ l → y ∈ l → c x y = d (f x) (f y)) →
  f <$> sort_by c l = sort_by d (f <$> l).
Proof.
  induction l as [|x l IH]; intros H; [done|].
  cbn. rewrite insert_sorted_fmap, IH; [done| |].
  - intros y z Hy Hz. apply H; set_solver.
  - intros y Hy. apply elem_of_sort_by in Hy. apply H; set_solver.
Qed.
End sort_fmap.

Lemma StronglySorted_take {A} (R : relation A) n l :
  StronglySorted R l → StronglySorted R (take n l).
Proof.
  intros H. revert n. induction H as [|x l Hl IH Hx]; intros [|n]; simpl; try constructor.
  - done.
  - by apply Forall_take.
Qed.

Lemma StronglySorted_fmap {A B} (R : relation A) (R' : relation B) (f : A → B) l :
  (∀ x y, R x y → R' (f x) (f y)) → StronglySorted R l → StronglySorted R' (f <$> l).
Proof.
  intros HR. induction 1 as [|x l Hl IH Hx]; simpl; constructor; [done|].
  apply Forall_fmap. eapply Forall_impl; [done|]. intros y. apply HR.
Qed.

(** ** Lists and boolean predicates *)

Section bool_lists.
Context {A : Type}.
Implicit Types (f : A → bool) (l : list A).

(** [iter().filter(f).collect()]. *)
Definition filterb f l : list A := filter (λ x, f x = true) l.

Lemma elem_of_filterb f l x : x ∈ filterb f l ↔ f x = true ∧ x ∈ l.
Proof. unfold filterb. apply (list_elem_of_filter (λ x, f x = true)). Qed.

Lemma filterb_cons f x l :
  filterb f (x :: l) = if f x then x :: filterb f l else filterb f l.
Proof. unfold filterb. rewrite filter_cons. by destruct (f x). Qed.

Lemma filterb_all f l : (∀ x, x ∈ l → f x = true) → filterb f l = l.
Proof.
  induction l as [|x l IH]; intros H; [done|].
  rewrite filterb_cons, H, IH by set_solver. done.
Qed.

Lemma filterb_none f l : (∀ x, x ∈ l → f x = false) → filterb f l = [].
Proof.
  induction l as [|x l IH]; intros H; [done|].
  rewrite filterb_cons, H by set_solver. apply IH. set_solver.
Qed.

Lemma filterb_perm f l l' : l ≡ₚ l' → filterb f l ≡ₚ filterb f l'.
Proof. apply filter_Permutation. Qed.

Lemma filterb_ext f g l : (∀ x, x ∈ l → f x = g x) → filterb f l = filterb g l.
Proof.
  induction l as [|x l IH]; intros H; [done|].
  rewrite !filterb_cons, H, IH by set_solver. done.
Qed.

Lemma length_filterb f l : length (filterb f l) ≤ length l.
Proof. apply length_filter. Qed.

Lemma existsb_elem f l : existsb f l = true ↔ ∃ x, x ∈ l ∧ f x = true.
Proof. rewrite existsb_exists. by setoid_rewrite <-list_elem_of_In. Qed.

Lemma existsb_not_elem f l : existsb f l = false ↔ ∀ x, x ∈ l → f x = false.
Proof.
  rewrite <-not_true_iff_false, existsb_elem. split.
  - intros H x Hx. apply not_true_is_false. naive_solver.
  - intros H (x & Hx & Hf). by rewrite H in Hf.
Qed.

Lemma forallb_elem f l : forallb f l = true ↔ ∀ x, x ∈ l → f x = true.
Proof. rewrite forallb_forall. by setoid_rewrite <-list_elem_of_In. Qed.

Lemma existsb_perm f l l' : l ≡ₚ l' → existsb f l = existsb f l'.
Proof. intros Hp. apply eq_true_iff_eq. rewrite !existsb_elem. by setoid_rewrite Hp. Qed.

(** [iter().find(f)]. *)
Lemma find_elem f l x : List.find f l = Some x → x ∈ l ∧ f x = true.
Proof.
  induction l as [|y l IH]; cbn; [done|]. destruct (f y) eqn:E.
  - intros [= ->]. split; [set_solver|done].
  - intros [? ?]%IH. split; [set_solver|done].
Qed.
End bool_lists.

Definition contains `{EqDecision A} (l : list A) (x : A) : bool := bool_decide (x ∈ l).

Lemma contains_true `{EqDecision A} (l : list A) x : contains l x = true ↔ x ∈ l.
Proof. apply bool_decide_eq_true. Qed.
Lemma contains_false `{EqDecision A} (l : list A) x : contains l x = false ↔ x ∉ l.
Proof. apply bool_decide_eq_false. Qed.

(** Adjacent duplicates dropped, as [Vec::dedup] does. *)
Fixpoint dedup `{EqDecision A} (l : list A) : list A :=
  match l with
  | [] => []
  | x :: l' => match dedup l' with
               | [] => [x]
               | (y :: _) as d => if decide (x = y) then d else x :: d
               end
  end.

Section dedup.
Context `{EqDecision A}.

Lemma elem_of_dedup (l : list A) x : x ∈ dedup l ↔ x ∈ l.
Proof.
  induction l as [|y l IH]; simpl; [done|].
  destruct (dedup l) as [|z d] eqn:E.
  - destruct l as [|w l]; [done|]. exfalso. cbn in E.
    by repeat case_match.
  - case_decide; subst; set_solver.
Qed.

Lemma dedup_strict (cmp : A → A → comparison) `{!CmpOrder cmp} (Heq : CmpEq cmp) l :
  StronglySorted (cmp_le cmp) l → StronglySorted (λ x y, cmp x y = Lt) (dedup l).
Proof.
  induction 1 as [|x l Hl IH Hx]; simpl; [constructor|].
  destruct (dedup l) as [|y d] eqn:E; [by repeat constructor|].
  case_decide as Hxy; [by subst|]. constructor; [done|].
  apply Forall_forall. intros z Hz.
  assert (cmp x y = Lt) as Hlt.
  { rewrite Forall_forall in Hx. specialize (Hx y).
    rewrite <-elem_of_dedup, E in Hx. unfold cmp_le in Hx.
    destruct (cmp x y) eqn:Ec; [by apply Heq in Ec|done|]. by destruct Hx; [constructor|]. }
  apply elem_of_cons in Hz as [->|Hz]; [done|].
  inversion IH as [|? ? _ Hy]; subst. rewrite Forall_forall in Hy. apply Hy in Hz.
  apply (cmp_lt_trans_l cmp x y z); [done|congruence].
Qed.

(** Sorting and then dropping duplicates compares lists as sets. *)
Lemma sort_dedup_set_eq (cmp : A → A → comparison) `{!CmpOrder cmp} (Heq : CmpEq cmp) l l' :
  dedup (sort_by cmp l) = dedup (sort_by cmp l') ↔ ∀ x, x ∈ l ↔ x ∈ l'.
Proof.
  split.
  - intros E x. by rewrite <-(elem_of_sort_by cmp x l), <-elem_of_dedup, E,
      elem_of_dedup, elem_of_sort_by.
  - intros Hset. pose proof (dedup_strict cmp Heq _ (sort_by_sorted cmp l)) as H1.
    pose proof (dedup_strict cmp Heq _ (sort_by_sorted cmp l')) as H2.
    assert (∀ k, StronglySorted (λ x y : A, cmp x y = Lt) k → NoDup k) as Hnd.
    { induction 1 as [|x k Hk IHk Hx]; constructor; [|done]. intros Hin.
      rewrite Forall_forall in Hx. apply Hx in Hin. by rewrite cmp_refl in Hin. }
    apply (StronglySorted_unique_strong (λ x y, cmp x y = Lt)); [|done|done|].
    + intros x y _ _ Hxy Hyx. rewrite (cmp_opp cmp), Hxy in Hyx. done.
    + apply NoDup_Permutation; [by apply Hnd..|]. intros x.
      by rewrite !elem_of_dedup, !elem_of_sort_by.
Qed.
End dedup.

(** ** IndexMap: an insertion-ordered map

    [insert] on a present key replaces the value where it stands; a new key goes
    last. [shift_remove] and [retain] keep the order of what stays. *)

Section index_map.
Context {K V : Type} `{!EqDecision K}.
Implicit Types (m : list (K * V)).

Fixpoint im_insert (k : K) (v : V) m : list (K * V) :=
  match m with
  | [] => [(k, v)]
  | (k', v') :: m => if decide (k = k') then (k, v) :: m else (k', v') :: im_insert k v m
  end.
Definition im_get (k : K) m : option V := snd <$> List.find (λ p, bool_decide (p.1 = k)) m.
Definition im_shift_remove (k : K) m : list (K * V) := filterb (λ p, negb (bool_decide (p.1 = k))) m.
Definition im_retain (f : K → V → bool) m : list (K * V) := filterb (λ p, f p.1 p.2) m.
Definition im_keys m : list K := m.*1.
Definition im_values m : list V := m.*2.

Lemma im_insert_keys k v m :
  im_keys (im_insert k v m) = if decide (k ∈ im_keys m) then im_keys m else im_keys m ++ [k].
Proof.
  unfold im_keys. induction m as [|[k' v'] m IH]; [done|]. cbn [im_insert].
  destruct (decide (k = k')) as [->|Hne]; cbn [fmap list_fmap fst].
  - rewrite decide_True by set_solver. done.
  - rewrite IH. destruct (decide (k ∈ m.*1)) as [Hin|Hnin].
    + rewrite decide_True by set_solver. done.
    + rewrite decide_False by set_solver. done.
Qed.

Lemma im_insert_nodup k v m : NoDup (im_keys m) → NoDup (im_keys (im_insert k v m)).
Proof.
  intros H. rewrite im_insert_keys. case_decide; [done|].
  apply NoDup_app. split_and!; [done|set_solver|apply NoDup_singleton].
Qed.

Lemma im_insert_fresh k v m : k ∉ im_keys m → im_insert k v m = m ++ [(k, v)].
Proof.
  induction m as [|[k' v'] m IH]; intros Hk; [done|]. cbn in *.
  rewrite decide_False, IH by set_solver. done.
Qed.

(** What an entry of the updated map is. *)
Lemma elem_of_im_insert k v m p :
  p ∈ im_insert k v m → p = (k, v) ∨ p ∈ m.
Proof.
  induction m as [|[k' v'] m IH]; cbn; [set_solver|].
  case_decide; set_solver.
Qed.

Lemma im_insert_elem k v m : (k, v) ∈ im_insert k v m.
Proof. induction m as [|[k' v'] m IH]; cbn; [set_solver|]. case_decide; set_solver. Qed.

(** The order of the entries aside, [insert] replaces. *)
Lemma im_insert_replaces k v m : NoDup (im_keys m) → im_insert k v m ≡ₚ (k, v) :: im_shift_remove k m.
Proof.
  unfold im_keys, im_shift_remove. induction m as [|[k' v'] m IH]; intros Hn; [done|].
  rewrite filterb_cons. cbn [im_insert fmap list_fmap fst] in *.
  apply NoDup_cons in Hn as [Hk Hm]. case_decide as Hd; [subst|].
  - rewrite bool_decide_true by done. cbn [negb]. rewrite filterb_all; [done|].
    intros p Hp. apply negb_true_iff, bool_decide_eq_false. intros E. apply Hk. rewrite <-E. by apply list_elem_of_fmap_2.
  - rewrite bool_decide_false by congruence. cbn [negb]. rewrite IH by done. apply Permutation_swap.
Qed.
Lemma im_insert_perm k v m m' : NoDup (im_keys m) → m ≡ₚ m' → im_insert k v m ≡ₚ im_insert k v m'.
Proof.
  intros Hn H. rewrite !im_insert_replaces by (try done; unfold im_keys in *; by rewrite <-H).
  by apply Permutation_skip, filterb_perm.
Qed.

Lemma im_get_elem k m v : im_get k m = Some v → (k, v) ∈ m.
Proof.
  unfold im_get. destruct (List.find _ m) as [[k' v']|] eqn:E; [|done].
  apply find_elem in E as [Hin Hk]. cbn in Hk |- *. apply bool_decide_eq_true in Hk. by intros [= ->]; subst.
Qed.

Lemma filterb_keys_sublist f m : im_keys (filterb f m) `sublist_of` im_keys m.
Proof. unfold im_keys, filterb. apply fmap_sublist, sublist_filter. Qed.

Lemma filterb_keys_nodup f m : NoDup (im_keys m) → NoDup (im_keys (filterb f m)).
Proof. intros H. eapply sublist_NoDup; [done|apply filterb_keys_sublist]. Qed.
End index_map.

(** ** HashMap iteration

    The order a [HashMap] or a [HashSet] iterates in is unspecified: an instance
    of [HashIter] picks one, and what is proved holds for every choice. *)

Class HashIter := {
  hash_iter : ∀ {K : Type} `{Countable K} {V : Type}, gmap K V → list (K * V);
  hash_iter_perm : ∀ {K : Type} `{Countable K} {V : Type} (m : gmap K V),
    hash_iter m ≡ₚ map_to_list m;
}.

Section hash_iter.
Context `{!HashIter} `{Countable K} {V : Type}.

Lemma elem_of_hash_iter (m : gmap K V) k v : (k, v) ∈ hash_iter m ↔ m !! k = Some v.
Proof. by rewrite hash_iter_perm, elem_of_map_to_list. Qed.

Lemma hash_iter_nodup (m : gmap K V) : NoDup (hash_iter m).*1.
Proof. rewrite hash_iter_perm. apply NoDup_fst_map_to_list. Qed.
End hash_iter.

(** One concrete order, for evaluating the model on examples. *)
Program Definition canonical_hash_iter : HashIter :=
  {| hash_iter := λ K _ _ V m, map_to_list m |}.
Next Obligation. done. Qed.

(** ** Methods that cannot fail *)

Section never_fails.
Context {S E : Type}.

Definition never_fails {A} (m : state_result S E A) : Prop := ∀ s, is_ok (m s).2 = true.

Lemma never_fails_ret {A} (a : A) : never_fails (sret a).
Proof. done. Qed.
Lemma never_fails_get {A} (f : S → A) : never_fails (sget f).
Proof. done. Qed.
Lemma never_fails_modify f : never_fails (smodify f).
Proof. done. Qed.
Lemma never_fails_bind {A B} (m : state_result S E A) (k : A → state_result S E B) :
  never_fails m → (∀ a, never_fails (k a)) → never_fails (sbind m k).
Proof.
  intros Hm Hk s. unfold sbind. specialize (Hm s). destruct (m s) as [s1 [a|e]]; [apply Hk|done].
Qed.
Lemma never_fails_catch {A B} (m : state_result S E A) (k : result E A → state_result S E B) :
  (∀ r, never_fails (k r)) → never_fails (scatch m k).
Proof. intros Hk s. unfold scatch. destruct (m s). apply Hk. Qed.
Lemma never_fails_for {X} (l : list X) (body : X → state_result S E unit) :
  (∀ x, never_fails (body x)) → never_fails (sfor l body).
Proof.
  intros Hb. induction l as [|x l IH]; [apply never_fails_ret|]. apply never_fails_bind; [done|]. by intros _.
Qed.
Lemma never_fails_ok {A} (m : state_result S E A) s : never_fails m → ∃ a, (m s).2 = Ok a.
Proof. intros H. specialize (H s). destruct (m s).2; [eauto|done]. Qed.
End never_fails.

(** ** Two runs in lockstep

    [related R Q m1 m2]: from states related by [R] the two methods end in states
    related by [R], and both fail or both succeed with values related by [Q]. *)

Definition result_rel {E1 E2 A B} (Q : A → B → Prop) (r1 : result E1 A) (r2 : result E2 B) : Prop :=
  match r1, r2 with Ok a, Ok b => Q a b | Err _, Err _ => True | _, _ => False end.

Section related.
Context {S1 S2 E1 E2 : Type} (R : S1 → S2 → Prop).

Definition related {A B} (Q : A → B → Prop) (m1 : state_result S1 E1 A) (m2 : state_result S2 E2 B) : Prop :=
  ∀ s1 s2, R s1 s2 → R (m1 s1).1 (m2 s2).1 ∧ result_rel Q (m1 s1).2 (m2 s2).2.

Lemma related_ret {A B} (Q : A → B → Prop) a b : Q a b → related Q (sret a) (sret b).
Proof. by intros HQ s1 s2 Hs. Qed.
Lemma related_get {A B} (Q : A → B → Prop) f g :
  (∀ s1 s2, R s1 s2 → Q (f s1) (g s2)) → related Q (sget f) (sget g).
Proof. intros HQ s1 s2 Hs. split; [done|]. by apply HQ. Qed.
Lemma related_lift {A B} (Q : A → B → Prop) (r1 : result E1 A) (r2 : result E2 B) :
  result_rel Q r1 r2 → related Q (slift r1) (slift r2).
Proof. by intros HQ s1 s2 Hs. Qed.
Lemma related_modify f g :
  (∀ s1 s2, R s1 s2 → R (f s1) (g s2)) → related (λ _ _, True) (smodify f) (smodify g).
Proof. intros HQ s1 s2 Hs. split; [by apply HQ|done]. Qed.
Lemma related_bind {A A' B B'} (P : A → A' → Prop) (Q : B → B' → Prop) m1 m2 k1 k2 :
  related P m1 m2 → (∀ a b, P a b → related Q (k1 a) (k2 b)) → related Q (sbind m1 k1) (sbind m2 k2).
Proof.
  intros Hm Hk s1 s2 Hs. destruct (Hm s1 s2 Hs) as [Hs' Hr]. unfold sbind.
  destruct (m1 s1) as [t1 [a|e]], (m2 s2) as [t2 [b|e']]; cbn in *; try done. by apply Hk.
Qed.
Lemma related_ok {A B} (Q : A → B → Prop) m1 m2 s1 s2 t1 t2 a b :
  related Q m1 m2 → R s1 s2 → m1 s1 = (t1, Ok a) → m2 s2 = (t2, Ok b) → R t1 t2 ∧ Q a b.
Proof. intros Hm Hs H1 H2. specialize (Hm s1 s2 Hs). by rewrite H1, H2 in Hm. Qed.
End related.
