(* ===== verification/Utf8.v ===== *)
(** * UTF-8: [String] and [String::from_utf8_lossy] of Rust's standard library

    A [String] is the encoding of a sequence of scalar values. A joiner reads the id of
    its conversation from the group with [from_utf8_lossy]. *)

From S2P Require Import Prelude.

#[local] Ltac Zify.zify_post_hook ::= Z.to_euclidean_division_equations.

Definition in_range (lo hi : N) (b : byte) : bool := (lo <=? Byte.to_N b)%N && (Byte.to_N b <=? hi)%N.
(** A continuation byte. *)
Definition is_cont : byte → bool := in_range 128 191.
(** The second bytes a leading byte admits: no overlong form, no surrogate, nothing
    above the last scalar value. *)
Definition second_of_three (b c : byte) : bool :=
  if (Byte.to_N b =? 224)%N then in_range 160 191 c
  else if (Byte.to_N b =? 237)%N then in_range 128 159 c else is_cont c.
Definition second_of_four (b c : byte) : bool :=
  if (Byte.to_N b =? 240)%N then in_range 144 191 c
  else if (Byte.to_N b =? 244)%N then in_range 128 143 c else is_cont c.
(** The width a leading byte announces, 0 for a byte that leads nothing. *)
Definition utf8_width (b : byte) : nat :=
  if in_range 0 127 b then 1 else if in_range 194 223 b then 2
  else if in_range 224 239 b then 3 else if in_range 240 244 b then 4 else 0.

(** U+FFFD. *)
Definition replacement : bytes := [xef; xbf; xbd].

(** Each maximal prefix of a character that is cut short becomes one replacement. *)
Fixpoint from_utf8_lossy (bs : bytes) : bytes :=
  match bs with
  | [] => []
  | b :: r1 =>
      match utf8_width b with
      | 1 => b :: from_utf8_lossy r1
      | 2 => match r1 with
             | c :: r2 => if is_cont c then b :: c :: from_utf8_lossy r2 else replacement ++ from_utf8_lossy r1
             | [] => replacement
             end
      | 3 => match r1 with
             | c :: r2 =>
                 if second_of_three b c then
                   match r2 with
                   | d :: r3 => if is_cont d then b :: c :: d :: from_utf8_lossy r3 else replacement ++ from_utf8_lossy r2
                   | [] => replacement
                   end
                 else replacement ++ from_utf8_lossy r1
             | [] => replacement
             end
      | 4 => match r1 with
             | c :: r2 =>
                 if second_of_four b c then
                   match r2 with
                   | d :: r3 =>
                       if is_cont d then
                         match r3 with
                         | e :: r4 => if is_cont e then b :: c :: d :: e :: from_utf8_lossy r4 else replacement ++ from_utf8_lossy r3
                         | [] => replacement
                         end
                       else replacement ++ from_utf8_lossy r2
                   | [] => replacement
                   end
                 else replacement ++ from_utf8_lossy r1
             | [] => replacement
             end
      | _ => replacement ++ from_utf8_lossy r1
      end
  end.

(** ** What a [String] holds *)

Definition scalar_value (c : N) : Prop := (c ≤ 0xD7FF ∨ 0xE000 ≤ c ≤ 0x10FFFF)%N.

(** [char::encode_utf8]. *)
Definition encode_char (c : N) : bytes :=
  if (c <? 0x80)%N then [byte_of_N c]
  else if (c <? 0x800)%N then [byte_of_N (192 + c / 64); byte_of_N (128 + c mod 64)]
  else if (c <? 0x10000)%N then
    [byte_of_N (224 + c / 4096); byte_of_N (128 + c / 64 mod 64); byte_of_N (128 + c mod 64)]
  else [byte_of_N (240 + c / 262144); byte_of_N (128 + c / 4096 mod 64); byte_of_N (128 + c / 64 mod 64);
        byte_of_N (128 + c mod 64)].

Definition is_utf8 (bs : bytes) : Prop := ∃ cs, Forall scalar_value cs ∧ bs = mjoin (encode_char <$> cs).

Lemma to_N_small n : (n < 256)%N → Byte.to_N (byte_of_N n) = n.
Proof. intros H. by rewrite to_N_byte_of_N, N.mod_small. Qed.

Lemma in_range_small lo hi n : (n < 256)%N → in_range lo hi (byte_of_N n) = bool_decide (lo ≤ n ≤ hi)%N.
Proof.
  intros H. unfold in_range. rewrite to_N_small by done.
  apply eq_true_iff_eq. rewrite andb_true_iff, !N.leb_le, bool_decide_eq_true. done.
Qed.

(** Six bits below the marker of a continuation byte. *)
Lemma cont_byte k : is_cont (byte_of_N (128 + k mod 64)) = true.
Proof.
  unfold is_cont. rewrite in_range_small by lia.
  apply bool_decide_eq_true. lia.
Qed.

Lemma width_small n : (n < 256)%N →
  utf8_width (byte_of_N n) = if decide (n ≤ 127)%N then 1 else if decide (194 ≤ n ≤ 223)%N then 2
    else if decide (224 ≤ n ≤ 239)%N then 3 else if decide (240 ≤ n ≤ 244)%N then 4 else 0.
Proof.
  intros H. unfold utf8_width. rewrite !in_range_small by done.
  repeat (case_bool_decide || case_decide); try done; lia.
Qed.

(** Whatever comes after it, an encoded character is read back whole. *)
Lemma lossy_char c rest : scalar_value c → from_utf8_lossy (encode_char c ++ rest) = encode_char c ++ from_utf8_lossy rest.
Proof.
  intros Hc. unfold encode_char.
  unfold scalar_value in Hc.
  destruct (N.ltb_spec c 128); [|destruct (N.ltb_spec c 2048); [|destruct (N.ltb_spec c 65536)]];
    cbn [app from_utf8_lossy].
  - rewrite width_small by lia. by rewrite decide_True by lia.
  - rewrite width_small by lia. rewrite decide_False, decide_True by lia. by rewrite cont_byte.
  - rewrite width_small by lia. rewrite decide_False, decide_False, decide_True by lia.
    assert (second_of_three (byte_of_N (224 + c / 4096)) (byte_of_N (128 + c / 64 mod 64)) = true) as ->.
    { unfold second_of_three, is_cont. rewrite to_N_small, !in_range_small by lia.
      destruct (N.eqb_spec (224 + c / 4096) 224); [|destruct (N.eqb_spec (224 + c / 4096) 237)];
        apply bool_decide_eq_true; lia. }
    by rewrite cont_byte.
  - rewrite width_small by lia. rewrite decide_False, decide_False, decide_False, decide_True by lia.
    assert (second_of_four (byte_of_N (240 + c / 262144)) (byte_of_N (128 + c / 4096 mod 64)) = true) as ->.
    { unfold second_of_four, is_cont. rewrite to_N_small, !in_range_small by lia.
      destruct (N.eqb_spec (240 + c / 262144) 240); [|destruct (N.eqb_spec (240 + c / 262144) 244)];
        apply bool_decide_eq_true; lia. }
    by rewrite !cont_byte.
Qed.

(** Lossy decoding loses nothing of a string. *)
Lemma from_utf8_lossy_id bs : is_utf8 bs → from_utf8_lossy bs = bs.
Proof.
  intros (cs & Hcs & ->). induction Hcs as [|c cs Hc _ IH]; [done|].
  change (mjoin (encode_char <$> c :: cs)) with (encode_char c ++ mjoin (encode_char <$> cs)).
  by rewrite lossy_char, IH.
Qed.

Lemma is_utf8_ascii bs : Forall (λ b, (Byte.to_N b < 128)%N) bs → is_utf8 bs.
Proof.
  intros H. exists (Byte.to_N <$> bs). split.
  - apply Forall_fmap. eapply Forall_impl; [exact H|]. intros b Hb. unfold scalar_value. cbn in *. lia.
  - induction H as [|b bs Hb _ IH]; [done|].
    change (b :: bs = encode_char (Byte.to_N b) ++ mjoin (encode_char <$> (Byte.to_N <$> bs))).
    rewrite <-IH. unfold encode_char. apply N.ltb_lt in Hb. by rewrite Hb, byte_of_to_N.
Qed.
