(* ===== verification/Time.v ===== *)
(** * Time: [src/wall_clock.rs] and [src/phase_timer.rs]

    A [Duration] is its number of nanoseconds, a [Timestamp] the duration since
    the Unix epoch. [Timestamp + Duration] saturates at [Duration::MAX]. The clock
    is read as a value: the reading a handler makes is an argument, or a field of
    the conversation, and the integrator moves it. [MockClock] is the clock the
    tests drive; its [AtomicU64] is the value it holds. *)

From S2P Require Import Prelude.
Local Open Scope N_scope.

Abbreviation Duration := N (only parsing).

Definition nanos_per_sec : N := 1000000000.
Definition nanos_per_milli : N := 1000000.
(** [Duration::MAX]: [u64::MAX] seconds and 999_999_999 nanoseconds. *)
Definition duration_max : Duration := u64_max * nanos_per_sec + 999999999.
Definition duration_from_secs (s : N) : Duration := s * nanos_per_sec.
Definition duration_from_millis (ms : N) : Duration := ms * nanos_per_milli.
Definition duration_as_secs (d : Duration) : N := d / nanos_per_sec.
Definition duration_as_millis (d : Duration) : N := d / nanos_per_milli.
Definition duration_saturating_add (a b : Duration) : Duration := N.min (a + b) duration_max.

Record Timestamp := mk_timestamp { since_epoch : Duration }.
#[export] Instance timestamp_eq_dec : EqDecision Timestamp.
Proof. solve_decision. Defined.

Definition from_duration_since_epoch (d : Duration) : Timestamp := mk_timestamp d.
Definition ts_as_secs (t : Timestamp) : N := duration_as_secs (since_epoch t).
(** [as_millis() as u64]. *)
Definition ts_as_millis (t : Timestamp) : N :=
  duration_as_millis (since_epoch t) mod 18446744073709551616.
Definition saturating_duration_since (self earlier : Timestamp) : Duration :=
  saturating_sub (since_epoch self) (since_epoch earlier).
Definition ts_add (t : Timestamp) (rhs : Duration) : Timestamp :=
  mk_timestamp (duration_saturating_add (since_epoch t) rhs).

Definition ts_leb (a b : Timestamp) : bool := since_epoch a <=? since_epoch b.
Definition ts_ltb (a b : Timestamp) : bool := since_epoch a <? since_epoch b.
(** [Ord::min]. *)
Definition ts_min (a b : Timestamp) : Timestamp := if ts_leb a b then a else b.

(** ** MockClock *)
Record MockClock := mk_mock_clock { now_nanos : N }.

Definition duration_nanos (d : Duration) : N := N.min d u64_max.
Definition mock_clock_new : MockClock := mk_mock_clock 0.
Definition mock_clock_at (start : Duration) : MockClock := mk_mock_clock (duration_nanos start).
Definition mock_clock_advance (c : MockClock) (d : Duration) : MockClock :=
  mk_mock_clock (u64_saturating_add (now_nanos c) (duration_nanos d)).
Definition mock_clock_now (c : MockClock) : Duration := now_nanos c.

(** ** PhaseTimer *)
Record PhaseTimer := mk_phase_timer { started_at : option Timestamp }.

Definition phase_timer_new : PhaseTimer := mk_phase_timer None.
Definition phase_timer_start (now : Timestamp) (_ : PhaseTimer) : PhaseTimer :=
  mk_phase_timer (Some now).
Definition phase_timer_clear (_ : PhaseTimer) : PhaseTimer := mk_phase_timer None.
Definition elapsed_since_anchor (p : PhaseTimer) (now : Timestamp) (duration : Duration) : bool :=
  match started_at p with
  | Some t => ts_leb (ts_add t duration) now
  | None => false
  end.

(** ** Facts *)

Lemma ts_leb_le a b : ts_leb a b = true ↔ (since_epoch a <= since_epoch b).
Proof. apply N.leb_le. Qed.

Lemma ts_leb_trans a b c : ts_leb a b = true → ts_leb b c = true → ts_leb a c = true.
Proof. rewrite !ts_leb_le. lia. Qed.

(** Time never un-elapses a deadline. *)
Lemma elapsed_mono p now now' d :
  ts_leb now now' = true → elapsed_since_anchor p now d = true →
  elapsed_since_anchor p now' d = true.
Proof. unfold elapsed_since_anchor. destruct (started_at p); [|done]. eauto using ts_leb_trans. Qed.

(** A shorter window elapses no later. *)
Lemma elapsed_shorter p now d d' :
  d' <= d → elapsed_since_anchor p now d = true → elapsed_since_anchor p now d' = true.
Proof.
  unfold elapsed_since_anchor. destruct (started_at p); [|done]. rewrite !ts_leb_le.
  unfold ts_add, duration_saturating_add. cbn. lia.
Qed.

(** The clock of the tests satisfies the contract of [WallClock::now]. *)
Lemma mock_clock_monotone c d : mock_clock_now c <= u64_max →
  mock_clock_now c <= mock_clock_now (mock_clock_advance c d) <= u64_max.
Proof. unfold mock_clock_now, mock_clock_advance, u64_saturating_add, duration_nanos. cbn. lia. Qed.
