(* ===== verification/Machine.v ===== *)
(** * The lifecycle state machine: [src/conversation/state_machine.rs]

    Every transition method of [ConversationStateMachine] is a function on the
    state; a guarded one also says whether it happened. *)

From S2P Require Import Prelude.

Inductive ConversationState := Working | Freezing | Selection | Reelection.
Inductive OperatingMode := Normal | Recovery.

#[export] Instance conversation_state_eq_dec : EqDecision ConversationState.
Proof. solve_decision. Defined.
#[export] Instance operating_mode_eq_dec : EqDecision OperatingMode.
Proof. solve_decision. Defined.

Definition state_to_string (s : ConversationState) : string :=
  match s with
  | Working => "Working"
  | Freezing => "Freezing"
  | Selection => "Selection"
  | Reelection => "Reelection"
  end.

Record ConversationStateMachine := mk_sm { sm_state : ConversationState }.

Definition sm_new_as_member : ConversationStateMachine := mk_sm Working.
Definition sm_start_working (_ : ConversationStateMachine) : ConversationStateMachine :=
  mk_sm Working.
Definition sm_start_freezing (sm : ConversationStateMachine) : ConversationStateMachine * bool :=
  match sm_state sm with
  | Working | Reelection => (mk_sm Freezing, true)
  | _ => (sm, false)
  end.
Definition sm_start_selection (_ : ConversationStateMachine) : ConversationStateMachine :=
  mk_sm Selection.
Definition sm_start_reelection (_ : ConversationStateMachine) : ConversationStateMachine :=
  mk_sm Reelection.
Definition sm_reopen_freezing (sm : ConversationStateMachine) : ConversationStateMachine * bool :=
  if decide (sm_state sm = Selection) then (mk_sm Freezing, true) else (sm, false).

(** The two guarded transitions say whether they happened, and a refusal leaves
    the machine alone. *)
Lemma sm_start_freezing_spec sm :
  sm_start_freezing sm =
    if decide (sm_state sm = Working ∨ sm_state sm = Reelection)
    then (mk_sm Freezing, true) else (sm, false).
Proof. by destruct sm as [[]]. Qed.
