(* ===== verification/Protos.v ===== *)
(** * Messages, errors and events

    [src/protos/messages/v1/application.proto], the constructors of
    [src/protos.rs] and [src/process_result.rs], [src/proposal_kind.rs],
    [src/error.rs], [src/events.rs] and the labels of [src/conversation/display.rs].
    A [bytes] field is a list of bytes, a scalar its number, a [oneof] an inductive
    type under an [option], as prost generates them. Encoding and decoding are
    prost's: the class [Codec] names them. *)

From S2P Require Import Prelude Machine.

Abbreviation member_id := bytes (only parsing).
Abbreviation ProposalId := N (only parsing).

(** An error value of OpenMLS, of its storage or of prost, as it displays. *)
Abbreviation ext_error := string (only parsing).

(** ** Requests and evidence *)

Inductive ViolationType :=
  | ViolationUnspecified | BrokenCommitV | BrokenMlsProposalV | CensorshipInactivityV
  | ScoreBelowThresholdV | DeadlockV | MisbehavingCommitV.
#[export] Instance violation_type_eq_dec : EqDecision ViolationType.
Proof. solve_decision. Defined.

(** [v as i32] and [ViolationType::try_from(i32)]. *)
Definition violation_as_i32 (v : ViolationType) : Z :=
  match v with
  | ViolationUnspecified => 0 | BrokenCommitV => 1 | BrokenMlsProposalV => 2
  | CensorshipInactivityV => 3 | ScoreBelowThresholdV => 4 | DeadlockV => 5
  | MisbehavingCommitV => 6
  end.
Definition violation_try_from (z : Z) : option ViolationType :=
  match z with
  | 0 => Some ViolationUnspecified | 1 => Some BrokenCommitV | 2 => Some BrokenMlsProposalV
  | 3 => Some CensorshipInactivityV | 4 => Some ScoreBelowThresholdV | 5 => Some DeadlockV
  | 6 => Some MisbehavingCommitV
  | _ => None
  end%Z.

Record ViolationEvidence := mk_evidence {
  violation_type : Z;
  target_member_id : bytes;
  evidence_payload : bytes;
  ev_epoch : N;
  creator_member_id : bytes;
}.

Record StewardElectionProposal := mk_election {
  proposed_stewards : list bytes;
  el_election_epoch : N;
  el_retry_round : N;
}.

(** The [oneof] of [ConversationUpdateRequest]; [MemberInvite] carries its
    [key_package_bytes], [RemoveMember] its [member_id] and [EmergencyCriteria] its
    optional evidence. *)
Inductive RequestPayload :=
  | MemberInvite (key_package_bytes : bytes)
  | RemoveMember (member_id : bytes)
  | EmergencyCriteria (evidence : option ViolationEvidence)
  | StewardElection (election : StewardElectionProposal).

Record ConversationUpdateRequest := mk_request { req_payload : option RequestPayload }.

#[export] Instance evidence_eq_dec : EqDecision ViolationEvidence.
Proof. solve_decision. Defined.
#[export] Instance election_eq_dec : EqDecision StewardElectionProposal.
Proof. solve_decision. Defined.
#[export] Instance request_payload_eq_dec : EqDecision RequestPayload.
Proof. solve_decision. Defined.
#[export] Instance request_eq_dec : EqDecision ConversationUpdateRequest.
Proof. solve_decision. Defined.

Definition remove_member_request (id : bytes) : ConversationUpdateRequest :=
  mk_request (Some (RemoveMember id)).
Definition member_invite_request (kp : bytes) : ConversationUpdateRequest :=
  mk_request (Some (MemberInvite kp)).
Definition steward_election_request (e : StewardElectionProposal) : ConversationUpdateRequest :=
  mk_request (Some (StewardElection e)).

Definition produces_mls_action (req : ConversationUpdateRequest) : bool :=
  match req_payload req with
  | Some (MemberInvite _) | Some (RemoveMember _) => true
  | _ => false
  end.

(** ** Wire messages *)

Record Vote := mk_vote {
  vote_id : N; vote_owner : bytes; vote_proposal_id : N; vote_timestamp : N; vote_value : bool;
  parent_hash : bytes; received_hash : bytes; vote_hash : bytes; vote_signature : bytes;
}.

Record Proposal := mk_proposal {
  prop_name : string;
  prop_payload : bytes;
  prop_id : N;
  proposal_owner : bytes;
  prop_votes : list Vote;
  expected_voters_count : N;
  prop_round : N;
  prop_timestamp : N;
  expiration_timestamp : N;
  prop_liveness_criteria_yes : bool;
}.

Record CommitCandidate := mk_candidate {
  cand_conversation_id : bytes;
  mls_proposals : list bytes;
  commit_message : bytes;
  steward_member_id : bytes;
}.
#[export] Instance commit_candidate_eq_dec : EqDecision CommitCandidate.
Proof. solve_decision. Defined.

Record MemberWelcome := mk_welcome {
  welcome_bytes : bytes;
  conversation_sync_bytes : bytes;
  joiner_identities : list bytes;
}.

Record TimingConfig := mk_timing_config {
  commit_batch_window_ms : N;
  freeze_duration_ms : N;
  proposal_expiration_ms : N;
  consensus_timeout_ms : N;
  retry_window_ms : N;
  backup_takeover_window_ms : N;
}.

Record ConversationSync := mk_sync {
  steward_members : list bytes;
  sync_election_epoch : N;
  sync_sn_min : N;
  sync_sn_max : N;
  sync_allow_subset_candidates : bool;
  peer_scores : list (bytes * Z);
  sync_timing : option TimingConfig;
  sync_retry_round : N;
  sync_max_reelection_attempts : N;
  sync_liveness_criteria_yes : bool;
  threshold_peer_score : Z;
  sync_pending_update_max_epochs : N;
  unsettled_members : list bytes;
  default_peer_score : Z;
}.

(** The [oneof] of [AppMessage]. *)
Inductive AppPayload :=
  | AppConversationMessage (message : bytes) (conversation_id : string)
  | AppBanRequest (ban_member_id : bytes) (conversation_id : string)
  | AppProposal (proposal : Proposal)
  | AppVote (vote : Vote)
  | AppVotePayload (conversation_id : string) (proposal_id : N) (payload : bytes) (timestamp : N)
  | AppUserVote (proposal_id : N) (vote : bool) (conversation_id : string)
  | AppProposalAdded (conversation_id : string) (request : option ConversationUpdateRequest)
  | AppCommitCandidate (candidate : CommitCandidate)
  | AppConversationSync (sync : ConversationSync)
  | AppMemberWelcome (welcome : MemberWelcome)
  | AppMembershipChange (conversation_id : string) (member : bytes) (change_type : Z)
  | AppConversationSyncRequest.

Record AppMessage := mk_app_message { app_payload : option AppPayload }.

(** [impl From<Inner> for AppMessage]. *)
Definition to_app_message (p : AppPayload) : AppMessage := mk_app_message (Some p).

(** prost: [encode_to_vec] and [decode] of the two envelopes. *)
Class Codec := {
  encode_app_message : AppMessage → bytes;
  decode_app_message : bytes → result ext_error AppMessage;
  encode_request : ConversationUpdateRequest → bytes;
  decode_request : bytes → result ext_error ConversationUpdateRequest;
}.

(** ** ProposalKind *)

Inductive ProposalKind := KCommit | KStewardElection | KEmergency.
#[export] Instance proposal_kind_eq_dec : EqDecision ProposalKind.
Proof. solve_decision. Defined.

(** The derived [PartialOrd] compares the discriminants. *)
Definition kind_ordinal (k : ProposalKind) : N :=
  match k with KCommit => 0 | KStewardElection => 1 | KEmergency => 2 end.
Definition kind_ltb (a b : ProposalKind) : bool := (kind_ordinal a <? kind_ordinal b)%N.

Definition kind_of (req : ConversationUpdateRequest) : ProposalKind :=
  match req_payload req with
  | Some (EmergencyCriteria _) => KEmergency
  | Some (StewardElection _) => KStewardElection
  | _ => KCommit
  end.
Definition is_emergency (k : ProposalKind) : bool := bool_decide (k = KEmergency).
Definition is_steward_election (k : ProposalKind) : bool := bool_decide (k = KStewardElection).
Definition is_mls_producing (k : ProposalKind) : bool := bool_decide (k = KCommit).
Definition is_governance (k : ProposalKind) : bool := negb (is_mls_producing k).

(** ** Score events of a violation *)

Inductive ScoreEvent :=
  | BrokenCommit | BrokenMlsProposal | CensorshipInactivity
  | EmergencyYesCreator | EmergencyNoCreator
  | SuccessfulCommit | HonestCommitAttempt | MisbehavingCommit.
#[export] Instance score_event_eq_dec : EqDecision ScoreEvent.
Proof. solve_decision. Defined.

Record ScoreOp := mk_score_op { op_member_id : bytes; op_event : ScoreEvent }.
#[export] Instance score_op_eq_dec : EqDecision ScoreOp.
Proof. solve_decision. Defined.

(** ** Errors *)

Inductive MlsError :=
  | KeyPackageTls (e : ext_error)
  | MlsMessageDeserialize (e : ext_error)
  | ProtocolMessageError (e : ext_error)
  | MlsMessageSerialize (e : ext_error)
  | ProcessMessage (e : ext_error)
  | CreateMessage (e : ext_error)
  | MergeCommit (e : ext_error)
  | MergePendingCommit (e : ext_error)
  | CommitToPendingProposals (e : ext_error)
  | ProposeAddMember (e : ext_error)
  | ProposeRemoveMember (e : ext_error)
  | NewGroup (e : ext_error)
  | WelcomeErr (e : ext_error)
  | MlsStorage (e : ext_error)
  | NoPendingStagedCommit (conversation_id : string)
  | UnknownLeafIndex (leaf : N).

(** The errors of the consensus library the code tells apart, and the rest. *)
Inductive ConsensusError :=
  | UserAlreadyVoted | SessionNotActive | SessionNotFound | ProposalExpired
  | ProposalAlreadyExist | OtherConsensusError (e : ext_error).
#[export] Instance mls_error_eq_dec : EqDecision MlsError.
Proof. solve_decision. Defined.
#[export] Instance consensus_error_eq_dec : EqDecision ConsensusError.
Proof. solve_decision. Defined.

Inductive ConversationError :=
  | ConversationBlocked (state : string)
  | PartialFreeze
  | Mls (e : MlsError)
  | Consensus (e : ConsensusError)
  | MessageErr (e : ext_error)
  | ScoreStorage (e : ext_error)
  | NotASteward
  | NotInRecovery
  | NoProposals
  | InvalidConversationUpdateRequest
  | EmptyMembersList
  | MemberGone
  | AlreadyMember
  | InvalidConfigSize
  | InvalidConfig (msg : string)
  | UnexpectedNonMlsProposals (proposal_ids : list N).
#[export] Instance conversation_error_eq_dec : EqDecision ConversationError.
Proof. solve_decision. Defined.

(** What a fallible function returns, and a fallible method on a state [S]. *)
Abbreviation res := (result ConversationError).
Abbreviation method S := (state_result S ConversationError).

(** ** ViolationEvidence constructors *)

Definition mk_violation (v : ViolationType) (target payload : bytes) (epoch : N) : ViolationEvidence :=
  mk_evidence (violation_as_i32 v) target payload epoch [].

Definition broken_commit (target : bytes) (epoch : N) (payload : bytes) : ViolationEvidence :=
  mk_violation BrokenCommitV target payload epoch.
Definition broken_mls_proposal (target : bytes) (epoch : N) (payload : bytes) : ViolationEvidence :=
  mk_violation BrokenMlsProposalV target payload epoch.
(** The payload is [current_score.to_le_bytes()], two's complement. *)
Definition score_below_threshold (target : bytes) (epoch : N) (current_score : Z) : ViolationEvidence :=
  mk_violation ScoreBelowThresholdV target
    (rev (be_bytes 8 (Z.to_N (current_score mod 18446744073709551616)%Z))) epoch.
Definition misbehaving_commit (target : bytes) (epoch : N) (payload : bytes) : ViolationEvidence :=
  mk_violation MisbehavingCommitV target payload epoch.
Definition deadlock (epoch : N) : ViolationEvidence := mk_violation DeadlockV [] [] epoch.

Definition with_creator (creator : bytes) (ev : ViolationEvidence) : ViolationEvidence :=
  mk_evidence (violation_type ev) (target_member_id ev) (evidence_payload ev) (ev_epoch ev) creator.

Definition into_update_request (ev : ViolationEvidence) : res ConversationUpdateRequest :=
  match creator_member_id ev with
  | [] => Err InvalidConversationUpdateRequest
  | _ => Ok (mk_request (Some (EmergencyCriteria (Some ev))))
  end.

Definition target_score_event (ev : ViolationEvidence) : option ScoreEvent :=
  match violation_try_from (violation_type ev) with
  | Some BrokenCommitV => Some BrokenCommit
  | Some BrokenMlsProposalV => Some BrokenMlsProposal
  | Some CensorshipInactivityV => Some CensorshipInactivity
  | Some MisbehavingCommitV => Some MisbehavingCommit
  | Some ScoreBelowThresholdV | Some DeadlockV | Some ViolationUnspecified | None => None
  end.

Definition target_score_op (ev : ViolationEvidence) : option ScoreOp :=
  e ← target_score_event ev; Some (mk_score_op (target_member_id ev) e).

(** ** OpenMLS members and their handles *)

(** The fields of OpenMLS' [Member] the library reads. *)
Record Member := mk_member { leaf_index : N; credential : bytes; signature_key : bytes }.
#[export] Instance member_eq_dec : EqDecision Member.
Proof. solve_decision. Defined.

Record MemberId := mk_member_handle { mid_leaf : N; mid_tag : bytes }.
#[export] Instance member_handle_eq_dec : EqDecision MemberId.
Proof. solve_decision. Defined.

(** ** ProcessResult *)

Inductive NoopReason :=
  | UnknownAppMessage | FastPathRejected | BanTargetNotMember | DecryptIgnored
  | NoApprovedProposals | AlreadyCommitted | EmptyCandidatePayload | EmptyStewardMemberId
  | WireKindMismatch | DuplicateBufferedHash | CandidateBufferFull | CandidateStashedEarly
  | EmptyWelcomePayload | DuplicateWelcomeBroadcast.

Inductive ProcessResult :=
  | PrAppMessage (msg : AppMessage) (sender : Member)
  | PrProposal (proposal : Proposal)
  | PrVote (vote : Vote)
  | LeaveConversation
  | MembershipChangeReceived (request : ConversationUpdateRequest)
  | ConversationUpdated
  | CommitCandidateReceived (steward_id : bytes)
  | ConversationSyncReceived (sync : ConversationSync)
  | ConversationSyncRequested (requester : bytes)
  | WelcomeBroadcastReceived (welcome : MemberWelcome)
  | Noop (reason : NoopReason).

(** [TryFrom<AppMessage>]; it never fails. *)
Definition process_result_of (m : AppMessage) : ProcessResult :=
  match app_payload m with
  | Some (AppProposal p) => PrProposal p
  | Some (AppVote v) => PrVote v
  | Some (AppBanRequest id _) => MembershipChangeReceived (remove_member_request id)
  | Some (AppConversationSync s) => ConversationSyncReceived s
  | _ => Noop UnknownAppMessage
  end.

(** ** Consensus events and the outcome shown to the application *)

Inductive ConsensusEvent :=
  | ConsensusReached (proposal_id : N) (result : bool) (timestamp : N)
  | ConsensusFailed (proposal_id : N) (timestamp : N).

Inductive Outcome := OutcomeUnspecified | OutcomeAccepted | OutcomeRejected.

Definition outcome_of (ev : ConsensusEvent) : Outcome :=
  match ev with
  | ConsensusReached _ true _ => OutcomeAccepted
  | ConsensusReached _ false _ => OutcomeRejected
  | ConsensusFailed _ _ => OutcomeUnspecified
  end.

(** ** ConversationEvent *)

Inductive ConversationEvent :=
  | EvConversationMessage (message : AppMessage) (sender : Member)
  | EvLeaving
  | EvError (operation message : string)
  | EvOwnProposalSubmitted (proposal_id : N) (request : ConversationUpdateRequest)
  | EvVoteRequested (proposal_id : N) (request : ConversationUpdateRequest)
  | EvCommitApplied (batch : list ConversationUpdateRequest)
  | EvPhaseChange (state : ConversationState)
  | EvWelcomeReady (welcome : MemberWelcome) (minted_locally : bool)
  | EvConsensusReached (proposal_id : N) (approved : bool) (timestamp : N)
  | EvCommitRoundProgress (received expected : N)
  | EvRecoveryModeOpened
  | EvRecoveryExhausted
  | EvConversationSyncMissing
  | EvConversationSyncApplied
  | EvMemberScoreChanged (member_id : bytes) (previous score : Z)
  | EvMembersChanged (added : list Member) (removed : list MemberId).
