(* ===== verification/StewardList.v ===== *)
(** * The steward list: [src/steward_list/list.rs] and [src/steward_list/service.rs]

    [StewardList] is one elected, ordered list, [StewardListService] the
    per-conversation state around it (installed list, size bounds, retry round).
    SHA-256 is the [sha2] crate's: the class [Hash] names it, and nothing is
    assumed of it. Epochs and rounds are [N]; the sizes [sn_min], [sn_max] are
    [usize], here [N] too. *)

From S2P Require Import Prelude Protos.

(** [Sha256::digest]. *)
Class Hash := { sha256 : bytes → bytes }.

Definition default_max_retries : N := 2.

(** ** StewardListConfig *)

Record StewardListConfig := mk_slc {
  sn_min : N;
  sn_max : N;
  allow_subset_candidates : bool;
}.
#[export] Instance steward_list_config_eq_dec : EqDecision StewardListConfig.
Proof. solve_decision. Defined.

Definition slc_default : StewardListConfig := mk_slc 1 2 false.

Definition slc_new (sn_min sn_max : N) : res StewardListConfig :=
  if (sn_min <? 1)%N || (sn_max <? sn_min)%N then Err InvalidConfigSize
  else Ok (mk_slc sn_min sn_max false).

(** [RangeInclusive], as its two ends. *)
Definition size_bounds (c : StewardListConfig) (total_members : N) : N * N :=
  if (total_members <? sn_min c)%N then (total_members, total_members)
  else (sn_min c, N.min (sn_max c) total_members).
Definition compute_list_size (c : StewardListConfig) (total_members : N) : N :=
  (size_bounds c total_members).2.
Definition is_valid_size (c : StewardListConfig) (size total_members : N) : bool :=
  let '(lo, hi) := size_bounds c total_members in ((lo <=? size) && (size <=? hi))%N.

(** [Vec::len]. *)
Definition len {A} (l : list A) : N := N.of_nat (length l).

Definition check_generation_inputs (c : StewardListConfig) (member_ids : list bytes) (sn : N) :
    res unit :=
  match member_ids with
  | [] => Err EmptyMembersList
  | _ => if is_valid_size c sn (len member_ids) then Ok tt else Err InvalidConfigSize
  end.

(** ** StewardList *)

Record StewardList := mk_sl {
  sl_members : list bytes;
  sl_config : StewardListConfig;
  sl_election_epoch : N;
  sl_retry_round : N;
}.

Section steward_list.
Context {HS : Hash}.

Definition compute_steward_hash (epoch retry_round : N) (member_id conversation_id : bytes) : bytes :=
  sha256 (be_bytes 8 epoch ++ be_bytes 4 retry_round ++ member_id ++ conversation_id).

(** The comparator on [(hash, index)] pairs. *)
Definition scored_cmp (member_ids : list bytes) (a b : bytes * nat) : comparison :=
  then_with (bytes_cmp a.1 b.1) (bytes_cmp (member_ids !!! a.2) (member_ids !!! b.2)).

Definition sorted_steward_indices (election_epoch retry_round : N) (conversation_id : bytes)
    (member_ids : list bytes) : list nat :=
  let scored := imap (λ i id,
    (compute_steward_hash election_epoch retry_round id conversation_id, i)) member_ids in
  (sort_by (scored_cmp member_ids) scored).*2.

Definition generate (election_epoch : N) (conversation_id : bytes) (member_ids : list bytes)
    (sn : N) (config : StewardListConfig) (retry_round : N) : res StewardList :=
  let? _ := check_generation_inputs config member_ids sn in
  let ordered := sorted_steward_indices election_epoch retry_round conversation_id member_ids in
  let members := (λ i, member_ids !!! i) <$> take (N.to_nat sn) ordered in
  Ok (mk_sl members config election_epoch retry_round).

(** [zip(..).all(..)] stops at the shorter side. *)
Fixpoint zip_all {A B} (f : A → B → bool) (l : list A) (k : list B) : bool :=
  match l, k with
  | x :: l, y :: k => f x y && zip_all f l k
  | _, _ => true
  end.

Definition validate (proposed : list bytes) (election_epoch : N) (conversation_id : bytes)
    (member_ids : list bytes) (config : StewardListConfig) (retry_round : N) : res bool :=
  match member_ids with
  | [] => Err EmptyMembersList
  | _ =>
      if negb (len proposed =? compute_list_size config (len member_ids))%N then Ok false else
      let ordered := sorted_steward_indices election_epoch retry_round conversation_id member_ids in
      Ok (zip_all (λ i want, bool_decide (member_ids !!! i = want))
            (take (length proposed) ordered) proposed)
  end.
End steward_list.

Definition sl_is_exhausted (l : StewardList) (epoch : N) : bool :=
  if (epoch <? sl_election_epoch l)%N then true
  else (len (sl_members l) <=? epoch - sl_election_epoch l)%N.

(** The slots visited from [start], once around. *)
Definition rotation (members : list bytes) (start : nat) : list bytes :=
  (λ step, members !!! ((start + step) mod length members)) <$> seq 0 (length members).

Definition steward_from (l : StewardList) (epoch : N) (offset : nat) (eligible : bytes → bool) :
    option bytes :=
  if sl_is_exhausted l epoch then None else
  let start := (N.to_nat (epoch - sl_election_epoch l) + offset) mod length (sl_members l) in
  List.find eligible (rotation (sl_members l) start).

Definition sl_epoch_steward (l : StewardList) (epoch : N) (eligible : bytes → bool) : option bytes :=
  steward_from l epoch 0 eligible.

Definition sl_epoch_and_backup (l : StewardList) (epoch : N) (eligible : bytes → bool) :
    option bytes * option bytes :=
  let epoch_steward := steward_from l epoch 0 eligible in
  let backup := es ← epoch_steward;
    steward_from l epoch 1 (λ c, negb (bool_decide (c = es)) && eligible c) in
  (epoch_steward, backup).

Definition sl_contains (l : StewardList) (member_id : bytes) : bool :=
  existsb (λ m, bool_decide (m = member_id)) (sl_members l).

(** ** StewardListService *)

Inductive ElectionSkip := NotExhausted | NotResponsibleProposer | NoEligibleCandidates.
Inductive ElectionDecision :=
  | Skip (reason : ElectionSkip)
  | Proposed (proposed_stewards : list bytes) (election_epoch retry_round : N).

Record StewardListSnapshot := mk_sls {
  sls_list : StewardList; sls_next_election_round : N; sls_max_retries : N;
}.

Record StewardListService := mk_svc {
  svc_list : option StewardList;
  svc_config : StewardListConfig;
  svc_conversation_id : bytes;
  next_election_round : N;
  max_retries : N;
}.

Definition svc_empty (config : StewardListConfig) : StewardListService :=
  mk_svc None config [] 0 default_max_retries.
Definition set_config (c : StewardListConfig) (s : StewardListService) : StewardListService :=
  mk_svc (svc_list s) c (svc_conversation_id s) (next_election_round s) (max_retries s).
Definition set_conversation_id (id : bytes) (s : StewardListService) : StewardListService :=
  mk_svc (svc_list s) (svc_config s) id (next_election_round s) (max_retries s).
Definition set_max_retries (m : N) (s : StewardListService) : StewardListService :=
  mk_svc (svc_list s) (svc_config s) (svc_conversation_id s) (next_election_round s) m.
Definition svc_set_list (l : StewardList) (s : StewardListService) : StewardListService :=
  mk_svc (Some l) (svc_config s) (svc_conversation_id s) (next_election_round s) (max_retries s).
Definition svc_set_round (r : N) (s : StewardListService) : StewardListService :=
  mk_svc (svc_list s) (svc_config s) (svc_conversation_id s) r (max_retries s).

Definition svc_election_epoch (s : StewardListService) : option N := sl_election_epoch <$> svc_list s.
Definition is_steward (s : StewardListService) (member_id : bytes) : bool :=
  match svc_list s with Some l => sl_contains l member_id | None => false end.
Definition is_exhausted (s : StewardListService) (epoch : N) : bool :=
  match svc_list s with Some l => sl_is_exhausted l epoch | None => false end.
Definition election_required (s : StewardListService) (member_count : N) : bool :=
  (sn_max (svc_config s) <? member_count)%N.
Definition epoch_steward (s : StewardListService) (epoch : N) (eligible : bytes → bool) : option bytes :=
  l ← svc_list s; sl_epoch_steward l epoch eligible.
Definition epoch_and_backup (s : StewardListService) (epoch : N) (eligible : bytes → bool) :
    option bytes * option bytes :=
  match svc_list s with
  | Some l => sl_epoch_and_backup l epoch eligible
  | None => (None, None)
  end.
Definition svc_steward_members (s : StewardListService) (eligible : bytes → bool) : list bytes :=
  match svc_list s with Some l => filterb eligible (sl_members l) | None => [] end.
Definition election_proposer (s : StewardListService) (eligible : bytes → bool) : option bytes :=
  l ← svc_list s; sl_epoch_steward l (sl_election_epoch l) eligible.

(** The authority sequence of [responsible_proposer]. *)
Definition authority_sequence (s : StewardListService) (candidate_pool : list bytes)
    (eligible : bytes → bool) : list bytes :=
  let list_members := match svc_list s with Some l => sl_members l | None => [] end in
  let sequence := filterb eligible list_members in
  let pool_rest := filterb (λ c, eligible c && negb (contains sequence c)) candidate_pool in
  sequence ++ sort_by bytes_cmp pool_rest.

Definition responsible_proposer (s : StewardListService) (round : N) (candidate_pool : list bytes)
    (eligible : bytes → bool) : option bytes :=
  let sequence := authority_sequence s candidate_pool eligible in
  match sequence with
  | [] => None
  | _ => Some (sequence !!! (N.to_nat (round mod len sequence)))
  end.

Section service.
Context {HS : Hash}.

Definition install_list (epoch : N) (candidate_pool : list bytes) (sn retry_round : N) :
    method StewardListService unit :=
  λ s, match generate epoch (svc_conversation_id s) candidate_pool sn (svc_config s) retry_round with
       | Ok l => (svc_set_list l s, Ok tt)
       | Err e => (s, Err e)
       end.

Definition validate_proposed (s : StewardListService) (proposed : list bytes) (epoch : N)
    (candidate_pool : list bytes) (retry_round : N) : res bool :=
  validate proposed epoch (svc_conversation_id s) candidate_pool (svc_config s) retry_round.

Definition propose_election (s : StewardListService) (epoch : N) (candidate_pool : list bytes)
    (self_member_id : bytes) (eligible : bytes → bool) (recovery : bool) : res ElectionDecision :=
  if negb recovery && negb (is_exhausted s epoch) then Ok (Skip NotExhausted) else
  match candidate_pool with
  | [] => Ok (Skip NoEligibleCandidates)
  | _ =>
      let retry_round := next_election_round s in
      let is_authorized := bool_decide
        (responsible_proposer s retry_round candidate_pool eligible = Some self_member_id) in
      if negb is_authorized then Ok (Skip NotResponsibleProposer) else
      let sn := compute_list_size (svc_config s) (len candidate_pool) in
      let? l := generate epoch (svc_conversation_id s) candidate_pool sn (svc_config s) retry_round in
      Ok (Proposed (sl_members l) epoch retry_round)
  end.
End service.

Definition bump_retry (s : StewardListService) : StewardListService :=
  svc_set_round (u32_saturating_add (next_election_round s) 1) s.
Definition reset_retry (s : StewardListService) : StewardListService := svc_set_round 0 s.

Definition svc_snapshot (s : StewardListService) : res StewardListSnapshot :=
  match svc_list s with
  | None => Err EmptyMembersList
  | Some l => Ok (mk_sls l (next_election_round s) (max_retries s))
  end.
Definition svc_restore (snap : StewardListSnapshot) (s : StewardListService) : StewardListService :=
  mk_svc (Some (sls_list snap)) (svc_config s) (svc_conversation_id s)
    (sls_next_election_round snap) (sls_max_retries snap).

(** ** The order a list is generated in *)

(** Two members compare by hash, ties by id. *)
Definition steward_cmp {HS : Hash} (epoch retry_round : N) (conversation_id : bytes) :
    bytes → bytes → comparison :=
  cmp_lex (cmp_on (λ id, compute_steward_hash epoch retry_round id conversation_id) bytes_cmp)
    bytes_cmp.

Section generation.
Context {HS : Hash}.
Implicit Types (cfg : StewardListConfig) (l : StewardList) (s : StewardListService).

#[export] Instance steward_cmp_order e r cid : CmpOrder (steward_cmp e r cid).
Proof. apply cmp_lex_order; apply _. Qed.
#[export] Instance steward_cmp_eq e r cid : CmpEq (steward_cmp e r cid).
Proof. apply cmp_lex_eq. apply _. Qed.

(** Sorting indices by scored hash sorts the ids themselves. *)
Lemma sorted_indices_members e r cid ids :
  (λ i, ids !!! i) <$> sorted_steward_indices e r cid ids = sort_by (steward_cmp e r cid) ids.
Proof.
  unfold sorted_steward_indices. rewrite <-list_fmap_compose.
  set (scored := imap _ ids).
  assert (∀ p, p ∈ scored → p.1 = compute_steward_hash e r (ids !!! p.2) cid) as Hsc.
  { intros p Hp. apply elem_of_lookup_imap in Hp as (i & id & -> & Hi). cbn.
    by rewrite (list_lookup_total_correct _ _ _ Hi). }
  rewrite (sort_by_fmap _ _ (steward_cmp e r cid)).
  - f_equal. apply list_eq. intros i. rewrite list_lookup_fmap. unfold scored.
    rewrite list_lookup_imap. destruct (ids !! i) as [id|] eqn:E; [|done].
    cbn. by rewrite (list_lookup_total_correct _ _ _ E).
  - intros p q Hp Hq. unfold scored_cmp, steward_cmp, cmp_lex, cmp_on.
    by rewrite !Hsc.
Qed.

(** What [generate] returns, on every branch. *)
Lemma generate_eq e cid ids sn cfg r :
  generate e cid ids sn cfg r =
    match ids with
    | [] => Err EmptyMembersList
    | _ => if is_valid_size cfg sn (len ids)
           then Ok (mk_sl (take (N.to_nat sn) (sort_by (steward_cmp e r cid) ids)) cfg e r)
           else Err InvalidConfigSize
    end.
Proof.
  unfold generate, check_generation_inputs. destruct ids as [|i ids]; [done|].
  destruct (is_valid_size _ _ _); [|done]. cbn [result_bind].
  by rewrite <-sorted_indices_members, fmap_take.
Qed.

Definition cfg_wf cfg : Prop := (1 ≤ sn_min cfg ∧ sn_min cfg ≤ sn_max cfg)%N.

Lemma slc_new_wf a b cfg : slc_new a b = Ok cfg → cfg_wf cfg.
Proof. unfold slc_new, cfg_wf. intros Hc. step_in Hc. by bool_simpl. Qed.

(** The size an election asks for is always a valid one. *)
Lemma compute_list_size_valid cfg n : cfg_wf cfg → is_valid_size cfg (compute_list_size cfg n) n = true.
Proof.
  intros [? ?]. unfold is_valid_size, compute_list_size, size_bounds.
  destruct (N.ltb_spec n (sn_min cfg)); cbn; apply andb_true_iff; rewrite !N.leb_le; lia.
Qed.

Lemma is_valid_size_le cfg sn n : is_valid_size cfg sn n = true → (sn ≤ n)%N.
Proof.
  unfold is_valid_size, size_bounds.
  destruct (N.ltb_spec n (sn_min cfg)); intros Hv; cbn in Hv; bool_simpl; lia.
Qed.

Lemma compute_list_size_le cfg n : (compute_list_size cfg n ≤ n)%N.
Proof. unfold compute_list_size, size_bounds. case_match; cbn; lia. Qed.

Lemma len_nil_iff {A} (k : list A) : len k = 0%N ↔ k = [].
Proof. unfold len. destruct k; cbn; split; [done..|lia|done]. Qed.

Lemma to_nat_len {A} (k : list A) : N.to_nat (len k) = length k.
Proof. unfold len. lia. Qed.

Lemma len_take {A} n (k : list A) : len (take (N.to_nat n) k) = N.min n (len k).
Proof. unfold len. rewrite length_take. lia. Qed.

Lemma len_perm {A} (k k' : list A) : k ≡ₚ k' → len k = len k'.
Proof. intros H. unfold len. by rewrite H. Qed.

Lemma zip_all_eq (ids : list bytes) (idx : list nat) (want : list bytes) :
  length idx = length want →
  zip_all (λ i w, bool_decide (ids !!! i = w)) idx want = true ↔
  (λ i, ids !!! i) <$> idx = want.
Proof.
  revert want. induction idx as [|i idx IH]; intros [|w want]; try done.
  intros [= Hl]. cbn [zip_all]. rewrite andb_true_iff, IH, bool_decide_eq_true by done.
  cbn. split; [by intros [-> ->]|by intros [= -> ->]].
Qed.

Lemma length_sorted_indices e r cid ids : length (sorted_steward_indices e r cid ids) = length ids.
Proof.
  unfold sorted_steward_indices. by rewrite length_fmap, length_sort_by, length_imap.
Qed.

(** [validate] decides whether the proposed list is the canonical prefix. *)
Lemma validate_spec p e cid ids cfg r :
  ids ≠ [] →
  validate p e cid ids cfg r =
    Ok (bool_decide (p = take (N.to_nat (compute_list_size cfg (len ids)))
          (sort_by (steward_cmp e r cid) ids))).
Proof.
  intros Hne. unfold validate. destruct ids as [|i ids]; [done|]. clear Hne.
  set (all := i :: ids). set (n := compute_list_size cfg (len all)).
  pose proof (compute_list_size_le cfg (len all)) as Hle. fold n in Hle.
  destruct (N.eqb_spec (len p) n) as [Hlen|Hlen]; cbn [negb].
  - f_equal. apply eq_true_iff_eq. rewrite bool_decide_eq_true.
    rewrite zip_all_eq, fmap_take, sorted_indices_members, <-Hlen, to_nat_len; [done|].
    rewrite length_take, length_sorted_indices. unfold len in *. lia.
  - f_equal. symmetry. apply bool_decide_eq_false. intros ->. apply Hlen.
    rewrite len_take. rewrite (len_perm _ _ (sort_by_perm _ _)). lia.
Qed.
End generation.

(** ** Rotation *)

Section rotation_facts.
Implicit Types (l : StewardList) (eligible : bytes → bool) (ms : list bytes).

Definition slot ms (i : nat) : bytes := ms !!! (i mod length ms).

Lemma slot_elem ms i : ms ≠ [] → slot ms i ∈ ms.
Proof.
  intros Hne. apply list_elem_of_lookup_total_2. apply Nat.mod_upper_bound. by destruct ms.
Qed.

Lemma slot_elem_iff ms start x :
  x ∈ ms ↔ ∃ k, k < length ms ∧ slot ms (start + k) = x.
Proof.
  split.
  - intros Hx. apply list_elem_of_lookup_total_1 in Hx as (i & Hi & <-).
    set (n := length ms) in *. assert (n ≠ 0) as Hn by lia.
    exists ((i + (n - start mod n)) mod n). split; [by apply Nat.mod_upper_bound|].
    unfold slot. fold n. f_equal. rewrite Nat.Div0.add_mod_idemp_r.
    pose proof (Nat.mod_upper_bound start n Hn). pose proof (Nat.div_mod start n Hn).
    replace (start + (i + (n - start mod n))) with (i + (start / n + 1) * n) by lia.
    rewrite Nat.Div0.mod_add. by apply Nat.mod_small.
  - intros (k & Hk & <-). apply slot_elem. by destruct ms; [cbn in *; lia|].
Qed.

Lemma elem_of_rotation ms start x : x ∈ rotation ms start ↔ x ∈ ms.
Proof.
  unfold rotation. rewrite list_elem_of_fmap, (slot_elem_iff ms start).
  setoid_rewrite elem_of_seq. unfold slot. split.
  - intros (k & -> & _ & Hk). by exists k.
  - intros (k & Hk & <-). exists k. split_and!; [done|lia..].
Qed.

Lemma rotation_lookup ms start k : k < length ms → rotation ms start !! k = Some (slot ms (start + k)).
Proof. intros Hk. unfold rotation. rewrite list_lookup_fmap, lookup_seq_lt by done. done. Qed.

Lemma length_rotation ms start : length (rotation ms start) = length ms.
Proof. unfold rotation. by rewrite length_fmap, length_seq. Qed.

Lemma find_first {A} (f : A → bool) (k : list A) x :
  List.find f k = Some x ↔
  ∃ i, k !! i = Some x ∧ f x = true ∧ ∀ j y, j < i → k !! j = Some y → f y = false.
Proof.
  induction k as [|y k IH]; cbn.
  { split; [done|]. intros (i & Hi & _). by rewrite lookup_nil in Hi. }
  destruct (f y) eqn:E.
  - split.
    + intros [= ->]. exists 0. split_and!; [done..|]. lia.
    + intros ([|i] & Hi & Hf & Hj); [done|]. by rewrite (Hj 0 y (Nat.lt_0_succ i) eq_refl) in E.
  - rewrite IH. split; intros (i & Hi & Hf & Hj).
    + exists (S i). split_and!; [done..|]. intros [|j] z Hz; cbn; [by intros [= <-]|].
      apply Hj. lia.
    + destruct i as [|i]; [cbn in Hi; congruence|]. exists i. split_and!; [done..|].
      intros j z Hz. apply (Hj (S j)). lia.
Qed.

Lemma find_none {A} (f : A → bool) (k : list A) :
  List.find f k = None ↔ ∀ x, x ∈ k → f x = false.
Proof.
  split.
  - intros H x Hx. apply (find_none _ _ H). by apply list_elem_of_In.
  - intros H. destruct (List.find f k) as [x|] eqn:E; [|done].
    apply find_elem in E as [Hx Hf]. by rewrite H in Hf.
Qed.

(** The window of a list is its length in epochs. *)
Definition in_window l (epoch : N) : Prop :=
  (sl_election_epoch l ≤ epoch < sl_election_epoch l + len (sl_members l))%N.

Lemma sl_is_exhausted_spec l epoch : sl_is_exhausted l epoch = false ↔ in_window l epoch.
Proof.
  unfold sl_is_exhausted, in_window. destruct (N.ltb_spec epoch (sl_election_epoch l)); [naive_solver lia|].
  rewrite N.leb_gt. lia.
Qed.

(** The slot index of [epoch]. *)
Definition epoch_slot l (epoch : N) : nat := N.to_nat (epoch - sl_election_epoch l).

Lemma steward_from_eq l epoch offset eligible :
  steward_from l epoch offset eligible =
    if sl_is_exhausted l epoch then None
    else List.find eligible (rotation (sl_members l) (epoch_slot l epoch + offset)).
Proof.
  unfold steward_from, epoch_slot. destruct (sl_is_exhausted l epoch); [done|]. f_equal.
  unfold rotation. apply list_fmap_ext. intros i x _. f_equal. apply Nat.Div0.add_mod_idemp_l.
Qed.

Lemma steward_from_some l epoch offset eligible m :
  steward_from l epoch offset eligible = Some m ↔
  in_window l epoch ∧ ∃ k, k < length (sl_members l) ∧
    slot (sl_members l) (epoch_slot l epoch + offset + k) = m ∧ eligible m = true ∧
    ∀ j, j < k → eligible (slot (sl_members l) (epoch_slot l epoch + offset + j)) = false.
Proof.
  rewrite steward_from_eq, <-sl_is_exhausted_spec.
  destruct (sl_is_exhausted l epoch); [naive_solver|].
  rewrite find_first. split.
  - intros (k & Hk & Hf & Hj). split; [done|]. exists k.
    assert (k < length (sl_members l)) as Hlt.
    { apply lookup_lt_Some in Hk. by rewrite length_rotation in Hk. }
    rewrite rotation_lookup in Hk by done. split_and!; [done|naive_solver|done|].
    intros j Hjk. apply (Hj j); [done|]. apply rotation_lookup. lia.
  - intros (_ & k & Hlt & Hk & Hf & Hj). exists k. rewrite rotation_lookup by done.
    split_and!; [naive_solver|done|]. intros j y Hjk. rewrite rotation_lookup by lia.
    intros [= <-]. by apply Hj.
Qed.

Lemma steward_from_none l epoch offset eligible :
  in_window l epoch →
  steward_from l epoch offset eligible = None ↔ ∀ x, x ∈ sl_members l → eligible x = false.
Proof.
  rewrite steward_from_eq. intros ->%sl_is_exhausted_spec. rewrite find_none.
  by setoid_rewrite elem_of_rotation.
Qed.

Lemma steward_from_elem l epoch offset eligible m :
  steward_from l epoch offset eligible = Some m → m ∈ sl_members l ∧ eligible m = true.
Proof.
  rewrite steward_from_eq. case_match; [done|]. intros Hf%find_elem.
  by rewrite elem_of_rotation in Hf.
Qed.
End rotation_facts.

(** ** The authority sequence *)

Section authority.
Implicit Types (s : StewardListService) (eligible : bytes → bool).

Definition list_members_of s : list bytes :=
  match svc_list s with Some l => sl_members l | None => [] end.

Lemma elem_of_authority s pool eligible m :
  m ∈ authority_sequence s pool eligible ↔
  eligible m = true ∧ (m ∈ list_members_of s ∨ m ∈ pool).
Proof.
  unfold authority_sequence. fold (list_members_of s).
  rewrite elem_of_app, elem_of_sort_by, !elem_of_filterb, andb_true_iff, negb_true_iff, contains_false,
    elem_of_filterb.
  destruct (decide (m ∈ list_members_of s)); naive_solver.
Qed.

Lemma authority_perm s s' pool pool' eligible :
  svc_list s = svc_list s' → pool ≡ₚ pool' →
  authority_sequence s pool eligible = authority_sequence s' pool' eligible.
Proof.
  intros Hl Hp. unfold authority_sequence. rewrite Hl. f_equal.
  apply sort_by_unique; [apply _|intros; by apply bytes_cmp_eq|]. by apply filterb_perm.
Qed.

(** The proposer of a round is a slot of the sequence. *)
Lemma responsible_proposer_slot s round pool eligible :
  authority_sequence s pool eligible ≠ [] →
  responsible_proposer s round pool eligible =
    Some (slot (authority_sequence s pool eligible) (N.to_nat round)).
Proof.
  unfold responsible_proposer, slot, len. destruct (authority_sequence _ _ _) as [|a q] eqn:E; [done|].
  intros _. rewrite <-E. do 2 f_equal.
  assert (length (authority_sequence s pool eligible) ≠ 0) by (by rewrite E).
  rewrite N2Nat.inj_mod, Nat2N.id. done.
Qed.
End authority.

(** ** Properties *)

(** The digest the examples use. *)
Definition example_hash : Hash := {| sha256 := λ b, rev b |}.
Definition example_ids : list bytes := [[x03]; [x01]; [x02]].

Section properties.
Context {HS : Hash}.
Implicit Types (cfg : StewardListConfig) (l : StewardList) (s : StewardListService).

(** Two members that hold the same candidates in any order generate the same
    steward list, or fail with the same error. No property of the hash is used:
    ties between equal digests are broken by the member id. *)
Theorem generate_order_independent e cid ids ids' sn cfg r :
  ids ≡ₚ ids' → generate e cid ids sn cfg r = generate e cid ids' sn cfg r.
Proof.
  intros Hp. rewrite !generate_eq, (len_perm _ _ Hp).
  rewrite (sort_by_unique (steward_cmp e r cid) ids ids');
    [|intros; by apply (steward_cmp_eq e r cid)|done].
  destruct ids, ids'; [done|by apply Permutation_nil_cons in Hp|
    by symmetry in Hp; apply Permutation_nil_cons in Hp|done].
Qed.

(** A generated list holds the [sn] candidates whose (hash, id) key is lowest,
    in the order of that key: it has length [sn], only candidates are on it, no
    candidate left out sorts before one elected, and it repeats a member only if
    the pool does. *)
Theorem generate_elects_lowest e cid ids sn cfg r l :
  generate e cid ids sn cfg r = Ok l →
  len (sl_members l) = sn ∧
  sl_members l ⊆ ids ∧
  StronglySorted (cmp_le (steward_cmp e r cid)) (sl_members l) ∧
  (∀ x y, x ∈ sl_members l → y ∈ ids → y ∉ sl_members l → steward_cmp e r cid x y = Lt) ∧
  (NoDup ids → NoDup (sl_members l)).
Proof.
  rewrite generate_eq. intros Hg. assert (is_valid_size cfg sn (len ids) = true) as Hv.
  { destruct ids; [done|]. by destruct (is_valid_size _ _ _). }
  destruct ids as [|i0 ids0] eqn:Ei; [done|]. rewrite <-Ei in *. rewrite Hv in Hg.
  injection Hg as <-. cbn.
  pose proof (sort_by_sorted (steward_cmp e r cid) ids) as Hs.
  pose proof (sort_by_perm (steward_cmp e r cid) ids) as Hp.
  split_and!.
  - rewrite len_take, (len_perm _ _ Hp). apply N.min_l.
    apply is_valid_size_le in Hv. lia.
  - intros x Hx%elem_of_take. rewrite <-(elem_of_sort_by (steward_cmp e r cid)).
    destruct Hx as (j & Hj & _). by eapply list_elem_of_lookup_2.
  - by apply StronglySorted_take.
  - intros x y Hx Hy Hny. rewrite <-Hp in Hy.
    rewrite <-(take_drop (N.to_nat sn) (sort_by _ ids)) in Hs, Hy.
    apply elem_of_app in Hy as [Hy|Hy]; [done|].
    apply StronglySorted_app in Hs as (Hall & _ & _).
    specialize (Hall x y Hx Hy). unfold cmp_le in Hall.
    destruct (steward_cmp e r cid x y) eqn:E; [|done|done].
    apply (steward_cmp_eq e r cid) in E. by subst.
  - intros Hnd. rewrite <-Hp in Hnd.
    rewrite <-(take_drop (N.to_nat sn) (sort_by _ ids)) in Hnd. by apply NoDup_app in Hnd as [? _].
Qed.

(** [validate] accepts a proposed list exactly when it is what [generate]
    returns from the same inputs at the canonical size; with no members it is the
    error [EmptyMembersList], as generation is. *)
Theorem validate_iff_generate p e cid ids cfg r :
  cfg_wf cfg →
  validate p e cid ids cfg r =
    match generate e cid ids (compute_list_size cfg (len ids)) cfg r with
    | Ok l => Ok (bool_decide (sl_members l = p))
    | Err err => Err err
    end.
Proof.
  intros Hwf. rewrite generate_eq. destruct ids as [|i0 ids0] eqn:E; [done|]. rewrite <-E.
  rewrite validate_spec by (by rewrite E). rewrite (compute_list_size_valid cfg _ Hwf). cbn.
  f_equal. apply bool_decide_ext. naive_solver.
Qed.

(** A list that validates can be installed as it was proposed: generating at its own
    length over its members alone returns them in that order, under any
    configuration with the same bounds. *)
Lemma validated_installs_verbatim p e cid ids cfg cfg' r :
  cfg_wf cfg → sn_min cfg' = sn_min cfg → sn_max cfg' = sn_max cfg →
  validate p e cid ids cfg r = Ok true →
  generate e cid p (len p) cfg' r = Ok (mk_sl p cfg' e r).
Proof.
  intros [Hlo Hhi] Hmin Hmax Hv. assert (ids ≠ []) as Hne by (by intros ->).
  rewrite validate_spec in Hv by done. injection Hv as Hv%bool_decide_eq_true.
  assert (len p = compute_list_size cfg (len ids)) as Hlen.
  { rewrite Hv, len_take, (len_perm _ _ (sort_by_perm _ _)).
    pose proof (compute_list_size_le cfg (len ids)). lia. }
  assert (len ids ≠ 0%N) as Hnz by (by rewrite len_nil_iff).
  rewrite generate_eq. destruct p as [|p0 p1] eqn:E.
  { unfold compute_list_size, size_bounds, len at 1 in Hlen. cbn [length] in Hlen.
    destruct (N.ltb_spec (len ids) (sn_min cfg)); cbn in Hlen; lia. }
  rewrite <-E in *.
  assert (is_valid_size cfg' (len p) (len p) = true) as ->.
  { unfold compute_list_size, size_bounds in Hlen. unfold is_valid_size, size_bounds. rewrite Hmin, Hmax.
    destruct (N.ltb_spec (len ids) (sn_min cfg)); cbn in Hlen;
      destruct (N.ltb_spec (len p) (sn_min cfg)); apply andb_true_iff; rewrite !N.leb_le; lia. }
  rewrite sort_by_sorted_id; [by rewrite to_nat_len, firstn_all|].
  rewrite Hv. apply StronglySorted_take, sort_by_sorted, _.
Qed.

(** While the list's window covers the epoch, the epoch steward is the first
    eligible member met when the list is walked cyclically from slot
    [epoch - election_epoch]; there is none exactly when no member is eligible, and
    outside the window there is none at all. *)
Theorem epoch_steward_first_eligible l epoch eligible m :
  (sl_epoch_steward l epoch eligible = Some m ↔
    in_window l epoch ∧ ∃ k, k < length (sl_members l) ∧
      slot (sl_members l) (epoch_slot l epoch + k) = m ∧ eligible m = true ∧
      ∀ j, j < k → eligible (slot (sl_members l) (epoch_slot l epoch + j)) = false) ∧
  (sl_epoch_steward l epoch eligible = None ↔
    ¬ in_window l epoch ∨ ∀ x, x ∈ sl_members l → eligible x = false).
Proof.
  unfold sl_epoch_steward. split.
  - rewrite steward_from_some. by rewrite Nat.add_0_r.
  - destruct (sl_is_exhausted l epoch) eqn:E.
    + rewrite steward_from_eq, E. split; [|done]. intros _. left.
      rewrite <-sl_is_exhausted_spec. congruence.
    + apply sl_is_exhausted_spec in E. rewrite steward_from_none by done. naive_solver.
Qed.

(** The backup steward is never the epoch steward: both are eligible members
    of the list, and inside the window a backup exists exactly when two distinct
    members of the list are eligible. *)
Theorem epoch_and_backup_spec l epoch eligible es :
  sl_epoch_steward l epoch eligible = Some es →
  (sl_epoch_and_backup l epoch eligible).1 = Some es ∧
  (∀ b, (sl_epoch_and_backup l epoch eligible).2 = Some b →
     b ≠ es ∧ b ∈ sl_members l ∧ eligible b = true) ∧
  ((sl_epoch_and_backup l epoch eligible).2 ≠ None ↔
     ∃ b, b ∈ sl_members l ∧ b ≠ es ∧ eligible b = true).
Proof.
  unfold sl_epoch_steward, sl_epoch_and_backup. intros Hes. rewrite Hes. cbn [fst snd mbind option_bind].
  pose proof Hes as (Hw & _)%steward_from_some.
  set (f := λ c, negb (bool_decide (c = es)) && eligible c).
  assert (∀ c, f c = true ↔ c ≠ es ∧ eligible c = true) as Hf.
  { intros c. unfold f. by rewrite andb_true_iff, negb_true_iff, bool_decide_eq_false. }
  split_and!; [done|..].
  - intros b [? ?%Hf]%steward_from_elem. naive_solver.
  - rewrite (steward_from_none l epoch 1 f Hw). setoid_rewrite <-not_true_iff_false.
    setoid_rewrite Hf. split.
    + intros Hn. destruct (decide (Exists (λ c, c ≠ es ∧ eligible c = true) (sl_members l))) as [Hx|Hx].
      * apply Exists_exists in Hx as (b & ? & ? & ?). eauto.
      * destruct Hn. intros x Hx1 Hx2. apply Hx, Exists_exists. eauto.
    + intros (b & Hb & Hne & He) Hn. by apply (Hn b).
Qed.
End properties.

Section election_properties.
Context {HS : Hash}.
Implicit Types (cfg : StewardListConfig) (s : StewardListService).

(** C38: the proposer of an election round is agreed and fair. Two members with the
    same installed list and the same candidates in any order name the same
    proposer; the proposer is eligible and is on the list or in the pool; and every
    eligible list member or candidate is the proposer of one of any [len sequence]
    consecutive rounds, so a retry always reaches a member that is online. *)
Theorem responsible_proposer_fair s s' pool pool' eligible round m :
  svc_list s = svc_list s' → pool ≡ₚ pool' →
  responsible_proposer s round pool eligible = responsible_proposer s' round pool' eligible ∧
  (responsible_proposer s round pool eligible = Some m →
     eligible m = true ∧ (m ∈ list_members_of s ∨ m ∈ pool)) ∧
  (eligible m = true ∧ (m ∈ list_members_of s ∨ m ∈ pool) →
     ∃ k, (k < len (authority_sequence s pool eligible))%N ∧
          responsible_proposer s (round + k) pool eligible = Some m).
Proof.
  intros Hl Hp. split_and!.
  - unfold responsible_proposer. by rewrite (authority_perm s s' pool pool' eligible Hl Hp).
  - intros Hr. rewrite <-elem_of_authority. revert Hr. unfold responsible_proposer.
    destruct (authority_sequence s pool eligible) as [|a q] eqn:E; [done|].
    rewrite <-E. intros [= <-]. apply list_elem_of_lookup_total_2.
    rewrite N2Nat.inj_mod, to_nat_len. apply Nat.mod_upper_bound. by rewrite E.
  - rewrite <-elem_of_authority, (slot_elem_iff _ (N.to_nat round)). intros (k & Hk & Hm).
    exists (N.of_nat k). split; [unfold len; lia|].
    rewrite responsible_proposer_slot by (by intros E; rewrite E in Hk; cbn in Hk; lia).
    by rewrite N2Nat.inj_add, Nat2N.id, Hm.
Qed.

(** C25: the election an honest member proposes is accepted by every peer. Whatever
    the peer's installed list and retry round are, a peer of the same conversation
    with the same configuration and the same candidates in any order validates the
    proposed list at the proposed epoch and round. *)
Theorem honest_election_accepted s s' epoch pool pool' self eligible recovery ps e r :
  cfg_wf (svc_config s) →
  svc_config s' = svc_config s → svc_conversation_id s' = svc_conversation_id s →
  pool ≡ₚ pool' →
  propose_election s epoch pool self eligible recovery = Ok (Proposed ps e r) →
  validate_proposed s' ps e pool' r = Ok true.
Proof.
  intros Hwf Hc Hid Hp. unfold propose_election, validate_proposed. rewrite Hc, Hid.
  destruct (negb recovery && negb (is_exhausted s epoch)); [done|].
  destruct pool as [|c0 pool0] eqn:E; [done|]. rewrite <-E in *.
  destruct (negb _); [done|]. rewrite generate_eq, E, <-E.
  rewrite (compute_list_size_valid _ _ Hwf). cbn [result_bind sl_members]. intros [= <- <- <-].
  rewrite validate_spec by (intros ->; apply Permutation_nil_r in Hp; by rewrite E in Hp).
  rewrite <-(len_perm _ _ Hp). do 2 f_equal. apply bool_decide_eq_true. f_equal.
  apply sort_by_unique; [apply _| |done]. intros. by apply (steward_cmp_eq (HS := HS) epoch (next_election_round s) (svc_conversation_id s)).
Qed.

(** Who may propose, on every branch: outside recovery an unexhausted list is
    never re-elected, an empty pool yields no election, a member that is not the
    round's proposer is refused, and the proposer gets the canonical list of the
    current retry round. No branch fails. *)
Theorem propose_election_branches s epoch pool self eligible recovery :
  cfg_wf (svc_config s) →
  propose_election s epoch pool self eligible recovery = Ok (
    if negb recovery && negb (is_exhausted s epoch) then Skip NotExhausted
    else if decide (pool = []) then Skip NoEligibleCandidates
    else if decide (responsible_proposer s (next_election_round s) pool eligible = Some self) then
      Proposed (take (N.to_nat (compute_list_size (svc_config s) (len pool)))
        (sort_by (steward_cmp epoch (next_election_round s) (svc_conversation_id s)) pool))
        epoch (next_election_round s)
    else Skip NotResponsibleProposer).
Proof.
  intros Hwf. unfold propose_election. destruct (negb recovery && _); [done|].
  destruct pool as [|c0 pool0] eqn:E; [done|]. rewrite <-E.
  rewrite (decide_False (P := pool = [])) by (by rewrite E).
  destruct (decide (responsible_proposer _ _ _ _ = _)) as [Hr|Hr].
  - rewrite bool_decide_true by done. cbn [negb]. rewrite generate_eq, E, <-E.
    by rewrite (compute_list_size_valid _ _ Hwf).
  - by rewrite bool_decide_false.
Qed.
End election_properties.

(** ** The properties at concrete inputs *)

Definition example_svc : StewardListService := svc_empty slc_default.
Definition example_list : StewardList := mk_sl [[x01]; [x02]] slc_default 5 0.
Definition all_eligible (_ : bytes) : bool := true.

Lemma example_perm : example_ids ≡ₚ [[x02]; [x01]; [x03]].
Proof. apply (bool_decide_unpack _). by vm_compute. Qed.

Lemma generate_order_independent_witness :
  generate (HS := example_hash) 1 [x07] example_ids 2 slc_default 0
  = generate (HS := example_hash) 1 [x07] [[x02]; [x01]; [x03]] 2 slc_default 0.
Proof. apply generate_order_independent, example_perm. Defined.

Lemma generate_elects_lowest_witness :
  len [[x01]; [x02]] = 2%N ∧ NoDup [[x01]; [x02]].
Proof.
  destruct (generate_elects_lowest (HS := example_hash) 1 [x07] example_ids 2 slc_default 0
    (mk_sl [[x01]; [x02]] slc_default 1 0) ltac:(by vm_compute)) as (H & _ & _ & _ & Hn).
  split; [exact H|]. apply Hn. apply (bool_decide_unpack _). by vm_compute.
Defined.

Lemma validate_iff_generate_witness :
  validate (HS := example_hash) [[x01]; [x02]] 1 [x07] example_ids slc_default 0 = Ok true.
Proof.
  rewrite (validate_iff_generate (HS := example_hash)); [by vm_compute|].
  by vm_compute.
Defined.

Lemma epoch_and_backup_spec_witness :
  (sl_epoch_and_backup example_list 6 all_eligible).1 = Some [x02].
Proof. apply (epoch_and_backup_spec example_list 6 all_eligible [x02]). by vm_compute. Defined.

Lemma responsible_proposer_fair_witness :
  ∃ k, (k < 3)%N ∧ responsible_proposer example_svc (7 + k) example_ids all_eligible = Some [x03].
Proof.
  apply (responsible_proposer_fair example_svc example_svc example_ids example_ids all_eligible 7 [x03]);
    [done..|]. split; [done|]. right. left.
Defined.

Lemma honest_election_accepted_witness :
  validate_proposed (HS := example_hash) example_svc [[x01]; [x02]] 4 [[x02]; [x01]; [x03]] 0 = Ok true.
Proof.
  apply (honest_election_accepted (HS := example_hash) example_svc example_svc 4 example_ids
    [[x02]; [x01]; [x03]] [x01] all_eligible true); [by vm_compute..|apply example_perm|by vm_compute].
Defined.

Lemma propose_election_branches_witness :
  propose_election (HS := example_hash) example_svc 4 example_ids [x01] all_eligible false
  = Ok (Skip NotExhausted).
Proof.
  rewrite (propose_election_branches (HS := example_hash)) by (by vm_compute). by vm_compute.
Defined.
