(* ===== verification/Mls.v ===== *)
(** * The MLS engine: [src/mls_crypto/]

    [member_id.rs] (the leaf-index encoding of a member id and the [MemberId]
    handle), [types.rs] and [service.rs]. OpenMLS is third-party code: the class
    [OpenMls] names the part of its interface the service calls. An [MlsGroup]
    stands for the group with the provider, the signer and the storage it is used
    with, so an OpenMLS call is a transition of the group that may fail and that
    keeps what it wrote when it fails. [OpenMlsLaws] states the documented
    behaviour the theorems rely on. *)

From S2P Require Import Prelude Utf8 Protos.

(** ** Leaf-index member ids *)

Definition member_id_of (index : N) : bytes := be_bytes 4 index.

Definition leaf_index_of (member_id : bytes) : option N :=
  if decide (length member_id = 4) then Some (be_value member_id) else None.

Definition mid_from (m : Member) : MemberId := mk_member_handle (leaf_index m) (signature_key m).

(** ** Types *)

Record MembershipDelta := mk_delta { delta_added : list Member; delta_removed : list MemberId }.
Definition delta_default : MembershipDelta := mk_delta [] [].

Inductive MlsCommitInput :=
  | CommitAdd (key_package_bytes : bytes)
  | CommitRemove (member_id : bytes).

Inductive MlsProposalOutput :=
  | OutAdd (signature_key : bytes)
  | OutRemove (member_id : bytes).
#[export] Instance mls_proposal_output_eq_dec : EqDecision MlsProposalOutput.
Proof. solve_decision. Defined.

Inductive MlsMessageKind := MkProposal | MkCommit | MkOther.
#[export] Instance mls_message_kind_eq_dec : EqDecision MlsMessageKind.
Proof. solve_decision. Defined.

Record DecryptedMessage := mk_decrypted { dec_payload : bytes; dec_member : Member }.

Inductive StagedCandidateResult :=
  | ScStaged (commit_sender : bytes) (self_removed : bool) (actions : list MlsProposalOutput)
  | ScAborted
  | ScBundleSenderMismatch (commit_sender : bytes).

Record CommitArtifacts := mk_artifacts {
  art_proposals : list bytes; art_commit : bytes; art_welcome : option bytes;
}.

(** ** OpenMLS *)

Inductive ContentType := CtApplication | CtProposal | CtCommit.
#[export] Instance content_type_eq_dec : EqDecision ContentType.
Proof. solve_decision. Defined.
Inductive Sender := SenderMember (leaf : N) | SenderOther.

(** [ProcessedMessageContent], over OpenMLS' queued proposals and staged commits. *)
Inductive ProcessedContent (QP SC : Type) :=
  | ApplicationMessage (payload : bytes)
  | ProposalMessage (proposal : QP)
  | StagedCommitMessage (staged : SC)
  | OtherContent.
Arguments ApplicationMessage {QP SC} _.
Arguments ProposalMessage {QP SC} _.
Arguments StagedCommitMessage {QP SC} _.
Arguments OtherContent {QP SC}.

(** A call on the group. *)
Abbreviation group_call G := (state_result G ext_error).

Class OpenMls := {
  MlsGroup : Type;
  StagedCommit : Type;
  QueuedProposal : Type;
  KeyPackageIn : Type;
  KeyPackage : Type;
  MlsMessageIn : Type;
  MlsMessageOut : Type;
  ProtocolMessage : Type;
  (* key packages *)
  key_package_in : bytes → result ext_error KeyPackageIn;
  kp_signature_key : KeyPackageIn → bytes;
  kp_validate : KeyPackageIn → result ext_error KeyPackage;
  kp_leaf_signature_key : KeyPackage → bytes;
  (* the group's public view *)
  g_members : MlsGroup → list Member;
  g_member_at : MlsGroup → N → option Member;
  g_epoch : MlsGroup → N;
  g_group_id : MlsGroup → bytes;
  g_own_leaf_index : MlsGroup → N;
  g_pending_commit : MlsGroup → option StagedCommit;
  (* committing *)
  propose_add_member : KeyPackage → group_call MlsGroup MlsMessageOut;
  propose_remove_member : N → group_call MlsGroup MlsMessageOut;
  commit_to_pending_proposals : group_call MlsGroup (MlsMessageOut * option MlsMessageOut);
  merge_pending_commit : group_call MlsGroup unit;
  clear_pending_commit : group_call MlsGroup unit;
  clear_pending_proposals : group_call MlsGroup unit;
  store_pending_proposal : QueuedProposal → group_call MlsGroup unit;
  g_merge_staged_commit : StagedCommit → group_call MlsGroup unit;
  g_delete : group_call MlsGroup unit;
  sc_self_removed : StagedCommit → bool;
  sc_add_signature_keys : StagedCommit → list bytes;
  sc_removed_leaves : StagedCommit → list N;
  (* messages *)
  mls_message_in : bytes → result ext_error MlsMessageIn;
  try_into_protocol_message : MlsMessageIn → result ext_error ProtocolMessage;
  (* [extract] to a private or public message *)
  extract_protocol : MlsMessageIn → option ProtocolMessage;
  pm_group_id : ProtocolMessage → bytes;
  pm_epoch : ProtocolMessage → N;
  pm_content_type : ProtocolMessage → ContentType;
  process_message : ProtocolMessage →
    group_call MlsGroup (Sender * ProcessedContent QueuedProposal StagedCommit);
  create_message : bytes → group_call MlsGroup MlsMessageOut;
  message_to_bytes : MlsMessageOut → result ext_error bytes;
}.

(** What OpenMLS documents of its queries: [member_at] is the member list by leaf,
    and a leaf index is a [u32]. *)
Class OpenMlsLaws {OM : OpenMls} : Prop := {
  member_at_spec g i m : g_member_at g i = Some m ↔ m ∈ g_members g ∧ leaf_index m = i;
  leaf_is_u32 g m : m ∈ g_members g → (leaf_index m ≤ u32_max)%N;
}.

(** ** MlsService *)

Section key_packages.
Context {OM : OpenMls}.

Definition validate_key_package (key_package_bytes : bytes) : result MlsError KeyPackage :=
  let? kp_in := result_map_err KeyPackageTls (key_package_in key_package_bytes) in
  result_map_err MlsStorage (kp_validate kp_in).

Definition signature_key_of_key_package (key_package_bytes : bytes) : result MlsError bytes :=
  let? kp_in := result_map_err KeyPackageTls (key_package_in key_package_bytes) in
  Ok (kp_signature_key kp_in).
End key_packages.

Record MlsService {OM : OpenMls} := mk_mls {
  mls_conversation_id : string;
  mls_group : MlsGroup;
  pending_staged_commit : option StagedCommit;
}.
Arguments mk_mls {_} _ _ _.
Arguments mls_conversation_id {_} _.
Arguments mls_group {_} _.
Arguments pending_staged_commit {_} _.

Section mls_service.
Context {OM : OpenMls}.
Implicit Types (s : MlsService) (g : MlsGroup).

Abbreviation mls_method := (state_result MlsService MlsError).

Definition set_group g s : MlsService :=
  mk_mls (mls_conversation_id s) g (pending_staged_commit s).
Definition set_staged (sc : option StagedCommit) s : MlsService :=
  mk_mls (mls_conversation_id s) (mls_group s) sc.

(** An OpenMLS call with its error boxed into a variant of [MlsError]. *)
Definition on_group {A} (boxed : ext_error → MlsError) (m : group_call MlsGroup A) : mls_method A :=
  λ s, let '(g, r) := m (mls_group s) in (set_group g s, result_map_err boxed r).

Definition mls_members s : list bytes := (λ m, member_id_of (leaf_index m)) <$> g_members (mls_group s).

Definition is_member s (member_id : bytes) : bool :=
  match leaf_index_of member_id with
  | Some index => bool_decide (is_Some (g_member_at (mls_group s) index))
  | None => false
  end.

Definition leaf_of s (id : MemberId) : option N :=
  m ← g_member_at (mls_group s) (mid_leaf id);
  if decide (signature_key m = mid_tag id) then Some (mid_leaf id) else None.

Definition member_id_at s (member_id : bytes) : option MemberId :=
  index ← leaf_index_of member_id;
  mid_from <$> g_member_at (mls_group s) index.

Definition mls_delete : mls_method unit := on_group MlsStorage g_delete.

(** *** Our own commit *)

Definition propose_update (update : MlsCommitInput) : mls_method (option bytes) :=
  match update with
  | CommitAdd key_package_bytes =>
      let! kp := slift (validate_key_package key_package_bytes) in
      let! out := on_group ProposeAddMember (propose_add_member kp) in
      let! b := slift (result_map_err MlsMessageSerialize (message_to_bytes out)) in
      sret (Some b)
  | CommitRemove member_id =>
      let! s := sget id in
      match leaf_index_of member_id with
      | Some index =>
          if decide (is_Some (g_member_at (mls_group s) index)) then
            let! out := on_group ProposeRemoveMember (propose_remove_member index) in
            let! b := slift (result_map_err MlsMessageSerialize (message_to_bytes out)) in
            sret (Some b)
          else sret None
      | None => sret None
      end
  end.

(** The loop over [updates]; [acc] is [mls_proposals]. *)
Fixpoint propose_updates (updates : list MlsCommitInput) (acc : list bytes) :
    mls_method (list bytes) :=
  match updates with
  | [] => sret acc
  | u :: updates =>
      let! b := propose_update u in
      propose_updates updates (acc ++ option_list b)
  end.

Definition create_commit_candidate (updates : list MlsCommitInput) : mls_method CommitArtifacts :=
  let! mls_proposals := propose_updates updates [] in
  let! out := on_group CommitToPendingProposals commit_to_pending_proposals in
  let '(commit_msg, welcome) := out in
  let! welcome_bytes := slift match welcome with
    | Some w => let? b := result_map_err MlsMessageSerialize (message_to_bytes w) in Ok (Some b)
    | None => Ok None
    end in
  let! commit := slift (result_map_err MlsMessageSerialize (message_to_bytes commit_msg)) in
  sret (mk_artifacts mls_proposals commit welcome_bytes).

Definition removed_members_of s (staged : StagedCommit) : list MemberId :=
  omap (λ leaf, mid_from <$> g_member_at (mls_group s) leaf) (sc_removed_leaves staged).

Definition populated_leaves s : list N := leaf_index <$> g_members (mls_group s).

Definition mls_delta s (before : list N) (removed : list MemberId) : MembershipDelta :=
  let removed_set := mid_leaf <$> removed in
  let added := filterb (λ m, negb (contains before (leaf_index m)) || contains removed_set (leaf_index m))
    (g_members (mls_group s)) in
  mk_delta added removed.

Definition merge_own_commit : mls_method MembershipDelta :=
  let! s := sget id in
  let removed := match g_pending_commit (mls_group s) with
                 | Some staged => removed_members_of s staged
                 | None => []
                 end in
  let before := populated_leaves s in
  on_group MergePendingCommit merge_pending_commit ;!
  let! s := sget id in
  sret (mls_delta s before removed).

Definition discard_own_commit : mls_method unit :=
  on_group MlsStorage clear_pending_commit ;!
  on_group MlsStorage clear_pending_proposals.

(** *** A peer's commit *)

Definition parse_protocol_message (b : bytes) : result MlsError ProtocolMessage :=
  let? m := result_map_err MlsMessageDeserialize (mls_message_in b) in
  result_map_err ProtocolMessageError (try_into_protocol_message m).

(** The loop over [proposals]; [None] is the early [return Ok(Aborted)], [acc]
    the senders so far. *)
Fixpoint stage_proposals (proposals : list bytes) (acc : list bytes) :
    mls_method (option (list bytes)) :=
  match proposals with
  | [] => sret (Some acc)
  | proposal_bytes :: proposals =>
      let! pm := slift (parse_protocol_message proposal_bytes) in
      let! processed := on_group ProcessMessage (process_message pm) in
      match processed with
      | (SenderMember idx, ProposalMessage proposal) =>
          on_group MlsStorage (store_pending_proposal proposal) ;!
          stage_proposals proposals (acc ++ [member_id_of idx])
      | _ => sret None
      end
  end.

Definition staged_actions (staged : StagedCommit) : list MlsProposalOutput :=
  (OutAdd <$> sc_add_signature_keys staged) ++
  ((λ leaf, OutRemove (member_id_of leaf)) <$> sc_removed_leaves staged).

Definition stage_remote_commit (proposals : list bytes) (commit_bytes : bytes) :
    mls_method StagedCandidateResult :=
  let! senders := stage_proposals proposals [] in
  match senders with
  | None => sret ScAborted
  | Some proposal_senders =>
      let! pm := slift (parse_protocol_message commit_bytes) in
      let! s := sget id in
      if negb (bool_decide (pm_group_id pm = g_group_id (mls_group s))) then sret ScAborted else
      if (pm_epoch pm <? g_epoch (mls_group s))%N then sret ScAborted else
      let! processed := on_group ProcessMessage (process_message pm) in
      match processed with
      | (SenderMember idx, StagedCommitMessage staged) =>
          let commit_sender := member_id_of idx in
          if existsb (λ x, negb (bool_decide (x = commit_sender))) proposal_senders
          then sret (ScBundleSenderMismatch commit_sender)
          else
            smodify (set_staged (Some staged)) ;!
            sret (ScStaged commit_sender (sc_self_removed staged) (staged_actions staged))
      | _ => sret ScAborted
      end
  end.

Definition merge_staged_commit : mls_method MembershipDelta :=
  let! s := sget id in
  smodify (set_staged None) ;!
  let! staged := slift (ok_or (pending_staged_commit s) (NoPendingStagedCommit (mls_conversation_id s))) in
  let removed := removed_members_of s staged in
  let before := populated_leaves s in
  on_group MergeCommit (g_merge_staged_commit staged) ;!
  let! s := sget id in
  sret (mls_delta s before removed).

Definition discard_staged_commit : mls_method unit :=
  smodify (set_staged None) ;!
  on_group MlsStorage clear_pending_proposals.

(** *** Application messages *)

Definition build_message `{!Codec} (app_msg : AppMessage) : mls_method bytes :=
  let! out := on_group CreateMessage (create_message (encode_app_message app_msg)) in
  slift (result_map_err MlsMessageSerialize (message_to_bytes out)).

Definition decrypt_application_only (ciphertext : bytes) : mls_method (option DecryptedMessage) :=
  let! pm := slift (parse_protocol_message ciphertext) in
  let! s := sget id in
  if negb (bool_decide (pm_group_id pm = g_group_id (mls_group s))) then sret None else
  if negb (pm_epoch pm =? g_epoch (mls_group s))%N then sret None else
  match pm_content_type pm with
  | CtCommit | CtProposal => sret None
  | CtApplication =>
      let! processed := on_group ProcessMessage (process_message pm) in
      match processed.1 with
      | SenderOther => sret None
      | SenderMember idx =>
          let! s := sget id in
          let! member := slift (ok_or (g_member_at (mls_group s) idx) (UnknownLeafIndex idx)) in
          match processed.2 with
          | ApplicationMessage payload => sret (Some (mk_decrypted payload member))
          | _ => sret None
          end
      end
  end.

Definition inspect_message_kind (message_bytes : bytes) : result MlsError MlsMessageKind :=
  let? m := result_map_err MlsMessageDeserialize (mls_message_in message_bytes) in
  match extract_protocol m with
  | None => Ok MkOther
  | Some protocol =>
      Ok match pm_content_type protocol with
         | CtProposal => MkProposal
         | CtCommit => MkCommit
         | CtApplication => MkOther
         end
  end.
End mls_service.
Abbreviation mls_method := (state_result MlsService MlsError).

(** ** Opening a group

    [MlsService::new_as_creator] and [new_from_welcome]. The provider, the credential
    and the configuration are OpenMLS'; a group keeps the provider it was opened
    with. *)

(** The errors of [StagedWelcome::new_from_welcome] the code tells apart. *)
Inductive WelcomeError := NoMatchingKeyPackage | JoinerSecretNotFound | OtherWelcomeError (e : ext_error).

Class OpenMlsSetup {OM : OpenMls} := {
  Provider : Type;
  CredentialWithKey : Type;
  MlsGroupCreateConfig : Type;
  Welcome : Type;
  StagedWelcome : Type;
  new_with_group_id : Provider → MlsGroupCreateConfig → bytes → CredentialWithKey → result ext_error MlsGroup;
  extract_welcome : MlsMessageIn → option Welcome;
  (* with a join configuration that uses the ratchet tree extension *)
  staged_welcome_new : Provider → Welcome → result WelcomeError StagedWelcome;
  into_group : Provider → StagedWelcome → result ext_error MlsGroup;
}.

(** A group has the id it was created with. *)
Class OpenMlsSetupLaws {OM : OpenMls} {SU : OpenMlsSetup} : Prop := {
  new_group_id p cfg id cred g : new_with_group_id p cfg id cred = Ok g → g_group_id g = id;
}.

Section mls_setup.
Context {OM : OpenMls} {SU : OpenMlsSetup}.

Definition new_as_creator (conversation_id : string) (provider : Provider) (credential : CredentialWithKey)
    (group_create_config : MlsGroupCreateConfig) : result MlsError MlsService :=
  let? group := result_map_err NewGroup
    (new_with_group_id provider group_create_config (String.list_byte_of_string conversation_id) credential) in
  Ok (mk_mls conversation_id group None).

Definition new_from_welcome (provider : Provider) (welcome_bytes : bytes) : result MlsError (option MlsService) :=
  let? mls_message := result_map_err MlsMessageDeserialize (mls_message_in welcome_bytes) in
  match extract_welcome mls_message with
  | None => Ok None
  | Some welcome =>
      match staged_welcome_new provider welcome with
      | Err NoMatchingKeyPackage | Err JoinerSecretNotFound => Ok None
      | Err (OtherWelcomeError e) => Err (WelcomeErr e)
      | Ok staged =>
          let? group := result_map_err WelcomeErr (into_group provider staged) in
          let conversation_id := String.string_of_list_byte (from_utf8_lossy (g_group_id group)) in
          Ok (Some (mk_mls conversation_id group None))
      end
  end.
End mls_setup.

(** ** Properties *)

Lemma member_id_of_length i : length (member_id_of i) = 4.
Proof. apply length_be_bytes. Qed.

Lemma leaf_index_of_member_id i : (i ≤ u32_max)%N → leaf_index_of (member_id_of i) = Some i.
Proof.
  intros Hi. unfold leaf_index_of. rewrite decide_True by apply member_id_of_length.
  f_equal. unfold member_id_of. rewrite be_value_be_bytes. apply N.mod_small.
  unfold u32_max in Hi. change (256 ^ N.of_nat 4)%N with 4294967296%N. lia.
Qed.

Lemma leaf_index_of_some b i : leaf_index_of b = Some i → member_id_of i = b ∧ (i ≤ u32_max)%N.
Proof.
  unfold leaf_index_of. case_decide as Hl; [|done]. intros [= <-]. split.
  - unfold member_id_of. rewrite <-Hl. apply be_bytes_be_value.
  - pose proof (be_value_bound b) as Hb. rewrite Hl in Hb.
    change (256 ^ N.of_nat 4)%N with 4294967296%N in Hb. unfold u32_max. lia.
Qed.

Lemma member_id_of_inj i j : (i ≤ u32_max)%N → (j ≤ u32_max)%N → member_id_of i = member_id_of j → i = j.
Proof. intros Hi Hj H. apply leaf_index_of_member_id in Hi, Hj. rewrite H in Hi. congruence. Qed.

(** The member-id encoding is a bijection between leaf indices that fit a [u32]
    and four-byte strings: decoding inverts encoding, whatever decodes is the
    encoding of what it decodes to, and bytes of any other width are rejected. *)
Theorem member_id_roundtrip :
  (∀ i, (i ≤ u32_max)%N → leaf_index_of (member_id_of i) = Some i) ∧
  (∀ b i, leaf_index_of b = Some i ↔ member_id_of i = b ∧ (i ≤ u32_max)%N) ∧
  (∀ b, leaf_index_of b = None ↔ length b ≠ 4).
Proof.
  split_and!.
  - apply leaf_index_of_member_id.
  - intros b i. split; [apply leaf_index_of_some|]. intros [<- Hi]. by apply leaf_index_of_member_id.
  - intros b. unfold leaf_index_of. case_decide; naive_solver.
Qed.

Section mls_facts.
Context {OM : OpenMls} `{!OpenMlsLaws}.
Implicit Types (s : MlsService).

(** Membership by id is membership in the list of ids. *)
Lemma is_member_elem s id : is_member s id = true ↔ id ∈ mls_members s.
Proof.
  unfold is_member, mls_members. rewrite list_elem_of_fmap. split.
  - destruct (leaf_index_of id) as [i|] eqn:E; [|done]. intros [m Hm]%bool_decide_eq_true.
    apply member_at_spec in Hm as [Hin <-]. apply leaf_index_of_some in E as [<- _]. eauto.
  - intros (m & -> & Hin). rewrite leaf_index_of_member_id by (by eapply leaf_is_u32).
    apply bool_decide_eq_true. exists m. by apply member_at_spec.
Qed.

(** A handle resolves exactly while the member it was issued for still holds
    the leaf with the same signature key: after the member leaves, after its leaf
    is reused by a member with another key, or after it rotates its key, the handle
    answers [None]; and a handle just issued by [member_id_at] resolves. *)
Theorem handle_resolves_iff s h i :
  (leaf_of s h = Some i ↔
    i = mid_leaf h ∧ ∃ m, m ∈ g_members (mls_group s) ∧ leaf_index m = i ∧ signature_key m = mid_tag h) ∧
  (∀ b, member_id_at s b = Some h → leaf_of s h = Some (mid_leaf h) ∧ member_id_of (mid_leaf h) = b).
Proof.
  unfold leaf_of, member_id_at. split.
  - split.
    + intros (m & Hm & Hd)%bind_Some. case_decide as Ht; [|done]. injection Hd as <-.
      apply member_at_spec in Hm as [? ?]. eauto.
    + intros (-> & m & Hin & Hl & Ht). apply bind_Some. exists m.
      rewrite member_at_spec, decide_True by done. done.
  - intros b (j & Hj & (m & Hm & ->)%fmap_Some)%bind_Some. pose proof Hm as [_ Hl]%member_at_spec.
    apply leaf_index_of_some in Hj as [Hb _]. cbn [mid_leaf mid_from]. rewrite Hl. split; [|done].
    apply bind_Some. exists m. split; [done|]. by apply decide_True.
Qed.
End mls_facts.

Section staging_facts.
Context {OM : OpenMls}.
Implicit Types (s : MlsService).

(** The engine authenticates each bundled proposal, in order, as the committer's, and
    takes it in; it authenticates a commit of this group, of this epoch or a later
    one, as the committer's. *)
Inductive proposals_by (committer : bytes) : list bytes → MlsService → MlsService → Prop :=
  | by_nobody s : proposals_by committer [] s s
  | by_committer b ps pm idx proposal s s1 s2 s' :
      parse_protocol_message b = Ok pm →
      on_group ProcessMessage (process_message pm) s = (s1, Ok (SenderMember idx, ProposalMessage proposal)) →
      member_id_of idx = committer →
      on_group MlsStorage (store_pending_proposal proposal) s1 = (s2, Ok tt) →
      proposals_by committer ps s2 s' →
      proposals_by committer (b :: ps) s s'.

Definition commit_by (committer : bytes) (commit_bytes : bytes) (s : MlsService) (staged : StagedCommit) (s' : MlsService) : Prop :=
  ∃ pm idx, parse_protocol_message commit_bytes = Ok pm ∧
    pm_group_id pm = g_group_id (mls_group s) ∧ (g_epoch (mls_group s) ≤ pm_epoch pm)%N ∧
    on_group ProcessMessage (process_message pm) s = (s', Ok (SenderMember idx, StagedCommitMessage staged)) ∧
    member_id_of idx = committer.

Lemma stage_proposals_by ps acc s s' senders :
  stage_proposals ps acc s = (s', Ok (Some senders)) →
  (∀ x, x ∈ acc → x ∈ senders) ∧
  ∀ committer, (∀ x, x ∈ senders → x = committer) → proposals_by committer ps s s'.
Proof.
  revert acc s. induction ps as [|b ps IH]; intros acc s; cbn [stage_proposals].
  { intros [= <- <-]. split; [done|constructor]. }
  rewrite sbind_ok. intros (s0 & pm & Hp & Hk). unfold slift in Hp. injection Hp as <- Hp.
  rewrite sbind_ok in Hk. destruct Hk as (s1 & processed & Hm & Hk).
  destruct processed as [[idx|] [|proposal| |]]; try done.
  rewrite sbind_ok in Hk. destruct Hk as (s2 & [] & Hs & Hk). apply IH in Hk as [Hacc Hby].
  split; [set_solver|]. intros committer Hc. eapply by_committer; [exact Hp|exact Hm| |exact Hs|by apply Hby].
  apply Hc, Hacc. set_solver.
Qed.

Lemma stage_remote_commit_by ps c s s' committer self_removed actions :
  stage_remote_commit ps c s = (s', Ok (ScStaged committer self_removed actions)) →
  ∃ staged s1 s2, proposals_by committer ps s s1 ∧ commit_by committer c s1 staged s2 ∧
    s' = set_staged (Some staged) s2 ∧ self_removed = sc_self_removed staged ∧ actions = staged_actions staged.
Proof.
  unfold stage_remote_commit. rewrite sbind_ok. intros (s1 & [senders|] & Hs & Hk); [|done].
  rewrite sbind_ok in Hk. destruct Hk as (s0 & pm & Hp & Hk). unfold slift in Hp. injection Hp as <- Hp.
  unfold sbind at 1, sget in Hk. cbn [id] in Hk.
  destruct (bool_decide_reflect (pm_group_id pm = g_group_id (mls_group s1))) as [Hg|]; [|done]. cbn [negb] in Hk.
  destruct (N.ltb_spec (pm_epoch pm) (g_epoch (mls_group s1))) as [|He]; [done|].
  rewrite sbind_ok in Hk. destruct Hk as (s2 & [[idx|] [| |staged|]] & Hm & Hk); try done.
  destruct (existsb _ senders) eqn:Ex; [done|]. unfold sbind, smodify, sret in Hk. injection Hk as <- <- <- <-.
  exists staged, s1, s2. split_and!; [|by exists pm, idx|done..].
  apply stage_proposals_by in Hs as [_ Hs]. apply Hs. intros x Hx. rewrite existsb_not_elem in Ex.
  by apply Ex, negb_false_iff, bool_decide_eq_true in Hx.
Qed.
End staging_facts.
