(* ===== verification/Toy.v ===== *)
(** * Concrete instances for the examples

    The theorems of the development hold for every OpenMLS, hash and map order; the
    examples that evaluate them need one of each. [toy_mls] is a group whose wire
    messages are three-byte headers in clear, [kind; sender; epoch], and a payload:
    kind 1 an Add proposal, 2 a Remove, 3 a commit, which lists the sender's proposals
    and can be read only by who holds them, 4 an application message, 5 a welcome with
    the group after the commit. A key package is its signature key, of one to sixteen
    bytes. A member cannot read its own messages. It satisfies [OpenMlsLaws]. *)

From S2P Require Import Prelude Protos StewardList Mls.

Inductive toy_proposal := ToyAdd (key : bytes) | ToyRemove (leaf : N).
#[export] Instance toy_proposal_eq_dec : EqDecision toy_proposal.
Proof. solve_decision. Defined.

Record ToyGroup := mk_toy {
  toy_members : gmap N bytes;
  toy_epoch : N;
  toy_own : N;
  toy_pending : list (N * toy_proposal);
  toy_pending_commit : option (list toy_proposal);
}.

Record ToyMessage := mk_toy_message { toy_kind : byte; toy_sender : N; toy_msg_epoch : N; toy_payload : bytes }.

Definition toy_free_leaf (m : gmap N bytes) : N :=
  default 0%N (head (filter (λ i, m !! i = None) (N.of_nat <$> seq 0 (S (size m))))).
Definition toy_apply (m : gmap N bytes) (p : toy_proposal) : gmap N bytes :=
  match p with
  | ToyAdd key => <[toy_free_leaf m := key]> m
  | ToyRemove leaf => delete leaf m
  end.
Definition toy_merge (ps : list toy_proposal) (g : ToyGroup) : ToyGroup :=
  mk_toy (foldl toy_apply (toy_members g) ps) (toy_epoch g + 1) (toy_own g) [] None.
Definition toy_header (kind : byte) (g : ToyGroup) (payload : bytes) : bytes :=
  kind :: byte_of_N (toy_own g) :: byte_of_N (toy_epoch g) :: payload.
Definition toy_parse (b : bytes) : result ext_error ToyMessage :=
  match b with
  | k :: s :: e :: payload => Ok (mk_toy_message k (Byte.to_N s) (Byte.to_N e) payload)
  | _ => Err "short message"%string
  end.
Definition toy_content (k : byte) : ContentType :=
  if decide (k = x03) then CtCommit else if decide (k = x04) then CtApplication else CtProposal.
Definition toy_member (kv : N * bytes) : Member := mk_member kv.1 kv.2 kv.2.
Definition toy_push (p : N * toy_proposal) (g : ToyGroup) : ToyGroup :=
  mk_toy (toy_members g) (toy_epoch g) (toy_own g) (toy_pending g ++ [p]) (toy_pending_commit g).

(** Byte strings with a length byte in front. *)
Definition put (b : bytes) : bytes := byte_of_N (len b) :: b.
Fixpoint get_all (fuel : nat) (b : bytes) : list bytes :=
  match fuel, b with
  | S fuel, n :: b => let k := N.to_nat (Byte.to_N n) in take k b :: get_all fuel (drop k b)
  | _, _ => []
  end.

(** The proposals a commit lists. *)
Definition toy_listed (ps : list toy_proposal) : bytes :=
  mjoin ((λ p, put match p with ToyAdd key => x01 :: key | ToyRemove leaf => x02 :: member_id_of leaf end) <$> ps).
Definition toy_listed_in (b : bytes) : list toy_proposal :=
  omap (λ e, match e with x01 :: key => Some (ToyAdd key) | x02 :: leaf => Some (ToyRemove (be_value leaf)) | _ => None end)
    (get_all (length b) b).

(** The group a welcome carries, and the view of it at the leaf of a key. *)
Definition toy_welcome (g : ToyGroup) : bytes :=
  byte_of_N (toy_epoch g) ::
    mjoin ((λ kv : N * bytes, put (byte_of_N kv.1 :: kv.2)) <$> map_to_list (toy_members g)).
Definition toy_welcomed (key b : bytes) : option ToyGroup :=
  match b with
  | [] => None
  | epoch :: b =>
      let entries := omap (λ e, match e with [] => None | leaf :: k => Some (Byte.to_N leaf, k) end)
        (get_all (length b) b) in
      own ← List.find (λ kv : N * bytes, bool_decide (kv.2 = key)) entries;
      Some (mk_toy (list_to_map entries) (Byte.to_N epoch) own.1 [] None)
  end.

Definition toy_pending_of (sender : N) (g : ToyGroup) : list toy_proposal :=
  (filter (λ p : N * toy_proposal, p.1 = sender) (toy_pending g)).*2.

Definition toy_mls : OpenMls := {|
  MlsGroup := ToyGroup;
  StagedCommit := list toy_proposal;
  QueuedProposal := N * toy_proposal;
  KeyPackageIn := bytes;
  KeyPackage := bytes;
  MlsMessageIn := ToyMessage;
  MlsMessageOut := bytes;
  ProtocolMessage := ToyMessage;
  key_package_in b :=
    match b with
    | [] => Err "empty key package"%string
    | _ => if (16 <? len b)%N then Err "long key package"%string else Ok b
    end;
  kp_signature_key kp := kp;
  kp_validate kp := Ok kp;
  kp_leaf_signature_key kp := kp;
  g_members g := toy_member <$> filter (λ kv : N * bytes, (kv.1 <= u32_max)%N) (map_to_list (toy_members g));
  g_member_at g i := if decide (i <= u32_max)%N then (λ k, mk_member i k k) <$> toy_members g !! i else None;
  g_epoch g := N.min (toy_epoch g) u64_max;
  g_group_id _ := [x67];
  g_own_leaf_index := toy_own;
  g_pending_commit := toy_pending_commit;
  propose_add_member kp g := (toy_push (toy_own g, ToyAdd kp) g, Ok (toy_header x01 g kp));
  propose_remove_member i g := (toy_push (toy_own g, ToyRemove i) g, Ok (toy_header x02 g [byte_of_N i]));
  commit_to_pending_proposals g :=
    (mk_toy (toy_members g) (toy_epoch g) (toy_own g) (toy_pending g) (Some (toy_pending g).*2),
     Ok (toy_header x03 g (toy_listed (toy_pending g).*2), if existsb (λ p : N * toy_proposal, match p.2 with ToyAdd _ => true | _ => false end) (toy_pending g)
                              then Some (toy_header x05 g (toy_welcome (toy_merge (toy_pending g).*2 g))) else None));
  merge_pending_commit g := (match toy_pending_commit g with Some ps => toy_merge ps g | None => g end, Ok tt);
  clear_pending_commit g := (mk_toy (toy_members g) (toy_epoch g) (toy_own g) (toy_pending g) None, Ok tt);
  clear_pending_proposals g :=
    (mk_toy (toy_members g) (toy_epoch g) (toy_own g) [] (toy_pending_commit g), Ok tt);
  store_pending_proposal p g := (toy_push p g, Ok tt);
  g_merge_staged_commit ps g := (toy_merge ps g, Ok tt);
  g_delete g := (mk_toy ∅ (toy_epoch g) (toy_own g) [] None, Ok tt);
  sc_self_removed ps := false;
  sc_add_signature_keys ps := omap (λ p, match p with ToyAdd k => Some k | _ => None end) ps;
  sc_removed_leaves ps := omap (λ p, match p with ToyRemove i => Some i | _ => None end) ps;
  mls_message_in := toy_parse;
  try_into_protocol_message m := Ok m;
  extract_protocol m := Some m;
  pm_group_id _ := [x67];
  pm_epoch := toy_msg_epoch;
  pm_content_type m := toy_content (toy_kind m);
  process_message m g :=
    (g, if decide (toy_sender m = toy_own g) then Err "own message"%string
        else if decide (toy_kind m = x01) then
          Ok (SenderMember (toy_sender m), ProposalMessage (toy_sender m, ToyAdd (toy_payload m)))
        else if decide (toy_kind m = x02) then
          Ok (SenderMember (toy_sender m), ProposalMessage (toy_sender m, ToyRemove (be_value (toy_payload m))))
        else if decide (toy_kind m = x03) then
          let ps := toy_listed_in (toy_payload m) in
          if decide (ps = toy_pending_of (toy_sender m) g) then Ok (SenderMember (toy_sender m), StagedCommitMessage ps)
          else Err "unknown proposal"%string
        else if decide (toy_kind m = x04) then Ok (SenderMember (toy_sender m), ApplicationMessage (toy_payload m))
        else Err "unknown kind"%string);
  create_message b g := (g, Ok (toy_header x04 g b));
  message_to_bytes b := Ok b;
|}.

#[export] Instance toy_laws : OpenMlsLaws (OM := toy_mls).
Proof.
  split.
  - intros g i m. cbn. rewrite list_elem_of_fmap. split.
    + case_decide as Hi; [|done]. intros (k & Hk & ->)%fmap_Some. split; [|done].
      exists (i, k). split; [done|]. apply list_elem_of_filter. split; [done|].
      by apply elem_of_map_to_list.
    + intros (([j k] & -> & Hin) & <-). apply list_elem_of_filter in Hin as [Hj Hin]. cbn in *.
      apply elem_of_map_to_list in Hin. rewrite decide_True by done. by rewrite Hin.
  - intros g m. cbn. intros ([j k] & -> & Hin)%list_elem_of_fmap.
    by apply list_elem_of_filter in Hin as [Hj _].
Qed.

(** A provider is the key of its key package. *)
#[local] Existing Instance toy_mls.
#[export] Instance toy_setup : OpenMlsSetup := {|
  Provider := bytes;
  CredentialWithKey := bytes;
  MlsGroupCreateConfig := unit;
  Welcome := bytes;
  StagedWelcome := ToyGroup;
  new_with_group_id _ _ id key :=
    if decide (id = [x67]) then Ok (mk_toy {[ 0%N := key ]} 0 0 [] None : MlsGroup) else Err "another group"%string;
  extract_welcome (m : MlsMessageIn) := if decide (toy_kind m = x05) then Some (toy_payload m) else None;
  staged_welcome_new key w := match toy_welcomed key w with Some g => Ok g | None => Err NoMatchingKeyPackage end;
  into_group _ g := Ok g;
|}.

#[export] Instance toy_setup_laws : OpenMlsSetupLaws.
Proof. split. cbn. intros p cfg id cred g. case_decide as H; [|done]. by intros _. Qed.

(** A room of two members, leaves 0 and 1, at epoch 3, seen by leaf 0. *)
Definition toy_group : ToyGroup := mk_toy {[ 0%N := [x0a]; 1%N := [x0b] ]} 3 0 [] None.
Definition toy_service : MlsService (OM := toy_mls) := mk_mls (OM := toy_mls) "g" toy_group None.

Lemma handle_resolves_iff_witness :
  leaf_of (OM := toy_mls) toy_service (mk_member_handle 1 [x0b]) = Some 1%N.
Proof.
  assert (member_id_at (OM := toy_mls) toy_service (member_id_of 1) = Some (mk_member_handle 1 [x0b])) as E
    by (by vm_compute).
  pose proof (handle_resolves_iff (OM := toy_mls) toy_service (mk_member_handle 1 [x0b]) 1) as [_ H].
  apply H in E as [E _]. exact E.
Defined.

(** Leaf 1 adds a member with key [0c]. *)
Definition toy_peer_proposals : list bytes := [[x01; x01; x03; x0c]].
Definition toy_peer_commit : bytes := [x03; x01; x03; x02; x01; x0c].
