(* ===== verification/Buffer.v ===== *)
(** * The commit-round buffer: [src/commit_round/buffer.rs]

    The candidates collected for one epoch, before selection. [CommitHash] is the
    SHA-256 of a commit message ([round.rs]); it is compared as bytes. *)

From S2P Require Import Prelude Protos StewardList.

Abbreviation CommitHash := bytes (only parsing).

Record BufferedCommitCandidate := mk_buffered {
  candidate_msg : CommitCandidate;
  commit_hash : CommitHash;
  is_local_candidate : bool;
  buf_welcome_bytes : option bytes;
  buf_joiner_identities : list bytes;
}.
#[export] Instance buffered_eq_dec : EqDecision BufferedCommitCandidate.
Proof. solve_decision. Defined.

Record CommitRoundBuffer := mk_buffer { buf_epoch : N; candidates : list BufferedCommitCandidate }.
Definition buffer_default : CommitRoundBuffer := mk_buffer 0 [].

Inductive CommitBufferOutcome := Buffered | DuplicateHash | CapReached.

Section buffer.
Context {HS : Hash}.

Definition compute_commit_hash (message : bytes) : CommitHash := sha256 message.

Definition buffer_add (candidate : CommitCandidate) (is_local : bool) (welcome : option bytes)
    (joiners : list bytes) (epoch max_candidates : N) (b : CommitRoundBuffer) :
    CommitRoundBuffer * CommitBufferOutcome :=
  let b := if (buf_epoch b =? epoch)%N then b else mk_buffer epoch [] in
  let hash := compute_commit_hash (commit_message candidate) in
  if existsb (λ c, bool_decide (commit_hash c = hash)) (candidates b) then (b, DuplicateHash) else
  if (max_candidates <=? len (candidates b))%N then (b, CapReached) else
  (mk_buffer (buf_epoch b)
     (candidates b ++ [mk_buffered candidate hash is_local welcome joiners]), Buffered).
End buffer.

Definition candidate_count (b : CommitRoundBuffer) : N := len (candidates b).
Definition has_local_candidate (b : CommitRoundBuffer) : bool :=
  existsb is_local_candidate (candidates b).
Definition local_candidate_bytes `{!Codec} (b : CommitRoundBuffer) : option bytes :=
  candidate ← List.find is_local_candidate (candidates b);
  Some (encode_app_message (to_app_message (AppCommitCandidate (candidate_msg candidate)))).
Definition buffer_clear (b : CommitRoundBuffer) : CommitRoundBuffer := mk_buffer (buf_epoch b) [].
Definition buffer_take (epoch : N) (b : CommitRoundBuffer) :
    CommitRoundBuffer * list BufferedCommitCandidate :=
  if (buf_epoch b =? epoch)%N then (mk_buffer (buf_epoch b) [], candidates b) else (b, []).

Definition into_process_result (o : CommitBufferOutcome) (steward_id : bytes) : ProcessResult :=
  match o with
  | Buffered => CommitCandidateReceived steward_id
  | DuplicateHash => Noop DuplicateBufferedHash
  | CapReached => Noop CandidateBufferFull
  end.

(** ** The buffer's invariant *)

Section buffer_facts.
Context {HS : Hash}.

(** Every hash is its commit's, no two candidates share one, and the buffer holds
    at most [cap] of them. *)
Record buffer_ok (cap : N) (b : CommitRoundBuffer) : Prop := {
  bo_nodup : NoDup (commit_hash <$> candidates b);
  bo_hash : ∀ c, c ∈ candidates b → commit_hash c = compute_commit_hash (commit_message (candidate_msg c));
  bo_cap : (candidate_count b ≤ cap)%N;
}.

Lemma buffer_ok_empty cap e : buffer_ok cap (mk_buffer e []).
Proof. split; [by apply NoDup_nil_2|set_solver|apply N.le_0_l]. Qed.

Lemma buffer_ok_push cap b c :
  buffer_ok cap b → (candidate_count b < cap)%N →
  commit_hash c = compute_commit_hash (commit_message (candidate_msg c)) →
  commit_hash c ∉ commit_hash <$> candidates b →
  buffer_ok cap (mk_buffer (buf_epoch b) (candidates b ++ [c])).
Proof.
  intros [Hn Hh Hc] Hlt Hch Hnew. split; cbn.
  - rewrite fmap_app. apply NoDup_app. split_and!; [done| |apply NoDup_singleton].
    cbn. set_solver.
  - intros d [Hd|Hd%list_elem_of_singleton]%elem_of_app; [auto|by subst].
  - unfold candidate_count, len in *. cbn. rewrite length_app. cbn. lia.
Qed.

Lemma buffer_clear_ok cap b : buffer_ok cap (buffer_clear b).
Proof. apply buffer_ok_empty. Qed.

Lemma buffer_take_ok cap e b : buffer_ok cap b → buffer_ok cap (buffer_take e b).1.
Proof. unfold buffer_take. case_match; [intros _; apply buffer_ok_empty|done]. Qed.

(** Whatever the cap it was filled under, buffering keeps the hashes distinct. *)
Lemma buffer_add_keeps c local w js e cap cap' b :
  buffer_ok cap b → buffer_ok (N.max cap cap') (buffer_add c local w js e cap' b).1.
Proof.
  intros Hb. unfold buffer_add. set (b0 := if (buf_epoch b =? e)%N then b else mk_buffer e []).
  assert (∀ b1, buffer_ok cap b1 → buffer_ok (N.max cap cap') b1) as Hmax.
  { intros b1 [? ? ?]. split; [done..|lia]. }
  assert (buffer_ok cap b0) as Hb0 by (unfold b0; case_match; [done|apply buffer_ok_empty]).
  destruct (existsb _ _) eqn:Hx; [by apply Hmax|]. rewrite existsb_not_elem in Hx.
  destruct (N.leb_spec cap' (len (candidates b0))); [by apply Hmax|].
  apply buffer_ok_push; [by apply Hmax|unfold candidate_count; lia|done|].
  intros (d & Hd & Hin)%list_elem_of_fmap. apply Hx in Hin. bool_simpl. by destruct Hin.
Qed.

(** Buffering keeps the round well formed and says exactly what it did. After
    [buffer_add] the buffer is at the candidate's epoch, its hashes are distinct
    and it is within the cap; the candidate is stored last when the outcome is
    [Buffered]; a repeated commit message is refused as [DuplicateHash], also when
    the buffer is full, and a new one is refused as [CapReached] exactly when the
    cap is reached; candidates of another epoch are gone. *)
Theorem buffer_add_spec c local w js e cap b b' o :
  buffer_ok cap b → buffer_add c local w js e cap b = (b', o) →
  let held := if (buf_epoch b =? e)%N then candidates b else [] in
  let h := compute_commit_hash (commit_message c) in
  buffer_ok cap b' ∧ buf_epoch b' = e ∧
  match o with
  | Buffered => h ∉ commit_hash <$> held ∧ (len held < cap)%N ∧
                candidates b' = held ++ [mk_buffered c h local w js]
  | DuplicateHash => h ∈ commit_hash <$> held ∧ candidates b' = held
  | CapReached => h ∉ commit_hash <$> held ∧ len held = cap ∧ candidates b' = held
  end.
Proof.
  intros Hb. unfold buffer_add. set (b0 := if (buf_epoch b =? e)%N then b else mk_buffer e []).
  assert (buffer_ok cap b0 ∧ buf_epoch b0 = e ∧
          candidates b0 = if (buf_epoch b =? e)%N then candidates b else []) as (Hb0 & He & Hc).
  { unfold b0. destruct (N.eqb_spec (buf_epoch b) e); split_and!;
      [done..|apply buffer_ok_empty|done|done]. }
  intros H. cbn zeta. rewrite <-Hc. set (h := compute_commit_hash (commit_message c)) in *.
  assert (existsb (λ d, bool_decide (commit_hash d = h)) (candidates b0) = true ↔
          h ∈ commit_hash <$> candidates b0) as Hx.
  { rewrite existsb_elem, list_elem_of_fmap. setoid_rewrite bool_decide_eq_true. naive_solver. }
  destruct (existsb _ _).
  { simplify_eq. naive_solver. }
  assert (h ∉ commit_hash <$> candidates b0) as Hnew by naive_solver.
  destruct (N.leb_spec cap (len (candidates b0))); simplify_eq.
  - pose proof (bo_cap _ _ Hb0) as Hcap. unfold candidate_count in Hcap.
    split_and!; [done..|lia|done].
  - split_and!; [by apply buffer_ok_push|done..].
Qed.
End buffer_facts.

Definition example_candidate : CommitCandidate := mk_candidate [x67] [[x01]] [x02] [x00; x00; x00; x00].

Lemma buffer_add_spec_witness :
  candidates (buffer_add (HS := example_hash) example_candidate true None [] 3 4 buffer_default).1
  = [mk_buffered example_candidate [x02] true None []].
Proof.
  apply (buffer_add_spec (HS := example_hash) example_candidate true None [] 3 4 buffer_default
    _ Buffered (buffer_ok_empty (HS := example_hash) 4 0)). reflexivity.
Defined.
