(* ===== verification/Queues.v ===== *)
(** * The conversation queues: [src/conversation/util.rs] and [src/conversation/queues.rs]

    The protocol state of one conversation: approved and voting proposals, active
    emergencies, commit and welcome dedup windows, the commit-round buffer, the
    pending-update buffer, the resolved-outcome cache, the urgent commit target, the
    early candidates, join epochs and the membership delta of the last merge. Every
    method of [ConversationQueues] is a function here, under its own name. *)

From S2P Require Import Prelude Protos StewardList Mls Buffer.

(** ** [util.rs] *)

Section util.
Context {HS : Hash} {OM : OpenMls}.

(** [u32::from_be_bytes] of the first four bytes of the digest. *)
Definition self_leave_proposal_id (member_id : bytes) : ProposalId :=
  be_value (take 4 (sha256 member_id)).

(** [contains] on the set is membership in the slice. *)
Definition member_set (members : list bytes) : gset bytes := list_to_set members.

Definition target_member_id_of (request : ConversationUpdateRequest) : option bytes :=
  match req_payload request with
  | Some (MemberInvite kp) => result_ok (signature_key_of_key_package kp)
  | Some (RemoveMember id) => Some id
  | _ => None
  end.

Definition in_flight_target (request : ConversationUpdateRequest) : option bytes :=
  match target_member_id_of request with
  | Some id => Some id
  | None =>
      match req_payload request with
      | Some (EmergencyCriteria ec) =>
          ev ← ec;
          if decide (violation_try_from (violation_type ev) = Some ScoreBelowThresholdV)
          then Some (target_member_id ev) else None
      | _ => None
      end
  end.
End util.

(** ** BoundedSet *)

Record BoundedSet (T : Type) := mk_bset { bs_items : list T; bs_capacity : N }.
Arguments mk_bset {T} _ _.
Arguments bs_items {T} _.
Arguments bs_capacity {T} _.

Section bounded_set.
Context {T : Type} `{!EqDecision T}.

Definition bs_new (capacity : N) : BoundedSet T := mk_bset [] (N.max capacity 1).
Definition bs_contains (b : BoundedSet T) (x : T) : bool := contains (bs_items b) x.
(** [while self.items.len() > capacity { shift_remove_index(0) }]; the length bounds
    the iterations. *)
Fixpoint evict (fuel : nat) (capacity : N) (items : list T) : list T :=
  match fuel with
  | O => items
  | S fuel => if (capacity <? len items)%N then evict fuel capacity (tail items) else items
  end.
Definition bs_insert (x : T) (b : BoundedSet T) : BoundedSet T * bool :=
  if bs_contains b x then (b, false) else
  let items := bs_items b ++ [x] in
  (mk_bset (evict (length items) (bs_capacity b) items) (bs_capacity b), true).
End bounded_set.

(** ** ConversationQueues *)

Record VotingMeta := mk_voting_meta { vm_target : option bytes; vm_kind : ProposalKind }.
Record PendingUpdate := mk_pending_update {
  pu_request : ConversationUpdateRequest; first_seen_epoch : N;
}.

Definition resolved_proposal_cache_capacity : N := 256.

Record ConversationQueues := mk_queues {
  q_conversation_id : string;
  approved_proposals : list (ProposalId * ConversationUpdateRequest);
  voting_proposals : gmap N VotingMeta;
  active_emergency_ids : gset N;
  committed_batch_hashes : BoundedSet CommitHash;
  commit_round : CommitRoundBuffer;
  pending_updates : gmap bytes PendingUpdate;
  resolved_proposals : BoundedSet N;
  urgent_commit_target : option bytes;
  early_candidates : list (N * CommitCandidate);
  member_join_epoch : gmap bytes N;
  welcome_broadcast_hashes : BoundedSet CommitHash;
  pending_membership_delta : option MembershipDelta;
}.

(** Field updates. *)
Definition set_approved (x : list (ProposalId * ConversationUpdateRequest)) (q : ConversationQueues) : ConversationQueues :=
  mk_queues (q_conversation_id q) x (voting_proposals q) (active_emergency_ids q)
    (committed_batch_hashes q) (commit_round q) (pending_updates q) (resolved_proposals q)
    (urgent_commit_target q) (early_candidates q) (member_join_epoch q)
    (welcome_broadcast_hashes q) (pending_membership_delta q).
Definition set_voting (x : gmap N VotingMeta) (q : ConversationQueues) : ConversationQueues :=
  mk_queues (q_conversation_id q) (approved_proposals q) x (active_emergency_ids q)
    (committed_batch_hashes q) (commit_round q) (pending_updates q) (resolved_proposals q)
    (urgent_commit_target q) (early_candidates q) (member_join_epoch q)
    (welcome_broadcast_hashes q) (pending_membership_delta q).
Definition set_emergencies (x : gset N) (q : ConversationQueues) : ConversationQueues :=
  mk_queues (q_conversation_id q) (approved_proposals q) (voting_proposals q) x
    (committed_batch_hashes q) (commit_round q) (pending_updates q) (resolved_proposals q)
    (urgent_commit_target q) (early_candidates q) (member_join_epoch q)
    (welcome_broadcast_hashes q) (pending_membership_delta q).
Definition set_committed (x : BoundedSet CommitHash) (q : ConversationQueues) : ConversationQueues :=
  mk_queues (q_conversation_id q) (approved_proposals q) (voting_proposals q)
    (active_emergency_ids q) x (commit_round q) (pending_updates q) (resolved_proposals q)
    (urgent_commit_target q) (early_candidates q) (member_join_epoch q)
    (welcome_broadcast_hashes q) (pending_membership_delta q).
Definition set_round (x : CommitRoundBuffer) (q : ConversationQueues) : ConversationQueues :=
  mk_queues (q_conversation_id q) (approved_proposals q) (voting_proposals q)
    (active_emergency_ids q) (committed_batch_hashes q) x (pending_updates q)
    (resolved_proposals q) (urgent_commit_target q) (early_candidates q) (member_join_epoch q)
    (welcome_broadcast_hashes q) (pending_membership_delta q).
Definition set_pending (x : gmap bytes PendingUpdate) (q : ConversationQueues) : ConversationQueues :=
  mk_queues (q_conversation_id q) (approved_proposals q) (voting_proposals q)
    (active_emergency_ids q) (committed_batch_hashes q) (commit_round q) x (resolved_proposals
    q) (urgent_commit_target q) (early_candidates q) (member_join_epoch q)
    (welcome_broadcast_hashes q) (pending_membership_delta q).
Definition set_resolved (x : BoundedSet N) (q : ConversationQueues) : ConversationQueues :=
  mk_queues (q_conversation_id q) (approved_proposals q) (voting_proposals q)
    (active_emergency_ids q) (committed_batch_hashes q) (commit_round q) (pending_updates q) x
    (urgent_commit_target q) (early_candidates q) (member_join_epoch q)
    (welcome_broadcast_hashes q) (pending_membership_delta q).
Definition set_urgent (x : option bytes) (q : ConversationQueues) : ConversationQueues :=
  mk_queues (q_conversation_id q) (approved_proposals q) (voting_proposals q)
    (active_emergency_ids q) (committed_batch_hashes q) (commit_round q) (pending_updates q)
    (resolved_proposals q) x (early_candidates q) (member_join_epoch q)
    (welcome_broadcast_hashes q) (pending_membership_delta q).
Definition set_early (x : list (N * CommitCandidate)) (q : ConversationQueues) : ConversationQueues :=
  mk_queues (q_conversation_id q) (approved_proposals q) (voting_proposals q)
    (active_emergency_ids q) (committed_batch_hashes q) (commit_round q) (pending_updates q)
    (resolved_proposals q) (urgent_commit_target q) x (member_join_epoch q)
    (welcome_broadcast_hashes q) (pending_membership_delta q).
Definition set_joins (x : gmap bytes N) (q : ConversationQueues) : ConversationQueues :=
  mk_queues (q_conversation_id q) (approved_proposals q) (voting_proposals q)
    (active_emergency_ids q) (committed_batch_hashes q) (commit_round q) (pending_updates q)
    (resolved_proposals q) (urgent_commit_target q) (early_candidates q) x
    (welcome_broadcast_hashes q) (pending_membership_delta q).
Definition set_welcomes (x : BoundedSet CommitHash) (q : ConversationQueues) : ConversationQueues :=
  mk_queues (q_conversation_id q) (approved_proposals q) (voting_proposals q)
    (active_emergency_ids q) (committed_batch_hashes q) (commit_round q) (pending_updates q)
    (resolved_proposals q) (urgent_commit_target q) (early_candidates q) (member_join_epoch q) x
    (pending_membership_delta q).
Definition set_membership_delta (x : option MembershipDelta) (q : ConversationQueues) : ConversationQueues :=
  mk_queues (q_conversation_id q) (approved_proposals q) (voting_proposals q)
    (active_emergency_ids q) (committed_batch_hashes q) (commit_round q) (pending_updates q)
    (resolved_proposals q) (urgent_commit_target q) (early_candidates q) (member_join_epoch q)
    (welcome_broadcast_hashes q) x.

Definition queues_new (conversation_id : string) (dedup_window : N) : ConversationQueues :=
  mk_queues conversation_id [] ∅ ∅ (bs_new dedup_window) buffer_default ∅
    (bs_new resolved_proposal_cache_capacity) None [] ∅ (bs_new dedup_window) None.

Definition name (q : ConversationQueues) : string := q_conversation_id q.
Definition name_bytes (q : ConversationQueues) : bytes := String.list_byte_of_string (q_conversation_id q).

(** [req] is a [RemoveMember] of [member_id]. *)
Definition removes_member (req : ConversationUpdateRequest) (member_id : bytes) : bool :=
  match req_payload req with
  | Some (RemoveMember id) => bool_decide (id = member_id)
  | _ => false
  end.

Section queues.
Context {HS : Hash} {OM : OpenMls}.
Implicit Types (q : ConversationQueues).

Definition invites_member (req : ConversationUpdateRequest) (member_id : bytes) : bool :=
  match req_payload req with
  | Some (MemberInvite _) => bool_decide (target_member_id_of req = Some member_id)
  | _ => false
  end.

(** *** Approved proposals *)

Definition approved_proposals_count q : N := len (approved_proposals q).
Definition has_approved_removal q (member_id : bytes) : bool :=
  existsb (λ req, removes_member req member_id) (im_values (approved_proposals q)).
Definition has_approved_invite q (member_id : bytes) : bool :=
  existsb (λ req, invites_member req member_id) (im_values (approved_proposals q)).
Definition is_pending_self_leave q (member_id : bytes) : bool :=
  match im_get (self_leave_proposal_id member_id) (approved_proposals q) with
  | Some req => removes_member req member_id
  | None => false
  end.
Definition insert_approved_proposal (proposal_id : ProposalId) (proposal : ConversationUpdateRequest) q :
    ConversationQueues :=
  set_approved (im_insert proposal_id proposal (approved_proposals q)) q.
Definition remove_approved_proposal (proposal_id : ProposalId) q : ConversationQueues :=
  set_approved (im_shift_remove proposal_id (approved_proposals q)) q.
Definition drain_approved_proposals q : ConversationQueues * list ConversationUpdateRequest :=
  (set_approved [] q, im_values (approved_proposals q)).
Definition is_remove_member (req : ConversationUpdateRequest) : bool :=
  match req_payload req with Some (RemoveMember _) => true | _ => false end.
Definition reject_all_approved_proposals q : ConversationQueues :=
  set_approved (im_retain (λ _ req, is_remove_member req) (approved_proposals q)) q.
Definition drop_approved_removals_for (target : bytes) q : ConversationQueues :=
  set_approved (im_retain (λ _ req, negb (removes_member req target)) (approved_proposals q)) q.

Definition steward_eligibility q (mls_members : list bytes) (candidate : bytes) : bool :=
  negb (has_approved_removal q candidate) && bool_decide (candidate ∈ member_set mls_members).

(** *** Settled membership *)

Definition store_membership_delta (delta : MembershipDelta) q : ConversationQueues :=
  set_membership_delta (Some delta) q.
Definition take_membership_delta q : ConversationQueues * MembershipDelta :=
  (set_membership_delta None q, default delta_default (pending_membership_delta q)).

Definition forget_removed (member : MemberId) q : ConversationQueues :=
  let id := member_id_of (mid_leaf member) in
  let q := set_pending (delete id (pending_updates q)) q in
  let q := drop_approved_removals_for id q in
  set_joins (delete id (member_join_epoch q)) q.
Definition record_added (epoch : N) (m : Member) q : ConversationQueues :=
  let q := set_pending (delete (signature_key m) (pending_updates q)) q in
  set_joins (<[member_id_of (leaf_index m) := epoch]> (member_join_epoch q)) q.
Definition apply_membership_delta_bookkeeping (epoch : N) q : ConversationQueues :=
  match pending_membership_delta q with
  | None => q
  | Some delta =>
      let q := foldl (λ q member, forget_removed member q) q (delta_removed delta) in
      foldl (λ q m, record_added epoch m q) q (delta_added delta)
  end.

Definition is_settled q (member_id : bytes) (current_epoch : N) : bool :=
  match member_join_epoch q !! member_id with
  | Some join_epoch => (join_epoch <? current_epoch)%N
  | None => true
  end.
Definition settled_members q (members : list bytes) (current_epoch : N) : list bytes :=
  filterb (λ m, is_settled q m current_epoch) members.

(** *** Voting proposals *)

Definition track_voting_proposal (proposal_id : ProposalId) (proposal : ConversationUpdateRequest) q :
    ConversationQueues :=
  match voting_proposals q !! proposal_id with
  | Some _ => q
  | None => set_voting (<[proposal_id := mk_voting_meta (in_flight_target proposal) (kind_of proposal)]>
              (voting_proposals q)) q
  end.
Definition is_voting q (proposal_id : ProposalId) : bool :=
  bool_decide (is_Some (voting_proposals q !! proposal_id)).
Definition remove_voting_proposal (proposal_id : ProposalId) q : ConversationQueues :=
  set_voting (delete proposal_id (voting_proposals q)) q.
Definition has_election_in_flight q : bool :=
  existsb (λ kv : N * VotingMeta, is_steward_election (vm_kind kv.2)) (map_to_list (voting_proposals q)).
Definition active_proposal_targets q : gset bytes :=
  list_to_set (omap (λ kv : N * VotingMeta, vm_target kv.2) (map_to_list (voting_proposals q)))
  ∪ list_to_set (omap target_member_id_of (im_values (approved_proposals q))).

(** *** Partial freeze *)

Definition insert_emergency (proposal_id : ProposalId) q : ConversationQueues :=
  set_emergencies ({[proposal_id]} ∪ active_emergency_ids q) q.
Definition remove_emergency (proposal_id : ProposalId) q : ConversationQueues :=
  set_emergencies (active_emergency_ids q ∖ {[proposal_id]}) q.
Definition has_active_emergency q : bool := negb (bool_decide (active_emergency_ids q = ∅)).
Definition partial_freeze_blocks q (kind : ProposalKind) : bool :=
  has_active_emergency q && kind_ltb kind KEmergency.

(** *** Dedup windows *)

Definition has_committed_hash q (commit_hash : CommitHash) : bool :=
  bs_contains (committed_batch_hashes q) commit_hash.
Definition insert_committed_hash (commit_hash : CommitHash) q : ConversationQueues :=
  set_committed (bs_insert commit_hash (committed_batch_hashes q)).1 q.
Definition record_welcome_broadcast (hash : CommitHash) q : ConversationQueues * bool :=
  let '(b, fresh) := bs_insert hash (welcome_broadcast_hashes q) in (set_welcomes b q, fresh).
Definition is_consensus_outcome_applied q (proposal_id : ProposalId) : bool :=
  bs_contains (resolved_proposals q) proposal_id.
Definition mark_consensus_outcome_applied (proposal_id : ProposalId) q : ConversationQueues :=
  set_resolved (bs_insert proposal_id (resolved_proposals q)).1 q.

(** *** Early candidates *)

Definition stash_early_candidate (epoch : N) (candidate : CommitCandidate) (max : N) q :
    ConversationQueues :=
  let kept := filterb (λ p : N * CommitCandidate, (p.1 =? epoch)%N) (early_candidates q) in
  let duplicate := existsb (λ p : N * CommitCandidate, bool_decide (commit_message p.2 = commit_message candidate)) kept in
  if duplicate || (max <=? len kept)%N then set_early kept q
  else set_early (kept ++ [(epoch, candidate)]) q.
Definition take_early_candidates (epoch : N) q : ConversationQueues * list CommitCandidate :=
  (set_early [] q, (filterb (λ p : N * CommitCandidate, (p.1 =? epoch)%N) (early_candidates q)).*2).

(** *** Pending updates *)

Definition insert_pending_update (request : ConversationUpdateRequest) (current_epoch : N) q :
    ConversationQueues * bool :=
  match target_member_id_of request with
  | None => (q, false)
  | Some key =>
      match pending_updates q !! key with
      | Some _ => (q, false)
      | None => (set_pending (<[key := mk_pending_update request current_epoch]> (pending_updates q)) q, true)
      end
  end.
Definition remove_pending_update (member_id : bytes) q : ConversationQueues * bool :=
  (set_pending (delete member_id (pending_updates q)) q,
   bool_decide (is_Some (pending_updates q !! member_id))).
Definition has_pending_update q (member_id : bytes) : bool :=
  bool_decide (is_Some (pending_updates q !! member_id)).
Definition pending_update_count q : N := N.of_nat (size (pending_updates q)).
Definition expire_pending_updates `{!HashIter} (current_epoch max_age : N) q :
    ConversationQueues * list bytes :=
  let cutoff := saturating_sub current_epoch max_age in
  let expired := (filterb (λ kv : bytes * PendingUpdate, (first_seen_epoch kv.2 <? cutoff)%N)
                    (hash_iter (pending_updates q))).*1 in
  (set_pending (foldl (λ m k, delete k m) (pending_updates q) expired) q, expired).

(** *** Urgent target *)

Definition set_urgent_commit_target (target : bytes) q : ConversationQueues := set_urgent (Some target) q.
Definition take_urgent_commit_target q : ConversationQueues * option bytes :=
  (set_urgent None q, urgent_commit_target q).
End queues.

(** ** Facts *)

Section bounded_set_facts.
Context {T : Type} `{!EqDecision T}.
Implicit Types (b : BoundedSet T).

(** Distinct items, within a capacity of at least one. *)
Record bs_ok b : Prop := {
  bso_nodup : NoDup (bs_items b);
  bso_len : (len (bs_items b) ≤ bs_capacity b)%N;
  bso_cap : (1 ≤ bs_capacity b)%N;
}.

Lemma bs_new_ok c : bs_ok (bs_new (T := T) c).
Proof. split; cbn; [by apply NoDup_nil_2|apply N.le_0_l|lia]. Qed.

(** Enough fuel drops exactly the excess. *)
Lemma evict_drop fuel cap (items : list T) :
  length items ≤ fuel → evict fuel cap items = drop (length items - N.to_nat cap) items.
Proof.
  revert items. induction fuel as [|fuel IH]; intros items Hf; cbn.
  { by destruct items; [|cbn in Hf; lia]. }
  unfold len. destruct (N.ltb_spec cap (N.of_nat (length items))) as [Hlt|Hge].
  - destruct items as [|x items]; [cbn in Hlt; lia|]. cbn [tail]. cbn [length] in *.
    rewrite IH by lia.
    replace (S (length items) - N.to_nat cap) with (S (length items - N.to_nat cap)) by lia. done.
  - by replace (length items - N.to_nat cap) with 0 by lia.
Qed.

Lemma bs_insert_eq x b :
  bs_ok b →
  bs_insert x b =
    if bs_contains b x then (b, false)
    else (mk_bset ((if (len (bs_items b) =? bs_capacity b)%N then tail (bs_items b) else bs_items b) ++ [x])
            (bs_capacity b), true).
Proof.
  intros [_ Hl Hc]. unfold bs_insert, bs_contains. case_match; [done|]. do 2 f_equal.
  rewrite evict_drop by done. rewrite length_app. cbn [length].
  unfold len in *. destruct (N.eqb_spec (N.of_nat (length (bs_items b))) (bs_capacity b)) as [He|He].
  - replace (length (bs_items b) + 1 - N.to_nat (bs_capacity b)) with 1 by lia.
    destruct (bs_items b); [cbn in *; lia|done].
  - by replace (length (bs_items b) + 1 - N.to_nat (bs_capacity b)) with 0 by lia.
Qed.

Lemma bs_insert_ok x b : bs_ok b → bs_ok (bs_insert x b).1.
Proof.
  intros Hb. rewrite bs_insert_eq by done. destruct Hb as [Hn Hl Hc]. unfold bs_contains.
  destruct (contains (bs_items b) x) eqn:Hx; [done|]. apply contains_false in Hx.
  split; cbn; [|unfold len in *|done].
  - assert (∀ k : list T, NoDup k → x ∉ k → NoDup (k ++ [x])) as Happ.
    { intros k ? ?. apply NoDup_app. split_and!; [done|set_solver|apply NoDup_singleton]. }
    case_match; [|by apply Happ]. destruct (bs_items b) as [|y k]; [by apply NoDup_singleton|].
    cbn. apply Happ; [by inversion Hn|set_solver].
  - rewrite length_app. cbn. case_match; bool_simpl; [|lia].
    destruct (bs_items b); cbn in *; lia.
Qed.

(** A dedup window never loses its bound and forgets only its oldest entry. On
    a well-formed set [insert] says whether the item is new; the set stays well
    formed and holds the item; a repeated item changes nothing; a new item goes
    last, and exactly the oldest entry is evicted when the set was full, the
    eviction loop needing no more iterations than there are items. *)
Theorem bounded_set_insert x b :
  bs_ok b →
  bs_ok (bs_insert x b).1 ∧
  ((bs_insert x b).2 = true ↔ x ∉ bs_items b) ∧
  x ∈ bs_items (bs_insert x b).1 ∧
  bs_items (bs_insert x b).1 =
    if decide (x ∈ bs_items b) then bs_items b
    else drop (if decide (len (bs_items b) = bs_capacity b) then 1 else 0) (bs_items b) ++ [x].
Proof.
  intros Hb. pose proof (bs_insert_ok x b Hb). rewrite bs_insert_eq in * by done.
  unfold bs_contains in *. destruct (contains (bs_items b) x) eqn:Hx.
  - apply contains_true in Hx. rewrite decide_True by done. naive_solver.
  - apply contains_false in Hx. rewrite decide_False by done. cbn.
    split_and!; [done|naive_solver|set_solver|].
    destruct (N.eqb_spec (len (bs_items b)) (bs_capacity b)).
    + rewrite decide_True by done. by destruct (bs_items b).
    + by rewrite decide_False by done.
Qed.
End bounded_set_facts.

Lemma bounded_set_insert_witness :
  bs_items (bs_insert 4%N (mk_bset [1; 2; 3]%N 3)).1 = [2; 3; 4]%N.
Proof.
  destruct (bounded_set_insert 4%N (mk_bset [1; 2; 3]%N 3)) as (_ & _ & _ & E).
  - split; [apply (bool_decide_unpack _)|..]; by vm_compute.
  - rewrite E. by vm_compute.
Defined.

Section queues_facts.
Context {HS : Hash} {OM : OpenMls}.
Implicit Types (q : ConversationQueues).

(** *** Bookkeeping after a merge *)

Lemma has_approved_removal_elem q id :
  has_approved_removal q id = true ↔ ∃ pid, (pid, remove_member_request id) ∈ approved_proposals q.
Proof.
  unfold has_approved_removal, im_values. rewrite existsb_elem. setoid_rewrite list_elem_of_fmap.
  split.
  - intros (req & ([pid req'] & -> & Hin) & Hr). exists pid. cbn in *.
    destruct req' as [[[]|]]; try done. cbn in Hr. apply bool_decide_eq_true in Hr. by subst.
  - intros (pid & Hin). exists (remove_member_request id). split; [by exists (pid, remove_member_request id)|].
    by apply bool_decide_eq_true.
Qed.

Lemma drop_approved_removals_spec target q p :
  p ∈ approved_proposals (drop_approved_removals_for target q) ↔
  p ∈ approved_proposals q ∧ removes_member p.2 target = false.
Proof. cbn. unfold im_retain. rewrite elem_of_filterb, negb_true_iff. naive_solver. Qed.

Lemma foldl_forget_joins removed q :
  member_join_epoch (foldl (λ q m, forget_removed m q) q removed) =
  foldl (λ j m, delete (member_id_of (mid_leaf m)) j) (member_join_epoch q) removed.
Proof. revert q. induction removed as [|m removed IH]; intros q; [done|]. cbn. by rewrite IH. Qed.

Lemma foldl_record_joins epoch added q :
  member_join_epoch (foldl (λ q m, record_added epoch m q) q added) =
  foldl (λ j m, <[member_id_of (leaf_index m) := epoch]> j) (member_join_epoch q) added.
Proof. revert q. induction added as [|m added IH]; intros q; [done|]. cbn. by rewrite IH. Qed.

Lemma foldl_delete_lookup {K V} `{Countable K} (ks : list K) (j : gmap K V) k :
  foldl (λ j k, delete k j) j ks !! k = if decide (k ∈ ks) then None else j !! k.
Proof.
  revert j. induction ks as [|k' ks IH]; intros j; [done|]. cbn. rewrite IH.
  destruct (decide (k ∈ ks)); [by rewrite decide_True by set_solver|].
  destruct (decide (k = k')) as [->|Hne].
  - rewrite decide_True by set_solver. by rewrite lookup_delete_eq.
  - rewrite decide_False by set_solver. by rewrite lookup_delete_ne.
Qed.

Lemma foldl_insert_lookup {K V} `{Countable K} (ks : list K) (v : V) (j : gmap K V) k :
  foldl (λ j k, <[k := v]> j) j ks !! k = if decide (k ∈ ks) then Some v else j !! k.
Proof.
  revert j. induction ks as [|k' ks IH]; intros j; [done|]. cbn. rewrite IH.
  destruct (decide (k ∈ ks)); [by rewrite decide_True by set_solver|].
  destruct (decide (k = k')) as [->|Hne].
  - rewrite decide_True by set_solver. by rewrite lookup_insert_eq.
  - rewrite decide_False by set_solver. by rewrite lookup_insert_ne.
Qed.

Lemma foldl_fmap {A B C} (f : C → B → C) (g : A → B) (l : list A) c :
  foldl (λ c a, f c (g a)) c l = foldl f c (g <$> l).
Proof. revert c. induction l as [|a l IH]; intros c; [done|]. cbn. apply IH. Qed.

Definition removed_ids (d : MembershipDelta) : list bytes := (λ m, member_id_of (mid_leaf m)) <$> delta_removed d.
Definition added_ids (d : MembershipDelta) : list bytes := (λ m, member_id_of (leaf_index m)) <$> delta_added d.

Lemma bookkeeping_joins epoch q d id :
  pending_membership_delta q = Some d →
  member_join_epoch (apply_membership_delta_bookkeeping epoch q) !! id =
    if decide (id ∈ added_ids d) then Some epoch
    else if decide (id ∈ removed_ids d) then None
    else member_join_epoch q !! id.
Proof.
  intros Hd. unfold apply_membership_delta_bookkeeping. rewrite Hd.
  rewrite foldl_record_joins, foldl_forget_joins.
  rewrite (foldl_fmap (λ j k, <[k := epoch]> j) (λ m, member_id_of (leaf_index m))).
  rewrite (foldl_fmap (λ j k, delete k j) (λ m, member_id_of (mid_leaf m))).
  by rewrite foldl_insert_lookup, foldl_delete_lookup.
Qed.

Lemma bookkeeping_approved epoch q d :
  pending_membership_delta q = Some d →
  approved_proposals (apply_membership_delta_bookkeeping epoch q) =
  foldl (λ a id, im_retain (λ _ req, negb (removes_member req id)) a) (approved_proposals q) (removed_ids d).
Proof.
  intros Hd. unfold apply_membership_delta_bookkeeping. rewrite Hd.
  assert (∀ l q0, approved_proposals (foldl (λ q m, record_added epoch m q) q0 l) = approved_proposals q0) as ->.
  { induction l as [|m l IH]; intros q0; [done|]. cbn. by rewrite IH. }
  unfold removed_ids. rewrite <-(foldl_fmap (λ a id, im_retain (λ _ req, negb (removes_member req id)) a)).
  clear Hd. generalize (delta_removed d). intros l. revert q. induction l as [|m l IH]; intros q; [done|].
  cbn. by rewrite IH.
Qed.

Lemma elem_of_foldl_retain (ids : list bytes) (a : list (N * ConversationUpdateRequest)) p :
  p ∈ foldl (λ a id, im_retain (λ _ req, negb (removes_member req id)) a) a ids ↔
  p ∈ a ∧ ∀ id, id ∈ ids → removes_member p.2 id = false.
Proof.
  revert a. induction ids as [|i ids IH]; intros a; cbn; [set_solver|].
  rewrite IH. unfold im_retain. rewrite elem_of_filterb, negb_true_iff. set_solver.
Qed.

Lemma bookkeeping_pending epoch q d k :
  pending_membership_delta q = Some d →
  pending_updates (apply_membership_delta_bookkeeping epoch q) !! k =
    if decide (k ∈ removed_ids d ++ (signature_key <$> delta_added d)) then None
    else pending_updates q !! k.
Proof.
  intros Hd. unfold apply_membership_delta_bookkeeping. rewrite Hd.
  assert (∀ l q0, pending_updates (foldl (λ q m, record_added epoch m q) q0 l) =
    foldl (λ p k, delete k p) (pending_updates q0) (signature_key <$> l)) as ->.
  { induction l as [|m l IH]; intros q0; [done|]. cbn. by rewrite IH. }
  assert (∀ l q0, pending_updates (foldl (λ q m, forget_removed m q) q0 l) =
    foldl (λ p k, delete k p) (pending_updates q0) ((λ m, member_id_of (mid_leaf m)) <$> l)) as ->.
  { induction l as [|m l IH]; intros q0; [done|]. cbn. by rewrite IH. }
  rewrite <-foldl_app. apply foldl_delete_lookup.
Qed.

(** What the bookkeeping of a merged commit does. With the merge's delta
    stashed, every added member is unsettled in the commit's epoch and settled in
    any later one; a member that was removed and not added again counts as never
    tracked, so a leaf reused later starts afresh; every other member's settled
    status is unchanged at every epoch; and afterwards no approved removal and no
    pending update is left for a removed member, nor a pending invite for a joiner,
    while every other entry stays. *)
Theorem membership_bookkeeping epoch q d :
  pending_membership_delta q = Some d →
  let q' := apply_membership_delta_bookkeeping epoch q in
  (∀ id e, is_settled q' id e =
     if decide (id ∈ added_ids d) then (epoch <? e)%N
     else if decide (id ∈ removed_ids d) then true else is_settled q id e) ∧
  (∀ id, id ∈ removed_ids d → has_approved_removal q' id = false) ∧
  (∀ pid req, (pid, req) ∈ approved_proposals q' ↔
     (pid, req) ∈ approved_proposals q ∧ ∀ id, id ∈ removed_ids d → removes_member req id = false) ∧
  (∀ k, pending_updates q' !! k =
     if decide (k ∈ removed_ids d ++ (signature_key <$> delta_added d)) then None
     else pending_updates q !! k).
Proof.
  intros Hd. cbn zeta. split_and!.
  - intros id e. unfold is_settled. rewrite (bookkeeping_joins _ _ _ _ Hd). by repeat case_decide.
  - intros id Hid. unfold has_approved_removal. apply existsb_not_elem. intros req Hreq.
    unfold im_values in Hreq. apply list_elem_of_fmap in Hreq as ([pid r] & -> & Hin).
    rewrite (bookkeeping_approved _ _ _ Hd), elem_of_foldl_retain in Hin. by apply Hin.
  - intros pid req. by rewrite (bookkeeping_approved _ _ _ Hd), elem_of_foldl_retain.
  - intros k. by apply bookkeeping_pending.
Qed.
End queues_facts.

Section buffers_facts.
Context {HS : Hash} {OM : OpenMls} `{!HashIter}.
Implicit Types (q : ConversationQueues).

(** A buffered membership update lives its whole age window and no longer.
    After [expire_pending_updates], an entry is still there exactly when it was
    there and at most [max_age] epochs have passed since it was first seen; the
    returned keys are the keys of the entries that went, each once, in whatever
    order the map iterates; and an entry that is refreshed by a second insertion
    keeps the epoch it was first seen at, so it cannot outlive the window. *)
Theorem expire_pending_updates_window epoch max_age q :
  let '(q', expired) := expire_pending_updates epoch max_age q in
  (∀ k p, pending_updates q' !! k = Some p ↔
     pending_updates q !! k = Some p ∧ (epoch ≤ first_seen_epoch p + max_age)%N) ∧
  (∀ k, k ∈ expired ↔ is_Some (pending_updates q !! k) ∧ pending_updates q' !! k = None) ∧
  NoDup expired ∧
  (∀ k p r e, pending_updates q !! k = Some p → target_member_id_of r = Some k →
     insert_pending_update r e q = (q, false)).
Proof.
  cbn. set (exp := (filterb _ (hash_iter _)).*1). unfold saturating_sub in *.
  assert (∀ k, k ∈ exp ↔ ∃ p, pending_updates q !! k = Some p ∧ (first_seen_epoch p < epoch - max_age)%N) as Hexp.
  { intros k. unfold exp. rewrite list_elem_of_fmap. split.
    - intros ([k' p] & -> & [Hlt Hin]%elem_of_filterb). apply elem_of_hash_iter in Hin.
      exists p. by apply N.ltb_lt in Hlt.
    - intros (p & Hp & Hlt). exists (k, p). split; [done|]. apply elem_of_filterb.
      split; [by apply N.ltb_lt|]. by apply elem_of_hash_iter. }
  split_and!.
  - intros k p. rewrite foldl_delete_lookup. destruct (decide (k ∈ exp)) as [Hk|Hk].
    + apply Hexp in Hk as (p' & Hp' & Hlt). split; [done|]. intros [Hp Hle]. simplify_eq. lia.
    + split.
      * intros Hp. split; [done|]. destruct (N.leb_spec epoch (first_seen_epoch p + max_age)) as [|Hlt]; [done|].
        destruct Hk. apply Hexp. exists p. split; [done|lia].
      * by intros [? _].
  - intros k. rewrite foldl_delete_lookup. destruct (decide (k ∈ exp)) as [Hk|Hk].
    + split; [|done]. intros _. apply Hexp in Hk as (p & Hp & _). eauto.
    + split; [done|]. intros [[p Hp] Hn]. congruence.
  - unfold exp. apply filterb_keys_nodup. apply hash_iter_nodup.
  - intros k p r e Hk Hr. unfold insert_pending_update. by rewrite Hr, Hk.
Qed.

(** The early stash holds candidates of one epoch, with distinct commit messages,
    at most [cap] of them. *)
Record early_ok (cap : N) (es : list (N * CommitCandidate)) : Prop := {
  eo_epoch : ∃ e, ∀ p, p ∈ es → p.1 = e;
  eo_nodup : NoDup ((λ p, commit_message p.2) <$> es);
  eo_len : (len es ≤ cap)%N;
}.

(** The stash of early candidates is bounded and never replays across epochs.
    Stashing keeps it well formed at the cap given; the new candidate is in it
    unless its commit message is already there for this epoch or the cap is full;
    nothing of another epoch survives; and taking the stash empties it and returns
    exactly the entries of the epoch asked for, in arrival order. *)
Theorem early_stash_spec epoch c cap q :
  early_ok cap (early_candidates q) →
  let q' := stash_early_candidate epoch c cap q in
  let held := filterb (λ p : N * CommitCandidate, (p.1 =? epoch)%N) (early_candidates q) in
  early_ok cap (early_candidates q') ∧
  early_candidates q' =
    (if decide (commit_message c ∈ (λ p, commit_message p.2) <$> held ∨ (cap ≤ len held)%N)
     then held else held ++ [(epoch, c)]) ∧
  (take_early_candidates epoch q').2 = (early_candidates q').*2 ∧
  (∀ e, e ≠ epoch → (take_early_candidates e q').2 = []) ∧
  early_candidates (take_early_candidates epoch q').1 = [].
Proof.
  intros [Hep Hnd Hlen]. cbn zeta. set (held := filterb _ _).
  assert (∀ p, p ∈ held → p.1 = epoch ∧ p ∈ early_candidates q) as Hheld.
  { intros p [Hp Hin]%elem_of_filterb. apply N.eqb_eq in Hp. done. }
  assert (NoDup ((λ p, commit_message p.2) <$> held)) as Hnd'.
  { eapply sublist_NoDup; [exact Hnd|]. apply fmap_sublist, sublist_filter. }
  assert (len held ≤ cap)%N as Hlen'.
  { pose proof (length_filterb (λ p : N * CommitCandidate, (p.1 =? epoch)%N) (early_candidates q)) as Hlf.
    fold held in Hlf. clear -Hlf Hlen. unfold len in *. lia. }
  assert (early_candidates (stash_early_candidate epoch c cap q) =
    (if decide (commit_message c ∈ (λ p, commit_message p.2) <$> held ∨ (cap ≤ len held)%N)
     then held else held ++ [(epoch, c)])) as Heq.
  { unfold stash_early_candidate. fold held.
    assert ((existsb (λ p : N * CommitCandidate, bool_decide (commit_message p.2 = commit_message c)) held
      || (cap <=? len held)%N) = true ↔
      commit_message c ∈ (λ p, commit_message p.2) <$> held ∨ (cap ≤ len held)%N) as Hx.
    { rewrite orb_true_iff, existsb_elem, N.leb_le, list_elem_of_fmap. setoid_rewrite bool_decide_eq_true.
      split; (intros [(p & ? & ?)|?]; [left; exists p; naive_solver|by right]). }
    destruct (_ || _); case_decide; naive_solver. }
  assert (∀ p, p ∈ early_candidates (stash_early_candidate epoch c cap q) → p.1 = epoch) as Hall.
  { rewrite Heq. intros p. case_decide; [intros Hp; by apply Hheld|].
    intros [Hp|Hp%list_elem_of_singleton]%elem_of_app; [by apply Hheld|by subst]. }
  split_and!.
  - split; [by exists epoch|..]; rewrite Heq.
    + case_decide as Hd; [done|]. rewrite fmap_app. apply NoDup_app.
      split_and!; [done| |apply NoDup_singleton]. set_solver.
    + case_decide as Hd; [done|]. unfold len in *. rewrite length_app. cbn. lia.
  - done.
  - cbn. f_equal. apply filterb_all. intros p Hp. apply N.eqb_eq. by apply Hall.
  - intros e He. unfold take_early_candidates. cbn [snd]. rewrite filterb_none; [done|].
    intros p Hp%Hall. apply N.eqb_neq. congruence.
  - done.
Qed.
End buffers_facts.

Definition example_member : Member := mk_member 3 [x0a] [x0b].
Definition example_queues : ConversationQueues :=
  store_membership_delta (mk_delta [example_member] [mk_member_handle 1 [x0c]])
    (insert_approved_proposal 9 (remove_member_request (member_id_of 1)) (queues_new "room" 8)).

Lemma membership_bookkeeping_witness :
  is_settled (apply_membership_delta_bookkeeping 7 example_queues) (member_id_of 3) 7 = false ∧
  has_approved_removal (apply_membership_delta_bookkeeping 7 example_queues) (member_id_of 1) = false.
Proof.
  destruct (membership_bookkeeping 7 example_queues
    (mk_delta [example_member] [mk_member_handle 1 [x0c]]) eq_refl) as (Hs & Hr & _).
  split.
  - rewrite Hs. by vm_compute.
  - apply Hr. left.
Defined.

Lemma early_stash_spec_witness :
  (take_early_candidates 4 (stash_early_candidate 4 example_candidate 2 example_queues)).2 = [example_candidate].
Proof.
  destruct (early_stash_spec 4 example_candidate 2 example_queues) as (_ & E & T & _).
  - split; [exists 0%N; set_solver|by apply NoDup_nil_2|by vm_compute].
  - rewrite T, E. by vm_compute.
Defined.
