(* ===== verification/Scoring.v ===== *)
(** * Peer scoring: [src/peer_scoring/] and the storage of [src/defaults.rs]

    [types.rs], [storage.rs], [helpers.rs] and [service.rs]. The score table is a
    backend of the integrator's, the trait [PeerScoreStorage]: a class of four
    fallible operations, with [PeerScoreStorageLaws] for what the trait documents
    of them. The service is proved against the class; [InMemoryPeerScoreStorage] is
    the implementation the crate ships. *)

From S2P Require Import Prelude Protos.

(** ** Types *)

#[export] Instance score_event_countable : Countable ScoreEvent.
Proof.
  refine (inj_countable'
    (λ e, match e with
          | BrokenCommit => 0 | BrokenMlsProposal => 1 | CensorshipInactivity => 2
          | EmergencyYesCreator => 3 | EmergencyNoCreator => 4 | SuccessfulCommit => 5
          | HonestCommitAttempt => 6 | MisbehavingCommit => 7 end)
    (λ n, match n with
          | 0 => BrokenCommit | 1 => BrokenMlsProposal | 2 => CensorshipInactivity
          | 3 => EmergencyYesCreator | 4 => EmergencyNoCreator | 5 => SuccessfulCommit
          | 6 => HonestCommitAttempt | _ => MisbehavingCommit end) _).
  by intros [].
Defined.

Definition default_delta (e : ScoreEvent) : Z :=
  match e with
  | BrokenCommit => -50
  | BrokenMlsProposal => -30
  | CensorshipInactivity => -40
  | EmergencyYesCreator => 20
  | EmergencyNoCreator => -50
  | SuccessfulCommit => 10
  | HonestCommitAttempt => 5
  | MisbehavingCommit => -10
  end.

Definition default_score_deltas : gmap ScoreEvent Z :=
  list_to_map ((λ e, (e, default_delta e)) <$>
    [BrokenCommit; BrokenMlsProposal; CensorshipInactivity; EmergencyYesCreator;
     EmergencyNoCreator; SuccessfulCommit; HonestCommitAttempt; MisbehavingCommit]).

Definition DEFAULT_PEER_SCORE : Z := 100.
Definition DEFAULT_THRESHOLD_PEER_SCORE : Z := 0.

Record ScoringConfig := mk_scoring_config { default_score : Z; threshold : Z }.
Definition scoring_config_default : ScoringConfig :=
  mk_scoring_config DEFAULT_PEER_SCORE DEFAULT_THRESHOLD_PEER_SCORE.
Definition scoring_config_validate (c : ScoringConfig) : res unit :=
  if (default_score c <=? 0)%Z then
    Err (InvalidConfig ("default_peer_score must be positive, got " +:+ pretty (default_score c)))
  else if (default_score c <=? threshold c)%Z then
    Err (InvalidConfig "default_peer_score must be greater than threshold")
  else Ok tt.

Record ScoreSnapshot := mk_score_snapshot { diverged : list (bytes * Z) }.
Record ScoreChange := mk_score_change { ch_member_id : bytes; ch_previous : Z; ch_score : Z }.
#[export] Instance score_change_eq_dec : EqDecision ScoreChange.
Proof. solve_decision. Defined.
Record ScoringMemberDiff := mk_scoring_diff { to_add : list bytes; to_remove : list bytes }.

(** ** Helpers *)

Definition scoring_member_diff (scored mls_members : list bytes) : ScoringMemberDiff :=
  mk_scoring_diff
    (filterb (λ m, negb (contains scored m)) mls_members)
    (filterb (λ m, negb (contains mls_members m)) scored).

Definition creator_reward (ev : ViolationEvidence) : ScoreOp :=
  mk_score_op (creator_member_id ev) EmergencyYesCreator.
Definition creator_penalty (ev : ViolationEvidence) : ScoreOp :=
  mk_score_op (creator_member_id ev) EmergencyNoCreator.

Definition emergency_score_ops (request : ConversationUpdateRequest) (approved : bool) : list ScoreOp :=
  match req_payload request with
  | Some (EmergencyCriteria (Some evidence)) =>
      if approved then creator_reward evidence :: option_list (target_score_op evidence)
      else [creator_penalty evidence]
  | _ => []
  end.

(** ** PeerScoreStorage *)

Class PeerScoreStorage (St : Type) := {
  ps_get : bytes → St → result ext_error (option Z);
  ps_set : bytes → Z → St → St * result ext_error unit;
  ps_remove : bytes → St → St * result ext_error unit;
  ps_all_scores : St → result ext_error (list (bytes * Z));
}.

(** The table a backend holds. A call that succeeds did what it says; a write that
    fails wrote nothing, which the trait leaves open and is assumed here. *)
Class PeerScoreStorageLaws (St : Type) `{!PeerScoreStorage St} := {
  contents : St → gmap bytes Z;
  ps_get_ok k s v : ps_get k s = Ok v → v = contents s !! k;
  ps_set_ok k v s s' : ps_set k v s = (s', Ok tt) → contents s' = <[k := v]> (contents s);
  ps_set_err k v s s' e : ps_set k v s = (s', Err e) → contents s' = contents s;
  ps_remove_ok k s s' : ps_remove k s = (s', Ok tt) → contents s' = delete k (contents s);
  ps_all_ok s l : ps_all_scores s = Ok l → l ≡ₚ map_to_list (contents s);
}.

(** [InMemoryPeerScoreStorage] of [src/defaults.rs]. *)
Record InMemoryPeerScoreStorage := mk_in_memory { scores : gmap bytes Z }.
#[export] Instance in_memory_storage `{!HashIter} : PeerScoreStorage InMemoryPeerScoreStorage := {|
  ps_get k s := Ok (scores s !! k);
  ps_set k v s := (mk_in_memory (<[k := v]> (scores s)), Ok tt);
  ps_remove k s := (mk_in_memory (delete k (scores s)), Ok tt);
  ps_all_scores s := Ok (hash_iter (scores s));
|}.
#[export] Program Instance in_memory_laws `{!HashIter} : PeerScoreStorageLaws InMemoryPeerScoreStorage := {|
  contents := scores;
|}.
Solve All Obligations with (intros; simplify_eq/=; try done).
Next Obligation. intros ? s l [= <-]. apply hash_iter_perm. Qed.

(** A backend whose writes do not fail. *)
Class ScoreWritesSucceed (St : Type) `{!PeerScoreStorage St} : Prop := {
  ps_set_succeeds k v s : is_ok (ps_set k v s).2 = true;
  ps_remove_succeeds k s : is_ok (ps_remove k s).2 = true;
}.
#[export] Instance in_memory_writes_succeed `{!HashIter} : ScoreWritesSucceed InMemoryPeerScoreStorage.
Proof. by split. Qed.

(** ** PeerScoringService *)

Record PeerScoringService (St : Type) := mk_scoring {
  sc_storage : St;
  sc_deltas : gmap ScoreEvent Z;
  sc_config : ScoringConfig;
}.
Arguments mk_scoring {St} _ _ _.
Arguments sc_storage {St} _.
Arguments sc_deltas {St} _.
Arguments sc_config {St} _.

Section service.
Context {St : Type} `{!PeerScoreStorage St}.
Abbreviation Svc := (PeerScoringService St).
Implicit Types (s : Svc).

(** [extend] lets an override replace the default. *)
Definition scoring_new (storage : St) (overrides : gmap ScoreEvent Z) (config : ScoringConfig) : Svc :=
  mk_scoring storage (overrides ∪ default_score_deltas) config.

(** [unwrap] on the table, which [scoring_new] leaves total. *)
Definition score_delta s (event : ScoreEvent) : Z := default 0%Z (sc_deltas s !! event).

Definition set_storage (st : St) s : Svc := mk_scoring st (sc_deltas s) (sc_config s).
Definition set_scoring_config (c : ScoringConfig) s : Svc := mk_scoring (sc_storage s) (sc_deltas s) c.
Definition storage_write (m : St → St * result ext_error unit) : method Svc unit :=
  λ s, let '(st, r) := m (sc_storage s) in (set_storage st s, result_map_err ScoreStorage r).
Definition storage_read {A} (m : St → result ext_error A) : method Svc A :=
  λ s, (s, result_map_err ScoreStorage (m (sc_storage s))).

Definition add_member (member_id : bytes) : method Svc unit :=
  λ s, storage_write (ps_set member_id (default_score (sc_config s))) s.
Definition remove_member (member_id : bytes) : method Svc unit := storage_write (ps_remove member_id).

(** [touched.iter().position(..)] and [touched[index].2 = score]. *)
Fixpoint touched_get (touched : list (bytes * Z * Z)) (id : bytes) : option Z :=
  match touched with
  | [] => None
  | (id', _, score) :: touched => if decide (id' = id) then Some score else touched_get touched id
  end.
Fixpoint touched_set (touched : list (bytes * Z * Z)) (id : bytes) (score : Z) : list (bytes * Z * Z) :=
  match touched with
  | [] => []
  | (id', p, sc) :: touched =>
      if decide (id' = id) then (id', p, score) :: touched
      else (id', p, sc) :: touched_set touched id score
  end.

(** The loop over [ops], with [touched] as its accumulator. *)
Fixpoint apply_ops_loop (ops : list ScoreOp) (touched : list (bytes * Z * Z)) :
    method Svc (list (bytes * Z * Z)) :=
  match ops with
  | [] => sret touched
  | op :: ops =>
      let id := op_member_id op in
      let! found := match touched_get touched id with
        | Some score => sret (Some (touched, score))
        | None =>
            let! stored := storage_read (ps_get id) in
            sret match stored with
                 | None => None
                 | Some score => Some (touched ++ [(id, score, score)], score)
                 end
        end in
      match found with
      | None => apply_ops_loop ops touched
      | Some (touched, current) =>
          let! delta := sget (λ s, score_delta s (op_event op)) in
          let score := i64_saturating_add current delta in
          storage_write (ps_set id score) ;!
          apply_ops_loop ops (touched_set touched id score)
      end
  end.

Definition net_changes (touched : list (bytes * Z * Z)) : list ScoreChange :=
  (λ t : bytes * Z * Z, mk_score_change t.1.1 t.1.2 t.2) <$>
    filterb (λ t : bytes * Z * Z, negb (t.1.2 =? t.2)%Z) touched.

Definition apply_ops (ops : list ScoreOp) : method Svc (list ScoreChange) :=
  let! touched := apply_ops_loop ops [] in
  sret (net_changes touched).

Fixpoint apply_snapshot_loop (default_sc : Z) (entries : list (bytes * Z)) (changes : list ScoreChange) :
    method Svc (list ScoreChange) :=
  match entries with
  | [] => sret changes
  | (member_id, score) :: entries =>
      let! stored := storage_read (ps_get member_id) in
      let previous := default default_sc stored in
      storage_write (ps_set member_id score) ;!
      apply_snapshot_loop default_sc entries
        (if (score =? previous)%Z then changes else changes ++ [mk_score_change member_id previous score])
  end.
Definition apply_snapshot (snap : ScoreSnapshot) : method Svc (list ScoreChange) :=
  λ s, apply_snapshot_loop (default_score (sc_config s)) (diverged snap) [] s.

Definition scoring_snapshot s : res ScoreSnapshot :=
  let? l := result_map_err ScoreStorage (ps_all_scores (sc_storage s)) in
  Ok (mk_score_snapshot (filterb (λ p : bytes * Z, negb (p.2 =? default_score (sc_config s))%Z) l)).

Definition score_for s (member_id : bytes) : res (option Z) :=
  result_map_err ScoreStorage (ps_get member_id (sc_storage s)).
Definition all_members_with_scores s : res (list (bytes * Z)) :=
  result_map_err ScoreStorage (ps_all_scores (sc_storage s)).
Definition set_threshold (t : Z) s : Svc :=
  set_scoring_config (mk_scoring_config (default_score (sc_config s)) t) s.
Definition validate_config s : res unit := scoring_config_validate (sc_config s).

Definition rebase_entry (previous new : Z) (entry : bytes * Z) : method Svc unit :=
  if (entry.2 =? previous)%Z then storage_write (ps_set entry.1 new) else sret tt.
Definition set_default_score (new : Z) : method Svc unit :=
  λ s, let previous := default_score (sc_config s) in
    (smodify (set_scoring_config (mk_scoring_config new (threshold (sc_config s)))) ;!
     if (previous =? new)%Z then sret tt else
     let! l := storage_read ps_all_scores in
     sfor l (rebase_entry previous new)) s.
End service.

(** ** Facts *)

Section service_facts.
Context {St : Type} `{!PeerScoreStorage St, !PeerScoreStorageLaws St}.
Abbreviation Svc := (PeerScoringService St).
Implicit Types (s : Svc) (t : list (bytes * Z * Z)).

Definition table s : gmap bytes Z := contents (sc_storage s).

(** The abstract effect of one op on a table. *)
Definition score_step (deltas : gmap ScoreEvent Z) (m : gmap bytes Z) (op : ScoreOp) : gmap bytes Z :=
  match m !! op_member_id op with
  | None => m
  | Some v => <[op_member_id op := i64_saturating_add v (default 0%Z (deltas !! op_event op))]> m
  end.

Definition ids_of t : list bytes := (λ e : bytes * Z * Z, e.1.1) <$> t.

Lemma touched_get_some t id sc : touched_get t id = Some sc → ∃ p, (id, p, sc) ∈ t.
Proof.
  induction t as [|[[id' p] sc'] t IH]; cbn; [done|]. case_decide.
  - intros [= ->]. subst. exists p. left.
  - intros [p' Hp]%IH. exists p'. by right.
Qed.

Lemma touched_get_none t id : touched_get t id = None → id ∉ ids_of t.
Proof.
  induction t as [|[[id' p] sc'] t IH]; cbn; [set_solver|]. case_decide; [done|].
  intros Hn%IH. set_solver.
Qed.

Lemma touched_set_ids t id sc : ids_of (touched_set t id sc) = ids_of t.
Proof.
  induction t as [|[[id' p] sc'] t IH]; [done|]. cbn. case_decide; cbn; [done|].
  f_equal. apply IH.
Qed.

Lemma elem_of_touched_set t id sc e :
  NoDup (ids_of t) → e ∈ touched_set t id sc →
  (e.1.1 = id ∧ e.2 = sc ∧ ∃ sc0, (id, e.1.2, sc0) ∈ t) ∨ (e.1.1 ≠ id ∧ e ∈ t).
Proof.
  induction t as [|[[id' p] sc'] t IH]; cbn; [set_solver|]. intros Hn. inversion Hn as [|? ? Hnin Hn']; subst.
  case_decide as Hd; intros [->|Hin]%elem_of_cons.
  - left. subst. split_and!; [done..|]. exists sc'. left.
  - right. subst. split; [|by right]. intros Heq. apply Hnin. cbn.
    apply list_elem_of_fmap. exists e. by rewrite Heq.
  - right. split; [done|left].
  - destruct (IH Hn' Hin) as [(? & ? & sc0 & Hsc)|[? ?]]; [left|right].
    + split_and!; [done..|]. exists sc0. by right.
    + split; [done|by right].
Qed.

(** [t] remembers the table [m0] the batch started from and agrees with [m]. *)
Record touched_ok (m0 m : gmap bytes Z) t : Prop := {
  to_nodup : NoDup (ids_of t);
  to_agree : ∀ id p sc, (id, p, sc) ∈ t → m0 !! id = Some p ∧ m !! id = Some sc;
  to_rest : ∀ id, id ∉ ids_of t → m !! id = m0 !! id;
}.

Lemma touched_ok_push m0 m t id v :
  touched_ok m0 m t → id ∉ ids_of t → m !! id = Some v → touched_ok m0 m (t ++ [(id, v, v)]).
Proof.
  intros [Hn Ha Hr] Hid Hv. split.
  - unfold ids_of. rewrite fmap_app. apply NoDup_app. split_and!; [done| |apply NoDup_singleton].
    cbn. set_solver.
  - intros id' p sc [Hin|Hin%list_elem_of_singleton]%elem_of_app; [by apply Ha|].
    simplify_eq. by rewrite <-Hr.
  - intros id' Hnin. apply Hr. unfold ids_of in *. rewrite fmap_app in Hnin. set_solver.
Qed.

Lemma touched_ok_set m0 m t id v sc :
  touched_ok m0 m t → touched_get t id = Some v → touched_ok m0 (<[id := sc]> m) (touched_set t id sc).
Proof.
  intros [Hn Ha Hr] Hg. apply touched_get_some in Hg as [p Hin]. split.
  - by rewrite touched_set_ids.
  - intros id' p' sc' He. apply elem_of_touched_set in He as [(Hi & Hs & sc0 & H0)|[Hi H0]]; [..|done]; cbn in *.
    + subst. rewrite lookup_insert_eq. split; [|done]. by apply Ha in H0 as [? _].
    + rewrite lookup_insert_ne by done. by apply Ha.
  - intros id'. rewrite touched_set_ids. intros Hnin. rewrite lookup_insert_ne; [by apply Hr|].
    intros ->. apply Hnin. unfold ids_of. apply list_elem_of_fmap. by exists (id', p, v).
Qed.

Lemma storage_write_ok m s s' :
  storage_write m s = (s', Ok tt) → ∃ st, m (sc_storage s) = (st, Ok tt) ∧ s' = set_storage st s.
Proof. unfold storage_write. destruct (m (sc_storage s)) as [st [[]|e]]; cbn; [|done]. intros [= <-]. eauto. Qed.

Lemma storage_write_err m s s' e :
  storage_write m s = (s', Err e) → ∃ st e', m (sc_storage s) = (st, Err e') ∧ s' = set_storage st s.
Proof. unfold storage_write. destruct (m (sc_storage s)) as [st [[]|e']]; cbn; [done|]. intros [= <- _]. eauto. Qed.

(** What an invocation leaves of the batch: the ops that took effect. *)
Definition applied_prefix s s' (ops done : list ScoreOp) : Prop :=
  done `prefix_of` ops ∧ table s' = foldl (score_step (sc_deltas s)) (table s) done ∧
  sc_deltas s' = sc_deltas s ∧ sc_config s' = sc_config s.

Lemma touched_get_push t id v : id ∉ ids_of t → touched_get (t ++ [(id, v, v)]) id = Some v.
Proof.
  induction t as [|[[id' p] sc] t IH]; cbn; intros Hn; [by rewrite decide_True|].
  rewrite decide_False by set_solver. apply IH. set_solver.
Qed.

(** One op: where its score is read from and what is written. *)
Lemma apply_ops_loop_step op ops t s m0 :
  touched_ok m0 (table s) t →
  apply_ops_loop (op :: ops) t s =
    match touched_get t (op_member_id op), ps_get (op_member_id op) (sc_storage s) with
    | None, Err e => (s, Err (ScoreStorage e))
    | None, Ok None => apply_ops_loop ops t s
    | Some v, _ | None, Ok (Some v) =>
        let t := match touched_get t (op_member_id op) with
                 | Some _ => t | None => t ++ [(op_member_id op, v, v)] end in
        let sc := i64_saturating_add v (score_delta s (op_event op)) in
        (storage_write (ps_set (op_member_id op) sc) ;!
         apply_ops_loop ops (touched_set t (op_member_id op) sc)) s
    end.
Proof.
  intros _. cbn [apply_ops_loop]. unfold sbind at 1.
  destruct (touched_get t _) as [v|]; [done|]. unfold storage_read, sbind at 1, sret at 1.
  by destruct (ps_get _ _) as [[v|]|e].
Qed.

Lemma apply_ops_loop_inv ops t s m0 s' r :
  touched_ok m0 (table s) t → apply_ops_loop ops t s = (s', r) →
  ∃ done, applied_prefix s s' ops done ∧
    match r with
    | Ok t' => done = ops ∧ touched_ok m0 (table s') t'
    | Err _ => done ≠ ops
    end.
Proof.
  revert t s. induction ops as [|op ops IH]; intros t s Ht.
  { intros [= <- <-]. exists []. done. }
  rewrite (apply_ops_loop_step _ _ _ _ _ Ht). set (id := op_member_id op).
  (* the branch that writes *)
  assert (∀ t1 v, touched_ok m0 (table s) t1 → touched_get t1 id = Some v →
    (let sc := i64_saturating_add v (score_delta s (op_event op)) in
     (storage_write (ps_set id sc) ;! apply_ops_loop ops (touched_set t1 id sc)) s) = (s', r) →
    ∃ done, applied_prefix s s' (op :: ops) done ∧
      match r with Ok t' => done = op :: ops ∧ touched_ok m0 (table s') t' | Err _ => done ≠ op :: ops end) as Hw.
  { intros t1 v Ht1 Hg. cbn zeta. unfold sbind.
    assert (table s !! id = Some v) as Hv.
    { apply touched_get_some in Hg as [p Hin]. by apply (to_agree _ _ _ Ht1) in Hin as [_ ?]. }
    destruct (storage_write _ s) as [s1 [[]|e]] eqn:E.
    - apply storage_write_ok in E as (st & Hst & ->). apply ps_set_ok in Hst.
      intros Hl. pose proof (touched_ok_set _ _ _ _ _ (i64_saturating_add v (score_delta s (op_event op))) Ht1 Hg) as Ht2.
      unfold table at 1 in Ht2. rewrite <-Hst in Ht2.
      destruct (IH _ (set_storage st s) Ht2 Hl) as (done & (Hp & Htab & Hd & Hc) & Hr).
      exists (op :: done). split.
      + split_and!; [by apply prefix_cons| |done..]. rewrite Htab. cbn. f_equal.
        unfold score_step. fold id. rewrite Hv. exact Hst.
      + destruct r; [|by intros [= ->]]. destruct Hr as [-> ?]. done.
    - apply storage_write_err in E as (st & e' & Hst & ->). apply ps_set_err in Hst.
      intros [= <- <-]. exists []. split; [|done]. split_and!; [apply prefix_nil|exact Hst|done..]. }
  destruct (touched_get t id) as [v|] eqn:Hg.
  { by apply Hw. }
  destruct (ps_get id (sc_storage s)) as [[v|]|e] eqn:Hps.
  - apply touched_get_none in Hg as Hnin. apply ps_get_ok in Hps.
    apply Hw; [by apply touched_ok_push|by apply touched_get_push].
  - intros Hl. destruct (IH _ _ Ht Hl) as (done & (Hp & Htab & Hd & Hc) & Hr). exists (op :: done).
    split.
    + split_and!; [by apply prefix_cons| |done..]. rewrite Htab. cbn. f_equal. unfold score_step.
      apply ps_get_ok in Hps. fold id. unfold table. by rewrite <-Hps.
    + destruct r; [|by intros [= ->]]. destruct Hr as [-> ?]. done.
  - intros [= <- <-]. exists []. split; [|done]. split_and!; [apply prefix_nil|done..].
Qed.

Lemma touched_ok_nil m : touched_ok m m [].
Proof. split; [apply NoDup_nil_2|set_solver|done]. Qed.
End service_facts.

Section scoring_properties.
Context {St : Type} `{!PeerScoreStorage St, !PeerScoreStorageLaws St}.
Abbreviation Svc := (PeerScoringService St).
Implicit Types (s : Svc).

Lemma elem_of_net_changes t c :
  c ∈ net_changes t ↔ (ch_member_id c, ch_previous c, ch_score c) ∈ t ∧ ch_previous c ≠ ch_score c.
Proof.
  unfold net_changes. rewrite list_elem_of_fmap. split.
  - intros ([[id p] sc] & -> & [Hne Hin]%elem_of_filterb). cbn in *. bool_simpl.
    by apply Z.eqb_neq in Hne.
  - intros [Hin Hne]. exists (ch_member_id c, ch_previous c, ch_score c). destruct c; cbn in *.
    split; [done|]. apply elem_of_filterb. split; [|done]. cbn. by apply negb_true_iff, Z.eqb_neq.
Qed.

Lemma net_changes_nodup t : NoDup (ids_of t) → NoDup (ch_member_id <$> net_changes t).
Proof.
  intros Hn. unfold net_changes. rewrite <-list_fmap_compose.
  eapply sublist_NoDup; [exact Hn|]. apply fmap_sublist, sublist_filter.
Qed.

Lemma score_step_range deltas m op :
  map_Forall (λ _ v, is_i64 v) m → map_Forall (λ _ v, is_i64 v) (score_step deltas m op).
Proof.
  intros Hm. unfold score_step. destruct (m !! _); [|done].
  apply map_Forall_insert_2; auto with demls.
Qed.

Lemma score_step_dom deltas m op : dom (score_step deltas m op) = dom m.
Proof.
  unfold score_step. destruct (m !! op_member_id op) as [v|] eqn:E; [|done].
  rewrite dom_insert_lookup_L; eauto.
Qed.

(** C34: a batch of score ops that succeeds is the fold of its ops over the table,
    and reports net results. Each op adds its delta to its member's score, clamped
    to the [i64] range; ops against untracked members do nothing and track nobody;
    the configuration and the deltas are untouched; and the reported changes are
    exactly the members whose final score differs from the one before the batch,
    once each, with those two scores. *)
Theorem apply_ops_refines ops s changes :
  (apply_ops ops s).2 = Ok changes →
  let s' := (apply_ops ops s).1 in
  table s' = foldl (score_step (sc_deltas s)) (table s) ops ∧
  sc_deltas s' = sc_deltas s ∧ sc_config s' = sc_config s ∧
  dom (table s') = dom (table s) ∧
  (map_Forall (λ _ v, is_i64 v) (table s) → map_Forall (λ _ v, is_i64 v) (table s')) ∧
  NoDup (ch_member_id <$> changes) ∧
  (∀ id p v, mk_score_change id p v ∈ changes ↔
     table s !! id = Some p ∧ table s' !! id = Some v ∧ p ≠ v).
Proof.
  destruct (apply_ops ops s) as [s' r] eqn:Eo. cbn zeta. cbn [fst snd]. intros ->. revert Eo.
  unfold apply_ops. intros (s1 & t & Hl & Hr)%sbind_ok. injection Hr as <- <-.
  destruct (apply_ops_loop_inv _ _ _ (table s) _ _ (touched_ok_nil _) Hl)
    as (dn & (Hp & Htab & Hd & Hc) & -> & [Hn Ha Hrest]).
  split_and!; [done..| | | |].
  - rewrite Htab. clear. generalize (table s). induction ops as [|op ops IH]; intros m; [done|].
    cbn. by rewrite IH, score_step_dom.
  - rewrite Htab. clear. generalize (table s). induction ops as [|op ops IH]; intros m Hm; [done|].
    cbn. by apply IH, score_step_range.
  - by apply net_changes_nodup.
  - intros id p v. rewrite elem_of_net_changes. cbn. split.
    + intros [Hin Hne]. apply Ha in Hin as [? ?]. done.
    + intros (Hp0 & Hv & Hne). split; [|done].
      destruct (decide (id ∈ ids_of t)) as [Hin|Hnin].
      * unfold ids_of in Hin. apply list_elem_of_fmap in Hin as ([[id' p'] sc'] & -> & Hin). cbn in *.
        pose proof (Ha _ _ _ Hin) as [? ?]. by simplify_eq.
      * apply Hrest in Hnin. congruence.
Qed.

(** C39: a batch whose storage fails half-way keeps what landed. On an error the
    table is the fold of a strict prefix of the ops, so the scores written before
    the failure stay written although no change is reported for them. *)
Theorem apply_ops_failure_keeps_prefix ops s e :
  (apply_ops ops s).2 = Err e →
  let s' := (apply_ops ops s).1 in
  ∃ dn, dn `prefix_of` ops ∧ dn ≠ ops ∧
    table s' = foldl (score_step (sc_deltas s)) (table s) dn ∧
    sc_deltas s' = sc_deltas s ∧ sc_config s' = sc_config s.
Proof.
  unfold apply_ops, sbind. destruct (apply_ops_loop ops [] s) as [s1 [t|e1]] eqn:E; [done|].
  intros _.
  destruct (apply_ops_loop_inv _ _ _ (table s) _ _ (touched_ok_nil _) E) as (dn & (? & ? & ? & ?) & ?).
  by exists dn.
Qed.

(** *** The table a sync carries *)

Lemma sfor_rebase old new l s s' :
  NoDup l.*1 →
  sfor l (rebase_entry old new) s = (s', Ok tt) →
  (∀ id, table s' !! id = if decide ((id, old) ∈ l) then Some new else table s !! id) ∧
  sc_config s' = sc_config s.
Proof.
  revert s. induction l as [|[id0 v0] l IH]; intros s Hn.
  { intros [= <-]. done. }
  inversion Hn as [|? ? Hnin Hn']; subst. cbn [sfor]. rewrite sbind_ok. unfold rebase_entry at 1. cbn [fst snd].
  intros (s1 & [] & H1 & H2). destruct (IH _ Hn' H2) as [Ht Hc].
  assert ((∀ id, table s1 !! id = if decide (id = id0 ∧ v0 = old) then Some new else table s !! id)
          ∧ sc_config s1 = sc_config s) as [Ht1 Hc1].
  { destruct (Z.eqb_spec v0 old) as [->|Hne].
    - apply storage_write_ok in H1 as (st & Hst & ->). apply ps_set_ok in Hst. split; [|done].
      intros id. unfold table. cbn. rewrite Hst. destruct (decide (id = id0)) as [->|Hid].
      + by rewrite lookup_insert_eq, decide_True.
      + rewrite lookup_insert_ne by done. by rewrite decide_False by naive_solver.
    - injection H1 as <-. split; [|done]. intros id. by rewrite decide_False by naive_solver. }
  split; [|congruence]. intros id. rewrite Ht, Ht1.
  destruct (decide ((id, old) ∈ l)) as [Hin|Hnl]; [by rewrite decide_True by set_solver|].
  destruct (decide (id = id0 ∧ v0 = old)) as [Hd|Hd].
  - destruct Hd as [-> ->]. rewrite decide_True; [done|]. apply elem_of_cons. by left.
  - rewrite decide_False; [done|]. rewrite elem_of_cons. naive_solver.
Qed.

Lemma set_default_score_ok new s s' :
  set_default_score new s = (s', Ok tt) →
  table s' = (λ v, if (v =? default_score (sc_config s))%Z then new else v) <$> table s ∧
  sc_config s' = mk_scoring_config new (threshold (sc_config s)).
Proof.
  unfold set_default_score. cbn zeta. rewrite sbind_ok. intros (s1 & [] & [= <-] & H).
  set (old := default_score (sc_config s)) in *. destruct (Z.eqb_spec old new) as [<-|Hne].
  - injection H as <-. split; [|done]. unfold table. cbn. apply map_eq. intros k.
    rewrite lookup_fmap. destruct (contents (sc_storage s) !! k) as [v|]; [|done]. cbn.
    f_equal. by destruct (Z.eqb_spec v old).
  - apply sbind_ok in H as (s2 & l & Hl & Hf). unfold storage_read in Hl.
    destruct (ps_all_scores _) as [l0|] eqn:E; [|done]. injection Hl as <- <-.
    apply ps_all_ok in E. cbn [sc_storage set_scoring_config] in E.
    apply sfor_rebase in Hf as [Ht Hc]; [|rewrite E; apply NoDup_fst_map_to_list].
    split; [|by rewrite Hc]. apply map_eq. intros k. rewrite Ht, lookup_fmap.
    change (table (set_scoring_config _ s)) with (table s).
    assert ((k, old) ∈ l0 ↔ table s !! k = Some old) as Hk by (by rewrite E, elem_of_map_to_list).
    destruct (table s !! k) as [v|] eqn:Hv; cbn.
    + destruct (Z.eqb_spec v old) as [->|?]; case_decide; naive_solver.
    + rewrite decide_False by naive_solver. done.
Qed.

Lemma apply_snapshot_loop_ok d entries changes s s' cs :
  apply_snapshot_loop d entries changes s = (s', Ok cs) →
  table s' = foldl (λ m (e : bytes * Z), <[e.1 := e.2]> m) (table s) entries ∧ sc_config s' = sc_config s.
Proof.
  revert changes s. induction entries as [|[id v] entries IH]; intros changes s.
  { intros [= <- <-]. done. }
  cbn [apply_snapshot_loop]. unfold storage_read at 1. rewrite sbind_ok. intros (s1 & o & H1 & H2).
  destruct (ps_get id (sc_storage s)); [|done]. injection H1 as <- _.
  apply sbind_ok in H2 as (s2 & [] & Hw & H3). apply storage_write_ok in Hw as (st & Hst & ->).
  apply ps_set_ok in Hst. apply IH in H3 as [Ht Hc]. split; [|done].
  rewrite Ht. cbn. unfold table at 1. cbn. by rewrite Hst.
Qed.

Lemma foldl_insert_pairs {K V} `{Countable K} (l : list (K * V)) (m : gmap K V) k v :
  NoDup l.*1 → (k, v) ∈ l → foldl (λ m (e : K * V), <[e.1 := e.2]> m) m l !! k = Some v.
Proof.
  assert (∀ l (m : gmap K V) k, k ∉ l.*1 → foldl (λ m (e : K * V), <[e.1 := e.2]> m) m l !! k = m !! k) as Hout.
  { intros l0. induction l0 as [|[k0 v0] l0 IH]; intros m0 k' Hk; [done|]. cbn in *. rewrite IH by set_solver.
    apply lookup_insert_ne. set_solver. }
  revert m. induction l as [|[k0 v0] l IH]; intros m Hn Hin; [set_solver|].
  inversion Hn; subst. apply elem_of_cons in Hin as [[= -> ->]|Hin]; cbn.
  - rewrite Hout by done. apply lookup_insert_eq.
  - by apply IH.
Qed.

Lemma foldl_insert_pairs_out {K V} `{Countable K} (l : list (K * V)) (m : gmap K V) k :
  k ∉ l.*1 → foldl (λ m (e : K * V), <[e.1 := e.2]> m) m l !! k = m !! k.
Proof.
  revert m. induction l as [|[k0 v0] l IH]; intros m Hk; [done|]. cbn in *. rewrite IH by set_solver.
  apply lookup_insert_ne. set_solver.
Qed.

(** The score table survives the sparse sync encoding. A joiner that tracks the
    sender's members, all still at its own assumed default, and that adopts the
    sender's default and then applies the sender's snapshot ends with exactly the
    sender's table, the members the snapshot omitted included, and with the
    sender's default and its own threshold. *)
Theorem score_sync_roundtrip sender joiner snap cs :
  let j1 := (set_default_score (default_score (sc_config sender)) joiner).1 in
  let j2 := (apply_snapshot snap j1).1 in
  scoring_snapshot sender = Ok snap →
  dom (table joiner) = dom (table sender) →
  map_Forall (λ _ v, v = default_score (sc_config joiner)) (table joiner) →
  (set_default_score (default_score (sc_config sender)) joiner).2 = Ok tt →
  (apply_snapshot snap j1).2 = Ok cs →
  table j2 = table sender ∧
  sc_config j2 = mk_scoring_config (default_score (sc_config sender)) (threshold (sc_config joiner)).
Proof.
  cbn zeta. destruct (set_default_score _ joiner) as [j1 r1] eqn:Hset. cbn [fst snd].
  destruct (apply_snapshot snap j1) as [j2 r2] eqn:Happ. cbn [fst snd].
  intros Hsnap Hdom Hall -> ->. apply set_default_score_ok in Hset as [Ht1 Hc1].
  unfold apply_snapshot in Happ. apply apply_snapshot_loop_ok in Happ as [Ht2 Hc2].
  split; [|by rewrite Hc2]. set (d := default_score (sc_config sender)) in *.
  unfold scoring_snapshot in Hsnap. destruct (ps_all_scores (sc_storage sender)) as [l|] eqn:E; [|done].
  injection Hsnap as <-. fold d in Ht2. cbn [diverged] in Ht2. apply ps_all_ok in E.
  assert (NoDup l.*1) as Hnd by (rewrite E; apply NoDup_fst_map_to_list).
  set (out := filterb _ l) in Ht2.
  assert (NoDup out.*1) as Hno by (by apply (filterb_keys_nodup (K := bytes))).
  assert (∀ k v, (k, v) ∈ out ↔ table sender !! k = Some v ∧ v ≠ d) as Hout.
  { intros k v. unfold out. rewrite elem_of_filterb, E, elem_of_map_to_list. cbn.
    rewrite negb_true_iff, Z.eqb_neq. naive_solver. }
  apply map_eq. intros k. rewrite Ht2. destruct (decide (k ∈ out.*1)) as [Hk|Hk].
  - apply list_elem_of_fmap in Hk as ([k' v] & -> & Hin). cbn.
    rewrite (foldl_insert_pairs _ _ _ _ Hno Hin). by apply Hout in Hin as [-> _].
  - rewrite foldl_insert_pairs_out, Ht1, lookup_fmap by done.
    assert (is_Some (table joiner !! k) ↔ is_Some (table sender !! k)) as Hiff.
    { rewrite <-!elem_of_dom. by rewrite Hdom. }
    destruct (table joiner !! k) as [v|] eqn:Hj; cbn.
    + rewrite (Hall _ _ Hj), Z.eqb_refl. destruct Hiff as [Hs _].
      destruct (Hs ltac:(eauto)) as [w Hw]. rewrite Hw. f_equal.
      destruct (decide (w = d)) as [->|Hne]; [done|]. destruct Hk.
      apply list_elem_of_fmap. exists (k, w). split; [done|]. by apply Hout.
    + destruct (table sender !! k) as [w|] eqn:Hw; [|done].
      destruct Hiff as [_ Hs]. destruct (Hs ltac:(eauto)). congruence.
Qed.
End scoring_properties.

(** ** The properties at concrete inputs *)

(** A backend that fails once its write budget is spent, as the failing storage of
    [src/test_fixtures.rs] does. *)
Record BudgetStorage := mk_budget { bud_scores : gmap bytes Z; bud_writes : nat }.
#[export] Instance budget_storage : PeerScoreStorage BudgetStorage := {|
  ps_get k s := Ok (bud_scores s !! k);
  ps_set k v s := match bud_writes s with
                  | O => (s, Err "write budget spent"%string)
                  | S n => (mk_budget (<[k := v]> (bud_scores s)) n, Ok tt)
                  end;
  ps_remove k s := (mk_budget (delete k (bud_scores s)) (bud_writes s), Ok tt);
  ps_all_scores s := Ok (map_to_list (bud_scores s));
|}.
#[export] Instance budget_laws : PeerScoreStorageLaws BudgetStorage.
Proof.
  refine {| contents := bud_scores |}.
  - by intros k s v [= <-].
  - intros k v s s'. cbn. destruct (bud_writes s); by intros [= <-].
  - intros k v s s' e. cbn. destruct (bud_writes s); by intros [= <-].
  - by intros k s s' [= <-].
  - by intros s l [= <-].
Defined.

Definition example_scores : gmap bytes Z := {[ [x01] := 100%Z; [x02] := 100%Z ]}.
Definition example_scoring (writes : nat) : PeerScoringService BudgetStorage :=
  scoring_new (mk_budget example_scores writes) ∅ scoring_config_default.
Definition example_ops : list ScoreOp := [mk_score_op [x01] BrokenCommit; mk_score_op [x02] BrokenCommit].

Lemma apply_ops_refines_witness :
  table (apply_ops example_ops (example_scoring 2)).1 !! [x01] = Some 50%Z.
Proof.
  assert ((apply_ops example_ops (example_scoring 2)).2
    = Ok [mk_score_change [x01] 100 50; mk_score_change [x02] 100 50]) as E by (by vm_compute).
  pose proof (apply_ops_refines _ _ _ E) as [H _]. rewrite H. by vm_compute.
Defined.

Lemma apply_ops_failure_keeps_prefix_witness :
  ∃ dn, dn `prefix_of` example_ops ∧ dn ≠ example_ops ∧
    table (apply_ops example_ops (example_scoring 1)).1 =
      foldl (score_step (sc_deltas (example_scoring 1))) (table (example_scoring 1)) dn.
Proof.
  assert ((apply_ops example_ops (example_scoring 1)).2 = Err (ScoreStorage "write budget spent")) as E
    by (by vm_compute).
  pose proof (apply_ops_failure_keeps_prefix _ _ _ E) as (dn & ? & ? & ? & _).
  exists dn. split_and!; assumption.
Defined.

Definition example_joiner : PeerScoringService BudgetStorage :=
  scoring_new (mk_budget {[ [x01] := 80%Z; [x02] := 80%Z ]} 9) ∅ (mk_scoring_config 80 0).
Definition example_sender : PeerScoringService BudgetStorage := (apply_ops [mk_score_op [x01] BrokenCommit] (example_scoring 1)).1.

Lemma score_sync_roundtrip_witness :
  table (apply_snapshot (mk_score_snapshot [([x01], 50%Z)]) (set_default_score 100 example_joiner).1).1
  = table example_sender.
Proof.
  assert (scoring_snapshot example_sender = Ok (mk_score_snapshot [([x01], 50%Z)])) as Hs by (by vm_compute).
  assert (dom (table example_joiner) = dom (table example_sender)) as Hd by (apply (bool_decide_unpack _); by vm_compute).
  assert (map_Forall (λ _ v, v = 80%Z) (table example_joiner)) as Ha by (apply (bool_decide_unpack _); by vm_compute).
  assert ((set_default_score 100 example_joiner).2 = Ok tt) as H1 by (by vm_compute).
  assert ((apply_snapshot (mk_score_snapshot [([x01], 50%Z)]) (set_default_score 100 example_joiner).1).2
    = Ok [mk_score_change [x01] 100 50]) as H2 by (by vm_compute).
  pose proof (score_sync_roundtrip _ _ _ _ Hs Hd Ha H1 H2) as [H _]. exact H.
Defined.
