(* ===== verification/CommitRound.v ===== *)
(** * The commit round: [src/commit_round/]

    [context.rs] (the pre-merge snapshot), [validate.rs] (staging, authorization,
    action check, ranking), [apply.rs] (the apply loop and its two paths) and
    [round.rs] (receiving, replaying and finalizing). A function that takes the
    queues and the MLS service by [&mut] is a [method] on the pair of them. *)

From S2P Require Import Prelude Protos StewardList Mls Toy Buffer Queues.

(** ** RoundContext *)

Record RoundContext := mk_ctx {
  mls_count : N;
  self_remove_pending : bool;
  ctx_current_epoch : N;
  in_recovery : bool;
  epoch_steward_id : option bytes;
}.

Inductive StagingOutcome :=
  | StStaged (commit_sender : bytes) (self_removed : bool) (commit_actions : list MlsProposalOutput)
  | StAbort
  | StViolation (evidence : ViolationEvidence).

Inductive CommitRoundOutcome :=
  | Applied (result : ProcessResult) (welcome : option MemberWelcome)
  | NoCandidate.

Record CommitRoundResult := mk_round_result {
  rr_outcome : CommitRoundOutcome;
  rr_score_ops : list ScoreOp;
  committed_batch : list ConversationUpdateRequest;
}.

Inductive CandidateOutcome :=
  | Terminal (outcome : CommitRoundOutcome) (committer : bytes) (batch : list ConversationUpdateRequest)
  | Drop (penalty : option ScoreOp).

(** ** Validation *)

Inductive ActionKind := AkAdd | AkRemove.
#[export] Instance action_kind_eq_dec : EqDecision ActionKind.
Proof. solve_decision. Defined.

(** The derived order: kinds by discriminant, then the ids as byte strings. *)
Definition action_ordinal (k : ActionKind) : N := match k with AkAdd => 0 | AkRemove => 1 end.
Definition action_cmp : ActionKind * bytes → ActionKind * bytes → comparison :=
  cmp_lex (cmp_on (λ a, action_ordinal a.1) N.compare) (cmp_on snd bytes_cmp).

(** The [Debug] rendering of the lists in the evidence payload. *)
Definition debug_list {A} (show : A → string) (l : list A) : string :=
  "[" +:+ String.concat ", " (show <$> l) +:+ "]".
Definition debug_bytes : bytes → string := debug_list (λ b, pretty (Byte.to_N b)).
Definition debug_output (a : MlsProposalOutput) : string :=
  match a with
  | OutAdd id => "Add(" +:+ debug_bytes id +:+ ")"
  | OutRemove id => "Remove(" +:+ debug_bytes id +:+ ")"
  end.
Definition debug_projection (a : ActionKind * bytes) : string :=
  "(" +:+ (match a.1 with AkAdd => "Add" | AkRemove => "Remove" end) +:+ ", " +:+ debug_bytes a.2 +:+ ")".

Definition str (s : string) : bytes := String.list_byte_of_string s.

Definition action_projection_from_mls (a : MlsProposalOutput) : ActionKind * bytes :=
  match a with OutAdd id => (AkAdd, id) | OutRemove id => (AkRemove, id) end.

(** The number of bundled proposals of a candidate. *)
Definition n_proposals (c : BufferedCommitCandidate) : N := len (mls_proposals (candidate_msg c)).

Definition tier (epoch_steward_id : option bytes) (c : BufferedCommitCandidate) : N :=
  match epoch_steward_id with
  | Some es => if decide (steward_member_id (candidate_msg c) = es) then 0 else 1
  | None => 1
  end.

Definition compare_candidate_priority (es : option bytes) (a b : BufferedCommitCandidate) : comparison :=
  then_with (N.compare (n_proposals b) (n_proposals a))
    (then_with (N.compare (tier es a) (tier es b))
      (then_with (bytes_cmp (steward_member_id (candidate_msg a)) (steward_member_id (candidate_msg b)))
        (bytes_cmp (commit_hash a) (commit_hash b)))).

Definition rank_applicable_candidates (cs : list BufferedCommitCandidate) (ctx : RoundContext)
    (allow_subset : bool) : list BufferedCommitCandidate :=
  sort_by (compare_candidate_priority (epoch_steward_id ctx))
    (filterb (λ c, if allow_subset then (n_proposals c <=? mls_count ctx)%N
                   else (n_proposals c =? mls_count ctx)%N) cs).

Definition record_winner_scores (score_ops : list ScoreOp) (committer self_member_id : bytes)
    (ctx : RoundContext) (losers : list BufferedCommitCandidate) (steward_list : StewardListService) :
    list ScoreOp :=
  score_ops ++ [mk_score_op committer SuccessfulCommit] ++
  match epoch_steward_id ctx with
  | Some expected =>
      if negb (bool_decide (expected = committer)) && negb (bool_decide (expected = self_member_id))
      then [mk_score_op expected CensorshipInactivity] else []
  | None => []
  end ++
  ((λ loser, let claimed := steward_member_id (candidate_msg loser) in
     mk_score_op claimed (if is_steward steward_list claimed then HonestCommitAttempt else MisbehavingCommit))
   <$> losers).

Definition leave_or_update (self_removed : bool) : ProcessResult :=
  if self_removed then LeaveConversation else ConversationUpdated.

Section commit_round.
Context {HS : Hash} {OM : OpenMls}.
Implicit Types (q : ConversationQueues) (mls : MlsService) (sl : StewardListService).

Definition RoundState : Type := ConversationQueues * MlsService.
Abbreviation round_method := (method RoundState).

(** [mls.op()?]: [From<MlsError> for ConversationError]. *)
Definition with_mls {A} (m : mls_method A) : round_method A :=
  λ '(q, mls), let '(mls, r) := m mls in ((q, mls), result_map_err Mls r).
Definition with_queues {A} (f : ConversationQueues → ConversationQueues * A) : round_method A :=
  λ '(q, mls), let '(q, a) := f q in ((q, mls), Ok a).
Definition update_queues (f : ConversationQueues → ConversationQueues) : round_method unit :=
  λ '(q, mls), ((f q, mls), Ok tt).

Definition snapshot q mls sl (current_epoch : N) (recovery : bool) (self_member_id : bytes) : RoundContext :=
  let count := len (filterb produces_mls_action (im_values (approved_proposals q))) in
  let pending := has_approved_removal q self_member_id in
  let members := mls_members mls in
  mk_ctx count pending current_epoch recovery
    (epoch_steward sl current_epoch (steward_eligibility q members)).

Definition stage_candidate (candidate : CommitCandidate) (ctx : RoundContext) : round_method StagingOutcome :=
  λ '(q, mls),
    let '(mls, staged_result) :=
      stage_remote_commit (mls_proposals candidate) (commit_message candidate) mls in
    ((q, mls),
     match staged_result with
     | Ok (ScStaged commit_sender self_removed actions) =>
         if negb (bool_decide (steward_member_id candidate = commit_sender)) then
           Ok (StViolation (broken_commit commit_sender (ctx_current_epoch ctx)
             (str "commit candidate's steward_member_id doesn't match MLS commit sender")))
         else Ok (StStaged commit_sender self_removed actions)
     | Ok (ScBundleSenderMismatch commit_sender) =>
         Ok (StViolation (broken_commit commit_sender (ctx_current_epoch ctx)
           (str "commit bundles proposals not signed by the committer")))
     | Ok ScAborted | Err _ => Ok StAbort
     end).

Definition action_projection_from_request (req : ConversationUpdateRequest) : option (ActionKind * bytes) :=
  match req_payload req with
  | Some (MemberInvite kp) => k ← result_ok (signature_key_of_key_package kp); Some (AkAdd, k)
  | Some (RemoveMember id) => Some (AkRemove, id)
  | _ => None
  end.

Definition validate_commit_candidate q (sender_id : bytes) (mls_actions : list MlsProposalOutput)
    (ctx : RoundContext) : option ViolationEvidence :=
  let expected := omap action_projection_from_request (im_values (approved_proposals q)) in
  let actual := action_projection_from_mls <$> mls_actions in
  let expected := dedup (sort_by action_cmp expected) in
  let actual := dedup (sort_by action_cmp actual) in
  if bool_decide (expected = actual) then None
  else Some (broken_mls_proposal sender_id (ctx_current_epoch ctx)
    (str ("MLS actions " +:+ debug_list debug_output mls_actions +:+ " != voted " +:+
          debug_list debug_projection expected))).

Definition check_commit_sender_authorized sl (commit_sender : bytes) (ctx : RoundContext) :
    option ViolationEvidence :=
  if in_recovery ctx then None else
  match svc_list sl with
  | None => None
  | Some _ =>
      if is_steward sl commit_sender then None
      else Some (misbehaving_commit commit_sender (ctx_current_epoch ctx)
        (str "commit from unauthorized sender (not on the steward list)"))
  end.

(** *** Apply *)

Definition finalize_committed_batch (hash : CommitHash) (current_epoch : N) q :
    ConversationQueues * list ConversationUpdateRequest :=
  let q := insert_committed_hash hash q in
  let q := apply_membership_delta_bookkeeping current_epoch q in
  match take_urgent_commit_target q with
  | (q, Some target) => (drop_approved_removals_for target q, [])
  | (q, None) => drain_approved_proposals q
  end.

Definition apply_local_candidate (chosen : BufferedCommitCandidate) (ctx : RoundContext) :
    round_method CandidateOutcome :=
  let! delta := with_mls merge_own_commit in
  update_queues (store_membership_delta delta) ;!
  let! batch := with_queues (finalize_committed_batch (commit_hash chosen) (ctx_current_epoch ctx + 1)) in
  let welcome := (λ w, mk_welcome w [] (buf_joiner_identities chosen)) <$> buf_welcome_bytes chosen in
  sret (Terminal (Applied (leave_or_update (self_remove_pending ctx)) welcome)
    (steward_member_id (candidate_msg chosen)) batch).

Definition reject_staged (penalty : option ScoreOp) : round_method CandidateOutcome :=
  with_mls discard_staged_commit ;! sret (Drop penalty).

Definition apply_incoming_candidate sl (chosen : BufferedCommitCandidate) (ctx : RoundContext) :
    round_method CandidateOutcome :=
  let! staging := stage_candidate (candidate_msg chosen) ctx in
  match staging with
  | StAbort => reject_staged None
  | StViolation v => reject_staged (target_score_op v)
  | StStaged commit_sender self_removed commit_actions =>
      match check_commit_sender_authorized sl commit_sender ctx with
      | Some violation => reject_staged (target_score_op violation)
      | None =>
          let! q := sget fst in
          match validate_commit_candidate q commit_sender commit_actions ctx with
          | Some violation => reject_staged (target_score_op violation)
          | None =>
              with_mls discard_own_commit ;!
              let! delta := with_mls merge_staged_commit in
              update_queues (store_membership_delta delta) ;!
              let! batch := with_queues
                (finalize_committed_batch (commit_hash chosen) (ctx_current_epoch ctx + 1)) in
              sret (Terminal (Applied (leave_or_update self_removed) None) commit_sender batch)
          end
      end
  end.

Definition discard_and_finish (score_ops : list ScoreOp) : round_method CommitRoundResult :=
  with_mls discard_own_commit ;! sret (mk_round_result NoCandidate score_ops []).

Definition apply_one sl (chosen : BufferedCommitCandidate) (ctx : RoundContext) :
    round_method CandidateOutcome :=
  if is_local_candidate chosen then apply_local_candidate chosen ctx
  else apply_incoming_candidate sl chosen ctx.

(** The loop over [remaining], with [score_ops] as its accumulator. *)
Fixpoint apply_loop sl (remaining : list BufferedCommitCandidate) (ctx : RoundContext)
    (self_member_id : bytes) (score_ops : list ScoreOp) : round_method CommitRoundResult :=
  match remaining with
  | [] => discard_and_finish score_ops
  | chosen :: remaining =>
      let! apply_result := apply_one sl chosen ctx in
      match apply_result with
      | Terminal outcome committer batch =>
          sret (mk_round_result outcome
            (record_winner_scores score_ops committer self_member_id ctx remaining sl) batch)
      | Drop op => apply_loop sl remaining ctx self_member_id (score_ops ++ option_list op)
      end
  end.
Definition apply_in_priority_order sl (sorted : list BufferedCommitCandidate) (ctx : RoundContext)
    (self_member_id : bytes) : round_method CommitRoundResult :=
  apply_loop sl sorted ctx self_member_id [].

(** *** Round *)

Definition receive_commit_candidate mls (msg : CommitCandidate) q : ConversationQueues * ProcessResult :=
  let hash := compute_commit_hash (commit_message msg) in
  if has_committed_hash q hash then (q, Noop AlreadyCommitted) else
  if bool_decide (mls_proposals msg = []) || bool_decide (commit_message msg = [])
  then (q, Noop EmptyCandidatePayload) else
  if bool_decide (steward_member_id msg = []) then (q, Noop EmptyStewardMemberId) else
  let proposals_ok := forallb (λ p, bool_decide (inspect_message_kind p = Ok MkProposal)) (mls_proposals msg) in
  let commit_ok := bool_decide (inspect_message_kind (commit_message msg) = Ok MkCommit) in
  if negb proposals_ok || negb commit_ok then (q, Noop WireKindMismatch) else
  let epoch := g_epoch (mls_group mls) in
  let max_candidates := len (mls_members mls) in
  if (approved_proposals_count q =? 0)%N
  then (stash_early_candidate epoch msg max_candidates q, Noop CandidateStashedEarly)
  else
    let '(b, outcome) := buffer_add msg false None [] epoch max_candidates (commit_round q) in
    (set_round b q, into_process_result outcome (steward_member_id msg)).

Definition replay_early_candidates mls q : ConversationQueues :=
  let epoch := g_epoch (mls_group mls) in
  let '(q, cs) := take_early_candidates epoch q in
  foldl (λ q c, (receive_commit_candidate mls c q).1) q cs.

Definition finalize_commit_round sl (recovery allow_subset : bool) (self_member_id : bytes) :
    round_method CommitRoundResult :=
  let! current_epoch := sget (λ st, g_epoch (mls_group st.2)) in
  let! cs := with_queues (λ q, let '(b, cs) := buffer_take current_epoch (commit_round q) in (set_round b q, cs)) in
  if bool_decide (cs = []) then discard_and_finish [] else
  let! ctx := sget (λ st, snapshot st.1 st.2 sl current_epoch recovery self_member_id) in
  let sorted := rank_applicable_candidates cs ctx allow_subset in
  if bool_decide (sorted = []) then discard_and_finish []
  else apply_in_priority_order sl sorted ctx self_member_id.
End commit_round.
Abbreviation round_method := (method RoundState).

(** ** Facts *)

#[export] Instance action_cmp_order : CmpOrder action_cmp.
Proof. apply cmp_lex_order; apply _. Qed.
#[export] Instance action_cmp_eq : CmpEq action_cmp.
Proof.
  intros [k1 i1] [k2 i2]. unfold action_cmp, cmp_lex, cmp_on, then_with. cbn [fst snd].
  destruct (N.compare_spec (action_ordinal k1) (action_ordinal k2)) as [Hk|?|?]; [|done..].
  intros ->%(cmp_eq (cmp := bytes_cmp)). f_equal. by destruct k1, k2.
Qed.

(** The priority order as a composition of orders. *)
Lemma compare_priority_lex es a b :
  compare_candidate_priority es a b =
    cmp_lex (cmp_rev (cmp_on n_proposals N.compare))
      (cmp_lex (cmp_on (tier es) N.compare)
        (cmp_lex (cmp_on (λ c, steward_member_id (candidate_msg c)) bytes_cmp)
          (cmp_on commit_hash bytes_cmp))) a b.
Proof. done. Qed.
#[export] Instance compare_priority_order es : CmpOrder (compare_candidate_priority es).
Proof.
  assert (CmpOrder (cmp_lex (cmp_rev (cmp_on n_proposals N.compare))
      (cmp_lex (cmp_on (tier es) N.compare)
        (cmp_lex (cmp_on (λ c, steward_member_id (candidate_msg c)) bytes_cmp)
          (cmp_on commit_hash bytes_cmp))))) as H by (repeat apply cmp_lex_order; apply _).
  destruct H as [Ho Ht]. split; [exact Ho|exact Ht].
Qed.
Lemma compare_priority_tie es a b : compare_candidate_priority es a b = Eq → commit_hash a = commit_hash b.
Proof.
  unfold compare_candidate_priority, then_with.
  repeat (case_match; try done). intros H'. by apply (cmp_eq (cmp := bytes_cmp)) in H'.
Qed.

Lemma nodup_fmap_inj_in {A B} (f : A → B) l x y :
  NoDup (f <$> l) → x ∈ l → y ∈ l → f x = f y → x = y.
Proof.
  induction l as [|z l IH]; intros Hn Hx Hy Hf; [set_solver|].
  cbn in Hn. inversion Hn as [|? ? Hnin Hn']; subst.
  apply elem_of_cons in Hx as [->|Hx], Hy as [->|Hy]; [done|..].
  - destruct Hnin. rewrite Hf. by apply list_elem_of_fmap_2.
  - destruct Hnin. rewrite <-Hf. by apply list_elem_of_fmap_2.
  - by apply IH.
Qed.

Section ranking.
(** Every member ranks the same candidates the same way. Ranking keeps exactly
    the candidates whose proposal count matches the voted set (or does not exceed
    it, when subsets are allowed) and orders them by the RFC priority; and as long
    as no two buffered candidates share a commit hash, the order candidates arrived
    in makes no difference, so members with the same buffer try the same winner
    first. *)
Theorem ranking_deterministic cs cs' ctx allow :
  NoDup (commit_hash <$> cs) → cs ≡ₚ cs' →
  rank_applicable_candidates cs ctx allow = rank_applicable_candidates cs' ctx allow ∧
  StronglySorted (cmp_le (compare_candidate_priority (epoch_steward_id ctx)))
    (rank_applicable_candidates cs ctx allow) ∧
  (∀ c, c ∈ rank_applicable_candidates cs ctx allow ↔
     c ∈ cs ∧ if allow then (n_proposals c ≤ mls_count ctx)%N else n_proposals c = mls_count ctx).
Proof.
  intros Hn Hp. unfold rank_applicable_candidates. split_and!.
  - apply sort_by_unique; [apply _| |by apply filterb_perm].
    intros x y [_ Hx]%elem_of_filterb [_ Hy]%elem_of_filterb Ht%compare_priority_tie.
    by apply (nodup_fmap_inj_in commit_hash cs).
  - apply sort_by_sorted, _.
  - intros c. rewrite elem_of_sort_by, elem_of_filterb.
    destruct allow; [rewrite N.leb_le|rewrite N.eqb_eq]; naive_solver.
Qed.

(** What ranks first: a candidate with more proposals before one with fewer, and
    among equals the epoch steward's own. *)
Lemma priority_more_proposals es a b :
  (n_proposals b < n_proposals a)%N → compare_candidate_priority es a b = Lt.
Proof. intros Hlt. unfold compare_candidate_priority. apply N.compare_lt_iff in Hlt. by rewrite Hlt. Qed.
End ranking.

Section validation.
Context {HS : Hash} {OM : OpenMls}.
Implicit Types (q : ConversationQueues) (sl : StewardListService).

Definition voted_actions q : list (ActionKind * bytes) :=
  omap action_projection_from_request (im_values (approved_proposals q)).

Lemma validate_none_iff q sender actions ctx :
  validate_commit_candidate q sender actions ctx = None ↔
  ∀ a, a ∈ voted_actions q ↔ a ∈ action_projection_from_mls <$> actions.
Proof.
  unfold validate_commit_candidate. fold (voted_actions q).
  rewrite <-(sort_dedup_set_eq action_cmp action_cmp_eq). case_bool_decide; naive_solver.
Qed.

(** C23: a commit passes the action check exactly when the membership changes it
    makes are the voted ones, compared as sets: every voted add or removal is in the
    commit and nothing else is, whatever the order and the duplicates on either
    side. A failing commit is blamed on its sender as a broken MLS proposal of the
    round's epoch, which costs that sender and nobody else. *)
Theorem validate_commit_candidate_spec q sender actions ctx :
  (validate_commit_candidate q sender actions ctx = None ↔
     ∀ a, a ∈ voted_actions q ↔ a ∈ action_projection_from_mls <$> actions) ∧
  (∀ ev, validate_commit_candidate q sender actions ctx = Some ev →
     target_score_op ev = Some (mk_score_op sender BrokenMlsProposal) ∧
     ev_epoch ev = ctx_current_epoch ctx).
Proof.
  split; [apply validate_none_iff|]. intros ev. unfold validate_commit_candidate.
  case_bool_decide; [done|]. by intros [= <-].
Qed.

Definition authorized sl (sender : bytes) (ctx : RoundContext) : Prop :=
  in_recovery ctx = true ∨ svc_list sl = None ∨ is_steward sl sender = true.

Lemma check_authorized_iff sl sender ctx :
  check_commit_sender_authorized sl sender ctx = None ↔ authorized sl sender ctx.
Proof.
  unfold check_commit_sender_authorized, authorized.
  destruct (in_recovery ctx); [naive_solver|]. destruct (svc_list sl) as [l|] eqn:E; [|naive_solver].
  destruct (is_steward sl sender); naive_solver.
Qed.
End validation.

Section apply_facts.
Context {HS : Hash} {OM : OpenMls}.
Implicit Types (q : ConversationQueues) (mls : MlsService) (sl : StewardListService)
  (st : RoundState).

Lemma reject_staged_drop penalty st st' r :
  reject_staged penalty st = (st', Ok r) →
  r = Drop penalty ∧ st'.1 = st.1 ∧ pending_staged_commit st'.2 = None.
Proof.
  destruct st as [q mls]. unfold reject_staged, sbind, with_mls, discard_staged_commit.
  unfold sbind, smodify, on_group. destruct (clear_pending_proposals _) as [g [[]|e]]; [|done].
  by intros [= <- <-].
Qed.

Lemma stage_candidate_staged c ctx q mls st' sender self_removed actions :
  stage_candidate c ctx (q, mls) = (st', Ok (StStaged sender self_removed actions)) →
  st'.1 = q ∧ steward_member_id c = sender ∧
  stage_remote_commit (mls_proposals c) (commit_message c) mls = (st'.2, Ok (ScStaged sender self_removed actions)).
Proof.
  unfold stage_candidate. destruct (stage_remote_commit _ _ _) as [mls' r] eqn:E.
  destruct r as [[s0 r0 a0| |s0]|e]; try done.
  destruct (bool_decide_reflect (steward_member_id c = s0)); cbn; [|done]. intros [= <- <- <- <-]. done.
Qed.

Lemma stage_candidate_queues c ctx q mls st' r :
  stage_candidate c ctx (q, mls) = (st', r) → st'.1 = q.
Proof. unfold stage_candidate. destruct (stage_remote_commit _ _ _). by intros [= <- _]. Qed.

Lemma stage_candidate_ok c ctx st st' e : stage_candidate c ctx st ≠ (st', Err e).
Proof.
  destruct st as [q mls]. unfold stage_candidate. destruct (stage_remote_commit _ _ _) as [m [[]|]]; try done.
  by destruct (negb _).
Qed.

(** The tail of a remote candidate that passed: our own commit goes, the staged one is
    merged. *)
Lemma merged_in_turn (hash : bytes) e (k : list ConversationUpdateRequest → CandidateOutcome) q mls st' r :
  (with_mls discard_own_commit ;!
   let! delta := with_mls merge_staged_commit in
   update_queues (store_membership_delta delta) ;!
   let! batch := with_queues (finalize_committed_batch hash e) in
   sret (k batch)) (q, mls) = (st', Ok r) →
  ∃ mls1 mls2 delta batch, discard_own_commit mls = (mls1, Ok tt) ∧
    pending_staged_commit mls1 = pending_staged_commit mls ∧
    merge_staged_commit mls1 = (mls2, Ok delta) ∧ mls2 = st'.2 ∧ r = k batch.
Proof.
  unfold sbind at 1, with_mls at 1. destruct (discard_own_commit mls) as [mls1 [[]|e1]] eqn:Ed; [|done].
  unfold sbind at 1, with_mls. cbn [result_map_err].
  destruct (merge_staged_commit mls1) as [mls2 [d|e2]] eqn:Em; [|done]. cbn [result_map_err].
  unfold sbind, update_queues, with_queues, sret. destruct (finalize_committed_batch _ _ _) as [q' b].
  intros [= <- <-]. exists mls1, mls2, d, b. split_and!; try done.
  unfold discard_own_commit, sbind, on_group in Ed.
  destruct (clear_pending_commit _) as [g [[]|e3]]; [|done]. cbn in Ed.
  destruct (clear_pending_proposals _) as [g2 [[]|e4]]; [|done]. by injection Ed as <-.
Qed.

(** C10: a peer's commit is merged only if it passed every gate. When applying a
    remote candidate ends the round, the engine authenticated every bundled proposal,
    in order, and the commit, one of this group and of this epoch or later, all as
    messages of one member, the committer; the candidate's claimed steward id is that
    committer; the committer is authorized (recovery is on, no list is installed yet,
    or it is on the steward list); the changes of the authenticated commit are exactly
    the voted ones; and it is that very commit, alone in the slot, which the group
    merged, our own pending commit being discarded first. The committer reported is the
    authenticated one. When the candidate is dropped instead, the queues are untouched
    and nothing is left staged. *)
Theorem remote_commit_gates sl chosen ctx st st' r :
  apply_incoming_candidate sl chosen ctx st = (st', Ok r) →
  match r with
  | Terminal outcome committer batch =>
      ∃ staged mls1 mls2 mls3 delta,
        proposals_by committer (mls_proposals (candidate_msg chosen)) st.2 mls1 ∧
        commit_by committer (commit_message (candidate_msg chosen)) mls1 staged mls2 ∧
        steward_member_id (candidate_msg chosen) = committer ∧
        authorized sl committer ctx ∧
        (∀ a, a ∈ voted_actions st.1 ↔ a ∈ action_projection_from_mls <$> staged_actions staged) ∧
        discard_own_commit (set_staged (Some staged) mls2) = (mls3, Ok tt) ∧
        merge_staged_commit mls3 = (st'.2, Ok delta) ∧ pending_staged_commit mls3 = Some staged ∧
        outcome = Applied (leave_or_update (sc_self_removed staged)) None
  | Drop _ => st'.1 = st.1 ∧ pending_staged_commit st'.2 = None
  end.
Proof.
  destruct st as [q mls]. unfold apply_incoming_candidate. rewrite sbind_ok.
  intros ([q1 mls1] & staging & Hst & H). pose proof (stage_candidate_queues _ _ _ _ _ _ Hst) as Hq. cbn in Hq. subst q1.
  destruct staging as [sender self_removed actions| |v].
  2, 3: by apply reject_staged_drop in H as (-> & -> & ?).
  apply stage_candidate_staged in Hst as (_ & Hid & Hst).
  destruct (check_commit_sender_authorized sl sender ctx) as [v|] eqn:Ha.
  { by apply reject_staged_drop in H as (-> & -> & ?). }
  apply check_authorized_iff in Ha. unfold sbind at 1, sget in H. cbn [fst] in H.
  destruct (validate_commit_candidate q sender actions ctx) as [v|] eqn:Hv.
  { by apply reject_staged_drop in H as (-> & -> & ?). }
  rewrite validate_none_iff in Hv. apply merged_in_turn in H as (mls3 & mls4 & d & batch & Hd & Hp & Hm & <- & ->).
  apply stage_remote_commit_by in Hst as (staged & s1 & s2 & H1 & H2 & Hs & -> & ->). cbn [snd] in Hs. subst mls1.
  exists staged, s1, s2, mls3, d. by split_and!.
Qed.

(** *** The apply loop *)

(** What the loop did: the candidates it dropped, and the state it left them in. *)
Inductive dropped_all sl (ctx : RoundContext) : list BufferedCommitCandidate → RoundState →
    RoundState → list ScoreOp → Prop :=
  | dropped_nil st : dropped_all sl ctx [] st st []
  | dropped_cons c cs st st1 st2 op ops :
      apply_one sl c ctx st = (st1, Ok (Drop op)) →
      dropped_all sl ctx cs st1 st2 ops →
      dropped_all sl ctx (c :: cs) st st2 (option_list op ++ ops).

Lemma apply_loop_ok sl cs ctx self ops st st' r :
  apply_loop sl cs ctx self ops st = (st', Ok r) →
  (∃ pre chosen post st1 penalties committer,
     cs = pre ++ chosen :: post ∧ dropped_all sl ctx pre st st1 penalties ∧
     apply_one sl chosen ctx st1 = (st', Ok (Terminal (rr_outcome r) committer (committed_batch r))) ∧
     rr_score_ops r = record_winner_scores (ops ++ penalties) committer self ctx post sl) ∨
  (∃ st1 penalties, dropped_all sl ctx cs st st1 penalties ∧
     r = mk_round_result NoCandidate (ops ++ penalties) [] ∧ st'.1 = st1.1).
Proof.
  revert ops st. induction cs as [|c cs IH]; intros ops st.
  - cbn. unfold discard_and_finish. rewrite sbind_ok. intros (s1 & [] & Hd & [= <- <-]). right.
    exists st, []. rewrite app_nil_r. split_and!; [constructor|done|].
    destruct st as [q mls]. unfold with_mls in Hd. destruct (discard_own_commit mls). by injection Hd as <- _.
  - cbn. rewrite sbind_ok. intros (s1 & out & Ho & H). destruct out as [outcome committer batch|op].
    + injection H as <- <-. left. exists [], c, cs, st, [], committer. rewrite app_nil_r.
      split_and!; [done|constructor|done|done].
    + apply IH in H as [(pre & chosen & post & st1 & pen & com & -> & Hd & Ha & Hr)|(st1 & pen & Hd & -> & Hq)].
      * left. exists (c :: pre), chosen, post, st1, (option_list op ++ pen), com.
        split_and!; [done|by econstructor|done|]. by rewrite Hr, app_assoc.
      * right. exists st1, (option_list op ++ pen).
        split_and!; [by econstructor|by rewrite app_assoc|done].
Qed.

(** A finished round found nothing, or merged a commit and says whether it removed us. *)
Definition round_result_ok (r : CommitRoundResult) : Prop :=
  rr_outcome r = NoCandidate ∨ ∃ b w, rr_outcome r = Applied (leave_or_update b) w.

Lemma apply_one_terminal sl chosen ctx st st' o com batch :
  apply_one sl chosen ctx st = (st', Ok (Terminal o com batch)) → ∃ b w, o = Applied (leave_or_update b) w.
Proof.
  assert (∀ p st, reject_staged p st ≠ (st', Ok (Terminal o com batch))) as Hr.
  { intros p s0 H. by apply reject_staged_drop in H as [? _]. }
  unfold apply_one, apply_local_candidate, apply_incoming_candidate.
  destruct (is_local_candidate chosen); rewrite sbind_ok; intros (s1 & a & _ & H).
  - repeat (rewrite sbind_ok in H; destruct H as (? & ? & ? & H)). injection H as _ <- _ _. eauto.
  - destruct a as [sender sr acts| |v]; [|by apply Hr in H..].
    destruct (check_commit_sender_authorized _ _ _); [by apply Hr in H|].
    rewrite sbind_ok in H. destruct H as (s2 & q2 & _ & H).
    destruct (validate_commit_candidate _ _ _ _); [by apply Hr in H|].
    repeat (rewrite sbind_ok in H; destruct H as (? & ? & ? & H)). injection H as _ <- _ _. eauto.
Qed.

Lemma finalize_result_ok sl recovery subset self st st' r :
  finalize_commit_round sl recovery subset self st = (st', Ok r) → round_result_ok r.
Proof.
  assert (∀ ops s s' r, discard_and_finish ops s = (s', Ok r) → round_result_ok r) as Hd.
  { intros ops s s' r0. unfold discard_and_finish. rewrite sbind_ok. intros (? & ? & _ & [= _ <-]). by left. }
  unfold finalize_commit_round. rewrite sbind_ok. intros (s1 & e & _ & H).
  rewrite sbind_ok in H. destruct H as (s2 & cs & _ & H). destruct (bool_decide _); [by eapply Hd|].
  rewrite sbind_ok in H. destruct H as (s3 & ctx & _ & H). destruct (bool_decide _); [by eapply Hd|].
  apply apply_loop_ok in H as [(pre & chosen & post & st1 & pen & com & _ & _ & Ha & _)|(st1 & pen & _ & -> & _)].
  - right. by eapply apply_one_terminal.
  - by left.
Qed.

Lemma local_never_dropped chosen ctx st st' op :
  apply_local_candidate chosen ctx st ≠ (st', Ok (Drop op)).
Proof.
  unfold apply_local_candidate. intros H.
  repeat (rewrite sbind_ok in H; destruct H as (? & ? & ? & H)). done.
Qed.

(** C13: the round is won by the first candidate, in priority order, that applies.
    Every candidate before the winner was tried and dropped, our own candidate is
    never dropped once reached, and the winner's outcome and batch are the round's;
    the scores are the penalties of the dropped ones, then one [SuccessfulCommit]
    for the committer, then an inactivity penalty for the expected epoch steward if
    that is neither the committer nor ourselves, then one entry for each candidate that
    was not reached: an honest attempt if its claimed author is on the list, a
    misbehaving commit otherwise. When no candidate applies, the round reports
    [NoCandidate] with the penalties alone, and holds no local candidate. *)
Theorem apply_in_priority_order_spec sl sorted ctx self st st' r :
  apply_in_priority_order sl sorted ctx self st = (st', Ok r) →
  (∃ pre chosen post st1 penalties committer,
     sorted = pre ++ chosen :: post ∧ dropped_all sl ctx pre st st1 penalties ∧
     Forall (λ c, is_local_candidate c = false) pre ∧
     apply_one sl chosen ctx st1 = (st', Ok (Terminal (rr_outcome r) committer (committed_batch r))) ∧
     rr_score_ops r = penalties ++ [mk_score_op committer SuccessfulCommit] ++
       match epoch_steward_id ctx with
       | Some e => if decide (e = committer ∨ e = self) then [] else [mk_score_op e CensorshipInactivity]
       | None => []
       end ++
       ((λ loser, let id := steward_member_id (candidate_msg loser) in
          mk_score_op id (if is_steward sl id then HonestCommitAttempt else MisbehavingCommit)) <$> post)) ∨
  (∃ st1 penalties, dropped_all sl ctx sorted st st1 penalties ∧
     Forall (λ c, is_local_candidate c = false) sorted ∧
     r = mk_round_result NoCandidate penalties []).
Proof.
  assert (∀ pre st st1 pen, dropped_all sl ctx pre st st1 pen → Forall (λ c, is_local_candidate c = false) pre) as Hloc.
  { induction 1 as [|c cs s1 s2 s3 op ops Ha _ IH]; constructor; [|done].
    destruct (is_local_candidate c) eqn:E; [|done]. unfold apply_one in Ha. rewrite E in Ha.
    by apply local_never_dropped in Ha. }
  intros [(pre & chosen & post & st1 & pen & com & -> & Hd & Ha & Hr)|(st1 & pen & Hd & -> & _)]%apply_loop_ok.
  - left. exists pre, chosen, post, st1, pen, com. split_and!; try done; [by eapply Hloc|].
    rewrite Hr. unfold record_winner_scores. destruct (epoch_steward_id ctx) as [e|]; [|done].
    destruct (decide (e = com ∨ e = self)); destruct (bool_decide_reflect (e = com)), (bool_decide_reflect (e = self));
      done || tauto.
  - right. exists st1, pen. split_and!; [done|by eapply Hloc|done].
Qed.
End apply_facts.

Section receiving.
Context {HS : Hash} {OM : OpenMls}.
Implicit Types (q : ConversationQueues) (mls : MlsService).

(** A candidate that passes every wire check. *)
Definition well_formed_candidate q (msg : CommitCandidate) : Prop :=
  has_committed_hash q (compute_commit_hash (commit_message msg)) = false ∧
  mls_proposals msg ≠ [] ∧ commit_message msg ≠ [] ∧ steward_member_id msg ≠ [] ∧
  (∀ p, p ∈ mls_proposals msg → inspect_message_kind p = Ok MkProposal) ∧
  inspect_message_kind (commit_message msg) = Ok MkCommit.

Lemma receive_eq mls msg q :
  (well_formed_candidate q msg ∧
   receive_commit_candidate mls msg q =
     if (approved_proposals_count q =? 0)%N
     then (stash_early_candidate (g_epoch (mls_group mls)) msg (len (mls_members mls)) q, Noop CandidateStashedEarly)
     else let '(b, o) := buffer_add msg false None [] (g_epoch (mls_group mls)) (len (mls_members mls)) (commit_round q) in
          (set_round b q, into_process_result o (steward_member_id msg))) ∨
  (¬ well_formed_candidate q msg ∧ ∃ reason,
     receive_commit_candidate mls msg q = (q, Noop reason) ∧
     reason ∈ [AlreadyCommitted; EmptyCandidatePayload; EmptyStewardMemberId; WireKindMismatch]).
Proof.
  unfold receive_commit_candidate, well_formed_candidate.
  destruct (has_committed_hash q _) eqn:E1; [right; split; [naive_solver|eexists; split; [done|set_solver]]|].
  destruct (bool_decide_reflect (mls_proposals msg = [])) as [E2|E2]; cbn [orb];
    [right; split; [naive_solver|eexists; split; [done|set_solver]]|].
  destruct (bool_decide_reflect (commit_message msg = [])) as [E3|E3]; cbn [orb];
    [right; split; [naive_solver|eexists; split; [done|set_solver]]|].
  destruct (bool_decide_reflect (steward_member_id msg = [])) as [E4|E4];
    [right; split; [naive_solver|eexists; split; [done|set_solver]]|].
  destruct (forallb _ (mls_proposals msg)) eqn:E5; cbn [negb orb]; last first.
  { right. split; [|eexists; split; [done|set_solver]]. intros (_ & _ & _ & _ & Hall & _).
    apply not_true_iff_false in E5. apply E5. apply forallb_elem. intros p Hp.
    apply bool_decide_eq_true. by apply Hall. }
  destruct (bool_decide_reflect (inspect_message_kind (commit_message msg) = Ok MkCommit)) as [E6|E6]; cbn [negb];
    [|right; split; [naive_solver|eexists; split; [done|set_solver]]].
  left. split; [|done]. split_and!; try done. intros p Hp.
  apply forallb_elem with (x := p) in E5; [|done]. by apply bool_decide_eq_true in E5.
Qed.

(** Receiving a peer's candidate touches the round only for a well-formed one.
    A candidate already committed, empty, unattributed or of the wrong wire kinds
    changes nothing and is reported as a no-op. A well-formed one is stashed while
    nothing is approved yet, and otherwise buffered for the group's epoch; MLS state
    is only read; the buffer stays within one candidate per member with distinct
    hashes; nothing else of the queues changes; and [CommitCandidateReceived] is
    reported exactly when the candidate was added. *)
Theorem receive_commit_candidate_spec mls msg q q' r :
  receive_commit_candidate mls msg q = (q', r) →
  buffer_ok (len (mls_members mls)) (commit_round q) →
  buffer_ok (len (mls_members mls)) (commit_round q') ∧
  q' = set_round (commit_round q') (set_early (early_candidates q') q) ∧
  (r = CommitCandidateReceived (steward_member_id msg) ↔
     well_formed_candidate q msg ∧ approved_proposals q ≠ [] ∧
     (buffer_add msg false None [] (g_epoch (mls_group mls)) (len (mls_members mls)) (commit_round q)).2 = Buffered) ∧
  (¬ well_formed_candidate q msg → q' = q) ∧
  (well_formed_candidate q msg → approved_proposals q = [] →
     r = Noop CandidateStashedEarly ∧
     q' = stash_early_candidate (g_epoch (mls_group mls)) msg (len (mls_members mls)) q).
Proof.
  intros Hr Hok. assert (approved_proposals_count q = 0%N ↔ approved_proposals q = []) as Hcnt by apply len_nil_iff.
  destruct (receive_eq mls msg q) as [[Hwf E]|[Hwf (reason & E & _)]]; rewrite E in Hr.
  - destruct (N.eqb_spec (approved_proposals_count q) 0) as [H0|H0].
    + injection Hr as <- <-. apply Hcnt in H0. split_and!; try naive_solver.
      all: unfold stash_early_candidate; case_match; by destruct q.
    + destruct (buffer_add _ _ _ _ _ _ _) as [b o] eqn:Eb. injection Hr as <- <-.
      pose proof (buffer_add_keeps msg false None [] (g_epoch (mls_group mls)) _ (len (mls_members mls)) _ Hok) as Hb.
      rewrite N.max_id, Eb in Hb.
      split_and!; [done|by destruct q| |naive_solver|naive_solver].
      rewrite <-Hcnt. destruct o; naive_solver.
  - injection Hr as <- <-. split_and!; [done|by destruct q|naive_solver..].
Qed.
End receiving.

(** ** The properties at concrete inputs *)

#[local] Existing Instance example_hash.
#[local] Existing Instance toy_mls.

Definition peer_candidate : CommitCandidate := mk_candidate [x67] toy_peer_proposals toy_peer_commit (member_id_of 1).
Definition peer_buffered : BufferedCommitCandidate :=
  mk_buffered peer_candidate (compute_commit_hash toy_peer_commit) false None [].
Definition round_queues : ConversationQueues :=
  insert_approved_proposal 5 (member_invite_request [x0c]) (queues_new "g" 8).
Definition round_svc : StewardListService :=
  svc_set_list (mk_sl [member_id_of 0; member_id_of 1] slc_default 3 0) (svc_empty slc_default).
Definition round_ctx : RoundContext := mk_ctx 1 false 3 false (Some (member_id_of 0)).

Lemma ranking_deterministic_witness :
  rank_applicable_candidates [peer_buffered; mk_buffered example_candidate [x02] true None []] round_ctx false
  = rank_applicable_candidates [mk_buffered example_candidate [x02] true None []; peer_buffered] round_ctx false.
Proof.
  apply ranking_deterministic.
  - apply (bool_decide_unpack _). by vm_compute.
  - apply Permutation_swap.
Defined.

Lemma remote_commit_gates_witness :
  authorized round_svc (member_id_of 1) round_ctx ∧
  ∃ staged mls1 mls2, proposals_by (member_id_of 1) toy_peer_proposals toy_service mls1 ∧
    commit_by (member_id_of 1) toy_peer_commit mls1 staged mls2 ∧
    (∀ a, a ∈ voted_actions round_queues ↔ a ∈ action_projection_from_mls <$> staged_actions staged).
Proof.
  destruct (apply_incoming_candidate round_svc peer_buffered round_ctx (round_queues, toy_service)) as [st' r] eqn:E.
  assert (r = Ok (Terminal (Applied ConversationUpdated None) (member_id_of 1) [member_invite_request [x0c]])) as Hr.
  { change r with (st', r).2. rewrite <-E. by vm_compute. }
  rewrite Hr in E.
  pose proof (remote_commit_gates _ _ _ _ _ _ E) as (staged & mls1 & mls2 & mls3 & d & Hp & Hc & _ & Ha & Hv & _).
  split; [exact Ha|]. exact (ex_intro _ staged (ex_intro _ mls1 (ex_intro _ mls2 (conj Hp (conj Hc Hv))))).
Defined.

Lemma apply_in_priority_order_spec_witness :
  ∃ pre chosen post, [peer_buffered] = pre ++ chosen :: post ∧ Forall (λ c, is_local_candidate c = false) pre.
Proof.
  destruct (apply_in_priority_order round_svc [peer_buffered] round_ctx (member_id_of 0) (round_queues, toy_service))
    as [st' r] eqn:E.
  assert (r = Ok (mk_round_result (Applied ConversationUpdated None)
    [mk_score_op (member_id_of 1) SuccessfulCommit] [member_invite_request [x0c]])) as Hr.
  { change r with (st', r).2. rewrite <-E. by vm_compute. }
  rewrite Hr in E. apply apply_in_priority_order_spec in E as [(pre & c & post & _ & _ & _ & H & _ & Hf & _)|(? & ? & _ & _ & ?)].
  - by exists pre, c, post.
  - done.
Defined.

Lemma receive_commit_candidate_spec_witness :
  (receive_commit_candidate toy_service peer_candidate round_queues).2 = CommitCandidateReceived (member_id_of 1).
Proof.
  destruct (receive_commit_candidate toy_service peer_candidate round_queues) as [q' r] eqn:E.
  pose proof (receive_commit_candidate_spec _ _ _ _ _ E (buffer_ok_empty 2 0)) as (_ & _ & H & _).
  apply H. unfold well_formed_candidate. repeat split; try discriminate.
  intros p Hp. apply list_elem_of_singleton in Hp as ->. reflexivity.
Defined.
