(* ===== verification/ApplyResult.v ===== *)
(** * The effect of a resolved proposal: [src/consensus/apply_result.rs]

    [apply_consensus_result] moves the queues and names the follow-up. It returns a
    [Result] in the source and has no failing branch; here it returns the pair. *)

From S2P Require Import Prelude Protos StewardList Mls Toy Buffer Queues Scoring.

Inductive ConsensusApplyResult :=
  | NoAction
  | ElectionAccepted (election : StewardElectionProposal)
  | ElectionRejected
  | RejectedMembership (target : bytes)
  | RecoveryModeOpened
  | UrgentRemoval (target : bytes)
  | QueuedRemoval (target : bytes).

Definition apply_election_result (approved : bool) (election : StewardElectionProposal) : ConsensusApplyResult :=
  if approved then ElectionAccepted election else ElectionRejected.

Definition extract_emergency_evidence (req : ConversationUpdateRequest) : option ViolationEvidence :=
  match req_payload req with Some (EmergencyCriteria ec) => ec | _ => None end.
Definition extract_election_proposal (req : ConversationUpdateRequest) : option StewardElectionProposal :=
  match req_payload req with Some (StewardElection se) => Some se | _ => None end.
Definition is_score_below_threshold (ev : ViolationEvidence) : bool :=
  bool_decide (violation_try_from (violation_type ev) = Some ScoreBelowThresholdV).
Definition is_deadlock (ev : ViolationEvidence) : bool :=
  bool_decide (violation_try_from (violation_type ev) = Some DeadlockV).
Definition removal_request_for (ev : ViolationEvidence) : ConversationUpdateRequest :=
  remove_member_request (target_member_id ev).

Definition pending_removal_target (request : ConversationUpdateRequest) (evidence : option ViolationEvidence)
    (approved is_emergency transforms_to_removal : bool) : option bytes :=
  if negb approved then None else
  if transforms_to_removal then target_member_id <$> evidence else
  if is_emergency then None else
  match req_payload request with Some (RemoveMember id) => Some id | _ => None end.

(** [evidence.as_ref().is_some_and(f)] and [target.is_some_and(f)]. *)
Definition is_some_and {A} (o : option A) (f : A → bool) : bool :=
  match o with Some a => f a | None => false end.

Section apply.
Context {HS : Hash} {OM : OpenMls}.
Implicit Types (q : ConversationQueues).

(** The joiner's key of an invite, when it parses. *)
Definition invite_key (request : ConversationUpdateRequest) : option bytes :=
  match req_payload request with
  | Some (MemberInvite kp) => result_ok (signature_key_of_key_package kp)
  | _ => None
  end.

Definition apply_consensus_result (proposal_id : N) (approved : bool)
    (request : ConversationUpdateRequest) q : ConversationQueues * ConsensusApplyResult :=
  let q := remove_voting_proposal proposal_id q in
  match extract_election_proposal request with
  | Some election => (q, apply_election_result approved election)
  | None =>
      let evidence := extract_emergency_evidence request in
      let is_emergency := bool_decide (is_Some evidence) in
      let transforms_to_removal := approved && is_emergency && is_some_and evidence is_score_below_threshold in
      let removal_target := pending_removal_target request evidence approved is_emergency transforms_to_removal in
      if is_some_and removal_target (has_approved_removal q) then (q, NoAction) else
      if approved && is_some_and (invite_key request) (has_approved_invite q) then (q, NoAction) else
      match (if transforms_to_removal then evidence else None) with
      | Some ev =>
          let q := insert_approved_proposal proposal_id (removal_request_for ev) q in
          let q := set_urgent_commit_target (target_member_id ev) q in
          (q, UrgentRemoval (target_member_id ev))
      | None =>
          let q := if approved && negb is_emergency then insert_approved_proposal proposal_id request q else q in
          if is_some_and evidence is_deadlock && approved then (q, RecoveryModeOpened) else
          match removal_target with
          | Some target => (q, QueuedRemoval target)
          | None =>
              if negb approved then
                match target_member_id_of request with
                | Some target => (q, RejectedMembership target)
                | None => (q, NoAction)
                end
              else (q, NoAction)
          end
      end
  end.
End apply.

(** ** Facts *)

Section apply_facts.
Context {HS : Hash} {OM : OpenMls}.
Implicit Types (q : ConversationQueues) (req : ConversationUpdateRequest).

(** No two approvals change the same member the same way: the precondition of a
    batch MLS can commit. *)
Definition no_duplicate_changes (a : list (N * ConversationUpdateRequest)) : Prop :=
  NoDup (im_keys a) ∧
  (∀ p1 p2 id, p1 ∈ a → p2 ∈ a → removes_member p1.2 id = true → removes_member p2.2 id = true → p1 = p2) ∧
  (∀ p1 p2 k, p1 ∈ a → p2 ∈ a → invites_member p1.2 k = true → invites_member p2.2 k = true → p1 = p2).

Lemma no_duplicate_insert a pid req :
  no_duplicate_changes a →
  (∀ p id, p ∈ a → removes_member req id = true → removes_member p.2 id = true → False) →
  (∀ p k, p ∈ a → invites_member req k = true → invites_member p.2 k = true → False) →
  no_duplicate_changes (im_insert pid req a).
Proof.
  intros (Hn & Hr & Hi) Hrem Hinv. split_and!; [by apply im_insert_nodup|..].
  - intros p1 p2 id [->|H1]%elem_of_im_insert [->|H2]%elem_of_im_insert; [done|..]; cbn; naive_solver.
  - intros p1 p2 k [->|H1]%elem_of_im_insert [->|H2]%elem_of_im_insert; [done|..]; cbn; naive_solver.
Qed.

Lemma no_removal_entry q id p :
  has_approved_removal q id = false → p ∈ approved_proposals q → removes_member p.2 id = false.
Proof.
  intros Hf Hp. unfold has_approved_removal in Hf. rewrite existsb_not_elem in Hf. apply Hf.
  unfold im_values. by apply list_elem_of_fmap_2.
Qed.

Lemma no_invite_entry q k p :
  has_approved_invite q k = false → p ∈ approved_proposals q → invites_member p.2 k = false.
Proof.
  intros Hf Hp. unfold has_approved_invite in Hf. rewrite existsb_not_elem in Hf. apply Hf.
  unfold im_values. by apply list_elem_of_fmap_2.
Qed.

Lemma removes_member_iff req id : removes_member req id = true ↔ req_payload req = Some (RemoveMember id).
Proof.
  unfold removes_member. destruct (req_payload req) as [[]|]; rewrite ?bool_decide_eq_true; naive_solver.
Qed.

Lemma invites_member_iff req k : invites_member req k = true ↔ invite_key req = Some k.
Proof.
  unfold invites_member, invite_key, target_member_id_of.
  destruct (req_payload req) as [[]|]; rewrite ?bool_decide_eq_true; naive_solver.
Qed.

(** Staging a membership change the guards let through. *)
Lemma stage_keeps_distinct q pid req :
  no_duplicate_changes (approved_proposals q) →
  (∀ id, req_payload req = Some (RemoveMember id) → has_approved_removal q id = false) →
  (∀ k, invite_key req = Some k → has_approved_invite q k = false) →
  no_duplicate_changes (approved_proposals (insert_approved_proposal pid req q)).
Proof.
  intros Hq Hr Hi. cbn. apply no_duplicate_insert; [done|..].
  - intros p id Hp H1%removes_member_iff H2. apply Hr in H1. by rewrite (no_removal_entry _ _ _ H1 Hp) in H2.
  - intros p k Hp H1%invites_member_iff H2. apply Hi in H1. by rewrite (no_invite_entry _ _ _ H1 Hp) in H2.
Qed.

(** The membership change [req] stages, and the request it is staged as. *)
Definition staged_as (approved : bool) req : option ConversationUpdateRequest :=
  if negb approved then None else
  match req_payload req with
  | Some (StewardElection _) => None
  | Some (EmergencyCriteria (Some ev)) =>
      if is_score_below_threshold ev then Some (removal_request_for ev) else None
  | _ => Some req
  end.

(** The change is already approved under another id. *)
Definition already_approved q req : bool :=
  match req_payload req with
  | Some (RemoveMember id) => has_approved_removal q id
  | _ => is_some_and (invite_key req) (has_approved_invite q)
  end.

(** The whole of [apply_consensus_result], case by case. *)
Lemma apply_consensus_result_eq pid approved req q :
  let q0 := remove_voting_proposal pid q in
  apply_consensus_result pid approved req q =
    match req_payload req with
    | Some (StewardElection e) => (q0, if approved then ElectionAccepted e else ElectionRejected)
    | Some (EmergencyCriteria (Some ev)) =>
        if approved then
          if is_score_below_threshold ev then
            if has_approved_removal q (target_member_id ev) then (q0, NoAction)
            else (set_urgent_commit_target (target_member_id ev)
                    (insert_approved_proposal pid (removal_request_for ev) q0), UrgentRemoval (target_member_id ev))
          else (q0, if is_deadlock ev then RecoveryModeOpened else NoAction)
        else (q0, NoAction)
    | _ =>
        if approved then
          if already_approved q req then (q0, NoAction)
          else (insert_approved_proposal pid req q0,
                match req_payload req with Some (RemoveMember id) => QueuedRemoval id | _ => NoAction end)
        else (q0, match target_member_id_of req with Some t => RejectedMembership t | None => NoAction end)
    end.
Proof.
  cbn zeta. unfold apply_consensus_result, extract_election_proposal, extract_emergency_evidence,
    pending_removal_target, already_approved, invite_key.
  change (has_approved_removal (remove_voting_proposal pid q)) with (has_approved_removal q).
  change (has_approved_invite (remove_voting_proposal pid q)) with (has_approved_invite q).
  generalize (has_approved_removal q) (has_approved_invite q). intros hr hi.
  unfold target_member_id_of, apply_election_result.
  destruct (req_payload req) as [[kp|id|[ev|]|e]|] eqn:E, approved; cbn; try done.
  all: rewrite ?andb_true_r, ?andb_false_r; repeat case_match; simplify_eq/=; try done; congruence.
Qed.

(** The statements below ask which decision led to a follow-up, or what it leaves. *)
Ltac by_cases := intros; first
  [ done
  | match goal with q : ConversationQueues |- _ => by destruct q end
  | solve [repeat (split || intros);
      repeat match goal with H : _ ∧ _ |- _ => destruct H | H : ∃ _, _ |- _ => destruct H end;
      simplify_eq; first [congruence | eauto 6 using im_insert_elem]] ].

(** C14: what a resolved proposal does to the queues, on every branch. The proposal
    always leaves the voting queue, and nothing but the approved queue and the
    urgent target changes besides. An election or a rejection stages nothing; an
    approved membership change is staged under its own id, and an approved
    below-threshold emergency as the removal of its target, unless the same change is
    already approved; any other emergency that carries evidence stages nothing. The
    urgent target becomes the target of such an emergency when its removal is staged,
    and is otherwise what it was. The follow-up is the one the decision calls for: the
    election it accepts or rejects, the urgent or queued removal of a member whose
    removal was not yet approved, the recovery an approved deadlock opens, the buffered
    request a rejected membership change drops, and else none. *)
Theorem apply_consensus_result_spec pid approved req q :
  let q' := (apply_consensus_result pid approved req q).1 in
  let r := (apply_consensus_result pid approved req q).2 in
  let urgent target := approved = true ∧ has_approved_removal q target = false ∧
    ∃ ev, req_payload req = Some (EmergencyCriteria (Some ev)) ∧
      violation_try_from (violation_type ev) = Some ScoreBelowThresholdV ∧ target_member_id ev = target in
  voting_proposals q' = delete pid (voting_proposals q) ∧
  q' = set_urgent (urgent_commit_target q')
         (set_approved (approved_proposals q') (remove_voting_proposal pid q)) ∧
  approved_proposals q' =
    match staged_as approved req with
    | None => approved_proposals q
    | Some req' => if already_approved q req' then approved_proposals q
                   else im_insert pid req' (approved_proposals q)
    end ∧
  (∀ target, urgent target → urgent_commit_target q' = Some target ∧
     (pid, remove_member_request target) ∈ approved_proposals q') ∧
  ((∀ target, ¬ urgent target) → urgent_commit_target q' = urgent_commit_target q) ∧
  (∀ target, r = UrgentRemoval target ↔ urgent target) ∧
  (∀ target, r = QueuedRemoval target ↔
     approved = true ∧ req_payload req = Some (RemoveMember target) ∧ has_approved_removal q target = false) ∧
  (∀ e, r = ElectionAccepted e ↔ approved = true ∧ req_payload req = Some (StewardElection e)) ∧
  (r = ElectionRejected ↔ approved = false ∧ ∃ e, req_payload req = Some (StewardElection e)) ∧
  (∀ target, r = RejectedMembership target ↔ approved = false ∧ target_member_id_of req = Some target) ∧
  (r = RecoveryModeOpened ↔ approved = true ∧ ∃ ev, req_payload req = Some (EmergencyCriteria (Some ev)) ∧
     violation_try_from (violation_type ev) = Some DeadlockV).
Proof.
  cbn zeta. rewrite apply_consensus_result_eq.
  unfold staged_as, is_score_below_threshold, is_deadlock, already_approved, invite_key, target_member_id_of.
  destruct (req_payload req) as [[kp|id|[ev|]|e]|] eqn:E, approved; cbn [negb]; rewrite ?E.
  all: try (destruct (result_ok (signature_key_of_key_package kp)) eqn:?).
  all: repeat (cbn; match goal with
    | |- context [bool_decide ?P] => destruct (bool_decide_reflect P)
    | |- context [if ?b then _ else _] => destruct b eqn:?
    end).
  all: cbn; split_and!; try by_cases.
  intros Hnone. destruct (Hnone (target_member_id ev)); eauto 6.
Qed.

(** Applying any resolved proposal keeps the approved queue free of two removals of
    one member and of two admissions of one joiner, whatever path the duplicate
    came by: a ban, a self-leave, a below-threshold emergency, an invitation or a
    sponsored join. *)
Lemma apply_keeps_distinct pid approved req q :
  no_duplicate_changes (approved_proposals q) →
  no_duplicate_changes (approved_proposals (apply_consensus_result pid approved req q).1).
Proof.
  intros Hq. rewrite apply_consensus_result_eq. set (q0 := remove_voting_proposal pid q).
  assert (∀ r, already_approved q r = false →
    no_duplicate_changes (approved_proposals (insert_approved_proposal pid r q0))) as Hst.
  { intros r Hr. apply stage_keeps_distinct; [done|..]; unfold already_approved, invite_key in *.
    - intros id Hid. by rewrite Hid in Hr.
    - intros k Hk. destruct (req_payload r) as [[]|]; try done. rewrite Hk in Hr. exact Hr. }
  destruct (req_payload req) as [[kp|id|[ev|]|e]|], approved; try done;
    try (destruct (already_approved q req) eqn:Ha; [done|by apply Hst]).
  destruct (is_score_below_threshold ev); [|done].
  destruct (has_approved_removal q (target_member_id ev)) eqn:Hr; [done|].
  exact (Hst (removal_request_for ev) Hr).
Qed.

(** An emergency proposal that carries no evidence is handled as a regular
    proposal. Once approved it is staged for the next commit although no commit can
    carry it, and it scores nobody. *)
Theorem evidenceless_emergency_is_staged pid q :
  let req := mk_request (Some (EmergencyCriteria None)) in
  apply_consensus_result pid true req q =
    (insert_approved_proposal pid req (remove_voting_proposal pid q), NoAction) ∧
  emergency_score_ops req true = [] ∧ kind_of req = KEmergency.
Proof. done. Qed.
End apply_facts.
