(* ===== verification/Config.v ===== *)
(** * Conversation configuration: [src/conversation/config.rs]

    Durations are nanoseconds; a [TimingConfig] carries milliseconds as [u64]. *)

From S2P Require Import Prelude Time Protos StewardList.
Local Open Scope N_scope.

Definition DEFAULT_COMMIT_BATCH_WINDOW : Duration := duration_from_secs 60.
Definition DEFAULT_PROPOSAL_EXPIRATION : Duration := duration_from_secs 600.
Definition DEFAULT_CONSENSUS_TIMEOUT : Duration := duration_from_secs 30.
Definition DEFAULT_RETRY_WINDOW : Duration := duration_from_secs 5.
Definition DEFAULT_BACKUP_TAKEOVER_WINDOW : Duration := duration_from_secs 20.
Definition DEFAULT_VOTING_DELAY : Duration := duration_from_secs 10.
Definition DEFAULT_RECOVERY_AUTO_COMMIT_DELAY : Duration := duration_from_secs 5.

Record ConversationConfig := mk_config {
  commit_batch_window : Duration;
  freeze_duration : Duration;
  retry_window : Duration;
  backup_takeover_window : Duration;
  proposal_expiration : Duration;
  consensus_timeout : Duration;
  voting_delay : Duration;
  pending_update_max_epochs : N;
  max_reelection_attempts : N;
  liveness_criteria_yes : bool;
  max_consensus_sessions : N;
  commit_batch_max : N;
  dedup_window : N;
  recovery_auto_commit_delay : option Duration;
  recovery_max_rounds : N;
  steward_list_config : StewardListConfig;
}.

Definition config_default : ConversationConfig :=
  mk_config DEFAULT_COMMIT_BATCH_WINDOW (DEFAULT_COMMIT_BATCH_WINDOW / 2) DEFAULT_RETRY_WINDOW
    DEFAULT_BACKUP_TAKEOVER_WINDOW DEFAULT_PROPOSAL_EXPIRATION DEFAULT_CONSENSUS_TIMEOUT
    DEFAULT_VOTING_DELAY 3 default_max_retries true 128 50 10
    (Some DEFAULT_RECOVERY_AUTO_COMMIT_DELAY) 0 slc_default.

Definition apply_nonzero_ms (field : Duration) (wire_ms : N) : Duration :=
  if wire_ms =? 0 then field else duration_from_millis wire_ms.

Definition apply_timing (t : TimingConfig) (c : ConversationConfig) : ConversationConfig :=
  mk_config
    (apply_nonzero_ms (commit_batch_window c) (commit_batch_window_ms t))
    (apply_nonzero_ms (freeze_duration c) (freeze_duration_ms t))
    (apply_nonzero_ms (retry_window c) (retry_window_ms t))
    (apply_nonzero_ms (backup_takeover_window c) (backup_takeover_window_ms t))
    (apply_nonzero_ms (proposal_expiration c) (proposal_expiration_ms t))
    (apply_nonzero_ms (consensus_timeout c) (consensus_timeout_ms t))
    (voting_delay c) (pending_update_max_epochs c) (max_reelection_attempts c)
    (liveness_criteria_yes c) (max_consensus_sessions c) (commit_batch_max c) (dedup_window c)
    (recovery_auto_commit_delay c) (recovery_max_rounds c) (steward_list_config c).

Definition config_validate (c : ConversationConfig) : res unit :=
  if consensus_timeout c <=? voting_delay c then
    Err (InvalidConfig "voting_delay must be < consensus_timeout")
  else if proposal_expiration c <=? consensus_timeout c then
    Err (InvalidConfig "proposal_expiration must be > consensus_timeout")
  else if freeze_duration c =? 0 then Err (InvalidConfig "freeze_duration must be non-zero")
  else if (sn_min (steward_list_config c) <? 1) || (sn_max (steward_list_config c) <? sn_min (steward_list_config c)) then
    Err (InvalidConfig "steward_list requires 1 <= sn_min <= sn_max")
  else Ok tt.

(** [as_millis() as u64]. *)
Definition millis_u64 (d : Duration) : N := duration_as_millis d mod 18446744073709551616.

Definition timing_config_from (c : ConversationConfig) : TimingConfig :=
  mk_timing_config (millis_u64 (commit_batch_window c)) (millis_u64 (freeze_duration c))
    (millis_u64 (proposal_expiration c)) (millis_u64 (consensus_timeout c))
    (millis_u64 (retry_window c)) (millis_u64 (backup_takeover_window c)).

(** ** Facts *)

Lemma config_validate_ok c :
  config_validate c = Ok tt ↔
  voting_delay c < consensus_timeout c ∧ consensus_timeout c < proposal_expiration c ∧
  freeze_duration c ≠ 0 ∧ cfg_wf (steward_list_config c).
Proof.
  unfold config_validate, cfg_wf.
  destruct (N.leb_spec (consensus_timeout c) (voting_delay c)); [split; [done|lia]|].
  destruct (N.leb_spec (proposal_expiration c) (consensus_timeout c)); [split; [done|lia]|].
  destruct (N.eqb_spec (freeze_duration c) 0); [split; [done|naive_solver]|].
  destruct (N.ltb_spec (sn_min (steward_list_config c)) 1); cbn [orb]; [split; [done|lia]|].
  destruct (N.ltb_spec (sn_max (steward_list_config c)) (sn_min (steward_list_config c)));
    [split; [done|lia]|naive_solver].
Qed.

(** A duration the wire format carries exactly: a non-zero whole number of
    milliseconds that fits a [u64]. *)
Definition ms_exact (d : Duration) : Prop :=
  0 < d ∧ d mod nanos_per_milli = 0 ∧ d / nanos_per_milli ≤ u64_max.

Lemma apply_nonzero_ms_exact d field : ms_exact d → apply_nonzero_ms field (millis_u64 d) = d.
Proof.
  unfold ms_exact, apply_nonzero_ms, millis_u64, duration_as_millis, duration_from_millis, nanos_per_milli, u64_max.
  intros (Hp & Hm & Hb). rewrite N.mod_small by lia.
  pose proof (N.div_mod d 1000000 ltac:(done)) as Hd. rewrite Hm in Hd.
  destruct (N.eqb_spec (d / 1000000) 0) as [E|E]; lia.
Qed.

(** The timing a steward sends is the timing the joiner runs. For durations that
    are non-zero whole milliseconds within [u64], applying the wire form of one
    configuration to another copies the six durations exactly and leaves every other
    field alone; a zero on the wire leaves the local value in place; and a valid
    configuration stays valid when the joiner's auto-vote delay is below the sender's
    session timeout, the one relation the sender's own validation does not cover. *)
Theorem timing_roundtrip sender joiner :
  Forall ms_exact [commit_batch_window sender; freeze_duration sender; retry_window sender;
    backup_takeover_window sender; proposal_expiration sender; consensus_timeout sender] →
  config_validate sender = Ok tt → config_validate joiner = Ok tt →
  let c := apply_timing (timing_config_from sender) joiner in
  commit_batch_window c = commit_batch_window sender ∧ freeze_duration c = freeze_duration sender ∧
  retry_window c = retry_window sender ∧ backup_takeover_window c = backup_takeover_window sender ∧
  proposal_expiration c = proposal_expiration sender ∧ consensus_timeout c = consensus_timeout sender ∧
  timing_config_from c = timing_config_from sender ∧
  voting_delay c = voting_delay joiner ∧ steward_list_config c = steward_list_config joiner ∧
  (config_validate c = Ok tt ↔ voting_delay joiner < consensus_timeout sender).
Proof.
  intros Hms Hs Hj. rewrite !Forall_cons in Hms. destruct Hms as (H1 & H2 & H3 & H4 & H5 & H6 & _).
  cbn zeta. unfold timing_config_from at 10. rewrite config_validate_ok in *.
  unfold apply_timing, timing_config_from; cbn.
  rewrite !apply_nonzero_ms_exact by done. naive_solver.
Qed.

Lemma timing_roundtrip_witness :
  timing_config_from (apply_timing (timing_config_from config_default) config_default)
  = timing_config_from config_default.
Proof.
  apply (timing_roundtrip config_default config_default).
  - repeat (constructor; [split_and!; [done|by vm_compute|by vm_compute]|]). constructor.
  - by vm_compute.
  - by vm_compute.
Defined.
