(* ===== verification/Display.v ===== *)
(** * Texts: the [Display] of [src/error.rs] and [src/mls_crypto/error.rs], and [src/conversation/display.rs]

    The message of an [EvError] event is the error's [to_string()]. A transparent
    variant displays what it wraps. The consensus library's error texts are its own:
    the class [ConsensusTexts] names them. *)

From S2P Require Import Prelude Machine Protos.

Class ConsensusTexts := { consensus_error_to_string : ConsensusError → string }.

Definition mls_error_to_string (e : MlsError) : string :=
  match e with
  | KeyPackageTls e => "Key package TLS codec error: " +:+ e
  | NoPendingStagedCommit id => "No pending staged commit for group: " +:+ id
  | UnknownLeafIndex i => "Leaf index " +:+ pretty i +:+ " resolves to no active member in the group"
  | MlsMessageDeserialize e | ProtocolMessageError e | MlsMessageSerialize e | ProcessMessage e
  | CreateMessage e | MergeCommit e | MergePendingCommit e | CommitToPendingProposals e
  | ProposeAddMember e | ProposeRemoveMember e | NewGroup e | WelcomeErr e | MlsStorage e => e
  end.

Definition error_to_string `{!ConsensusTexts} (e : ConversationError) : string :=
  match e with
  | ConversationBlocked state => "Cannot send message: conversation is in " +:+ state +:+ " state"
  | PartialFreeze =>
      "Lower-priority proposal blocked: an emergency criteria proposal is active (RFC partial freeze)"
  | Mls e => "MLS error: " +:+ mls_error_to_string e
  | Consensus e => "Consensus error: " +:+ consensus_error_to_string e
  | MessageErr e => "Message error: " +:+ e
  | ScoreStorage e => "Score storage error: " +:+ e
  | NotASteward => "Caller is not a steward"
  | NotInRecovery => "Not in Layer-3 recovery mode"
  | NoProposals => "No proposals available"
  | InvalidConversationUpdateRequest => "Invalid conversation update request"
  | EmptyMembersList => "Empty members list"
  | MemberGone => "Member is no longer in the group"
  | AlreadyMember => "Key package belongs to a member already in the group"
  | InvalidConfigSize => "Invalid config size"
  | InvalidConfig msg => "Invalid conversation config: " +:+ msg
  | UnexpectedNonMlsProposals ids =>
      "Non-MLS proposals found in approved queue (ids: [" +:+ String.concat ", " (pretty <$> ids) +:+ "])"
  end.

(** ** [display.rs] *)

Inductive MemberRole := RoleEpochSteward | RoleBackupSteward | RoleSteward | RoleMember.
#[export] Instance member_role_eq_dec : EqDecision MemberRole.
Proof. solve_decision. Defined.

Definition role_to_string (r : MemberRole) : string :=
  match r with
  | RoleEpochSteward => "epoch_steward" | RoleBackupSteward => "backup_steward"
  | RoleSteward => "steward" | RoleMember => "member"
  end.

Definition app_message_type (p : AppPayload) : string :=
  match p with
  | AppConversationMessage _ _ => "ConversationMessage"
  | AppMembershipChange _ _ _ => "MembershipChange"
  | AppBanRequest _ _ => "BanRequest"
  | AppProposal _ => "Proposal"
  | AppVote _ => "Vote"
  | AppVotePayload _ _ _ _ => "VotePayload"
  | AppUserVote _ _ _ => "UserVote"
  | AppProposalAdded _ _ => "ProposalAdded"
  | AppCommitCandidate _ => "CommitCandidate"
  | AppConversationSync _ => "ConversationSync"
  | AppConversationSyncRequest => "ConversationSyncRequest"
  | AppMemberWelcome _ => "MemberWelcome"
  end.

Definition request_message_type (r : ConversationUpdateRequest) : string :=
  match req_payload r with
  | Some (MemberInvite _) => "Add Member"
  | Some (RemoveMember _) => "Remove Member"
  | Some (EmergencyCriteria (Some e)) =>
      match violation_try_from (violation_type e) with
      | Some BrokenCommitV => "Emergency: Broken Commit"
      | Some BrokenMlsProposalV => "Emergency: Broken MLS Proposal"
      | Some CensorshipInactivityV => "Emergency: Censorship/Inactivity"
      | Some ScoreBelowThresholdV => "Emergency: Score Below Threshold"
      | _ => "Emergency: Unknown Violation"
      end
  | Some (EmergencyCriteria None) => "Emergency: Unknown Violation"
  | Some (StewardElection _) => "Steward Election"
  | None => "Unknown"
  end.

Definition violation_type_label (e : ViolationEvidence) : string :=
  match violation_try_from (violation_type e) with
  | Some BrokenCommitV => "Broken Commit"
  | Some BrokenMlsProposalV => "Broken MLS Proposal"
  | Some CensorshipInactivityV => "Censorship/Inactivity"
  | Some ScoreBelowThresholdV => "Score Below Threshold"
  | _ => "Unknown Violation"
  end.
