(* ===== verification/Conversation.v ===== *)
(** * The conversation: [src/conversation/handle.rs] and [src/conversation/query.rs]

    The per-conversation state, the state-machine and phase-timer coordinators, the
    event and outbound buffers, the pending deadlines, the local commit candidate,
    and the read-only queries. The consensus library is third-party: the class
    [ConsensusLib] names the calls the code makes. A call may publish outcomes, which
    go to the conversation's bus (the [OutcomeBus] of [src/consensus/outcome_bus.rs],
    a queue shared by both ends). The mutexes guard single-threaded buffers and are
    the buffers they guard. The clock is the field [c_now]; a handler reads it and
    nothing in the library moves it. *)

From S2P Require Import Prelude Time Machine Protos StewardList Mls Toy Buffer Queues Scoring CommitRound ApplyResult Config Display.

(** ** The consensus library *)

(** A call on the engine: the new engine, the outcomes it published, its result. *)
Abbreviation engine_call E := (λ A : Type, E → E * list ConsensusEvent * result ConsensusError A).

Class ConsensusLib := {
  Engine : Type;
  CreateProposalRequest : Type;
  ConsensusConfig : Type;
  (* [Uuid::new_v4().to_string()]; its randomness is part of the engine *)
  fresh_name : Engine → Engine * string;
  create_proposal_request : string → bytes → bytes → N → N → bool →
    result ConsensusError CreateProposalRequest;
  gossipsub_with_timeout : Duration → result ConsensusError ConsensusConfig;
  create_proposal_with_config : string → CreateProposalRequest → ConsensusConfig → N → engine_call Engine Proposal;
  cast_vote : string → N → bool → N → engine_call Engine Vote;
  cast_vote_and_get_proposal : string → N → bool → N → engine_call Engine Proposal;
  process_incoming_proposal : string → Proposal → N → engine_call Engine unit;
  process_incoming_vote : string → Vote → N → engine_call Engine unit;
  handle_consensus_timeout : string → N → N → engine_call Engine bool;
  remove_session : string → N → engine_call Engine unit;
  get_proposal : string → N → Engine → result ConsensusError Proposal;
  get_active_proposals : string → Engine → result ConsensusError (list Proposal);
  build_vote : Engine → Proposal → bool → N → result ConsensusError Vote;
}.

(** ** State *)

Record AutoVoteEntry := mk_auto_vote { fire_at : Timestamp; av_vote : bool }.
Record Outbound := mk_outbound { out_conversation_id : string; out_sender : bytes; out_payload : bytes }.
Inductive LeaveOutcome := LeaveInitiated.

Record Timing := mk_timing {
  phase_timer : PhaseTimer;
  pending_auto_votes : gmap N AutoVoteEntry;
  pending_consensus_timeouts : gmap N Timestamp;
  last_commit_round_progress : option (N * N);
  buffered_propose_anchor : option Timestamp;
  sync_resend_anchor : option Timestamp;
  sync_request_anchor : option Timestamp;
  reelection_silence_anchor : option Timestamp;
  reelection_recovered : bool;
}.
(** Field updates. *)
Definition set_phase_timer (x : PhaseTimer) (t : Timing) : Timing :=
    mk_timing x (pending_auto_votes t) (pending_consensus_timeouts t) (last_commit_round_progress
    t) (buffered_propose_anchor t) (sync_resend_anchor t) (sync_request_anchor t)
    (reelection_silence_anchor t) (reelection_recovered t).
Definition set_auto_votes (x : gmap N AutoVoteEntry) (t : Timing) : Timing :=
    mk_timing (phase_timer t) x (pending_consensus_timeouts t) (last_commit_round_progress t)
    (buffered_propose_anchor t) (sync_resend_anchor t) (sync_request_anchor t)
    (reelection_silence_anchor t) (reelection_recovered t).
Definition set_timeouts (x : gmap N Timestamp) (t : Timing) : Timing :=
    mk_timing (phase_timer t) (pending_auto_votes t) x (last_commit_round_progress t)
    (buffered_propose_anchor t) (sync_resend_anchor t) (sync_request_anchor t)
    (reelection_silence_anchor t) (reelection_recovered t).
Definition set_progress (x : option (N * N)) (t : Timing) : Timing :=
    mk_timing (phase_timer t) (pending_auto_votes t) (pending_consensus_timeouts t) x
    (buffered_propose_anchor t) (sync_resend_anchor t) (sync_request_anchor t)
    (reelection_silence_anchor t) (reelection_recovered t).
Definition set_buffered_anchor (x : option Timestamp) (t : Timing) : Timing :=
    mk_timing (phase_timer t) (pending_auto_votes t) (pending_consensus_timeouts t)
    (last_commit_round_progress t) x (sync_resend_anchor t) (sync_request_anchor t)
    (reelection_silence_anchor t) (reelection_recovered t).
Definition set_resend_anchor (x : option Timestamp) (t : Timing) : Timing :=
    mk_timing (phase_timer t) (pending_auto_votes t) (pending_consensus_timeouts t)
    (last_commit_round_progress t) (buffered_propose_anchor t) x (sync_request_anchor t)
    (reelection_silence_anchor t) (reelection_recovered t).
Definition set_request_anchor (x : option Timestamp) (t : Timing) : Timing :=
    mk_timing (phase_timer t) (pending_auto_votes t) (pending_consensus_timeouts t)
    (last_commit_round_progress t) (buffered_propose_anchor t) (sync_resend_anchor t) x
    (reelection_silence_anchor t) (reelection_recovered t).
Definition set_silence_anchor (x : option Timestamp) (t : Timing) : Timing :=
    mk_timing (phase_timer t) (pending_auto_votes t) (pending_consensus_timeouts t)
    (last_commit_round_progress t) (buffered_propose_anchor t) (sync_resend_anchor t)
    (sync_request_anchor t) x (reelection_recovered t).
Definition set_recovered (x : bool) (t : Timing) : Timing :=
    mk_timing (phase_timer t) (pending_auto_votes t) (pending_consensus_timeouts t)
    (last_commit_round_progress t) (buffered_propose_anchor t) (sync_resend_anchor t)
    (sync_request_anchor t) (reelection_silence_anchor t) x.

Definition timing_new : Timing := mk_timing phase_timer_new ∅ ∅ None None None None None false.

Record Conversation {OM : OpenMls} {CS : ConsensusLib} (St : Type) := mk_conversation {
  c_id : string;
  c_now : Duration;
  c_queues : ConversationQueues;
  c_mls : MlsService;
  c_scoring : PeerScoringService St;
  c_stewards : StewardListService;
  c_engine : Engine;
  c_bus : list ConsensusEvent;
  c_sm : ConversationStateMachine;
  c_config : ConversationConfig;
  c_mode : OperatingMode;
  c_recovery_rounds : N;
  c_timing : Timing;
  c_self : bytes;
  c_app_id : bytes;
  c_events : list ConversationEvent;
  c_outbound : list Outbound;
}.
Arguments mk_conversation {OM CS St}.
Arguments c_id {OM CS St} _.
Arguments c_now {OM CS St} _.
Arguments c_queues {OM CS St} _.
Arguments c_mls {OM CS St} _.
Arguments c_scoring {OM CS St} _.
Arguments c_stewards {OM CS St} _.
Arguments c_engine {OM CS St} _.
Arguments c_bus {OM CS St} _.
Arguments c_sm {OM CS St} _.
Arguments c_config {OM CS St} _.
Arguments c_mode {OM CS St} _.
Arguments c_recovery_rounds {OM CS St} _.
Arguments c_timing {OM CS St} _.
Arguments c_self {OM CS St} _.
Arguments c_app_id {OM CS St} _.
Arguments c_events {OM CS St} _.
Arguments c_outbound {OM CS St} _.

(** Field updates. *)
Section updates.
Context {OM : OpenMls} {CS : ConsensusLib} {St : Type}.
Definition c_set_queues (x : ConversationQueues) (c : Conversation St) : Conversation St :=
    mk_conversation (c_id c) (c_now c) x (c_mls c) (c_scoring c) (c_stewards c) (c_engine c)
    (c_bus c) (c_sm c) (c_config c) (c_mode c) (c_recovery_rounds c) (c_timing c) (c_self c)
    (c_app_id c) (c_events c) (c_outbound c).
Definition c_set_mls (x : MlsService) (c : Conversation St) : Conversation St :=
    mk_conversation (c_id c) (c_now c) (c_queues c) x (c_scoring c) (c_stewards c) (c_engine c)
    (c_bus c) (c_sm c) (c_config c) (c_mode c) (c_recovery_rounds c) (c_timing c) (c_self c)
    (c_app_id c) (c_events c) (c_outbound c).
Definition c_set_scoring (x : PeerScoringService St) (c : Conversation St) : Conversation St :=
    mk_conversation (c_id c) (c_now c) (c_queues c) (c_mls c) x (c_stewards c) (c_engine c) (c_bus
    c) (c_sm c) (c_config c) (c_mode c) (c_recovery_rounds c) (c_timing c) (c_self c) (c_app_id c)
    (c_events c) (c_outbound c).
Definition c_set_stewards (x : StewardListService) (c : Conversation St) : Conversation St :=
    mk_conversation (c_id c) (c_now c) (c_queues c) (c_mls c) (c_scoring c) x (c_engine c) (c_bus
    c) (c_sm c) (c_config c) (c_mode c) (c_recovery_rounds c) (c_timing c) (c_self c) (c_app_id c)
    (c_events c) (c_outbound c).
Definition c_set_engine (x : Engine) (c : Conversation St) : Conversation St :=
    mk_conversation (c_id c) (c_now c) (c_queues c) (c_mls c) (c_scoring c) (c_stewards c) x
    (c_bus c) (c_sm c) (c_config c) (c_mode c) (c_recovery_rounds c) (c_timing c) (c_self c)
    (c_app_id c) (c_events c) (c_outbound c).
Definition c_set_bus (x : list ConsensusEvent) (c : Conversation St) : Conversation St :=
    mk_conversation (c_id c) (c_now c) (c_queues c) (c_mls c) (c_scoring c) (c_stewards c)
    (c_engine c) x (c_sm c) (c_config c) (c_mode c) (c_recovery_rounds c) (c_timing c) (c_self c)
    (c_app_id c) (c_events c) (c_outbound c).
Definition c_set_sm (x : ConversationStateMachine) (c : Conversation St) : Conversation St :=
    mk_conversation (c_id c) (c_now c) (c_queues c) (c_mls c) (c_scoring c) (c_stewards c)
    (c_engine c) (c_bus c) x (c_config c) (c_mode c) (c_recovery_rounds c) (c_timing c) (c_self c)
    (c_app_id c) (c_events c) (c_outbound c).
Definition c_set_config (x : ConversationConfig) (c : Conversation St) : Conversation St :=
    mk_conversation (c_id c) (c_now c) (c_queues c) (c_mls c) (c_scoring c) (c_stewards c)
    (c_engine c) (c_bus c) (c_sm c) x (c_mode c) (c_recovery_rounds c) (c_timing c) (c_self c)
    (c_app_id c) (c_events c) (c_outbound c).
Definition c_set_mode (x : OperatingMode) (c : Conversation St) : Conversation St :=
    mk_conversation (c_id c) (c_now c) (c_queues c) (c_mls c) (c_scoring c) (c_stewards c)
    (c_engine c) (c_bus c) (c_sm c) (c_config c) x (c_recovery_rounds c) (c_timing c) (c_self c)
    (c_app_id c) (c_events c) (c_outbound c).
Definition c_set_rounds (x : N) (c : Conversation St) : Conversation St :=
    mk_conversation (c_id c) (c_now c) (c_queues c) (c_mls c) (c_scoring c) (c_stewards c)
    (c_engine c) (c_bus c) (c_sm c) (c_config c) (c_mode c) x (c_timing c) (c_self c) (c_app_id c)
    (c_events c) (c_outbound c).
Definition c_set_timing (x : Timing) (c : Conversation St) : Conversation St :=
    mk_conversation (c_id c) (c_now c) (c_queues c) (c_mls c) (c_scoring c) (c_stewards c)
    (c_engine c) (c_bus c) (c_sm c) (c_config c) (c_mode c) (c_recovery_rounds c) x (c_self c)
    (c_app_id c) (c_events c) (c_outbound c).
Definition c_set_events (x : list ConversationEvent) (c : Conversation St) : Conversation St :=
    mk_conversation (c_id c) (c_now c) (c_queues c) (c_mls c) (c_scoring c) (c_stewards c)
    (c_engine c) (c_bus c) (c_sm c) (c_config c) (c_mode c) (c_recovery_rounds c) (c_timing c)
    (c_self c) (c_app_id c) x (c_outbound c).
Definition c_set_outbound (x : list Outbound) (c : Conversation St) : Conversation St :=
    mk_conversation (c_id c) (c_now c) (c_queues c) (c_mls c) (c_scoring c) (c_stewards c)
    (c_engine c) (c_bus c) (c_sm c) (c_config c) (c_mode c) (c_recovery_rounds c) (c_timing c)
    (c_self c) (c_app_id c) (c_events c) x.
End updates.

(** A method on the conversation. *)
Section conversation.
Context {HS : Hash} {OM : OpenMls} {CS : ConsensusLib} {CD : Codec} {CT : ConsensusTexts} {HI : HashIter}.
Context {St : Type} `{!PeerScoreStorage St}.
Abbreviation Conv := (Conversation St).
Abbreviation conv := (method Conv).
Implicit Types (c : Conv).

Definition conversation_new (id : string) (queues : ConversationQueues) (mls : MlsService)
    (scoring : PeerScoringService St) (stewards : StewardListService) (engine : Engine)
    (sm : ConversationStateMachine) (config : ConversationConfig) (now : Duration)
    (self_member_id app_id : bytes) : Conv :=
  mk_conversation id now queues mls scoring stewards engine [] sm config Normal 0 timing_new
    self_member_id app_id [] [].

(** *** Access to the parts *)

Definition timestamp c : Timestamp := mk_timestamp (c_now c).
(** [self.clock.now().as_secs()]. *)
Definition now_secs c : N := duration_as_secs (c_now c).

Definition on_queues {A} (f : ConversationQueues → ConversationQueues * A) : conv A :=
  λ c, let '(q, a) := f (c_queues c) in (c_set_queues q c, Ok a).
Definition edit_queues (f : ConversationQueues → ConversationQueues) : conv unit :=
  smodify (λ c, c_set_queues (f (c_queues c)) c).
Definition edit_timing (f : Timing → Timing) : conv unit :=
  smodify (λ c, c_set_timing (f (c_timing c)) c).
Definition edit_stewards (f : StewardListService → StewardListService) : conv unit :=
  smodify (λ c, c_set_stewards (f (c_stewards c)) c).
Definition on_stewards {A} (m : method StewardListService A) : conv A := szoom c_stewards c_set_stewards m.
Definition on_scoring {A} (m : method (PeerScoringService St) A) : conv A := szoom c_scoring c_set_scoring m.
Definition on_mls {A} (m : mls_method A) : conv A :=
  λ c, let '(mls, r) := m (c_mls c) in (c_set_mls mls c, result_map_err Mls r).
Definition on_round {A} (m : round_method A) : conv A :=
  λ c, let '((q, mls), r) := m (c_queues c, c_mls c) in (c_set_mls mls (c_set_queues q c), r).
(** An engine call publishes into the bus and returns the library's own error. *)
Definition engine {A} (m : engine_call Engine A) : state_result Conv ConsensusError A :=
  λ c, let '(e, published, r) := m (c_engine c) in
       (c_set_bus (c_bus c ++ published) (c_set_engine e c), r).
(** ... and under [?], [From<ConsensusError>]. *)
Definition on_engine {A} (m : engine_call Engine A) : conv A :=
  λ c, let '(c, r) := engine m c in (c, result_map_err Consensus r).
(** A step whose error is only logged. *)
Definition attempt (m : conv unit) : conv unit := scatch m (λ _, sret tt).

(** *** Events and outbound *)

Definition emit_event (ev : ConversationEvent) : conv unit :=
  smodify (λ c, c_set_events (c_events c ++ [ev]) c).
Definition drain_events c : Conv * list ConversationEvent := (c_set_events [] c, c_events c).
Definition broadcast (payload : bytes) : conv unit :=
  smodify (λ c, c_set_outbound (c_outbound c ++ [mk_outbound (c_id c) (c_app_id c) payload]) c).
Definition drain_outbound c : Conv * list Outbound := (c_set_outbound [] c, c_outbound c).

(** *** Operating mode and state *)

Definition is_in_recovery_mode c : bool := bool_decide (c_mode c = Recovery).
Definition enter_recovery_mode : conv unit := smodify (λ c, c_set_rounds 0 (c_set_mode Recovery c)).
Definition exit_recovery_mode : conv unit := smodify (c_set_mode Normal).
Definition current_state c : ConversationState := sm_state (c_sm c).

Definition start_working : conv ConversationState :=
  smodify (λ c, c_set_timing (set_phase_timer (phase_timer_clear (phase_timer (c_timing c))) (c_timing c))
                  (c_set_sm (sm_start_working (c_sm c)) c)) ;!
  sret Working.
Definition start_freezing : conv (option ConversationState) :=
  λ c, match sm_start_freezing (c_sm c) with
       | (sm, true) =>
           (c_set_timing (set_phase_timer (phase_timer_start (timestamp c) (phase_timer (c_timing c))) (c_timing c))
              (c_set_sm sm c), Ok (Some Freezing))
       | (sm, false) => (c_set_sm sm c, Ok None)
       end.
Definition start_selection : conv ConversationState :=
  smodify (λ c, c_set_sm (sm_start_selection (c_sm c)) c) ;! sret Selection.
Definition start_reelection : conv ConversationState :=
  smodify (λ c, c_set_timing (set_phase_timer (phase_timer_clear (phase_timer (c_timing c))) (c_timing c))
                  (c_set_sm (sm_start_reelection (c_sm c)) c)) ;!
  sret Reelection.
Definition reopen_recovery_window : conv (option ConversationState) :=
  λ c, match sm_reopen_freezing (c_sm c) with
       | (sm, true) =>
           (c_set_timing (set_phase_timer (phase_timer_start (timestamp c) (phase_timer (c_timing c))) (c_timing c))
              (c_set_sm sm c), Ok (Some Freezing))
       | (sm, false) => (c_set_sm sm c, Ok None)
       end.

Definition is_freeze_window_elapsed c : bool :=
  bool_decide (current_state c = Freezing) &&
  elapsed_since_anchor (phase_timer (c_timing c)) (timestamp c) (freeze_duration (c_config c)).

Definition check_steward_inactivity (approved_count : N) (inactivity : Duration) :
    conv (option ConversationState) :=
  let! c := sget id in
  if negb (bool_decide (current_state c = Working)) || (approved_count =? 0)%N then sret None else
  match started_at (phase_timer (c_timing c)) with
  | None =>
      edit_timing (λ t, set_phase_timer (phase_timer_start (timestamp c) (phase_timer t)) t) ;!
      sret None
  | Some _ =>
      if negb (elapsed_since_anchor (phase_timer (c_timing c)) (timestamp c) inactivity)
      then sret None else start_freezing
  end.

(** *** Deadlines *)

Definition register_auto_vote (proposal_id : N) (delay : Duration) (vote : bool) : conv unit :=
  let! now := sget timestamp in
  edit_timing (λ t, set_auto_votes (<[proposal_id := mk_auto_vote (ts_add now delay) vote]> (pending_auto_votes t)) t).
Definition cancel_auto_vote (proposal_id : N) : conv unit :=
  edit_timing (λ t, set_auto_votes (delete proposal_id (pending_auto_votes t)) t).
Definition cancel_all_auto_votes : conv unit := edit_timing (set_auto_votes ∅).
Definition register_consensus_timeout (proposal_id : N) (delay : Duration) : conv unit :=
  let! now := sget timestamp in
  edit_timing (λ t, set_timeouts (<[proposal_id := ts_add now delay]> (pending_consensus_timeouts t)) t).
Definition unregister_consensus_timeout (proposal_id : N) : conv unit :=
  edit_timing (λ t, set_timeouts (delete proposal_id (pending_consensus_timeouts t)) t).

Definition phase_deadline c : option Timestamp :=
  anchor ← started_at (phase_timer (c_timing c));
  match current_state c with
  | Freezing => Some (ts_add anchor (freeze_duration (c_config c)))
  | Working =>
      if (approved_proposals_count (c_queues c) =? 0)%N then None
      else Some (ts_add anchor (if is_in_recovery_mode c then retry_window (c_config c)
                                else commit_batch_window (c_config c)))
  | _ => None
  end.
Definition sync_request_deadline c : option Timestamp :=
  (λ anchor, ts_add anchor (backup_takeover_window (c_config c))) <$> sync_request_anchor (c_timing c).

(** [Iterator::min]. *)
Definition earliest (l : list Timestamp) : option Timestamp :=
  foldr (λ t acc, Some (match acc with None => t | Some a => ts_min t a end)) None l.
Definition pending_deadlines c : list Timestamp :=
  (map_to_list (pending_consensus_timeouts (c_timing c))).*2 ++
  (fire_at <$> (map_to_list (pending_auto_votes (c_timing c))).*2) ++
  option_list (phase_deadline c) ++ option_list (sync_request_deadline c).
Definition next_wakeup_in c : option Duration :=
  (λ t, saturating_duration_since t (timestamp c)) <$> earliest (pending_deadlines c).

(** *** Scores *)

Definition emit_score_changes (changes : list ScoreChange) : conv unit :=
  sfor changes (λ ch, emit_event (EvMemberScoreChanged (ch_member_id ch) (ch_previous ch) (ch_score ch))).
Definition apply_score_ops (ops : list ScoreOp) : conv unit :=
  let! changes := on_scoring (apply_ops ops) in emit_score_changes changes.
Definition apply_score_snapshot (snap : ScoreSnapshot) : conv unit :=
  let! changes := on_scoring (apply_snapshot snap) in emit_score_changes changes.

(** *** Queries *)

Definition mls_epoch c : N := g_epoch (mls_group (c_mls c)).
Definition members_of c : list bytes := mls_members (c_mls c).
Definition conv_mls_group c : MlsGroup := mls_group (c_mls c).
Definition state c : ConversationState := current_state c.
Definition conv_id c : string := c_id c.
Definition member_id_bytes c : bytes := c_self c.
(** [None] is the panic of its [expect]. *)
Definition own_id c : option MemberId := member_id_at (c_mls c) (member_id_bytes c).
Definition app_id c : bytes := c_app_id c.
Definition conv_pending_update_count c : N := pending_update_count (c_queues c).
Definition score_threshold c : Z := threshold (sc_config (c_scoring c)).
Definition score_default c : Z := default_score (sc_config (c_scoring c)).
Definition approved_proposals_for_current_epoch c : list ConversationUpdateRequest :=
  im_values (approved_proposals (c_queues c)).
Definition eligible_of c : bytes → bool := steward_eligibility (c_queues c) (members_of c).
Definition epoch_and_retry c : N * N := (mls_epoch c, next_election_round (c_stewards c)).
Definition commit_candidate_count c : N * N :=
  (candidate_count (commit_round (c_queues c)),
   match svc_list (c_stewards c) with Some l => len (sl_members l) | None => 0%N end).
Definition conv_is_steward c : bool := is_steward (c_stewards c) (c_self c).
Definition is_epoch_steward c : bool :=
  bool_decide ((epoch_and_backup (c_stewards c) (mls_epoch c) (eligible_of c)).1 = Some (c_self c)).
Definition member_scores c : res (list (MemberId * Z)) :=
  let? l := all_members_with_scores (c_scoring c) in
  Ok (omap (λ e : bytes * Z, (λ h, (h, e.2)) <$> member_id_at (c_mls c) e.1) l).
Definition member_score c (member : MemberId) : res (option Z) :=
  match leaf_of (c_mls c) member with
  | None => Err MemberGone
  | Some leaf => score_for (c_scoring c) (member_id_of leaf)
  end.
Definition pending_leave c : list MemberId :=
  omap (member_id_at (c_mls c)) (filterb (is_pending_self_leave (c_queues c)) (members_of c)).
Definition role_of c (id : bytes) : MemberRole :=
  let '(live_epoch, live_backup) := epoch_and_backup (c_stewards c) (mls_epoch c) (eligible_of c) in
  let exhausted := is_exhausted (c_stewards c) (mls_epoch c) in
  let has_list := bool_decide (is_Some (svc_list (c_stewards c))) in
  if has_list && negb exhausted then
    if bool_decide (live_epoch = Some id) then RoleEpochSteward
    else if bool_decide (live_backup = Some id) then RoleBackupSteward
    else if is_steward (c_stewards c) id then RoleSteward else RoleMember
  else if has_list && is_steward (c_stewards c) id then RoleSteward else RoleMember.
Definition member_roles c : list (MemberId * MemberRole) :=
  omap (λ id, (λ h, (h, role_of c id)) <$> member_id_at (c_mls c) id) (members_of c).

(** *** The local commit candidate *)

(** The loop over the first [commit_batch_max] approvals. *)
Fixpoint collect_updates c (urgent_target : option bytes) (entries : list ConversationUpdateRequest)
    (updates : list MlsCommitInput) (joiners : list bytes) : res (list MlsCommitInput * list bytes) :=
  match entries with
  | [] => Ok (updates, joiners)
  | proposal :: entries =>
      match req_payload proposal with
      | Some (MemberInvite kp) =>
          if bool_decide (is_Some urgent_target) then collect_updates c urgent_target entries updates joiners else
          let? joiner_key := result_map_err Mls (signature_key_of_key_package kp) in
          if existsb (λ m, bool_decide (signature_key m = joiner_key)) (g_members (mls_group (c_mls c)))
          then collect_updates c urgent_target entries updates joiners
          else collect_updates c urgent_target entries (updates ++ [CommitAdd kp]) (joiners ++ [joiner_key])
      | Some (RemoveMember id) =>
          if is_some_and urgent_target (λ target, negb (bool_decide (id = target)))
          then collect_updates c urgent_target entries updates joiners
          else if negb (bool_decide (id ∈ member_set (members_of c)))
          then collect_updates c urgent_target entries updates joiners
          else collect_updates c urgent_target entries (updates ++ [CommitRemove id]) joiners
      | _ => Err InvalidConversationUpdateRequest
      end
  end.

Definition non_mls_ids c : list N :=
  (filterb (λ p : N * ConversationUpdateRequest, is_governance (kind_of p.2)) (approved_proposals (c_queues c))).*1.

Definition build_local_candidate (self_member_id : bytes) : conv (option bytes) :=
  let! c := sget id in
  if negb (is_steward (c_stewards c) self_member_id) && negb (is_in_recovery_mode c) then sfail NotASteward else
  if bool_decide (approved_proposals (c_queues c) = []) then sfail NoProposals else
  if has_approved_removal (c_queues c) self_member_id then sret None else
  if negb (bool_decide (non_mls_ids c = [])) then sfail (UnexpectedNonMlsProposals (non_mls_ids c)) else
  let! collected := slift (collect_updates c (urgent_commit_target (c_queues c))
    (take (N.to_nat (commit_batch_max (c_config c))) (im_values (approved_proposals (c_queues c)))) [] []) in
  let '(updates, joiner_identities) := collected in
  if bool_decide (updates = []) then sret None else
  let! artifacts := on_mls (create_commit_candidate updates) in
  let candidate := mk_candidate (name_bytes (c_queues c)) (art_proposals artifacts) (art_commit artifacts)
    self_member_id in
  let! c := sget id in
  edit_queues (λ q, set_round (buffer_add candidate true (art_welcome artifacts) joiner_identities
    (mls_epoch c) (len (members_of c)) (commit_round q)).1 q) ;!
  sret (Some (encode_app_message (to_app_message (AppCommitCandidate candidate)))).

Definition mint_and_broadcast_candidate : conv bool :=
  let! self_member_id := sget c_self in
  let! payload := build_local_candidate self_member_id in
  match payload with
  | Some payload => broadcast payload ;! sret true
  | None => sret false
  end.

Definition on_freeze_entered (event : ConversationState) : conv unit :=
  let! c := sget id in
  (if is_steward (c_stewards c) (c_self c) then
     scatch mint_and_broadcast_candidate (λ r,
       match r with
       | Ok _ => sret tt
       | Err e => emit_event (EvError "commit_candidate_build" (error_to_string e))
       end)
   else sret tt) ;!
  emit_event (EvPhaseChange event).

Definition commit_in_recovery : conv bool :=
  let! c := sget id in
  if negb (is_in_recovery_mode c) then sfail NotInRecovery else mint_and_broadcast_candidate.

Definition resend_commit : conv bool :=
  let! c := sget id in
  match local_candidate_bytes (commit_round (c_queues c)) with
  | Some payload => broadcast payload ;! sret true
  | None => sret false
  end.

Definition conv_finalize_commit_round (allow_subset : bool) (self_member_id : bytes) : conv CommitRoundResult :=
  let! c := sget id in
  on_round (finalize_commit_round (c_stewards c) (is_in_recovery_mode c) allow_subset self_member_id).

Definition conv_replay_early_candidates : conv unit :=
  smodify (λ c, c_set_queues (replay_early_candidates (c_mls c) (c_queues c)) c).
End conversation.
