(* ===== verification/Room.v ===== *)
(** * A concrete conversation for the examples

    A consensus engine, a message encoding and a two-member room over [toy_mls], on
    which the theorems of the conversation are evaluated. The engine keeps its
    sessions in a map and resolves one when it arrives for one voter, a vote of a peer
    arrives, or its timeout fires. *)

From S2P Require Import Prelude Time Machine Protos StewardList Mls Toy Buffer Queues Scoring CommitRound ApplyResult Config Display Conversation.

(** ** The engine *)

Record ToyEngine := mk_engine { te_sessions : gmap N Proposal; te_next : N }.

Definition toy_vote (pid : N) (v : bool) (now : N) : Vote := mk_vote 1 [] pid now v [] [] [] [].
Definition toy_open (id now : N) (p : Proposal) : Proposal :=
  mk_proposal (prop_name p) (prop_payload p) id (proposal_owner p) (prop_votes p) (expected_voters_count p) 1 now
    (u64_saturating_add now (expiration_timestamp p)) (prop_liveness_criteria_yes p).
Definition toy_voted (p : Proposal) (v : Vote) : Proposal :=
  mk_proposal (prop_name p) (prop_payload p) (prop_id p) (proposal_owner p) (prop_votes p ++ [v])
    (expected_voters_count p) (prop_round p) (prop_timestamp p) (expiration_timestamp p) (prop_liveness_criteria_yes p).
Definition toy_cast {A} (pid : N) (v : bool) (now : N) (ret : Proposal → A) (e : ToyEngine) :
    ToyEngine * list ConsensusEvent * result ConsensusError A :=
  match te_sessions e !! pid with
  | None => (e, [], Err SessionNotFound)
  | Some p =>
      let p' := toy_voted p (toy_vote pid v now) in
      (mk_engine (<[pid := p']> (te_sessions e)) (te_next e), [], Ok (ret p'))
  end.

#[local] Instance toy_consensus : ConsensusLib := {|
  Engine := ToyEngine;
  CreateProposalRequest := Proposal;
  ConsensusConfig := Duration;
  fresh_name e := (mk_engine (te_sessions e) (te_next e + 1), pretty (te_next e));
  create_proposal_request name payload owner voters expiry liveness :=
    Ok (mk_proposal name payload 0 owner [] voters 1 0 expiry liveness);
  gossipsub_with_timeout d := Ok d;
  create_proposal_with_config _ req _ now e :=
    let p := toy_open (te_next e) now req in
    (mk_engine (<[te_next e := p]> (te_sessions e)) (te_next e + 1), [], Ok p);
  cast_vote _ pid v now := toy_cast pid v now (λ _, toy_vote pid v now);
  cast_vote_and_get_proposal _ pid v now := toy_cast pid v now id;
  process_incoming_proposal _ p now e :=
    if decide (is_Some (te_sessions e !! prop_id p)) then (e, [], Err ProposalAlreadyExist) else
    if (expiration_timestamp p <=? now)%N then (e, [], Err ProposalExpired) else
    (mk_engine (<[prop_id p := p]> (te_sessions e)) (te_next e),
     if (expected_voters_count p <=? 1)%N then [ConsensusReached (prop_id p) true now] else [], Ok tt);
  process_incoming_vote _ v now e :=
    match te_sessions e !! vote_proposal_id v with
    | None => (e, [], Err SessionNotFound)
    | Some p => (e, [ConsensusReached (prop_id p) (vote_value v) now], Ok tt)
    end;
  handle_consensus_timeout _ pid now e :=
    match te_sessions e !! pid with
    | None => (e, [], Err SessionNotFound)
    | Some p => (e, [ConsensusReached pid (prop_liveness_criteria_yes p) now], Ok (prop_liveness_criteria_yes p))
    end;
  remove_session _ pid e := (mk_engine (delete pid (te_sessions e)) (te_next e), [], Ok tt);
  get_proposal _ pid e := match te_sessions e !! pid with Some p => Ok p | None => Err SessionNotFound end;
  get_active_proposals _ e := Ok (map_to_list (te_sessions e)).*2;
  build_vote _ p v now := Ok (toy_vote (prop_id p) v now);
|}.

#[local] Instance toy_texts : ConsensusTexts := {| consensus_error_to_string _ := "consensus"%string |}.

(** ** The encoding *)

Definition toy_encode_request (r : ConversationUpdateRequest) : bytes :=
  match req_payload r with
  | Some (MemberInvite kp) => x01 :: kp
  | Some (RemoveMember id) => x02 :: id
  | Some (EmergencyCriteria None) => [x03]
  | Some (EmergencyCriteria (Some ev)) =>
      x04 :: byte_of_N (Z.to_N (violation_type ev)) :: byte_of_N (ev_epoch ev) ::
        put (target_member_id ev) ++ put (creator_member_id ev)
  | Some (StewardElection e) =>
      x05 :: byte_of_N (el_election_epoch e) :: byte_of_N (el_retry_round e) :: mjoin (put <$> proposed_stewards e)
  | None => [x00]
  end.
Definition toy_decode_request (b : bytes) : result ext_error ConversationUpdateRequest :=
  match b with
  | x01 :: kp => Ok (member_invite_request kp)
  | x02 :: id => Ok (remove_member_request id)
  | [x03] => Ok (mk_request (Some (EmergencyCriteria None)))
  | x04 :: v :: e :: rest =>
      let fields := get_all 2 rest in
      Ok (mk_request (Some (EmergencyCriteria (Some (mk_evidence (Z.of_N (Byte.to_N v)) (default [] (fields !! 0)) []
        (Byte.to_N e) (default [] (fields !! 1)))))))
  | x05 :: e :: r :: rest =>
      Ok (steward_election_request (mk_election (get_all (length rest) rest) (Byte.to_N e) (Byte.to_N r)))
  | [x00] => Ok (mk_request None)
  | _ => Err "bad request"%string
  end.

(** Leaves 0 and 1 are the stewards. *)
Definition toy_sync_of (unsettled : list bytes) : ConversationSync :=
  mk_sync [member_id_of 0; member_id_of 1] 3 1 2 false [] (Some (timing_config_from config_default)) 0 2 true 0 3 unsettled 100.
Definition toy_sync : ConversationSync := toy_sync_of [].

(** A tag byte and the fields the examples read. *)
Definition toy_encode_app (m : AppMessage) : bytes :=
  match app_payload m with
  | Some (AppConversationMessage b _) => x30 :: b
  | Some (AppBanRequest id _) => x31 :: id
  | Some (AppProposal p) =>
      x32 :: byte_of_N (prop_id p) :: byte_of_N (expected_voters_count p) :: put (proposal_owner p) ++ prop_payload p
  | Some (AppCommitCandidate c) =>
      x33 :: put (commit_message c) ++ put (steward_member_id c) ++ mjoin (put <$> mls_proposals c)
  | Some (AppConversationSync s) => x34 :: mjoin (put <$> unsettled_members s)
  | Some (AppMemberWelcome w) => x35 :: welcome_bytes w
  | Some AppConversationSyncRequest => [x36]
  | Some (AppVote v) => [x37; byte_of_N (vote_proposal_id v); if vote_value v then x01 else x00]
  | _ => [x3f]
  end.
Definition toy_decode_app (b : bytes) : result ext_error AppMessage :=
  match b with
  | x30 :: b => Ok (to_app_message (AppConversationMessage b "g"))
  | x31 :: id => Ok (to_app_message (AppBanRequest id "g"))
  | x32 :: id :: voters :: n :: rest =>
      let k := N.to_nat (Byte.to_N n) in
      Ok (to_app_message (AppProposal (mk_proposal "p" (drop k rest) (Byte.to_N id) (take k rest)
        [toy_vote (Byte.to_N id) true 0] (Byte.to_N voters) 1 0 2000 true)))
  | x33 :: rest =>
      match get_all (length rest) rest with
      | commit :: steward :: ps => Ok (to_app_message (AppCommitCandidate (mk_candidate [x67] ps commit steward)))
      | _ => Err "bad candidate"%string
      end
  | x34 :: rest => Ok (to_app_message (AppConversationSync (toy_sync_of (get_all (length rest) rest))))
  | x35 :: w => Ok (to_app_message (AppMemberWelcome (mk_welcome w [] [])))
  | [x36] => Ok (to_app_message AppConversationSyncRequest)
  | [x37; id; v] => Ok (to_app_message (AppVote (toy_vote (Byte.to_N id) (bool_decide (v = x01)) 0)))
  | _ => Err "bad message"%string
  end.

#[local] Instance toy_codec : Codec := {|
  encode_app_message := toy_encode_app;
  decode_app_message := toy_decode_app;
  encode_request := toy_encode_request;
  decode_request := toy_decode_request;
|}.

(** ** The room *)

#[local] Existing Instance canonical_hash_iter.
#[local] Existing Instance example_hash.
#[local] Existing Instance toy_mls.

Abbreviation Room := (Conversation (OM := toy_mls) (CS := toy_consensus) InMemoryPeerScoreStorage).

Definition room_scores : PeerScoringService InMemoryPeerScoreStorage :=
  scoring_new (mk_in_memory {[ member_id_of 0 := 100%Z; member_id_of 1 := 100%Z ]}) ∅ scoring_config_default.
Definition room_stewards : StewardListService :=
  mk_svc (Some (mk_sl [member_id_of 0; member_id_of 1] slc_default 3 0)) slc_default [x67] 0 2.

(** Leaf 0's view of the room of [toy_group]: epoch 3, both members on the steward
    list elected at that epoch, the clock at 1000 seconds. *)
Definition room : Room :=
  conversation_new "g" (queues_new "g" 8) toy_service room_scores room_stewards (mk_engine ∅ 7) (mk_sm Working)
    config_default (duration_from_secs 1000) (member_id_of 0) [xaa].
