(* ===== verification/Net.v ===== *)
(** * The libraries of the integration tests

    The protocol tests under [src/tests/] run several members against OpenMLS, the
    consensus library and prost. This file has an instance of each that several
    members can share: a group whose epochs have secrets, so that members of a forked
    group cannot read each other; a consensus engine that counts the votes of two
    thirds; an encoding that keeps every field the members exchange. *)

From S2P Require Import Prelude Time Protos StewardList Mls Toy Conversation Room.

#[local] Existing Instance example_hash.

(** ** Frames *)

(** Byte strings with their length, in two bytes, in front. *)
Definition frame (b : bytes) : bytes := be_bytes 2 (len b) ++ b.
Fixpoint frames_of (fuel : nat) (b : bytes) : list bytes :=
  match fuel, b with
  | S fuel, n :: m :: b => let k := N.to_nat (be_value [n; m]) in take k b :: frames_of fuel (drop k b)
  | _, _ => []
  end.
Definition frames (fields : list bytes) : bytes := mjoin (frame <$> fields).
Definition unframe (b : bytes) : list bytes := frames_of (length b) b.

Definition put_n (n : N) : bytes := be_bytes 8 n.
Definition put_b (b : bool) : bytes := [if b then x01 else x00].
Definition get_b (b : bytes) : bool := bool_decide (b = [x01]).
Definition put_z (z : Z) : bytes := put_b (0 <=? z)%Z ++ be_bytes 8 (Z.to_N (Z.abs z)).
Definition get_z (b : bytes) : Z :=
  match b with s :: b => let n := Z.of_N (be_value b) in if get_b [s] then n else (- n)%Z | [] => 0 end.
Definition put_s : string → bytes := String.list_byte_of_string.
Definition get_s : bytes → string := String.string_of_list_byte.

(** ** The group *)

Inductive NetProposal := NetAdd (key : bytes) | NetRemove (leaf : N).
#[export] Instance net_proposal_eq_dec : EqDecision NetProposal.
Proof. solve_decision. Defined.

(** A commit read by a member knows whether it removes that member. *)
Record NetCommit := mk_net_commit { nc_committer : N; nc_proposals : list NetProposal; nc_removes_reader : bool }.

(** The secret of an epoch tells the branches of a forked group apart. *)
Record NetGroup := mk_net {
  ng_id : bytes;
  ng_members : gmap N bytes;
  ng_epoch : N;
  ng_secret : N;
  ng_own : N;
  ng_pending : list (N * NetProposal);
  ng_commit : option NetCommit;
}.
Definition ng_set_pending (ps : list (N * NetProposal)) (g : NetGroup) : NetGroup :=
  mk_net (ng_id g) (ng_members g) (ng_epoch g) (ng_secret g) (ng_own g) ps (ng_commit g).
Definition ng_set_commit (c : option NetCommit) (g : NetGroup) : NetGroup :=
  mk_net (ng_id g) (ng_members g) (ng_epoch g) (ng_secret g) (ng_own g) (ng_pending g) c.

Definition proposal_out (p : NetProposal) : bytes :=
  match p with NetAdd key => x01 :: key | NetRemove leaf => x02 :: put_n leaf end.
Definition proposal_in (b : bytes) : option NetProposal :=
  match b with
  | x01 :: key => Some (NetAdd key)
  | x02 :: leaf => Some (NetRemove (be_value leaf))
  | _ => None
  end.

(** The removals first, then the adds, each to the lowest free leaf. *)
Definition removes (ps : list NetProposal) : list N := omap (λ p, match p with NetRemove i => Some i | _ => None end) ps.
Definition adds (ps : list NetProposal) : list bytes := omap (λ p, match p with NetAdd k => Some k | _ => None end) ps.
Definition net_members_after (ps : list NetProposal) (m : gmap N bytes) : gmap N bytes :=
  foldl (λ m key, <[toy_free_leaf m := key]> m) (foldl (λ m i, delete i m) m (removes ps)) (adds ps).
Definition net_digest (seed : N) (b : bytes) : N := foldl (λ h x, (h * 31 + Byte.to_N x + 1) `mod` 65521)%N seed b.
Definition net_merge (c : NetCommit) (g : NetGroup) : NetGroup :=
  mk_net (ng_id g) (net_members_after (nc_proposals c) (ng_members g)) (ng_epoch g + 1)
    (net_digest (ng_secret g) (put_n (nc_committer c) ++ frames (proposal_out <$> nc_proposals c))) (ng_own g) [] None.

(** Messages in clear but for the secret they are read with. *)
Record NetMessage := mk_net_message {
  nm_group : bytes; nm_kind : byte; nm_sender : N; nm_epoch : N; nm_secret : N; nm_payload : bytes;
}.
Definition net_send (kind : byte) (g : NetGroup) (payload : bytes) : bytes :=
  frames [ng_id g; [kind]; be_bytes 1 (ng_own g); be_bytes 2 (ng_epoch g); be_bytes 2 (ng_secret g); payload].
Definition net_parse (b : bytes) : result ext_error NetMessage :=
  match unframe b with
  | [group; [kind]; sender; epoch; secret; payload] =>
      Ok (mk_net_message group kind (be_value sender) (be_value epoch) (be_value secret) payload)
  | _ => Err "not a message"%string
  end.

Definition net_by (sender : N) (g : NetGroup) : list NetProposal :=
  (filter (λ p : N * NetProposal, p.1 = sender) (ng_pending g)).*2.

(** The group a welcome carries, and the view of it at the leaf of a key. *)
Definition net_welcome (g : NetGroup) : bytes :=
  frames (ng_id g :: put_n (ng_epoch g) :: put_n (ng_secret g) ::
    ((λ kv : N * bytes, frames [put_n kv.1; kv.2]) <$> map_to_list (ng_members g))).
Definition net_welcomed (key b : bytes) : option NetGroup :=
  match unframe b with
  | id :: epoch :: secret :: entries =>
      let entries := omap (λ e, match unframe e with [i; k] => Some (be_value i, k) | _ => None end) entries in
      own ← List.find (λ kv : N * bytes, bool_decide (kv.2 = key)) entries;
      Some (mk_net id (list_to_map entries) (be_value epoch) (be_value secret) own.1 [] None)
  | _ => None
  end.

(** A commit may not add a key twice. *)
Definition net_commits (g : NetGroup) : bool :=
  let ps := (ng_pending g).*2 in
  bool_decide (NoDup (adds ps)) &&
  forallb (λ k, negb (existsb (λ kv : N * bytes, bool_decide (kv.2 = k)) (map_to_list (ng_members g)))) (adds ps).

Definition net_propose (p : NetProposal) (kind : byte) (payload : bytes) : group_call NetGroup bytes :=
  λ g, (ng_set_pending (ng_pending g ++ [(ng_own g, p)]) g, Ok (net_send kind g payload)).

Definition net_read (m : NetMessage) (g : NetGroup) :
    result ext_error (Sender * ProcessedContent (N * NetProposal) NetCommit) :=
  let from := SenderMember (nm_sender m) in
  if decide (nm_sender m = ng_own g) then Err "own message"%string
  else if negb (bool_decide (nm_epoch m = ng_epoch g) && bool_decide (nm_secret m = ng_secret g)) then Err "unreadable"%string
  else match nm_kind m with
  | x01 => Ok (from, ProposalMessage (nm_sender m, NetAdd (nm_payload m)))
  | x02 => Ok (from, ProposalMessage (nm_sender m, NetRemove (be_value (nm_payload m))))
  | x03 =>
      let ps := omap proposal_in (unframe (nm_payload m)) in
      if decide (ps = net_by (nm_sender m) g)
      then Ok (from, StagedCommitMessage (mk_net_commit (nm_sender m) ps (bool_decide (ng_own g ∈ removes ps))))
      else Err "unknown proposal"%string
  | x04 => Ok (from, ApplicationMessage (nm_payload m))
  | _ => Err "unknown kind"%string
  end.

(** A key package is the signature key, of one byte, and a serial number. *)
Definition net_mls : OpenMls := {|
  MlsGroup := NetGroup;
  StagedCommit := NetCommit;
  QueuedProposal := N * NetProposal;
  KeyPackageIn := bytes;
  KeyPackage := bytes;
  MlsMessageIn := NetMessage;
  MlsMessageOut := bytes;
  ProtocolMessage := NetMessage;
  key_package_in b := match b with [_; _] => Ok b | _ => Err "not a key package"%string end;
  kp_signature_key kp := take 1 kp;
  kp_validate kp := Ok kp;
  kp_leaf_signature_key kp := take 1 kp;
  g_members g := toy_member <$> map_to_list (ng_members g);
  g_member_at g i := (λ k, mk_member i k k) <$> ng_members g !! i;
  g_epoch := ng_epoch;
  g_group_id := ng_id;
  g_own_leaf_index := ng_own;
  g_pending_commit := ng_commit;
  propose_add_member kp := net_propose (NetAdd (take 1 kp)) x01 (take 1 kp);
  propose_remove_member i := net_propose (NetRemove i) x02 (put_n i);
  commit_to_pending_proposals g :=
    if negb (net_commits g) then (g, Err "Duplicate signature key in proposals and group"%string) else
    let ps := (ng_pending g).*2 in
    let c := mk_net_commit (ng_own g) ps false in
    (ng_set_commit (Some c) g,
     Ok (net_send x03 g (frames (proposal_out <$> ps)),
         if bool_decide (adds ps = []) then None else Some (net_send x05 g (net_welcome (net_merge c g)))));
  merge_pending_commit g := (match ng_commit g with Some c => net_merge c g | None => g end, Ok tt);
  clear_pending_commit g := (ng_set_commit None g, Ok tt);
  clear_pending_proposals g := (ng_set_pending [] g, Ok tt);
  store_pending_proposal p g := (ng_set_pending (ng_pending g ++ [p]) g, Ok tt);
  g_merge_staged_commit c g := (net_merge c g, Ok tt);
  g_delete g := (mk_net (ng_id g) ∅ (ng_epoch g) (ng_secret g) (ng_own g) [] None, Ok tt);
  sc_self_removed := nc_removes_reader;
  sc_add_signature_keys c := adds (nc_proposals c);
  sc_removed_leaves c := removes (nc_proposals c);
  mls_message_in := net_parse;
  try_into_protocol_message m := Ok m;
  extract_protocol m := Some m;
  pm_group_id := nm_group;
  pm_epoch := nm_epoch;
  pm_content_type m := toy_content (nm_kind m);
  process_message m g := (g, net_read m g);
  create_message b g := (g, Ok (net_send x04 g b));
  message_to_bytes b := Ok b;
|}.

(** The provider and the credential of a member are its signature key. *)
#[local] Existing Instance net_mls.
Definition net_setup : OpenMlsSetup := {|
  Provider := bytes;
  CredentialWithKey := bytes;
  MlsGroupCreateConfig := unit;
  Welcome := bytes;
  StagedWelcome := NetGroup;
  new_with_group_id _ _ id key := Ok (mk_net id {[ 0%N := key ]} 0 0 0 [] None : MlsGroup);
  extract_welcome (m : MlsMessageIn) := if decide (nm_kind m = x05) then Some (nm_payload m) else None;
  staged_welcome_new key w := match net_welcomed key w with Some g => Ok g | None => Err NoMatchingKeyPackage end;
  into_group _ g := Ok g;
|}.

(** ** The consensus engine *)

(** A member's sessions, open until they have an outcome; whom it votes as. *)
Record NetEngine := mk_net_engine { ne_self : bytes; ne_sessions : gmap N (Proposal * option bool); ne_next : N }.
Definition ne_put (p : Proposal) (o : option bool) (e : NetEngine) : NetEngine :=
  mk_net_engine (ne_self e) (<[prop_id p := (p, o)]> (ne_sessions e)) (ne_next e).

(** Two thirds of the expected voters decide, everybody when there are at most two;
    silent voters count as the liveness criteria say once time is up. *)
Definition votes_for (v : bool) (p : Proposal) : N := len (filterb (λ x, Bool.eqb (vote_value x) v) (prop_votes p)).
Definition quorum (n : N) : N := if (n <=? 2)%N then n else ((2 * n + 2) / 3)%N.
Definition tally (yes no n : N) : option bool :=
  if (quorum n <=? yes)%N then Some true else
  if (quorum n <=? no)%N then Some false else
  if (n <=? yes + no)%N then Some ((2 <? n) && (no <? yes))%N else None.
Definition counted (p : Proposal) : option bool := tally (votes_for true p) (votes_for false p) (expected_voters_count p).
Definition at_timeout (p : Proposal) : option bool :=
  let n := expected_voters_count p in
  let yes := votes_for true p in
  let no := votes_for false p in
  if (n <=? 2)%N then tally yes no n else
  if prop_liveness_criteria_yes p then tally (n - no) no n else tally yes (n - yes) n.

Definition cast_by (who : bytes) (v : bool) (now : N) (p : Proposal) : Vote := mk_vote 1 who (prop_id p) now v [] [] [] [].
Definition outcome_events (p : Proposal) (now : N) (o : option bool) : list ConsensusEvent :=
  match o with Some b => [ConsensusReached (prop_id p) b now] | None => [] end.
Definition net_session (p : Proposal) (now : N) (e : NetEngine) : NetEngine * list ConsensusEvent :=
  (ne_put p (counted p) e, outcome_events p now (counted p)).

(** A vote into an open session, once per voter. *)
Definition net_vote {A} (pid : N) (vote : Proposal → Vote) (now : N) (ret : Proposal → A) : engine_call NetEngine A :=
  λ e, match ne_sessions e !! pid with
  | None => (e, [], Err SessionNotFound)
  | Some (_, Some _) => (e, [], Err SessionNotActive)
  | Some (p, None) =>
      let v := vote p in
      if existsb (λ x, bool_decide (vote_owner x = vote_owner v)) (prop_votes p) then (e, [], Err UserAlreadyVoted) else
      let p := toy_voted p v in
      (net_session p now e, Ok (ret p))
  end.

#[local] Instance net_consensus : ConsensusLib := {|
  Engine := NetEngine;
  CreateProposalRequest := Proposal;
  ConsensusConfig := Duration;
  fresh_name e := (mk_net_engine (ne_self e) (ne_sessions e) (ne_next e + 1), pretty (ne_next e));
  create_proposal_request name payload owner voters expiry liveness :=
    Ok (mk_proposal name payload 0 owner [] voters 1 0 expiry liveness);
  gossipsub_with_timeout d := Ok d;
  create_proposal_with_config _ req _ now e :=
    let p := toy_open (ne_next e) now req in
    (mk_net_engine (ne_self e) (<[ne_next e := (p, None)]> (ne_sessions e)) (ne_next e + 1), [], Ok p);
  cast_vote _ pid v now e := net_vote pid (cast_by (ne_self e) v now) now (cast_by (ne_self e) v now) e;
  cast_vote_and_get_proposal _ pid v now e := net_vote pid (cast_by (ne_self e) v now) now id e;
  process_incoming_proposal _ p now e :=
    if decide (is_Some (ne_sessions e !! prop_id p)) then (e, [], Err ProposalAlreadyExist) else
    if (expiration_timestamp p <=? now)%N then (e, [], Err ProposalExpired) else
    (net_session p now e, Ok tt);
  process_incoming_vote _ v now e := net_vote (vote_proposal_id v) (λ _, v) now (λ _, tt) e;
  handle_consensus_timeout _ pid now e :=
    match ne_sessions e !! pid with
    | Some (p, None) =>
        match at_timeout p with
        | Some b => (ne_put p (Some b) e, [ConsensusReached pid b now], Ok b)
        | None => (ne_put p (Some false) e, [ConsensusFailed pid now], Ok false)
        end
    | Some (_, Some b) => (e, [], Ok b)
    | None => (e, [], Err SessionNotFound)
    end;
  remove_session _ pid e := (mk_net_engine (ne_self e) (delete pid (ne_sessions e)) (ne_next e), [], Ok tt);
  get_proposal _ pid e := match ne_sessions e !! pid with Some (p, _) => Ok p | None => Err SessionNotFound end;
  get_active_proposals _ e :=
    Ok (omap (λ s : N * (Proposal * option bool), match s.2.2 with None => Some s.2.1 | Some _ => None end) (map_to_list (ne_sessions e)));
  build_vote e p v now := Ok (cast_by (ne_self e) v now p);
|}.

(** ** The encoding *)

(** Each message is a frame per field. *)
Definition put_vote (v : Vote) : bytes :=
  frames [put_n (vote_id v); vote_owner v; put_n (vote_proposal_id v); put_n (vote_timestamp v); put_b (vote_value v)].
Definition get_vote (b : bytes) : option Vote :=
  match unframe b with
  | [id; owner; pid; ts; v] => Some (mk_vote (be_value id) owner (be_value pid) (be_value ts) (get_b v) [] [] [] [])
  | _ => None
  end.
Definition put_session (p : Proposal) : bytes :=
  frames [put_s (prop_name p); prop_payload p; put_n (prop_id p); proposal_owner p; frames (put_vote <$> prop_votes p);
    put_n (expected_voters_count p); put_n (prop_round p); put_n (prop_timestamp p); put_n (expiration_timestamp p);
    put_b (prop_liveness_criteria_yes p)].
Definition get_session (b : bytes) : option Proposal :=
  match unframe b with
  | [name; payload; id; owner; votes; voters; round; ts; expiry; live] =>
      Some (mk_proposal (get_s name) payload (be_value id) owner (omap get_vote (unframe votes)) (be_value voters)
        (be_value round) (be_value ts) (be_value expiry) (get_b live))
  | _ => None
  end.
Definition put_candidate (c : CommitCandidate) : bytes :=
  frames [cand_conversation_id c; frames (mls_proposals c); commit_message c; steward_member_id c].
Definition get_candidate (b : bytes) : option CommitCandidate :=
  match unframe b with [id; ps; commit; steward] => Some (mk_candidate id (unframe ps) commit steward) | _ => None end.
Definition put_welcome (w : MemberWelcome) : bytes :=
  frames [welcome_bytes w; conversation_sync_bytes w; frames (joiner_identities w)].
Definition get_welcome (b : bytes) : option MemberWelcome :=
  match unframe b with [w; sync; joiners] => Some (mk_welcome w sync (unframe joiners)) | _ => None end.
Definition put_timing (t : TimingConfig) : bytes :=
  frames (put_n <$> [commit_batch_window_ms t; freeze_duration_ms t; proposal_expiration_ms t; consensus_timeout_ms t;
    retry_window_ms t; backup_takeover_window_ms t]).
Definition get_timing (b : bytes) : option TimingConfig :=
  match be_value <$> unframe b with
  | [batch; freeze; expiry; timeout; retry; backup] => Some (mk_timing_config batch freeze expiry timeout retry backup)
  | _ => None
  end.
Definition put_sync (s : ConversationSync) : bytes :=
  frames [frames (steward_members s); put_n (sync_election_epoch s); put_n (sync_sn_min s); put_n (sync_sn_max s);
    put_b (sync_allow_subset_candidates s); frames ((λ x : bytes * Z, frames [x.1; put_z x.2]) <$> peer_scores s);
    match sync_timing s with Some t => put_timing t | None => [] end; put_n (sync_retry_round s);
    put_n (sync_max_reelection_attempts s); put_b (sync_liveness_criteria_yes s); put_z (threshold_peer_score s);
    put_n (sync_pending_update_max_epochs s); frames (unsettled_members s); put_z (default_peer_score s)].
Definition get_sync (b : bytes) : option ConversationSync :=
  match unframe b with
  | [stewards; epoch; lo; hi; subset; scores; timing; round; attempts; live; threshold; epochs; unsettled; score] =>
      Some (mk_sync (unframe stewards) (be_value epoch) (be_value lo) (be_value hi) (get_b subset)
        (omap (λ e, match unframe e with [id; z] => Some (id, get_z z) | _ => None end) (unframe scores))
        (get_timing timing) (be_value round) (be_value attempts) (get_b live) (get_z threshold) (be_value epochs)
        (unframe unsettled) (get_z score))
  | _ => None
  end.

(** The messages no member sends are left out. *)
Definition put_app (m : AppMessage) : bytes :=
  match app_payload m with
  | Some (AppConversationMessage b id) => frames [[x01]; b; put_s id]
  | Some (AppBanRequest member id) => frames [[x02]; member; put_s id]
  | Some (AppProposal p) => frames [[x03]; put_session p]
  | Some (AppVote v) => frames [[x04]; put_vote v]
  | Some (AppCommitCandidate c) => frames [[x05]; put_candidate c]
  | Some (AppConversationSync s) => frames [[x06]; put_sync s]
  | Some (AppMemberWelcome w) => frames [[x07]; put_welcome w]
  | Some (AppMembershipChange id member change) => frames [[x08]; put_s id; member; put_z change]
  | Some AppConversationSyncRequest => frames [[x09]]
  | _ => []
  end.
Definition get_app (b : bytes) : option AppPayload :=
  match unframe b with
  | [[x01]; b; id] => Some (AppConversationMessage b (get_s id))
  | [[x02]; member; id] => Some (AppBanRequest member (get_s id))
  | [[x03]; p] => AppProposal <$> get_session p
  | [[x04]; v] => AppVote <$> get_vote v
  | [[x05]; c] => AppCommitCandidate <$> get_candidate c
  | [[x06]; s] => AppConversationSync <$> get_sync s
  | [[x07]; w] => AppMemberWelcome <$> get_welcome w
  | [[x08]; id; member; change] => Some (AppMembershipChange (get_s id) member (get_z change))
  | [[x09]] => Some AppConversationSyncRequest
  | _ => None
  end.
Definition net_codec : Codec := {|
  encode_app_message := put_app;
  decode_app_message b := match get_app b with Some p => Ok (to_app_message p) | None => Err "bad message"%string end;
  encode_request := toy_encode_request;
  decode_request := toy_decode_request;
|}.
