(* ===== verification/Voting.v ===== *)
(** * Proposals and votes: [src/consensus/voting.rs]

    Opening a proposal, casting and forwarding votes, the self-leave round and the
    timeout resolution. [tick_deadlines], which also drains the outcomes, is in
    [HandleOutcome]. *)

From S2P Require Import Prelude Time Machine Protos StewardList Mls Toy Buffer Queues Scoring CommitRound ApplyResult Config Display Conversation Room.

Inductive CreatorVote := CreatorYes | CreatorDeferred.

Record ProposalParams := mk_params {
  pp_expected_voters : N;
  pp_proposal_expiration : Duration;
  pp_consensus_timeout : Duration;
  pp_liveness_criteria_yes : bool;
}.

Section voting.
Context {HS : Hash} {OM : OpenMls} {CS : ConsensusLib} {CD : Codec} {CT : ConsensusTexts} {HI : HashIter}.
Context {St : Type} `{!PeerScoreStorage St}.
Abbreviation Conv := (Conversation St).
Abbreviation conv := (method Conv).
Implicit Types (c : Conv).

(** Whether the state machine takes a new proposal of this kind, and from how many
    voters ([len() as u32]). *)
Definition check_proposal_allowed c (kind : ProposalKind) : res N :=
  let state := current_state c in
  let? _ := match state with
    | Reelection =>
        if negb (is_emergency kind) && negb (is_steward_election kind)
        then Err (ConversationBlocked (state_to_string state))
        else if partial_freeze_blocks (c_queues c) kind then Err PartialFreeze else Ok tt
    | Freezing | Selection => Err (ConversationBlocked (state_to_string state))
    | Working => if partial_freeze_blocks (c_queues c) kind then Err PartialFreeze else Ok tt
    end in
  Ok (as_u32 (len (members_of c))).

Definition submit_proposal (request : ConversationUpdateRequest) (params : ProposalParams) :
    conv (N * AppMessage) :=
  let! name := (λ c, let '(e, n) := fresh_name (c_engine c) in (c_set_engine e c, Ok n)) in
  let! c := sget id in
  let! create_request := slift (result_map_err Consensus
    (create_proposal_request name (encode_request request) (c_self c) (pp_expected_voters params)
       (duration_as_secs (pp_proposal_expiration params)) (pp_liveness_criteria_yes params))) in
  let! cfg := slift (result_map_err Consensus (gossipsub_with_timeout (pp_consensus_timeout params))) in
  let! proposal := on_engine (create_proposal_with_config (c_id c) create_request cfg (now_secs c)) in
  sret (prop_id proposal, to_app_message (AppProposal proposal)).

Definition in_flight_already c (request : ConversationUpdateRequest) : bool :=
  match in_flight_target request with
  | Some target => bool_decide (target ∈ active_proposal_targets (c_queues c))
  | None => false
  end.

Definition initiate_proposal (request : ConversationUpdateRequest) (creator_vote : CreatorVote) : conv unit :=
  let! c := sget id in
  if in_flight_already c request then sret tt else
  let kind := kind_of request in
  let! expected_voters := slift (check_proposal_allowed c kind) in
  let cfg := c_config c in
  let! submitted := submit_proposal request
    (mk_params expected_voters (proposal_expiration cfg) (consensus_timeout cfg) (liveness_criteria_yes cfg)) in
  let '(proposal_id, unbundled) := submitted in
  edit_queues (track_voting_proposal proposal_id request) ;!
  (if is_emergency kind then edit_queues (insert_emergency proposal_id) else sret tt) ;!
  register_consensus_timeout proposal_id (consensus_timeout cfg) ;!
  match creator_vote with
  | CreatorYes =>
      let! c := sget id in
      let! proposal := on_engine (cast_vote_and_get_proposal (c_id c) proposal_id true (now_secs c)) in
      let! payload := on_mls (build_message (to_app_message (AppProposal proposal))) in
      broadcast payload ;!
      emit_event (EvOwnProposalSubmitted proposal_id request)
  | CreatorDeferred =>
      let! payload := on_mls (build_message unbundled) in
      broadcast payload ;!
      emit_event (EvVoteRequested proposal_id request) ;!
      register_auto_vote proposal_id (voting_delay cfg) (liveness_criteria_yes cfg)
  end.

Definition broadcast_vote (proposal_id : N) (vote : bool) : conv unit :=
  let! c := sget id in
  let! vote_msg := on_engine (cast_vote (c_id c) proposal_id vote (now_secs c)) in
  let! payload := on_mls (build_message (to_app_message (AppVote vote_msg))) in
  broadcast payload.

Definition conv_vote (proposal_id : N) (vote : bool) : conv unit :=
  let! state := sget current_state in
  match state with
  | Freezing | Selection => sfail (ConversationBlocked (state_to_string state))
  | _ => cancel_auto_vote proposal_id ;! broadcast_vote proposal_id vote
  end.

Definition submit_self_leave_proposal (params : ProposalParams) : conv (option (N * AppMessage)) :=
  let! c := sget id in
  let payload := encode_request (remove_member_request (c_self c)) in
  let now := now_secs c in
  let expiration := u64_saturating_add now (duration_as_secs (pp_proposal_expiration params)) in
  let proposal_id := self_leave_proposal_id (c_self c) in
  let draft := mk_proposal ("self-leave:" +:+ pretty proposal_id) payload proposal_id (c_self c) []
    (pp_expected_voters params) 1 now expiration (pp_liveness_criteria_yes params) in
  let! yes_vote := slift (result_map_err Consensus (build_vote (c_engine c) draft true now)) in
  let proposal := mk_proposal (prop_name draft) payload proposal_id (c_self c) [yes_vote]
    (pp_expected_voters params) 1 now expiration (pp_liveness_criteria_yes params) in
  λ c, match engine (process_incoming_proposal (c_id c) proposal now) c with
       | (c, Ok _) => (c, Ok (Some (proposal_id, to_app_message (AppProposal proposal))))
       | (c, Err ProposalAlreadyExist) => (c, Ok None)
       | (c, Err e) => (c, Err (Consensus e))
       end.

Definition initiate_self_leave : conv unit :=
  let! c := sget id in
  if is_pending_self_leave (c_queues c) (c_self c) then sret tt else
  let request := remove_member_request (c_self c) in
  let proposal_id := self_leave_proposal_id (c_self c) in
  edit_queues (track_voting_proposal proposal_id request) ;!
  let! submitted := submit_self_leave_proposal
    (mk_params 1 (proposal_expiration (c_config c)) (consensus_timeout (c_config c)) true) in
  match submitted with
  | None => sret tt
  | Some (_, app_msg) =>
      let! payload := on_mls (build_message app_msg) in
      broadcast payload
  end.

Definition leave : conv LeaveOutcome := initiate_self_leave ;! sret LeaveInitiated.

Definition forward_incoming_vote (vote : Vote) : conv unit :=
  λ c, match engine (process_incoming_vote (c_id c) vote (now_secs c)) c with
       | (c, Ok _) => (c, Ok tt)
       | (c, Err SessionNotActive) | (c, Err SessionNotFound) => (c, Ok tt)
       | (c, Err e) => (c, Err (Consensus e))
       end.

Definition resolve_on_timeout (proposal_id : N) : conv unit :=
  let! c := sget id in
  let still_active :=
    match get_active_proposals (c_id c) (c_engine c) with
    | Ok active => existsb (λ p, (prop_id p =? proposal_id)%N) active
    | Err _ => false
    end in
  if negb still_active then sret tt else
  λ c, let '(c, _) := engine (handle_consensus_timeout (c_id c) proposal_id (now_secs c)) c in (c, Ok tt).
End voting.

(** ** Facts *)

Section voting_facts.
Context {HS : Hash} {OM : OpenMls} {CS : ConsensusLib} {CD : Codec} {CT : ConsensusTexts} {HI : HashIter}.
Context {St : Type} `{!PeerScoreStorage St}.
Abbreviation Conv := (Conversation St).
Implicit Types (c : Conv).

(** The states in which a proposal of this kind may not be opened. *)
Definition phase_blocks (state : ConversationState) (kind : ProposalKind) : Prop :=
  match state with
  | Freezing | Selection => True
  | Reelection => kind = KCommit
  | Working => False
  end.

Lemma check_proposal_allowed_iff c kind :
  match check_proposal_allowed c kind with
  | Ok n => ¬ phase_blocks (current_state c) kind ∧ partial_freeze_blocks (c_queues c) kind = false ∧
            n = as_u32 (len (members_of c))
  | Err e => (phase_blocks (current_state c) kind ∧ e = ConversationBlocked (state_to_string (current_state c))) ∨
             (¬ phase_blocks (current_state c) kind ∧ partial_freeze_blocks (c_queues c) kind = true ∧
              e = PartialFreeze)
  end.
Proof.
  unfold check_proposal_allowed. destruct (current_state c), kind; cbn;
    destruct (partial_freeze_blocks (c_queues c) _) eqn:?; cbn; naive_solver.
Qed.

(** Only the engine and the bus moved. *)
Definition engine_moved c c' : Prop := ∃ e b, c' = c_set_bus b (c_set_engine e c).

Lemma on_engine_moved {A} (m : engine_call Engine A) c c' r : on_engine m c = (c', r) → engine_moved c c'.
Proof.
  unfold on_engine, engine. destruct (m (c_engine c)) as [[e pub] r0]. intros [= <- _]. by eexists _, _.
Qed.

Lemma submit_proposal_moved req ps c c' r : submit_proposal req ps c = (c', r) → engine_moved c c'.
Proof.
  unfold submit_proposal. unfold sbind at 1. destruct (fresh_name (c_engine c)) as [e n].
  set (c1 := c_set_engine e c). unfold sbind at 1, sget at 1. cbn [id].
  unfold sbind at 1, slift at 1. destruct (result_map_err _ _); [|intros [= <- _]; by exists e, (c_bus c)].
  unfold sbind at 1, slift at 1. destruct (result_map_err _ _); [|intros [= <- _]; by exists e, (c_bus c)].
  unfold sbind at 1. destruct (on_engine _ c1) as [c2 r2] eqn:E. apply on_engine_moved in E as (e2 & b & ->).
  destruct r2; intros [= <- _]; by exists e2, b.
Qed.

(** A refused call changes nothing. *)
Lemma initiate_proposal_refused req v c :
  (in_flight_already c req = true → initiate_proposal req v c = (c, Ok tt)) ∧
  (∀ e, in_flight_already c req = false → check_proposal_allowed c (kind_of req) = Err e →
     initiate_proposal req v c = (c, Err e)).
Proof.
  unfold initiate_proposal. split.
  - intros Hf. unfold sbind at 1, sget at 1. cbn [id]. by rewrite Hf.
  - intros e Hf He. unfold sbind at 1, sget at 1. cbn [id]. rewrite Hf. by rewrite He.
Qed.

Lemma is_voting_track pid req q : is_voting (track_voting_proposal pid req q) pid = true.
Proof.
  unfold is_voting, track_voting_proposal. apply bool_decide_eq_true.
  destruct (voting_proposals q !! pid) eqn:E; [by rewrite E|]. cbn. by rewrite lookup_insert_eq.
Qed.

Lemma track_emergencies pid req q : active_emergency_ids (track_voting_proposal pid req q) = active_emergency_ids q.
Proof. unfold track_voting_proposal. by case_match. Qed.

Lemma build_and_broadcast m k c c' :
  (let! payload := on_mls (build_message m) in broadcast payload ;! k) c = (c', Ok tt) →
  ∃ mls payload, k (c_set_outbound (c_outbound c ++ [mk_outbound (c_id c) (c_app_id c) payload]) (c_set_mls mls c))
    = (c', Ok tt).
Proof.
  rewrite sbind_ok. intros (c1 & payload & Hm & H). unfold on_mls in Hm.
  destruct (build_message m (c_mls c)) as [mls r]. injection Hm as <- _.
  exists mls, payload. exact H.
Qed.

(** C21: opening a proposal is gated before anything happens. A membership change
    already in flight is silently dropped and leaves the conversation as it was; in
    [Freezing] and [Selection], and in [Reelection] for a regular proposal, the call
    is refused with [ConversationBlocked]; under an active emergency a
    lower-priority kind is refused with [PartialFreeze]; both refusals change
    nothing. A call that gets through and succeeds has opened one proposal: it is
    tracked as voting, it arms the partial freeze if it is an emergency, its timeout
    is registered at the configured distance, exactly one message is broadcast, and
    a deferred vote is scheduled after the voting delay with the default choice. *)
Theorem initiate_proposal_gate req v c :
  let kind := kind_of req in
  (in_flight_already c req = true → initiate_proposal req v c = (c, Ok tt)) ∧
  (in_flight_already c req = false → phase_blocks (current_state c) kind →
     initiate_proposal req v c = (c, Err (ConversationBlocked (state_to_string (current_state c))))) ∧
  (in_flight_already c req = false → ¬ phase_blocks (current_state c) kind →
     partial_freeze_blocks (c_queues c) kind = true → initiate_proposal req v c = (c, Err PartialFreeze)) ∧
  (∀ c', initiate_proposal req v c = (c', Ok tt) → in_flight_already c req = false →
     ¬ phase_blocks (current_state c) kind ∧ partial_freeze_blocks (c_queues c) kind = false ∧
     ∃ pid payload,
       is_voting (c_queues c') pid = true ∧
       active_emergency_ids (c_queues c') =
         (if is_emergency kind then {[pid]} ∪ active_emergency_ids (c_queues c) else active_emergency_ids (c_queues c)) ∧
       pending_consensus_timeouts (c_timing c') !! pid = Some (ts_add (timestamp c) (consensus_timeout (c_config c))) ∧
       c_outbound c' = c_outbound c ++ [mk_outbound (c_id c) (c_app_id c) payload] ∧
       (v = CreatorDeferred → pending_auto_votes (c_timing c') !! pid =
          Some (mk_auto_vote (ts_add (timestamp c) (voting_delay (c_config c))) (liveness_criteria_yes (c_config c))))).
Proof.
  cbn zeta. pose proof (check_proposal_allowed_iff c (kind_of req)) as Hchk.
  destruct (initiate_proposal_refused req v c) as [Hfl Href]. split_and!.
  - exact Hfl.
  - intros Hf Hb. destruct (check_proposal_allowed c (kind_of req)) as [n|e] eqn:E; [naive_solver|].
    rewrite (Href e Hf eq_refl). naive_solver.
  - intros Hf Hb Hp. destruct (check_proposal_allowed c (kind_of req)) as [n|e] eqn:E; [naive_solver congruence|].
    rewrite (Href e Hf eq_refl). naive_solver.
  - intros c' H Hf. destruct (check_proposal_allowed c (kind_of req)) as [n|e] eqn:E;
      [|by rewrite (Href e Hf eq_refl) in H].
    destruct Hchk as (Hnb & Hnp & _). split_and!; [done..|]. clear Hfl Href.
    unfold initiate_proposal in H. unfold sbind at 1, sget at 1 in H. cbn [id] in H. rewrite Hf, E in H.
    unfold sbind at 1, slift at 1 in H. rewrite sbind_ok in H.
    destruct H as (c1 & [pid unbundled] & (e1 & b1 & ->)%submit_proposal_moved & H).
    rewrite sbind_ok in H. destruct H as (c2 & [] & [= <-] & H).
    rewrite sbind_ok in H. destruct H as (c3 & [] & Hem & H).
    assert (∃ q, c3 = c_set_queues q (c_set_bus b1 (c_set_engine e1 c)) ∧ is_voting q pid = true ∧
      active_emergency_ids q = if is_emergency (kind_of req) then {[pid]} ∪ active_emergency_ids (c_queues c)
                               else active_emergency_ids (c_queues c)) as (q & -> & Hq & Hids).
    { destruct (is_emergency (kind_of req)); injection Hem as <-; eexists; (split; [done|]); cbn.
      - split; [apply is_voting_track|]. by rewrite track_emergencies.
      - split; [apply is_voting_track|apply track_emergencies]. }
    rewrite sbind_ok in H. destruct H as (c4 & [] & [= <-] & H). destruct v.
    + rewrite sbind_ok in H. destruct H as (c5 & c5' & [= <- <-] & H). cbn [id] in H.
      rewrite sbind_ok in H. destruct H as (c6 & p & (e2 & b2 & ->)%on_engine_moved & H).
      apply (build_and_broadcast _ (emit_event (EvOwnProposalSubmitted pid req))) in H as (mls & payload & H).
      apply smodify_ok in H as ->.
      exists pid, payload. cbn. split_and!; [done..|by rewrite lookup_insert_eq|done|done].
    + apply build_and_broadcast in H as (mls & payload & H).
      rewrite sbind_ok in H. destruct H as (c6 & [] & ->%smodify_ok & H).
      unfold register_auto_vote in H.
      rewrite sbind_ok in H. destruct H as (c7 & now & [-> ->]%sget_ok & H).
      apply smodify_ok in H as ->.
      exists pid, payload. cbn. split_and!; [done..|by rewrite lookup_insert_eq|done|].
      intros _. by rewrite lookup_insert_eq.
Qed.
End voting_facts.

(** ** At concrete inputs *)

#[local] Existing Instances example_hash toy_mls canonical_hash_iter toy_consensus toy_texts toy_codec.

Lemma initiate_proposal_gate_witness :
  (initiate_proposal (remove_member_request (member_id_of 1)) CreatorYes
     (c_set_sm (mk_sm Reelection) room)).2 = Err (ConversationBlocked "Reelection") ∧
  ∃ payload, c_outbound (initiate_proposal (remove_member_request (member_id_of 1)) CreatorYes room).1
    = [mk_outbound "g" [xaa] payload].
Proof.
  split.
  - destruct (initiate_proposal_gate (remove_member_request (member_id_of 1)) CreatorYes
      (c_set_sm (mk_sm Reelection) room)) as (_ & H & _). rewrite H; [done|by vm_compute|by vm_compute].
  - destruct (initiate_proposal_gate (remove_member_request (member_id_of 1)) CreatorYes room) as (_ & _ & _ & H).
    destruct (initiate_proposal (remove_member_request (member_id_of 1)) CreatorYes room) as [c' r] eqn:E.
    assert (r = Ok tt) as ->. { change r with (c', r).2. rewrite <-E. by vm_compute. }
    destruct (H c' eq_refl) as (_ & _ & pid & payload & _ & _ & _ & Ho & _); [by vm_compute|].
    exists payload. cbn [fst]. rewrite Ho. reflexivity.
Defined.
