(* ===== verification/Steward.v ===== *)
(** * Steward housekeeping: [src/conversation/steward.rs]

    Reconciling and electing the steward list, the pending-update drain, scoring
    membership, the [ConversationSync] payload, and the recovery and retry ladder. *)

From S2P Require Import Prelude Time Machine Protos StewardList Mls Buffer Queues Scoring CommitRound ApplyResult Config Display Conversation Voting.

Inductive StewardListReconcile := Settled | NeedsElection.
#[export] Instance reconcile_eq_dec : EqDecision StewardListReconcile.
Proof. solve_decision. Defined.

Section steward.
Context {HS : Hash} {OM : OpenMls} {CS : ConsensusLib} {CD : Codec} {CT : ConsensusTexts} {HI : HashIter}.
Context {St : Type} `{!PeerScoreStorage St}.
Abbreviation Conv := (Conversation St).
Abbreviation conv := (method Conv).
Implicit Types (c : Conv).

Definition sync_scoring_members (mls_members : list bytes) : conv unit :=
  let! all := (λ c, (c, all_members_with_scores (c_scoring c))) in
  let diff := scoring_member_diff all.*1 mls_members in
  sfor (to_add diff) (λ id, on_scoring (add_member id)) ;!
  sfor (to_remove diff) (λ id, on_scoring (remove_member id)).

Definition reconcile_steward_list : conv StewardListReconcile :=
  let! c := sget id in
  let current_epoch := mls_epoch c in
  if negb (is_exhausted (c_stewards c) current_epoch) then sret Settled else
  let settled := settled_members (c_queues c) (members_of c) current_epoch in
  if election_required (c_stewards c) (len settled) then sret NeedsElection else
  let sn := compute_list_size (svc_config (c_stewards c)) (len settled) in
  on_stewards (install_list current_epoch settled sn 0) ;!
  sret Settled.

(** The candidates of an election at [epoch]. *)
Definition candidate_pool c (epoch : N) : list bytes :=
  filterb (λ m, is_settled (c_queues c) m epoch) (members_of c).

Definition validate_election_list c (election : StewardElectionProposal) : res bool :=
  validate_proposed (c_stewards c) (proposed_stewards election) (el_election_epoch election)
    (candidate_pool c (el_election_epoch election)) (el_retry_round election).

Definition initiate_steward_election (recovery : bool) : conv unit :=
  let! c := sget id in
  let epoch := mls_epoch c in
  if has_election_in_flight (c_queues c) then sret tt else
  let eligible := λ id, negb (recovery && has_approved_removal (c_queues c) id) in
  let! decision := slift (propose_election (c_stewards c) epoch (candidate_pool c epoch) (c_self c) eligible recovery) in
  match decision with
  | Skip _ => sret tt
  | Proposed stewards election_epoch retry_round =>
      initiate_proposal (steward_election_request (mk_election stewards election_epoch retry_round)) CreatorYes
  end.

Definition steward_list_housekeeping : conv unit :=
  let! reconcile := reconcile_steward_list in
  if bool_decide (reconcile = NeedsElection) then attempt (initiate_steward_election false) else sret tt.

Definition handle_incoming_update_request (request : ConversationUpdateRequest) : conv unit :=
  let! state := sget current_state in
  match target_member_id_of request with
  | None => sret tt
  | Some _ =>
      let! c := sget id in
      on_queues (insert_pending_update request (mls_epoch c)) ;!
      let! c := sget id in
      let leads := bool_decide (epoch_steward (c_stewards c) (mls_epoch c) (eligible_of c) = Some (c_self c)) in
      if leads && bool_decide (state = Working)
      then attempt (initiate_proposal request CreatorDeferred) else sret tt
  end.

Definition actionable_buffered_updates c : list ConversationUpdateRequest :=
  let members_set := member_set (members_of c) in
  let active := active_proposal_targets (c_queues c) in
  (λ e : bytes * PendingUpdate, pu_request e.2) <$>
    filterb (λ e : bytes * PendingUpdate,
      negb (bool_decide (e.1 ∈ active)) &&
      let is_member := bool_decide (e.1 ∈ members_set) in
      match req_payload (pu_request e.2) with
      | Some (MemberInvite _) => negb is_member
      | Some (RemoveMember _) => is_member
      | _ => false
      end) (hash_iter (pending_updates (c_queues c))).

Definition drain_buffered_updates : conv unit :=
  let! to_propose := sget actionable_buffered_updates in
  sfor to_propose (λ request, attempt (initiate_proposal request CreatorDeferred)).

Definition process_buffered_updates : conv unit :=
  let! leads := sget is_epoch_steward in
  if negb leads then sret tt else drain_buffered_updates.

Definition conversation_sync_of c (scores : list (bytes * Z)) (list : StewardList) : ConversationSync :=
  mk_sync (sl_members list) (sl_election_epoch list)
    (as_u32 (sn_min (sl_config list))) (as_u32 (sn_max (sl_config list)))
    (allow_subset_candidates (svc_config (c_stewards c))) scores (Some (timing_config_from (c_config c)))
    (sl_retry_round list) (max_retries (c_stewards c)) (liveness_criteria_yes (c_config c))
    (threshold (sc_config (c_scoring c))) (pending_update_max_epochs (c_config c))
    (filterb (λ m, negb (is_settled (c_queues c) m (sl_election_epoch list))) (members_of c))
    (default_score (sc_config (c_scoring c))).

Definition build_conversation_sync_payload : conv (option bytes) :=
  let! c := sget id in
  let! snap := slift (scoring_snapshot (c_scoring c)) in
  match svc_list (c_stewards c) with
  | None => sret None
  | Some list =>
      let sync := conversation_sync_of c (diverged snap) list in
      let! payload := on_mls (build_message (to_app_message (AppConversationSync sync))) in
      sret (Some payload)
  end.

Definition share_conversation_sync : conv unit :=
  let! payload := build_conversation_sync_payload in
  match payload with Some payload => broadcast payload | None => sret tt end.

Definition request_recovery : conv unit :=
  let! c := sget id in
  if is_in_recovery_mode c then sret tt else
  let! request := slift (into_update_request (with_creator (c_self c) (deadlock (mls_epoch c)))) in
  initiate_proposal request CreatorYes.

Definition propose_score_removal (target : bytes) : conv unit :=
  let! score := (λ c, (c, score_for (c_scoring c) target)) in
  match score with
  | None => sfail InvalidConversationUpdateRequest
  | Some score =>
      let! c := sget id in
      let! request := slift (into_update_request
        (with_creator (c_self c) (score_below_threshold target (mls_epoch c) score))) in
      initiate_proposal request CreatorYes
  end.

Definition is_deadlock_proposer c : bool :=
  bool_decide (responsible_proposer (c_stewards c) (next_election_round (c_stewards c)) (members_of c)
    (λ id, bool_decide (id ∈ member_set (members_of c)) && negb (has_approved_removal (c_queues c) id))
    = Some (c_self c)).

Definition advance_election_retry : conv unit :=
  edit_stewards bump_retry ;!
  let! c := sget id in
  let round := next_election_round (c_stewards c) in
  if (max_retries (c_stewards c) <? round)%N then
    if is_deadlock_proposer c then
      scatch request_recovery (λ r,
        match r with
        | Ok _ => sret tt
        | Err e => emit_event (EvError "Reelection stuck" (error_to_string e))
        end)
    else sret tt
  else attempt (initiate_steward_election true).
End steward.
