(* ===== verification/HandleOutcome.v ===== *)
(** * Resolved decisions: [src/consensus/handle_outcome.rs]

    The follow-up of one resolved proposal, and [tick_deadlines] of
    [src/consensus/voting.rs], which fires the elapsed deadlines and drains the
    outcome bus of [src/consensus/outcome_bus.rs] into it. *)

From S2P Require Import Prelude Time Machine Protos StewardList Mls Buffer Queues Scoring CommitRound ApplyResult Config Display Conversation Voting Steward.

Definition outcome_fields (event : ConsensusEvent) : N * bool * N :=
  match event with
  | ConsensusReached proposal_id result timestamp => (proposal_id, result, timestamp)
  | ConsensusFailed proposal_id timestamp => (proposal_id, false, timestamp)
  end.

Section handle_outcome.
Context {HS : Hash} {OM : OpenMls} {CS : ConsensusLib} {CD : Codec} {CT : ConsensusTexts} {HI : HashIter}.
Context {St : Type} `{!PeerScoreStorage St}.
Abbreviation Conv := (Conversation St).
Abbreviation conv := (method Conv).
Implicit Types (c : Conv).

Definition emit_phase_change (transition : option ConversationState) : conv unit :=
  match transition with
  | Some state => emit_event (EvPhaseChange state)
  | None => sret tt
  end.

Definition start_freezing_and_emit : conv unit :=
  let! transition := start_freezing in emit_phase_change transition.

(** [if self.current_state() == Reelection { Some(self.start_working()) } ..], then
    the phase change. *)
Definition resume_from_reelection (mark_recovered : bool) : conv unit :=
  let! state := sget current_state in
  if bool_decide (state = Reelection) then
    (if mark_recovered then edit_timing (set_recovered true) else sret tt) ;!
    let! s := start_working in
    emit_phase_change (Some s)
  else sret tt.

Definition refresh_stewards_after_removal (target : bytes) : conv unit :=
  let! c := sget id in
  if negb (is_steward (c_stewards c) target) then sret tt
  else attempt (initiate_steward_election true).

Definition handle_election_accepted (election : StewardElectionProposal) : conv unit :=
  let! is_valid := (λ c, (c, validate_election_list c election)) in
  if negb is_valid then sret tt else
  on_stewards (install_list (el_election_epoch election) (proposed_stewards election)
    (len (proposed_stewards election)) (el_retry_round election)) ;!
  exit_recovery_mode ;!
  resume_from_reelection true ;!
  let! leads := sget is_epoch_steward in
  (* the share's own result is surfaced only after the drain *)
  scatch (if leads then share_conversation_sync else sret tt) (λ shared,
    process_buffered_updates ;!
    slift shared).

Definition handle_emergency_scored (proposal_id : N) (score_ops : list ScoreOp) : conv unit :=
  apply_score_ops score_ops ;!
  edit_queues (remove_emergency proposal_id) ;!
  resume_from_reelection false.

Definition follow_up (consensus_apply : ConsensusApplyResult) : conv unit :=
  match consensus_apply with
  | NoAction => sret tt
  | ElectionAccepted election => handle_election_accepted election
  | ElectionRejected => advance_election_retry
  | RecoveryModeOpened =>
      enter_recovery_mode ;!
      start_freezing_and_emit ;!
      emit_event EvRecoveryModeOpened
  | UrgentRemoval target =>
      let! event := start_freezing in
      match event with Some event => on_freeze_entered event | None => sret tt end ;!
      refresh_stewards_after_removal target
  | QueuedRemoval target => refresh_stewards_after_removal target
  | RejectedMembership target => let! _ := on_queues (remove_pending_update target) in sret tt
  end.

Definition handle_consensus_outcome (event : ConsensusEvent) : conv unit :=
  let '(proposal_id, approved, timestamp) := outcome_fields event in
  cancel_auto_vote proposal_id ;!
  unregister_consensus_timeout proposal_id ;!
  let! c := sget id in
  if is_consensus_outcome_applied (c_queues c) proposal_id then sret tt else
  emit_event (EvConsensusReached proposal_id approved timestamp) ;!
  let! proposal := slift (result_map_err Consensus (get_proposal (c_id c) proposal_id (c_engine c))) in
  let! request := slift (result_map_err MessageErr (decode_request (prop_payload proposal))) in
  edit_queues (mark_consensus_outcome_applied proposal_id) ;!
  let! consensus_apply := on_queues (apply_consensus_result proposal_id approved request) in
  conv_replay_early_candidates ;!
  follow_up consensus_apply ;!
  let score_ops := emergency_score_ops request approved in
  (if bool_decide (score_ops = []) then sret tt else handle_emergency_scored proposal_id score_ops) ;!
  on_engine (remove_session (c_id c) proposal_id).

(** ** [tick_deadlines] *)

Definition auto_votes_due c : list (N * bool) :=
  (λ e : N * AutoVoteEntry, (e.1, av_vote e.2)) <$>
    filterb (λ e : N * AutoVoteEntry, ts_leb (fire_at e.2) (timestamp c)) (hash_iter (pending_auto_votes (c_timing c))).
Definition timeouts_due c : list N :=
  (filterb (λ e : N * Timestamp, ts_leb e.2 (timestamp c)) (hash_iter (pending_consensus_timeouts (c_timing c)))).*1.

(** [try_recv]. *)
Definition try_recv : conv (option ConsensusEvent) :=
  λ c, match c_bus c with
       | [] => (c, Ok None)
       | event :: bus => (c_set_bus bus c, Ok (Some event))
       end.

(** The [while let] loop. A handled outcome may open a proposal that the library
    resolves at once, which publishes again, so the bus length is no bound: the
    loop is run on fuel, [drains] says what the loop computes and [drain_outcomes]
    computes it once the fuel is enough. *)
Fixpoint drain_outcomes (fuel : nat) : conv unit :=
  match fuel with
  | O => sret tt
  | S fuel =>
      let! next := try_recv in
      match next with
      | None => sret tt
      | Some event => attempt (handle_consensus_outcome event) ;! drain_outcomes fuel
      end
  end.

Inductive drains : Conv → Conv → Prop :=
  | drains_empty c : c_bus c = [] → drains c c
  | drains_next c event bus c' :
      c_bus c = event :: bus →
      drains (handle_consensus_outcome event (c_set_bus bus c)).1 c' →
      drains c c'.

Definition tick_deadlines (fuel : nat) : conv unit :=
  let! votes := sget auto_votes_due in
  edit_timing (λ t, set_auto_votes (foldl (λ m (e : N * bool), delete e.1 m) (pending_auto_votes t) votes) t) ;!
  let! timeouts := sget timeouts_due in
  edit_timing (λ t, set_timeouts (foldl (λ m id, delete id m) (pending_consensus_timeouts t) timeouts) t) ;!
  sfor votes (λ e, attempt (broadcast_vote e.1 e.2)) ;!
  sfor timeouts resolve_on_timeout ;!
  drain_outcomes fuel.
End handle_outcome.

(** ** Facts *)

Section outcome_facts.
Context {HS : Hash} {OM : OpenMls} {CS : ConsensusLib} {CD : Codec} {CT : ConsensusTexts} {HI : HashIter}.
Context {St : Type} `{!PeerScoreStorage St}.
Abbreviation Conv := (Conversation St).
Abbreviation conv := (method Conv).
Implicit Types (c : Conv).

(** Dropping the two deadlines of a proposal. *)
Definition without_deadlines (pid : N) c : Conv :=
  c_set_timing (set_timeouts (delete pid (pending_consensus_timeouts (c_timing c)))
    (set_auto_votes (delete pid (pending_auto_votes (c_timing c))) (c_timing c))) c.

(** A fresh outcome of a known proposal, up to its follow-up. *)
Definition outcome_taken (pid : N) (approved : bool) (ts : N) (req : ConversationUpdateRequest) c : Conv :=
  c_set_queues (replay_early_candidates (c_mls c)
      (apply_consensus_result pid approved req (mark_consensus_outcome_applied pid (c_queues c))).1)
    (c_set_events (c_events c ++ [EvConsensusReached pid approved ts]) (without_deadlines pid c)).
Lemma outcome_eq event pid approved ts proposal req c :
  outcome_fields event = (pid, approved, ts) → is_consensus_outcome_applied (c_queues c) pid = false →
  get_proposal (c_id c) pid (c_engine c) = Ok proposal → decode_request (prop_payload proposal) = Ok req →
  handle_consensus_outcome event c =
    (follow_up (apply_consensus_result pid approved req (mark_consensus_outcome_applied pid (c_queues c))).2 ;!
     let score_ops := emergency_score_ops req approved in
     (if bool_decide (score_ops = []) then sret tt else handle_emergency_scored pid score_ops) ;!
     on_engine (remove_session (c_id c) pid)) (outcome_taken pid approved ts req c).
Proof.
  intros He Hn Hp Hr. unfold handle_consensus_outcome. rewrite He.
  unfold sbind at 1 2 3, cancel_auto_vote, unregister_consensus_timeout, edit_timing, smodify, sget, id.
  cbn [c_queues c_id c_engine c_set_timing]. rewrite Hn.
  unfold sbind at 1 2 3 4, emit_event, slift, edit_queues, smodify.
  cbn [c_queues c_id c_engine c_set_timing c_set_events c_set_queues]. rewrite Hp. cbn [result_map_err]. rewrite Hr. cbn [result_map_err].
  unfold sbind at 1, on_queues. cbn [c_queues c_set_timing c_set_events c_set_queues]. unfold outcome_taken.
  by destruct (apply_consensus_result pid approved req (mark_consensus_outcome_applied pid (c_queues c))).
Qed.

(** *** The drain *)

Lemma drain_next fuel c ev bus :
  c_bus c = ev :: bus →
  drain_outcomes (S fuel) c = drain_outcomes fuel (handle_consensus_outcome ev (c_set_bus bus c)).1.
Proof.
  intros Hb. cbn [drain_outcomes]. unfold sbind at 1, try_recv. rewrite Hb.
  unfold sbind at 1, attempt, scatch, sret.
  by destruct (handle_consensus_outcome ev (c_set_bus bus c)) as [c1 r].
Qed.
Lemma drain_done fuel c : c_bus c = [] → drain_outcomes fuel c = (c, Ok tt).
Proof. intros Hb. destruct fuel; [done|]. cbn [drain_outcomes]. unfold sbind, try_recv. by rewrite Hb. Qed.

Lemma drains_fuel c c' :
  drains c c' → c_bus c' = [] ∧ ∃ n, ∀ fuel, n ≤ fuel → drain_outcomes fuel c = (c', Ok tt).
Proof.
  induction 1 as [c Hb|c ev bus c' Hb _ [Hb' (n & IH)]].
  - split; [done|]. exists 0. intros fuel _. by apply drain_done.
  - split; [done|]. exists (S n). intros [|fuel] Hf; [lia|]. rewrite (drain_next fuel c ev bus Hb). apply IH. lia.
Qed.
Lemma fuel_drains fuel c : c_bus (drain_outcomes fuel c).1 = [] → drains c (drain_outcomes fuel c).1.
Proof.
  revert c. induction fuel as [|fuel IH]; intros c; [by constructor|].
  destruct (c_bus c) as [|ev bus] eqn:Hb.
  - rewrite (drain_done (S fuel) c Hb). by constructor.
  - rewrite (drain_next fuel c ev bus Hb). intros H. by eapply drains_next, IH.
Qed.
End outcome_facts.
