(* ===== verification/Bus.v ===== *)
(** * The consensus backend and its outcome bus: [src/consensus/plugin.rs],
    [src/consensus/outcome_bus.rs], [DefaultConsensusPlugin] of [src/defaults.rs]

    One backend serves many conversations. Each opens an engine of its own over the
    backend's storage and signer, with a bus whose publish end moves into the engine
    and whose drain end stays with the conversation. The two ends share one queue
    behind an [Arc]: a queue is a cell of a store, and an end names its cell. The
    mutex of a queue is never poisoned, as nothing panics while holding it. *)

From S2P Require Import Prelude Time Machine Protos StewardList Mls Buffer Queues Scoring CommitRound ApplyResult Config Display Conversation Voting Steward HandleOutcome.

(** ** The bus *)

(** The library's [ScopeID] is a string. *)
Abbreviation ScopeID := string.
Abbreviation QueueStore := (gmap N (list (ScopeID * ConsensusEvent))).

Record OutcomeBus := mk_bus { bus_queue : N }.
Record OutcomeReceiver := mk_receiver { rx_queue : N }.
#[export] Instance outcome_bus_eq_dec : EqDecision OutcomeBus.
Proof. solve_decision. Defined.

(** [OutcomeBus::default]: a new, empty queue. *)
Definition bus_default (st : QueueStore) : QueueStore * OutcomeBus :=
  let cell := fresh (dom st) in (<[cell := []]> st, mk_bus cell).
(** [clone] shares the queue. *)
Definition bus_clone (b : OutcomeBus) : OutcomeBus := mk_bus (bus_queue b).
Definition subscribe (b : OutcomeBus) : OutcomeReceiver := mk_receiver (bus_queue b).
Definition publish (b : OutcomeBus) (scope : ScopeID) (event : ConsensusEvent) (st : QueueStore) : QueueStore :=
  alter (λ q, q ++ [(scope, event)]) (bus_queue b) st.
Definition rx_try_recv (rx : OutcomeReceiver) (st : QueueStore) : QueueStore * option (ScopeID * ConsensusEvent) :=
  match st !! rx_queue rx with
  | Some (x :: q) => (<[rx_queue rx := q]> st, Some x)
  | _ => (st, None)
  end.

(** ** The plugin *)

Class ConsensusPlugin (Cp : Type) := {
  ConsensusStorage : Type;
  Signer : Type;
  plugin_storage : Cp → ConsensusStorage;
  plugin_signer : Cp → Signer;
}.

(** The shipped one, over the library's in-memory store and Ethereum signer. *)
Section default_plugin.
Context {InMemoryConsensusStorage EthereumConsensusSigner : Type} (storage_new : InMemoryConsensusStorage).

Record DefaultConsensusPlugin := mk_default_plugin {
  dcp_storage : InMemoryConsensusStorage;
  dcp_signer : EthereumConsensusSigner;
}.
Definition default_plugin_new (signer : EthereumConsensusSigner) : DefaultConsensusPlugin :=
  mk_default_plugin storage_new signer.
#[local] Instance default_consensus_plugin : ConsensusPlugin DefaultConsensusPlugin := {|
  ConsensusStorage := InMemoryConsensusStorage;
  Signer := EthereumConsensusSigner;
  plugin_storage p := dcp_storage p;
  plugin_signer p := dcp_signer p;
|}.
End default_plugin.

(** ** Opening an engine *)

(** The library's constructor of a service over the plugin's two types. *)
Class ConsensusService {CS : ConsensusLib} (Cp : Type) `{ConsensusPlugin Cp} :=
  new_with_components : ConsensusStorage → OutcomeBus → Signer → N → Engine.

(** The outcome channel and the engine that [assemble] builds. *)
Definition open_consensus {CS : ConsensusLib} `{ConsensusPlugin Cp} `{!ConsensusService Cp} (consensus : Cp)
    (config : ConversationConfig) (st : QueueStore) : QueueStore * (Engine * OutcomeReceiver) :=
  let '(st, outcome_bus) := bus_default st in
  let consensus_rx := subscribe outcome_bus in
  (st, (new_with_components (plugin_storage consensus) outcome_bus (plugin_signer consensus)
          (max_consensus_sessions config), consensus_rx)).

(** ** Many conversations, one store *)

(** What happens on the buses: a conversation opens, an engine call of the [i]-th one
    resolves proposals, the [i]-th one drains an outcome. *)
Inductive bus_op :=
  | Opened (scope : ScopeID)
  | Published (i : nat) (events : list ConsensusEvent)
  | Drained (i : nat).

(** The conversations' scopes and buses, in the order they opened. *)
Abbreviation ports := (list (ScopeID * OutcomeBus)).

Definition publish_all (b : OutcomeBus) (scope : ScopeID) (events : list ConsensusEvent) (st : QueueStore) : QueueStore :=
  foldl (λ st ev, publish b scope ev st) st events.

(** Over the shared store; a drain hands out the event, its scope is ignored. *)
Definition step_shared (s : QueueStore * ports) (op : bus_op) : (QueueStore * ports) * option (option ConsensusEvent) :=
  let '(st, ps) := s in
  match op with
  | Opened scope => let '(st, b) := bus_default st in ((st, ps ++ [(scope, b)]), None)
  | Published i events =>
      match ps !! i with Some (scope, b) => ((publish_all (bus_clone b) scope events st, ps), None) | None => (s, None) end
  | Drained i =>
      match ps !! i with
      | Some (_, b) => let '(st, r) := rx_try_recv (subscribe b) st in ((st, ps), Some (snd <$> r))
      | None => (s, None)
      end
  end.

(** With a queue of events of its own for every conversation: its [c_bus]. *)
Definition step_private (qs : list (list ConsensusEvent)) (op : bus_op) :
    list (list ConsensusEvent) * option (option ConsensusEvent) :=
  match op with
  | Opened _ => (qs ++ [[]], None)
  | Published i events => (alter (λ q, q ++ events) i qs, None)
  | Drained i =>
      match qs !! i with
      | Some (ev :: q) => (<[i := q]> qs, Some (Some ev))
      | Some [] => (qs, Some None)
      | None => (qs, None)
      end
  end.

(** What the drains of a run hand out, in order. *)
Fixpoint outcomes {S} (step : S → bus_op → S * option (option ConsensusEvent)) (s : S) (ops : list bus_op) :
    list (option ConsensusEvent) :=
  match ops with
  | [] => []
  | op :: ops => let '(s, r) := step s op in option_list r ++ outcomes step s ops
  end.

(** ** The shared queues are the conversations' own *)

Definition in_scope (scope : ScopeID) (q : list ConsensusEvent) : list (ScopeID * ConsensusEvent) := (λ ev, (scope, ev)) <$> q.

Record related (s : QueueStore * ports) (qs : list (list ConsensusEvent)) : Prop := {
  re_length : length s.2 = length qs;
  re_apart : NoDup ((λ p, bus_queue p.2) <$> s.2);
  re_held : ∀ i scope b q, s.2 !! i = Some (scope, b) → qs !! i = Some q → s.1 !! bus_queue b = Some (in_scope scope q);
}.

Lemma publish_all_lookup b scope events st cell :
  publish_all b scope events st !! cell =
    if decide (cell = bus_queue b) then (λ q, q ++ in_scope scope events) <$> st !! cell else st !! cell.
Proof.
  revert st. induction events as [|ev events IH]; intros st; cbn.
  - case_decide; [|done]. destruct (st !! cell) as [q|]; [|done]. cbn. by rewrite app_nil_r.
  - unfold publish_all in IH. rewrite IH. unfold publish. case_decide as E; subst.
    + rewrite lookup_alter_eq. destruct (st !! bus_queue b) as [q|]; [|done]. cbn. by rewrite <-app_assoc.
    + by rewrite lookup_alter_ne.
Qed.

(** Two open conversations with one cell are one. *)
Lemma related_cell s qs i j si bi sj bj :
  related s qs → s.2 !! i = Some (si, bi) → s.2 !! j = Some (sj, bj) → bus_queue bi = bus_queue bj → i = j.
Proof.
  intros [_ Hn _] Hi Hj E. eapply (NoDup_lookup _ _ _ (bus_queue bi)); [exact Hn|..];
    rewrite list_lookup_fmap; [by rewrite Hi|by rewrite Hj, E].
Qed.

Lemma related_opened st ps qs scope :
  related (st, ps) qs → related (step_shared (st, ps) (Opened scope)).1 (qs ++ [[]]).
Proof.
  intros [Hl Hn Hh]. cbn in *. set (cell := fresh (dom st)).
  assert (cell ∉ dom st) as Hc by apply is_fresh.
  assert (∀ i sc b, ps !! i = Some (sc, b) → bus_queue b ≠ cell) as Hne.
  { intros i sc b Hi E. destruct (lookup_lt_is_Some_2 qs i) as [q Hq]; [rewrite <-Hl; by eapply lookup_lt_Some|].
    apply Hc. rewrite <-E. apply elem_of_dom. rewrite (Hh i sc b q Hi Hq). by eexists. }
  split; cbn.
  - by rewrite !length_app, Hl.
  - rewrite fmap_app. apply NoDup_app. split_and!; [done| |apply NoDup_singleton]. cbn.
    intros x ([sc b] & -> & Hin)%list_elem_of_fmap E%list_elem_of_singleton.
    apply list_elem_of_lookup_1 in Hin as (i & Hi). by eapply Hne.
  - intros i sc b q Hi Hq. apply lookup_app_Some in Hi as [Hi|[Hge Hi]].
    + rewrite lookup_app_l in Hq by (rewrite <-Hl; by eapply lookup_lt_Some).
      rewrite lookup_insert_ne by (symmetry; by eapply Hne). by eapply Hh.
    + rewrite lookup_app_r in Hq by (by rewrite <-Hl). rewrite <-Hl in Hq.
      destruct (i - length ps) as [|k]; [|done]. cbn in Hi, Hq. simplify_eq. cbn. by rewrite lookup_insert_eq.
Qed.

Lemma related_step s qs op :
  related s qs →
  related (step_shared s op).1 (step_private qs op).1 ∧ (step_shared s op).2 = (step_private qs op).2.
Proof.
  destruct s as [st ps]. intros Hr. destruct op as [scope|i events|i].
  - split; [by apply related_opened|done].
  - pose proof Hr as [Hl Hn Hh]. cbn in *. destruct (ps !! i) as [[scope b]|] eqn:Ei; cbn.
    + split; [|done]. split; cbn; [by rewrite length_alter|done|]. intros j sc bj q Hj Hq.
      rewrite publish_all_lookup. cbn. destruct (decide (i = j)) as [<-|Hij].
      * rewrite list_lookup_alter_eq in Hq. rewrite Ei in Hj. injection Hj as <- <-.
        destruct (qs !! i) as [q0|] eqn:Eq; [|done]. cbn in Hq. injection Hq as <-.
        rewrite decide_True by done. rewrite (Hh i _ _ _ Ei Eq). cbn. unfold in_scope. by rewrite fmap_app.
      * rewrite list_lookup_alter_ne in Hq by done.
        rewrite decide_False; [by eapply Hh|]. intros E. apply Hij. symmetry.
        by eapply (related_cell (st, ps) qs j i).
    + assert (qs !! i = None) as Hi by (apply lookup_ge_None; rewrite <-Hl; by apply lookup_ge_None).
      assert (alter (λ q, q ++ events) i qs = qs) as ->; [|done]. apply list_eq. intros j.
      destruct (decide (i = j)) as [<-|]; [by rewrite list_lookup_alter_eq, Hi|by rewrite list_lookup_alter_ne].
  - pose proof Hr as [Hl Hn Hh]. cbn in *. destruct (ps !! i) as [[scope b]|] eqn:Ei; cbn.
    + destruct (lookup_lt_is_Some_2 qs i) as [q Eq]; [rewrite <-Hl; by eapply lookup_lt_Some|].
      rewrite Eq. unfold rx_try_recv. cbn. rewrite (Hh i _ _ _ Ei Eq). destruct q as [|ev q]; cbn; [done|].
      split; [|done]. split; cbn; [by rewrite length_insert|done|]. intros j sc bj q' Hj Hq.
      destruct (decide (i = j)) as [<-|Hij].
      * rewrite Ei in Hj. injection Hj as <- <-. rewrite list_lookup_insert_eq in Hq by (by eapply lookup_lt_Some).
        injection Hq as <-. by rewrite lookup_insert_eq.
      * rewrite list_lookup_insert_ne in Hq by done.
        rewrite lookup_insert_ne; [by eapply Hh|]. intros E. apply Hij. by eapply (related_cell (st, ps) qs i j).
    + assert (qs !! i = None) as -> by (apply lookup_ge_None; rewrite <-Hl; by apply lookup_ge_None). done.
Qed.

(** C36: conversations do not see one another's outcomes. However the conversations
    of one process open, resolve proposals and drain their buses, every drain hands
    out what it would with a queue of events for each conversation alone: its own
    outcomes, in the order they were published, each once, under any interleaving.
    So a conversation's queue of events models the shared cell behind its bus. *)
Theorem outcomes_kept_apart ops :
  outcomes step_shared (∅, []) ops = outcomes step_private [] ops.
Proof.
  assert (∀ s qs, related s qs → outcomes step_shared s ops = outcomes step_private qs ops) as H; [|apply H; split; [done|by apply NoDup_nil_2|done]].
  induction ops as [|op ops IH]; intros s qs Hr; [done|]. cbn.
  destruct (related_step s qs op Hr) as [Hr' E].
  destruct (step_shared s op) as [s' r], (step_private qs op) as [qs' r']. cbn in *. subst. f_equal. by apply IH.
Qed.

(** ** The queue of a conversation *)

Section conversation_queue.
Context {HS : Hash} {OM : OpenMls} {CS : ConsensusLib} {CD : Codec} {CT : ConsensusTexts} {HI : HashIter}.
Context {St : Type} `{!PeerScoreStorage St}.
Implicit Types (c : Conversation St).

(** An engine call of the [i]-th conversation publishes into its queue, and its drain
    takes from it. *)
Lemma engine_publishes {A} (m : engine_call Engine A) c qs i :
  qs !! i = Some (c_bus c) →
  (step_private qs (Published i (m (c_engine c)).1.2)).1 !! i = Some (c_bus (engine m c).1).
Proof.
  intros Hq. cbn. rewrite list_lookup_alter_eq, Hq. unfold engine. by destruct (m (c_engine c)) as [[e pub] r].
Qed.
Lemma try_recv_drains c qs i :
  qs !! i = Some (c_bus c) →
  (step_private qs (Drained i)).1 !! i = Some (c_bus (try_recv c).1) ∧
  (try_recv c).2 = Ok (default None (step_private qs (Drained i)).2).
Proof.
  intros Hq. cbn. rewrite Hq. unfold try_recv. destruct (c_bus c) as [|ev bus] eqn:E; cbn; [by rewrite E|].
  split; [|done]. apply list_lookup_insert_eq. by eapply lookup_lt_Some.
Qed.
End conversation_queue.

(** Two conversations of one backend, their outcomes interleaved. *)
Example two_conversations :
  let ops := [Opened "a"; Published 0 [ConsensusReached 1 true 10]; Opened "b"; Published 1 [ConsensusReached 2 false 11];
              Published 0 [ConsensusReached 3 true 12]; Drained 1; Drained 0; Drained 0; Drained 1] in
  outcomes step_shared (∅, []) ops =
    [Some (ConsensusReached 2 false 11); Some (ConsensusReached 1 true 10); Some (ConsensusReached 3 true 12); None].
Proof. by vm_compute. Qed.
