(* ===== verification/Inbound.v ===== *)
(** * Inbound traffic: [src/conversation/inbound.rs]

    Decoding a payload into a [ProcessResult], dispatching it, and the handlers of
    each kind: proposals, merged commits, peer candidates and the steward-list
    synchronisation. *)

From S2P Require Import Prelude Time Machine Protos StewardList Mls Toy Buffer Queues Scoring CommitRound ApplyResult Config Display Conversation Room Voting Steward.

Inductive DispatchOutcome := Done | Dropped | LeaveRequested.
#[export] Instance dispatch_outcome_eq_dec : EqDecision DispatchOutcome.
Proof. solve_decision. Defined.

(** [TypeMembershipChange::Add as i32]. *)
Definition type_membership_change_add : Z := 0.

(** ** Decoding *)

Section decode.
Context {HS : Hash} {OM : OpenMls} {CD : Codec}.

Definition authorize_fast_path_proposal (proposal : Proposal) (mls_sender : bytes) : bool :=
  if negb (expected_voters_count proposal =? 1)%N then true else
  if negb (bool_decide (proposal_owner proposal = mls_sender)) then false else
  match decode_request (prop_payload proposal) with
  | Err _ => false
  | Ok request =>
      match req_payload request with
      | Some (RemoveMember id) => bool_decide (id = mls_sender)
      | _ => false
      end
  end.

(** The per-variant checks of a decrypted message and its conversion. *)
Definition process_decrypted (mls : MlsService) (app_msg : AppMessage) (member : Member) : ProcessResult :=
  match app_payload app_msg with
  | Some (AppProposal proposal) =>
      if negb (authorize_fast_path_proposal proposal (member_id_of (leaf_index member)))
      then Noop FastPathRejected else process_result_of app_msg
  | Some AppConversationSyncRequest => ConversationSyncRequested (member_id_of (leaf_index member))
  | Some (AppBanRequest ban _) =>
      if negb (is_member mls ban) then Noop BanTargetNotMember else process_result_of app_msg
  | Some (AppConversationMessage _ _) | Some (AppMembershipChange _ _ _) => PrAppMessage app_msg member
  | _ => process_result_of app_msg
  end.

Definition decode_encrypted (payload : bytes) : round_method ProcessResult :=
  let! decrypted := with_mls (decrypt_application_only payload) in
  match decrypted with
  | None => sret (Noop DecryptIgnored)
  | Some d =>
      let! app_msg := slift (result_map_err MessageErr (decode_app_message (dec_payload d))) in
      let! mls := sget snd in
      sret (process_decrypted mls app_msg (dec_member d))
  end.

Definition decode_inbound_payload (payload : bytes) : round_method ProcessResult :=
  match decode_app_message payload with
  | Ok (mk_app_message (Some (AppCommitCandidate candidate))) =>
      let! mls := sget snd in
      with_queues (receive_commit_candidate mls candidate)
  | Ok (mk_app_message (Some (AppMemberWelcome welcome))) =>
      if bool_decide (welcome_bytes welcome = []) then sret (Noop EmptyWelcomePayload) else
      let! fresh := with_queues (record_welcome_broadcast (compute_commit_hash (welcome_bytes welcome))) in
      if negb fresh then sret (Noop DuplicateWelcomeBroadcast)
      else sret (WelcomeBroadcastReceived welcome)
  | _ => decode_encrypted payload
  end.
End decode.

(** ** Validating a sync *)

Definition synced_default_peer_score (sync : ConversationSync) : Z :=
  if (default_peer_score sync =? 0)%Z then DEFAULT_PEER_SCORE else default_peer_score sync.

Definition first_zero_timing_field (timing : TimingConfig) : option string :=
  if (commit_batch_window_ms timing =? 0)%N then Some "commit_batch_window_ms"
  else if (freeze_duration_ms timing =? 0)%N then Some "freeze_duration_ms"
  else if (proposal_expiration_ms timing =? 0)%N then Some "proposal_expiration_ms"
  else if (consensus_timeout_ms timing =? 0)%N then Some "consensus_timeout_ms"
  else if (retry_window_ms timing =? 0)%N then Some "retry_window_ms"
  else None.

(** The members a synced list was elected from. *)
Definition sync_pool (sync : ConversationSync) (members : list bytes) : list bytes :=
  filterb (λ m, negb (bool_decide (m ∈ member_set (unsettled_members sync)))) members.

Definition validate_conversation_sync {HS : Hash} (conversation_id : string) (sync : ConversationSync)
    (current_epoch : N) (members : list bytes) : res bool :=
  if (current_epoch <? sync_election_epoch sync)%N then Ok false else
  let members_set := member_set members in
  let any_present := existsb (λ s, bool_decide (s ∈ members_set)) (steward_members sync) in
  if negb (forallb (λ u, bool_decide (u ∈ members_set)) (unsettled_members sync)) then Ok false else
  let? config := slc_new (sync_sn_min sync) (sync_sn_max sync) in
  let? ordering_valid := validate (steward_members sync) (sync_election_epoch sync)
    (String.list_byte_of_string conversation_id) (sync_pool sync members) config (sync_retry_round sync) in
  if negb (any_present && ordering_valid) then Ok false else
  if is_some_and (sync_timing sync) (λ t, bool_decide (is_Some (first_zero_timing_field t)))
  then Ok false else
  match scoring_config_validate (mk_scoring_config (synced_default_peer_score sync) (threshold_peer_score sync)) with
  | Err _ => Ok false
  | Ok _ => Ok true
  end.

(** ** Handlers *)

Section inbound.
Context {HS : Hash} {OM : OpenMls} {CS : ConsensusLib} {CD : Codec} {CT : ConsensusTexts} {HI : HashIter}.
Context {St : Type} `{!PeerScoreStorage St}.
Abbreviation Conv := (Conversation St).
Abbreviation conv := (method Conv).
Implicit Types (c : Conv).

Definition decode_inbound (payload : bytes) : conv ProcessResult := on_round (decode_inbound_payload payload).

(** *** Proposals *)

Definition proposal_expired_message (proposal : Proposal) (local_now : N) : string :=
  "proposal " +:+ pretty (prop_id proposal) +:+ " expired on arrival (expiration " +:+
  pretty (expiration_timestamp proposal) +:+ ", local now " +:+ pretty local_now +:+
  "); possible clock skew".

Definition incoming_kind (decoded : option ConversationUpdateRequest) : ProposalKind :=
  match decoded with Some req => kind_of req | None => KCommit end.

(** [process_incoming_proposal] with its error path. *)
Definition submit_incoming (proposal : Proposal) : conv unit :=
  let! c := sget id in
  let local_now := now_secs c in
  λ c, match engine (process_incoming_proposal (c_id c) proposal local_now) c with
       | (c, Ok _) => (c, Ok tt)
       | (c, Err e) =>
           ((if bool_decide (e = ProposalExpired) then
               emit_event (EvError "incoming_proposal" (proposal_expired_message proposal local_now))
             else sret tt) ;!
            sfail (Consensus e)) c
       end.

(** Mirroring the intent into the queues, once consensus took the proposal. *)
Definition mirror_incoming (proposal_id : N) (req : ConversationUpdateRequest) : conv unit :=
  let! current_epoch := sget mls_epoch in
  edit_queues (track_voting_proposal proposal_id req) ;!
  match req_payload req with
  | Some (EmergencyCriteria _) => edit_queues (insert_emergency proposal_id)
  | Some (MemberInvite _) | Some (RemoveMember _) =>
      let! _ := on_queues (insert_pending_update req current_epoch) in sret tt
  | _ => sret tt
  end.

Definition schedule_incoming (proposal_id : N) (decoded : option ConversationUpdateRequest) : conv unit :=
  match decoded ≫= extract_election_proposal with
  | Some election =>
      let! verdict := (λ c, (c, validate_election_list c election)) in
      register_auto_vote proposal_id 0 verdict
  | None =>
      match decoded with
      | Some request => emit_event (EvVoteRequested proposal_id request)
      | None => sret tt
      end ;!
      let! cfg := sget c_config in
      register_auto_vote proposal_id (voting_delay cfg) (liveness_criteria_yes cfg)
  end.

(** What happens once consensus took the proposal. *)
Definition take_incoming (proposal : Proposal) (decoded : option ConversationUpdateRequest) : conv unit :=
  match decoded with Some req => mirror_incoming (prop_id proposal) req | None => sret tt end ;!
  (if (1 <? expected_voters_count proposal)%N then
     schedule_incoming (prop_id proposal) decoded ;!
     let! cfg := sget c_config in
     register_consensus_timeout (prop_id proposal) (consensus_timeout cfg)
   else sret tt).

Definition on_incoming_proposal (proposal : Proposal) : conv unit :=
  let decoded := result_ok (decode_request (prop_payload proposal)) in
  let! c := sget id in
  if partial_freeze_blocks (c_queues c) (incoming_kind decoded) then sret tt else
  submit_incoming proposal ;!
  take_incoming proposal decoded.

(** *** Joining, merged commits, leaving *)

Definition on_joined : conv unit :=
  let! c := sget id in
  let msg := to_app_message (AppMembershipChange (c_id c) (c_self c) type_membership_change_add) in
  let members := members_of c in
  let! payload := on_mls (build_message msg) in
  broadcast payload ;!
  sync_scoring_members members.

Definition reconcile_membership_after_commit : conv unit :=
  let! delta := on_queues take_membership_delta in
  sfor (delta_removed delta) (λ m, on_scoring (remove_member (member_id_of (mid_leaf m)))) ;!
  sfor (delta_added delta) (λ m, on_scoring (add_member (member_id_of (leaf_index m)))) ;!
  let! c := sget id in
  let! _ := on_queues (expire_pending_updates (mls_epoch c) (pending_update_max_epochs (c_config c))) in
  if negb (bool_decide (delta_added delta = [])) || negb (bool_decide (delta_removed delta = []))
  then emit_event (EvMembersChanged (delta_added delta) (delta_removed delta)) else sret tt.

Definition maybe_close_recovery_window : conv unit :=
  let! c := sget id in
  if negb (is_in_recovery_mode c) then sret tt else attempt (initiate_steward_election true).

Definition on_conversation_updated : conv unit :=
  edit_stewards reset_retry ;!
  edit_timing (set_recovered false) ;!
  let! event := start_working in
  emit_event (EvPhaseChange event) ;!
  reconcile_membership_after_commit ;!
  steward_list_housekeeping ;!
  process_buffered_updates ;!
  maybe_close_recovery_window.

Definition prepare_self_leave : conv unit :=
  emit_event EvLeaving ;!
  cancel_all_auto_votes ;!
  attempt (on_mls mls_delete).

Definition on_commit_candidate_received (steward : bytes) : conv unit :=
  let! state := sget current_state in
  if negb (bool_decide (state = Working)) && negb (bool_decide (state = Reelection)) then sret tt else
  let! event := start_freezing in
  match event with
  | None => sret tt
  | Some event => on_freeze_entered event
  end.

(** *** Steward-list synchronisation *)

Definition apply_conversation_sync_to_entry (sync : ConversationSync) : conv unit :=
  let! protocol_config := slift (slc_new (sync_sn_min sync) (sync_sn_max sync)) in
  let protocol_config := mk_slc (sn_min protocol_config) (sn_max protocol_config)
    (sync_allow_subset_candidates sync) in
  edit_stewards (set_config protocol_config) ;!
  on_stewards (install_list (sync_election_epoch sync) (steward_members sync) (len (steward_members sync))
    (sync_retry_round sync)) ;!
  edit_stewards (set_max_retries (sync_max_reelection_attempts sync)) ;!
  on_scoring (smodify (set_threshold (threshold_peer_score sync))) ;!
  on_scoring (set_default_score (synced_default_peer_score sync)) ;!
  apply_score_snapshot (mk_score_snapshot (peer_scores sync)) ;!
  smodify (λ c, let cfg := c_config c in
    let cfg := mk_config (commit_batch_window cfg) (freeze_duration cfg) (retry_window cfg)
      (backup_takeover_window cfg) (proposal_expiration cfg) (consensus_timeout cfg) (voting_delay cfg)
      (sync_pending_update_max_epochs sync) (max_reelection_attempts cfg) (sync_liveness_criteria_yes sync)
      (max_consensus_sessions cfg) (commit_batch_max cfg) (dedup_window cfg) (recovery_auto_commit_delay cfg)
      (recovery_max_rounds cfg) (steward_list_config cfg) in
    c_set_config (match sync_timing sync with Some timing => apply_timing timing cfg | None => cfg end) c).

(** The list at hand is kept: it is in use, or the sync is no newer. *)
Definition keeps_list c (sync : ConversationSync) : bool :=
  is_some_and (svc_election_epoch (c_stewards c)) (λ mine,
    negb (is_exhausted (c_stewards c) (mls_epoch c)) || (sync_election_epoch sync <=? mine)%N).

Definition on_conversation_sync (sync : ConversationSync) : conv unit :=
  edit_timing (set_resend_anchor None) ;!
  let! c := sget id in
  if keeps_list c sync then sret tt else
  let! valid := slift (validate_conversation_sync (c_id c) sync (mls_epoch c) (members_of c)) in
  if negb valid then sret tt else
  apply_conversation_sync_to_entry sync ;!
  emit_event EvConversationSyncApplied.

Definition on_conversation_sync_request (requester : bytes) : conv unit :=
  let! c := sget id in
  if is_epoch_steward c then
    edit_timing (set_resend_anchor None) ;!
    share_conversation_sync
  else if conv_is_steward c && bool_decide (sync_resend_anchor (c_timing c) = None) then
    edit_timing (set_resend_anchor (Some (timestamp c)))
  else sret tt.

(** *** Dispatch *)

Definition dispatch_inbound_result (result : ProcessResult) : conv DispatchOutcome :=
  match result with
  | PrAppMessage msg sender => emit_event (EvConversationMessage msg sender) ;! sret Done
  | PrProposal proposal => on_incoming_proposal proposal ;! sret Done
  | PrVote vote => forward_incoming_vote vote ;! sret Done
  | MembershipChangeReceived request => handle_incoming_update_request request ;! sret Done
  | ConversationUpdated => on_conversation_updated ;! sret Done
  | LeaveConversation => prepare_self_leave ;! sret LeaveRequested
  | CommitCandidateReceived steward => on_commit_candidate_received steward ;! sret Done
  | ConversationSyncReceived sync => on_conversation_sync sync ;! sret Done
  | ConversationSyncRequested requester => on_conversation_sync_request requester ;! sret Done
  | WelcomeBroadcastReceived welcome => emit_event (EvWelcomeReady welcome false) ;! sret Done
  | Noop _ => sret Done
  end.

Definition process_inbound (sender payload : bytes) : conv DispatchOutcome :=
  let! c := sget id in
  if bool_decide (sender = c_app_id c) then sret Dropped else
  let! result := decode_inbound payload in
  dispatch_inbound_result result.

Definition apply_welcome_sync (sync_bytes : bytes) : conv unit :=
  if bool_decide (sync_bytes = []) then emit_event EvConversationSyncMissing else
  let! result := decode_inbound sync_bytes in
  let! _ := dispatch_inbound_result result in sret tt.
End inbound.

(** ** Facts *)

Section sync_facts.
Context {HS : Hash}.

Lemma elem_of_member_set m ms : m ∈ member_set ms ↔ m ∈ ms.
Proof. unfold member_set. by rewrite elem_of_list_to_set. Qed.

(** What a sync has to satisfy to be applied. *)
Record sync_valid (id : string) (sync : ConversationSync) (epoch : N) (members : list bytes) : Prop := {
  sv_epoch : (sync_election_epoch sync ≤ epoch)%N;
  sv_unsettled : unsettled_members sync ⊆ members;
  sv_present : ∃ s, s ∈ steward_members sync ∧ s ∈ members;
  sv_list : ∃ cfg, slc_new (sync_sn_min sync) (sync_sn_max sync) = Ok cfg ∧
    validate (steward_members sync) (sync_election_epoch sync) (String.list_byte_of_string id)
      (sync_pool sync members) cfg (sync_retry_round sync) = Ok true;
  sv_timing : ∀ t, sync_timing sync = Some t → first_zero_timing_field t = None;
  sv_scores : scoring_config_validate
    (mk_scoring_config (synced_default_peer_score sync) (threshold_peer_score sync)) = Ok tt;
}.

Lemma validate_sync_iff id sync e ms :
  validate_conversation_sync id sync e ms = Ok true ↔ sync_valid id sync e ms.
Proof.
  unfold validate_conversation_sync.
  destruct (N.ltb_spec e (sync_election_epoch sync)); [split; [done|intros []; lia]|].
  assert (forallb (λ u, bool_decide (u ∈ member_set ms)) (unsettled_members sync) = true ↔
    unsettled_members sync ⊆ ms) as Hun.
  { rewrite forallb_elem. setoid_rewrite bool_decide_eq_true. setoid_rewrite elem_of_member_set. set_solver. }
  assert (existsb (λ s, bool_decide (s ∈ member_set ms)) (steward_members sync) = true ↔
    ∃ s, s ∈ steward_members sync ∧ s ∈ ms) as Hpr.
  { rewrite existsb_elem. setoid_rewrite bool_decide_eq_true. by setoid_rewrite elem_of_member_set. }
  destruct (forallb _ _); cbn [negb]; [|split; [done|intros []; naive_solver]].
  destruct (slc_new _ _) as [cfg|err] eqn:Hcfg; cbn [result_bind];
    [|split; [done|intros [_ _ _ (? & ? & _) _ _]; congruence]].
  assert ((∃ cfg', slc_new (sync_sn_min sync) (sync_sn_max sync) = Ok cfg' ∧
      validate (steward_members sync) (sync_election_epoch sync) (String.list_byte_of_string id)
        (sync_pool sync ms) cfg' (sync_retry_round sync) = Ok true) ↔
    validate (steward_members sync) (sync_election_epoch sync) (String.list_byte_of_string id)
        (sync_pool sync ms) cfg (sync_retry_round sync) = Ok true) as Hl.
  { rewrite Hcfg. split; [by intros (? & [= <-] & ?)|eauto]. }
  destruct (validate _ _ _ _ cfg _) as [ok|err]; cbn [result_bind];
    [|split; [done|by intros [_ _ _ ?%Hl _ _]]].
  destruct (existsb _ _); cbn [negb andb]; [|split; [done|intros [_ _ ?%Hpr _ _ _]; done]].
  destruct ok; cbn [negb]; [|split; [done|by intros [_ _ _ ?%Hl _ _]]].
  assert (is_some_and (sync_timing sync) (λ t, bool_decide (is_Some (first_zero_timing_field t))) = false ↔
    ∀ t, sync_timing sync = Some t → first_zero_timing_field t = None) as Ht.
  { destruct (sync_timing sync) as [t|]; cbn; [|naive_solver]. rewrite bool_decide_eq_false, <-eq_None_not_Some.
    naive_solver. }
  destruct (is_some_and _ _); [split; [done|intros [_ _ _ _ ?%Ht _]; done]|].
  destruct (scoring_config_validate _) as [[]|err] eqn:Hsc; [|split; [done|intros [_ _ _ _ _ ?]; congruence]].
  split; [|done]. intros _. split; [done|by apply Hun|by apply Hpr|by apply Hl|by apply Ht|done].
Qed.
End sync_facts.

Section decode_facts.
Context {HS : Hash} {OM : OpenMls} {OL : OpenMlsLaws} {CD : Codec}.

Lemma authorize_fast_path_iff p sender :
  authorize_fast_path_proposal p sender = true ↔
  (expected_voters_count p = 1%N →
   proposal_owner p = sender ∧ decode_request (prop_payload p) = Ok (remove_member_request sender)).
Proof.
  unfold authorize_fast_path_proposal. destruct (N.eqb_spec (expected_voters_count p) 1) as [E|E]; cbn [negb];
    [|naive_solver].
  destruct (bool_decide_reflect (proposal_owner p = sender)); cbn [negb]; [|naive_solver].
  destruct (decode_request (prop_payload p)) as [[pl]|err]; [|naive_solver]. cbn [req_payload].
  destruct pl as [[]|]; rewrite ?bool_decide_eq_true; naive_solver.
Qed.

(** What comes out of the encrypted path, and who sent it. *)
Lemma decode_encrypted_ok payload st st' r :
  decode_encrypted payload st = (st', Ok r) →
  r = Noop DecryptIgnored ∨
  ∃ d app_msg, decrypt_application_only payload st.2 = (st'.2, Ok (Some d)) ∧
    decode_app_message (dec_payload d) = Ok app_msg ∧ r = process_decrypted st'.2 app_msg (dec_member d).
Proof.
  destruct st as [q mls]. unfold decode_encrypted. rewrite sbind_ok. intros (s1 & decrypted & Hd & H).
  unfold with_mls in Hd. destruct (decrypt_application_only payload mls) as [mls1 r1] eqn:E.
  destruct r1 as [o|e]; [|done]. injection Hd as <- <-. destruct o as [d|]; [|injection H as _ <-; by left].
  right. rewrite sbind_ok in H. destruct H as (s2 & app_msg & Ha & H). unfold slift in Ha.
  destruct (decode_app_message (dec_payload d)) as [m|e] eqn:Hm; [|done]. injection Ha as <- <-.
  injection H as <- <-. by exists d, m.
Qed.

(** A decrypted message is an application message of the current member the library
    authenticated as its sender. *)
Lemma decrypted_from payload mls mls' d :
  decrypt_application_only payload mls = (mls', Ok (Some d)) →
  ∃ pm idx, parse_protocol_message payload = Ok pm ∧ pm_content_type pm = CtApplication ∧
    process_message pm (mls_group mls) = (mls_group mls', Ok (SenderMember idx, ApplicationMessage (dec_payload d))) ∧
    dec_member d ∈ g_members (mls_group mls') ∧ leaf_index (dec_member d) = idx.
Proof.
  unfold decrypt_application_only, sbind, slift, sget, on_group. cbn [id].
  destruct (parse_protocol_message payload) as [pm|]; [|done].
  destruct (negb _); [done|]. destruct (negb _); [done|]. destruct (pm_content_type pm) eqn:Hct; try done.
  destruct (process_message pm (mls_group mls)) as [g [[[idx|] content]|e]] eqn:E; [|done..]. cbn.
  destruct (g_member_at g idx) as [m|] eqn:Em; [|done]. cbn. destruct content; try done.
  intros [= <- <-]. apply member_at_spec in Em as [Hm Hi]. by exists pm, idx.
Qed.

(** The plaintext envelopes. *)
Lemma decode_inbound_ok payload st st' r :
  decode_inbound_payload payload st = (st', Ok r) →
  (∃ cand, decode_app_message payload = Ok (mk_app_message (Some (AppCommitCandidate cand))) ∧
     st'.2 = st.2 ∧ r = (receive_commit_candidate st.2 cand st.1).2) ∨
  (∃ w, decode_app_message payload = Ok (mk_app_message (Some (AppMemberWelcome w))) ∧ st'.2 = st.2 ∧
     (r = WelcomeBroadcastReceived w ∨ r = Noop EmptyWelcomePayload ∨ r = Noop DuplicateWelcomeBroadcast)) ∨
  decode_encrypted payload st = (st', Ok r).
Proof.
  unfold decode_inbound_payload. destruct (decode_app_message payload) as [[[p|]]|e]; [|by auto..].
  destruct st as [q mls]. destruct p; try by auto.
  - unfold sbind, sget, with_queues. intros H. left. exists candidate. cbn [fst snd] in *.
    destruct (receive_commit_candidate mls candidate q). by injection H as <- <-.
  - case_bool_decide; [intros [= <- <-]; eauto 8|]. unfold sbind, with_queues.
    destruct (record_welcome_broadcast _ q) as [q1 fresh]. destruct fresh; intros [= <- <-]; eauto 8.
Qed.

(** C19: a proposal that skips the vote can only remove its own sender. If a packet is
    handed on as a proposal that expects a single voter, and so resolves on its
    owner's vote alone, then the packet is an application message that the MLS library
    decrypted into that proposal and authenticated as sent by a leaf; a current
    member is on that leaf, the proposal names it as its owner, and what it proposes
    is the removal of exactly that member. *)
Theorem fast_path_is_self_removal payload st st' p :
  decode_inbound_payload payload st = (st', Ok (PrProposal p)) → expected_voters_count p = 1%N →
  ∃ pm sender plaintext,
    parse_protocol_message payload = Ok pm ∧ pm_content_type pm = CtApplication ∧
    process_message pm (mls_group st.2) = (mls_group st'.2, Ok (SenderMember sender, ApplicationMessage plaintext)) ∧
    decode_app_message plaintext = Ok (mk_app_message (Some (AppProposal p))) ∧
    (∃ m, m ∈ g_members (mls_group st'.2) ∧ leaf_index m = sender) ∧
    proposal_owner p = member_id_of sender ∧
    decode_request (prop_payload p) = Ok (remove_member_request (member_id_of sender)).
Proof.
  intros H Hv. apply decode_inbound_ok in H as [(c & _ & _ & Hr)|[(w & _ & _ & [Hr|[Hr|Hr]])|H]]; try done.
  { destruct (receive_eq st.2 c st.1) as [[_ E]|[_ (reason & E & _)]]; rewrite E in Hr; [|done].
    revert Hr. case_match; [done|]. destruct (buffer_add _ _ _ _ _ _ _) as [b []]; done. }
  apply decode_encrypted_ok in H as [?|(d & [pl] & Hd & Hpl & Hr)]; [done|].
  apply decrypted_from in Hd as (pm & idx & Hpm & Hct & Hproc & Hin & Hidx).
  unfold process_decrypted, process_result_of in Hr. cbn [app_payload] in Hr.
  destruct pl as [[]|]; try done; try (by destruct (negb _)).
  destruct (authorize_fast_path_proposal proposal (member_id_of (leaf_index (dec_member d)))) eqn:Ha; [|done].
  cbn [negb] in Hr. injection Hr as ->. apply authorize_fast_path_iff in Ha; [|done]. rewrite Hidx in Ha.
  exists pm, idx, (dec_payload d). destruct Ha as [Ho Hq]. split_and!; try done. by exists (dec_member d).
Qed.

(** A packet never decodes to the end of a commit round. *)
Lemma decode_never_finalizes payload st st' r :
  decode_inbound_payload payload st = (st', Ok r) → r ≠ ConversationUpdated ∧ r ≠ LeaveConversation.
Proof.
  intros [(c & _ & _ & ->)|[(w & _ & _ & [->|[->| ->]])|H]]%decode_inbound_ok; try done.
  { destruct (receive_eq st.2 c st.1) as [[_ ->]|[_ (reason & -> & _)]]; [|done].
    case_match; [done|]. by destruct (buffer_add _ _ _ _ _ _ _) as [b []]. }
  apply decode_encrypted_ok in H as [->|(d & [pl] & _ & _ & ->)]; [done|].
  unfold process_decrypted, process_result_of. cbn [app_payload].
  destruct pl as [[]|]; try done; by destruct (negb _).
Qed.
End decode_facts.

Section inbound_facts.
Context {HS : Hash} {OM : OpenMls} {OL : OpenMlsLaws} {CS : ConsensusLib} {CD : Codec} {CT : ConsensusTexts}
  {HI : HashIter}.
Context {St : Type} `{!PeerScoreStorage St}.
Abbreviation Conv := (Conversation St).
Abbreviation conv := (method Conv).
Implicit Types (c : Conv).

Lemma dispatch_done r c o :
  r ≠ LeaveConversation → (dispatch_inbound_result r c).2 = Ok o → o = Done.
Proof.
  intros Hr H. destruct (dispatch_inbound_result r c) as [c' r'] eqn:E. cbn [snd] in H. subst r'.
  destruct r; cbn [dispatch_inbound_result] in E; try done; try (by injection E);
    rewrite sbind_ok in E; destruct E as (? & ? & _ & E); by injection E.
Qed.

(** A packet cannot take a member out. A packet of our own is dropped and
    changes nothing; any other is never reported dropped; and whatever a packet
    holds, processing it never reports the leave that makes the integrator tear the
    conversation down, which only a commit round of our own can do. *)
Theorem process_inbound_never_leaves sender payload c :
  (sender = c_app_id c → process_inbound sender payload c = (c, Ok Dropped)) ∧
  (sender ≠ c_app_id c → ∀ o, (process_inbound sender payload c).2 = Ok o → o = Done).
Proof.
  unfold process_inbound, sbind, sget. cbn [id]. split.
  - intros ->. by rewrite bool_decide_true.
  - intros Hs o. rewrite bool_decide_false by done. unfold decode_inbound, on_round.
    destruct (decode_inbound_payload payload (c_queues c, c_mls c)) as [[q mls] [r|e]] eqn:E; [|done].
    apply decode_never_finalizes in E as [_ Hr]. by apply dispatch_done.
Qed.

(** *** Incoming proposals *)

(** The effect of an accepted proposal on the queues. *)
Definition mirrored (p : Proposal) (epoch : N) (q : ConversationQueues) : ConversationQueues :=
  match result_ok (decode_request (prop_payload p)) with
  | None => q
  | Some req =>
      let q := track_voting_proposal (prop_id p) req q in
      match req_payload req with
      | Some (EmergencyCriteria _) => insert_emergency (prop_id p) q
      | Some (MemberInvite _) | Some (RemoveMember _) => (insert_pending_update req epoch q).1
      | _ => q
      end
  end.

Lemma mirror_incoming_eq pid req c :
  mirror_incoming pid req c =
    (c_set_queues (let q := track_voting_proposal pid req (c_queues c) in
       match req_payload req with
       | Some (EmergencyCriteria _) => insert_emergency pid q
       | Some (MemberInvite _) | Some (RemoveMember _) => (insert_pending_update req (mls_epoch c) q).1
       | _ => q
       end) c, Ok tt).
Proof.
  unfold mirror_incoming, sbind, sget, edit_queues, smodify, on_queues. cbn.
  destruct (req_payload req) as [[]|]; cbn; try done; by destruct (insert_pending_update _ _ _).
Qed.

Lemma schedule_queues pid decoded c : c_queues (schedule_incoming pid decoded c).1 = c_queues c.
Proof.
  unfold schedule_incoming. destruct (decoded ≫= extract_election_proposal) as [el|].
  - unfold sbind. by destruct (validate_election_list c el).
  - by destruct decoded.
Qed.

Lemma schedule_votes pid decoded c :
  (∀ vote,
     match decoded ≫= extract_election_proposal with
     | Some el => ∃ verdict, validate_election_list c el = Ok verdict ∧ vote = mk_auto_vote (ts_add (timestamp c) 0) verdict
     | None => vote = mk_auto_vote (ts_add (timestamp c) (voting_delay (c_config c))) (liveness_criteria_yes (c_config c))
     end →
     ∃ c', schedule_incoming pid decoded c = (c', Ok tt) ∧ c_now c' = c_now c ∧ c_config c' = c_config c ∧
       pending_auto_votes (c_timing c') !! pid = Some vote) ∧
  (∀ el e, decoded ≫= extract_election_proposal = Some el → validate_election_list c el = Err e →
     (schedule_incoming pid decoded c).2 = Err e).
Proof.
  unfold schedule_incoming. destruct (decoded ≫= extract_election_proposal) as [el|] eqn:E; split.
  - intros vote (verdict & Hv & ->). unfold sbind at 1. rewrite Hv. eexists. split; [done|]. cbn. by rewrite lookup_insert_eq.
  - intros el' e [= <-] He. unfold sbind at 1. by rewrite He.
  - intros vote ->. destruct decoded; eexists; (split; [done|]); cbn; by rewrite lookup_insert_eq.
  - done.
Qed.

Lemma submit_incoming_cases p c :
  let called := process_incoming_proposal (c_id c) p (now_secs c) (c_engine c) in
  ∃ c1, submit_incoming p c = (c1, result_map_err Consensus called.2) ∧
    c_queues c1 = c_queues c ∧ c_timing c1 = c_timing c ∧ c_mls c1 = c_mls c ∧ c_sm c1 = c_sm c ∧
    c_now c1 = c_now c ∧ c_config c1 = c_config c ∧ c_stewards c1 = c_stewards c.
Proof.
  cbn zeta. unfold submit_incoming, sbind, sget, engine. cbn [id].
  destruct (process_incoming_proposal _ _ _ _) as [[e pub] [[]|err]]; cbn [snd].
  - by eexists.
  - destruct (bool_decide (err = ProposalExpired)); by eexists.
Qed.

Lemma on_incoming_eq p c :
  on_incoming_proposal p c =
    let decoded := result_ok (decode_request (prop_payload p)) in
    if partial_freeze_blocks (c_queues c) (incoming_kind decoded) then (c, Ok tt) else
    match submit_incoming p c with
    | (c1, Ok _) => take_incoming p decoded c1
    | (c1, Err e) => (c1, Err e)
    end.
Proof.
  unfold on_incoming_proposal, sbind at 1, sget. cbn [id]. by destruct (partial_freeze_blocks _ _).
Qed.

(** Whether an election is valid does not depend on what an admitted proposal changes. *)
Lemma verdict_unmoved c c' el :
  c_mls c' = c_mls c → c_stewards c' = c_stewards c → member_join_epoch (c_queues c') = member_join_epoch (c_queues c) →
  validate_election_list c' el = validate_election_list c el.
Proof.
  intros Hm Hs Hj. unfold validate_election_list, candidate_pool, settled_members, members_of, is_settled. by rewrite Hm, Hs, Hj.
Qed.

Lemma take_incoming_mirrors p c :
  let decoded := result_ok (decode_request (prop_payload p)) in
  let c' := (take_incoming p decoded c).1 in
  c_queues c' = mirrored p (mls_epoch c) (c_queues c) ∧
  ((1 < expected_voters_count p)%N →
     (∀ vote,
        match decoded ≫= extract_election_proposal with
        | Some el => ∃ verdict, validate_election_list c el = Ok verdict ∧ vote = mk_auto_vote (ts_add (timestamp c) 0) verdict
        | None => vote = mk_auto_vote (ts_add (timestamp c) (voting_delay (c_config c))) (liveness_criteria_yes (c_config c))
        end →
        (take_incoming p decoded c).2 = Ok tt ∧
        pending_consensus_timeouts (c_timing c') !! prop_id p = Some (ts_add (timestamp c) (consensus_timeout (c_config c))) ∧
        pending_auto_votes (c_timing c') !! prop_id p = Some vote) ∧
     (∀ el e, decoded ≫= extract_election_proposal = Some el → validate_election_list c el = Err e →
        (take_incoming p decoded c).2 = Err e)).
Proof.
  cbn zeta. unfold take_incoming. unfold mirrored. set (decoded := result_ok _).
  set (cq := match decoded with Some req => (mirror_incoming (prop_id p) req c).1 | None => c end).
  assert (∀ B (k : unit → conv B), sbind match decoded with Some req => mirror_incoming (prop_id p) req | None => sret tt end k c
    = k tt cq) as Hbind.
  { intros B k. unfold cq, sbind. destruct decoded; [|done]. by rewrite mirror_incoming_eq. }
  rewrite Hbind. clear Hbind.
  assert (c_queues cq = mirrored p (mls_epoch c) (c_queues c) ∧ timestamp cq = timestamp c ∧ c_config cq = c_config c ∧
    ∀ el, validate_election_list cq el = validate_election_list c el) as (Hq & Hts & Hcfg & Hval).
  { unfold cq, mirrored. fold decoded. destruct decoded as [req|]; [|done]. rewrite mirror_incoming_eq. split_and!; [done..|].
    intros el. apply verdict_unmoved; [done..|]. cbn.
    transitivity (member_join_epoch (track_voting_proposal (prop_id p) req (c_queues c))).
    - destruct (req_payload req) as [[]|]; try done; unfold insert_pending_update;
        (destruct (target_member_id_of req) as [k|]; [|done]); by destruct (pending_updates _ !! k).
    - unfold track_voting_proposal. by repeat case_match. }
  unfold mirrored in Hq. fold decoded in Hq. rewrite <-Hq, <-Hts, <-Hcfg. clearbody cq.
  destruct (N.ltb_spec 1 (expected_voters_count p)) as [_|]; [|split; [done|lia]].
  pose proof (schedule_queues (prop_id p) decoded cq) as Hsq.
  destruct (schedule_votes (prop_id p) decoded cq) as [Hok Herr]. unfold sbind. split; [|intros _; split].
  - destruct (schedule_incoming (prop_id p) decoded cq) as [c1 [[]|e]]; exact Hsq.
  - intros vote Hv. destruct (Hok vote) as (c1 & -> & Hn & Hc & Hav).
    { destruct (decoded ≫= extract_election_proposal); [|done]. by setoid_rewrite Hval. }
    cbn. rewrite lookup_insert_eq. unfold timestamp. by rewrite Hn, Hc.
  - intros el e He Hv. rewrite <-Hval in Hv. specialize (Herr el e He Hv).
    by destruct (schedule_incoming (prop_id p) decoded cq) as [c1 [[]|e']].
Qed.

(** C20: a peer's proposal leaves no trace unless it is admitted. Under an active
    emergency a lower-priority one is dropped before the consensus library sees it,
    with nothing changed. One the library refuses is the error it returned, with
    the queues, the deadlines, the MLS state and the phase untouched. One it takes
    is mirrored into the queues: tracked as voting, an emergency arming the partial
    freeze, a membership change buffered for retry; and when others must vote, an
    election is to be voted at once with the verdict of validating its list, which is
    the error returned when it has none, anything else after the voting delay with
    the configured vote, and the session timeout is registered. *)
Theorem incoming_proposal_admission p c :
  let decoded := result_ok (decode_request (prop_payload p)) in
  let called := process_incoming_proposal (c_id c) p (now_secs c) (c_engine c) in
  let c' := (on_incoming_proposal p c).1 in
  let r := (on_incoming_proposal p c).2 in
  (partial_freeze_blocks (c_queues c) (incoming_kind decoded) = true → on_incoming_proposal p c = (c, Ok tt)) ∧
  (partial_freeze_blocks (c_queues c) (incoming_kind decoded) = false →
     (∀ e, called.2 = Err e →
        r = Err (Consensus e) ∧ c_queues c' = c_queues c ∧ c_timing c' = c_timing c ∧
        c_mls c' = c_mls c ∧ c_sm c' = c_sm c) ∧
     (called.2 = Ok tt →
        c_queues c' = mirrored p (mls_epoch c) (c_queues c) ∧
        ((1 < expected_voters_count p)%N →
           (∀ vote,
              match decoded ≫= extract_election_proposal with
              | Some el => ∃ verdict, validate_election_list c el = Ok verdict ∧
                  vote = mk_auto_vote (ts_add (timestamp c) 0) verdict
              | None => vote = mk_auto_vote (ts_add (timestamp c) (voting_delay (c_config c)))
                                 (liveness_criteria_yes (c_config c))
              end →
              r = Ok tt ∧
              pending_consensus_timeouts (c_timing c') !! prop_id p =
                Some (ts_add (timestamp c) (consensus_timeout (c_config c))) ∧
              pending_auto_votes (c_timing c') !! prop_id p = Some vote) ∧
           (∀ el e, decoded ≫= extract_election_proposal = Some el → validate_election_list c el = Err e → r = Err e)))).
Proof.
  cbn zeta. destruct (submit_incoming_cases p c) as (c1 & Hsub & Hq & Ht & Hm & Hsm & Hnow & Hcfg & Hst).
  rewrite on_incoming_eq, Hsub. cbn zeta. set (called := process_incoming_proposal _ _ _ _) in *.
  set (decoded := result_ok (decode_request (prop_payload p))).
  destruct (partial_freeze_blocks _ _); (split; [done|]); [done|]. intros _.
  destruct called.2 as [[]|e]; cbn [result_map_err]; (split; [|try done]); [done| |by intros e0 [= <-]]. intros _.
  destruct (take_incoming_mirrors p c1) as [H1 H2]. fold decoded in H1, H2.
  assert (mls_epoch c1 = mls_epoch c) as He by (unfold mls_epoch; by rewrite Hm).
  assert (timestamp c1 = timestamp c) as Hts by (unfold timestamp; by rewrite Hnow).
  assert (∀ el, validate_election_list c1 el = validate_election_list c el) as Hval
    by (intros el; apply verdict_unmoved; congruence).
  rewrite Hq, He in H1. split; [done|]. intros Hv. rewrite Hts, Hcfg in H2. destruct (H2 Hv) as [Hok Herr]. split.
  - intros vote Hvote. apply Hok. destruct (decoded ≫= extract_election_proposal); [|done]. by setoid_rewrite Hval.
  - intros el e Hel Hverr. apply (Herr el); [done|]. by rewrite Hval.
Qed.
End inbound_facts.

(** ** At concrete inputs *)

#[local] Existing Instances example_hash toy_mls canonical_hash_iter toy_consensus toy_texts toy_codec.

(** The proposal of [owner], expecting [voters], to remove [target], as leaf 1 sends it. *)
Definition removal_proposal (target owner voters : N) : Proposal :=
  mk_proposal "p" (toy_encode_request (remove_member_request (member_id_of target))) 9 (member_id_of owner) [] voters 1
    0 0 true.
Definition removal_packet (target owner voters : N) : bytes :=
  [x04; x01; x03] ++ toy_encode_app (to_app_message (AppProposal (removal_proposal target owner voters))).

Lemma fast_path_is_self_removal_witness :
  ∃ p, (decode_inbound_payload (removal_packet 1 1 1) (queues_new "g" 8, toy_service)).2 = Ok (PrProposal p) ∧
    proposal_owner p = member_id_of 1 ∧
    (decode_inbound_payload (removal_packet 0 1 1) (queues_new "g" 8, toy_service)).2 = Ok (Noop FastPathRejected).
Proof.
  destruct (decode_inbound_payload (removal_packet 1 1 1) (queues_new "g" 8, toy_service)) as [st' r] eqn:E.
  assert (∃ p, r = Ok (PrProposal p) ∧ expected_voters_count p = 1%N ∧ proposal_owner p = member_id_of 1)
    as (p & Hr & Hv & Ho).
  { change r with (st', r).2. rewrite <-E. eexists. split_and!; by vm_compute. }
  rewrite Hr in E. destruct (fast_path_is_self_removal _ _ _ _ E Hv) as (pm & sender & plain & _ & _ & _ & _ & _ & Hs & _).
  exists p. split_and!; [by rewrite Hr|by rewrite <-Ho|by vm_compute].
Defined.

Lemma process_inbound_never_leaves_witness :
  process_inbound [xaa] (removal_packet 1 1 1) room = (room, Ok Dropped).
Proof. apply (process_inbound_never_leaves [xaa] (removal_packet 1 1 1) room). reflexivity. Defined.

Lemma incoming_proposal_admission_witness :
  let frozen := c_set_queues (insert_emergency 3 (c_queues room)) room in
  on_incoming_proposal (removal_proposal 1 0 2) frozen = (frozen, Ok tt) ∧
  c_queues (on_incoming_proposal (removal_proposal 1 0 2) room).1 = c_queues room.
Proof.
  split.
  - destruct (incoming_proposal_admission (removal_proposal 1 0 2)
      (c_set_queues (insert_emergency 3 (c_queues room)) room)) as [H _]. apply H. by vm_compute.
  - destruct (incoming_proposal_admission (removal_proposal 1 0 2) room) as [_ H].
    destruct H as [H _]; [by vm_compute|]. apply (H ProposalExpired). by vm_compute.
Defined.
