(* ===== verification/Messaging.v ===== *)
(** * Sending: [src/conversation/messaging.rs]

    Chat messages, sync requests, and the membership proposals a member opens
    itself. *)

From S2P Require Import Prelude Time Machine Protos StewardList Mls Buffer Queues Scoring CommitRound ApplyResult Config Display Conversation Voting Steward.

Section messaging.
Context {HS : Hash} {OM : OpenMls} {CS : ConsensusLib} {CD : Codec} {CT : ConsensusTexts} {HI : HashIter}.
Context {St : Type} `{!PeerScoreStorage St}.
Abbreviation Conv := (Conversation St).
Abbreviation conv := (method Conv).
Implicit Types (c : Conv).

Definition send_message (message : bytes) : conv unit :=
  let! c := sget id in
  match current_state c with
  | Freezing | Selection => sfail (ConversationBlocked (state_to_string (current_state c)))
  | _ =>
      let! payload := on_mls (build_message (to_app_message (AppConversationMessage message (c_id c)))) in
      broadcast payload
  end.

Definition request_conversation_sync : conv unit :=
  let! payload := on_mls (build_message (to_app_message AppConversationSyncRequest)) in
  broadcast payload.

Definition holds_signature_key c (key_package : KeyPackage) : bool :=
  existsb (λ m, bool_decide (signature_key m = kp_leaf_signature_key key_package)) (g_members (mls_group (c_mls c))).

Definition propose_add (key_package_bytes : bytes) (creator_vote : CreatorVote) : conv unit :=
  let! key_package := slift (result_map_err Mls (validate_key_package key_package_bytes)) in
  let! c := sget id in
  if holds_signature_key c key_package then sfail AlreadyMember else
  initiate_proposal (member_invite_request key_package_bytes) creator_vote.

(** [Conversation::add_member], [sponsor_member] and [remove_member]. *)
Definition conv_add_member (key_package_bytes : bytes) : conv unit :=
  let! state := sget current_state in
  if negb (bool_decide (state = Working)) then sfail (ConversationBlocked (state_to_string state)) else
  propose_add key_package_bytes CreatorYes.

Definition sponsor_member (key_package_bytes : bytes) : conv unit :=
  let! c := sget id in
  if negb (bool_decide (current_state c = Working)) then sret tt else
  if is_epoch_steward c then propose_add key_package_bytes CreatorDeferred else
  let! key_package := slift (result_map_err Mls (validate_key_package key_package_bytes)) in
  if holds_signature_key c key_package then sret tt else
  let! _ := on_queues (insert_pending_update (member_invite_request key_package_bytes) (mls_epoch c)) in
  sret tt.

Definition conv_remove_member (member : MemberId) : conv unit :=
  let! c := sget id in
  if negb (bool_decide (current_state c = Working))
  then sfail (ConversationBlocked (state_to_string (current_state c))) else
  let! leaf := slift (ok_or (leaf_of (c_mls c) member) MemberGone) in
  initiate_proposal (remove_member_request (member_id_of leaf)) CreatorYes.
End messaging.
