(* ===== verification/Poll.v ===== *)
(** * The polling cycle: [src/conversation/poll.rs]

    One [poll] ticks the deadlines, advances the freeze, and runs the takeover,
    sync, inactivity and re-election drives, in that order and whatever the earlier
    ones returned. A [Duration] sum beyond [Duration::MAX], on which the source
    panics, is taken as the exact sum; added to a timestamp it saturates. *)

From S2P Require Import Prelude Time Machine Protos StewardList Mls Buffer Queues Scoring CommitRound ApplyResult Config Display Conversation Voting Steward HandleOutcome Inbound Messaging.

Record PollOutcome := mk_poll { po_next_wakeup_in : option Duration; leave_requested : bool }.

Section poll.
Context {HS : Hash} {OM : OpenMls} {CS : ConsensusLib} {CD : Codec} {CT : ConsensusTexts} {HI : HashIter}.
Context {St : Type} `{!PeerScoreStorage St}.
Abbreviation Conv := (Conversation St).
Abbreviation conv := (method Conv).
Implicit Types (c : Conv).

(** *** Recovery rounds *)

Definition retry_or_exhaust_recovery : conv DispatchOutcome :=
  smodify (λ c, c_set_rounds (u32_wrapping_add (c_recovery_rounds c) 1) c) ;!
  let! c := sget id in
  let max := recovery_max_rounds (c_config c) in
  (if negb (max =? 0)%N && (max <=? c_recovery_rounds c)%N then
     exit_recovery_mode ;!
     let! resumed := start_working in
     emit_event EvRecoveryExhausted ;!
     emit_event (EvPhaseChange resumed)
   else
     let! reopened := reopen_recovery_window in
     emit_phase_change reopened) ;!
  sret Done.

Definition resume_working : conv unit :=
  let! resumed := start_working in emit_event (EvPhaseChange resumed).

Definition recover_from_finalize_error : conv DispatchOutcome :=
  let! c := sget id in
  if is_in_recovery_mode c then retry_or_exhaust_recovery else resume_working ;! sret Done.

Definition maybe_auto_commit_recovery : conv unit :=
  let! c := sget id in
  match recovery_auto_commit_delay (c_config c) with
  | None => sret tt
  | Some delay =>
      if negb (elapsed_since_anchor (phase_timer (c_timing c)) (timestamp c) delay)
         || has_local_candidate (commit_round (c_queues c)) then sret tt
      else attempt (let! _ := mint_and_broadcast_candidate in sret tt)
  end.

(** *** Welcomes *)

Definition deliver_welcome (welcome : MemberWelcome) : conv unit :=
  let! welcome := scatch (let! _ := reconcile_steward_list in build_conversation_sync_payload) (λ sync,
    match sync with
    | Ok sync_bytes =>
        sret (mk_welcome (welcome_bytes welcome) (default [] sync_bytes) (joiner_identities welcome))
    | Err e => emit_event (EvError "welcome_conversation_sync" (error_to_string e)) ;! sret welcome
    end) in
  emit_event (EvWelcomeReady welcome true) ;!
  broadcast (encode_app_message (to_app_message (AppMemberWelcome welcome))).

(** *** The freeze *)

(** Early selection outside recovery, or the end of the window. *)
Definition all_candidates_in (in_recovery : bool) c : bool :=
  negb in_recovery && is_some_and (svc_list (c_stewards c)) (λ l,
    (len (sl_members l) <=? (commit_candidate_count c).1)%N).
Definition recovery_window c : Duration :=
  (default 0 (recovery_auto_commit_delay (c_config c)) + retry_window (c_config c))%N.
Definition window_elapsed (in_recovery : bool) c : bool :=
  if in_recovery then elapsed_since_anchor (phase_timer (c_timing c)) (timestamp c) (recovery_window c)
  else is_freeze_window_elapsed c.

Definition report_progress (progress : N * N) : conv unit :=
  let! c := sget id in
  if bool_decide (last_commit_round_progress (c_timing c) = Some progress) then sret tt else
  edit_timing (set_progress (Some progress)) ;!
  emit_event (EvCommitRoundProgress progress.1 progress.2).

(** The steward a missed round is held against. *)
Definition inactive_steward c : option bytes :=
  match epoch_steward (c_stewards c) (mls_epoch c) (eligible_of c) with
  | Some id => if negb (bool_decide (id = [])) && negb (bool_decide (id = c_self c)) then Some id else None
  | None => None
  end.

Definition clear_round_and_work : conv ConversationState :=
  edit_queues (λ q, set_round (buffer_clear (commit_round q)) q) ;!
  start_working.

Definition no_candidate (in_recovery has_proposals : bool) : conv DispatchOutcome :=
  if in_recovery then
    if negb has_proposals then
      edit_queues (λ q, set_round (buffer_clear (commit_round q)) q) ;!
      exit_recovery_mode ;!
      resume_working ;!
      sret Done
    else retry_or_exhaust_recovery
  else
    let! transition_event :=
      (if has_proposals then
         let! event := start_reelection in
         let! score_target := sget inactive_steward in
         match score_target with
         | Some steward_id => apply_score_ops [mk_score_op steward_id CensorshipInactivity]
         | None => sret tt
         end ;!
         sret event
       else clear_round_and_work) in
    emit_event (EvPhaseChange transition_event) ;!
    (if bool_decide (transition_event = Reelection) then attempt (initiate_steward_election true) else sret tt) ;!
    sret Done.

Definition applied (in_recovery : bool) (result : ProcessResult) (welcome : option MemberWelcome) :
    conv DispatchOutcome :=
  (if in_recovery then exit_recovery_mode else sret tt) ;!
  match welcome with Some welcome => deliver_welcome welcome | None => sret tt end ;!
  scatch (dispatch_inbound_result result) (λ r,
    sret match r with Ok o => o | Err _ => Done end).

(** What a finished round does. *)
Definition conclude_round (in_recovery has_proposals : bool) (finalized : CommitRoundResult) :
    conv DispatchOutcome :=
  (if bool_decide (rr_score_ops finalized = []) then sret tt else
   scatch (apply_score_ops (rr_score_ops finalized)) (λ r,
     match r with
     | Ok _ => sret tt
     | Err e => emit_event (EvError "apply_commit_round_score_ops" (error_to_string e))
     end)) ;!
  (if bool_decide (committed_batch finalized = []) then sret tt
   else emit_event (EvCommitApplied (committed_batch finalized))) ;!
  match rr_outcome finalized with
  | Applied result welcome => applied in_recovery result welcome
  | NoCandidate => no_candidate in_recovery has_proposals
  end.

(** Selecting once the freeze is over. *)
Definition select_round (in_recovery : bool) : conv DispatchOutcome :=
  edit_timing (set_progress None) ;!
  let! selection_event := start_selection in
  let! has_proposals := sget (λ c, (0 <? approved_proposals_count (c_queues c))%N) in
  emit_event (EvPhaseChange selection_event) ;!
  let! c := sget id in
  let allow_subset := in_recovery || allow_subset_candidates (svc_config (c_stewards c)) in
  scatch (conv_finalize_commit_round allow_subset (c_self c)) (λ finalize_result,
    match finalize_result with
    | Err e =>
        emit_event (EvError "commit_round_finalize" (error_to_string e)) ;!
        recover_from_finalize_error
    | Ok finalized => conclude_round in_recovery has_proposals finalized
    end).

Definition advance_freezing : conv DispatchOutcome :=
  let! state := sget current_state in
  if negb (bool_decide (state = Freezing)) then edit_timing (set_progress None) ;! sret Done else
  let! in_recovery := sget is_in_recovery_mode in
  (if in_recovery then maybe_auto_commit_recovery else sret tt) ;!
  let! c := sget id in
  if negb (all_candidates_in in_recovery c) && negb (window_elapsed in_recovery c)
  then report_progress (commit_candidate_count c) ;! sret Done
  else select_round in_recovery.

(** *** The drives *)

Definition drive_buffered_proposals : conv unit :=
  let! c := sget id in
  let idle := negb (bool_decide (current_state c = Working))
    || (0 <? approved_proposals_count (c_queues c))%N
    || bool_decide (actionable_buffered_updates c = []) in
  if idle then edit_timing (set_buffered_anchor None) else
  if is_epoch_steward c then edit_timing (set_buffered_anchor None) ;! drain_buffered_updates else
  if negb (conv_is_steward c) then sret tt else
  let now := timestamp c in
  match buffered_propose_anchor (c_timing c) with
  | None => edit_timing (set_buffered_anchor (Some now))
  | Some anchor =>
      if ts_ltb now (ts_add anchor (backup_takeover_window (c_config c))) then sret tt else
      edit_timing (set_buffered_anchor None) ;!
      drain_buffered_updates
  end.

Definition drive_sync_resend : conv unit :=
  let! c := sget id in
  match sync_resend_anchor (c_timing c) with
  | None => sret tt
  | Some anchor =>
      if is_epoch_steward c || negb (conv_is_steward c) then edit_timing (set_resend_anchor None) else
      if ts_ltb (timestamp c) (ts_add anchor (backup_takeover_window (c_config c))) then sret tt else
      edit_timing (set_resend_anchor None) ;!
      share_conversation_sync
  end.

Definition needs_sync c : bool :=
  match svc_list (c_stewards c) with
  | None => true
  | Some _ => is_exhausted (c_stewards c) (mls_epoch c)
  end.

Definition drive_sync_request : conv unit :=
  let! c := sget id in
  if negb (needs_sync c) || has_election_in_flight (c_queues c) then edit_timing (set_request_anchor None) else
  let now := timestamp c in
  if is_some_and (sync_request_anchor (c_timing c)) (λ anchor,
       ts_ltb now (ts_add anchor (backup_takeover_window (c_config c)))) then sret tt else
  edit_timing (set_request_anchor (Some now)) ;!
  request_conversation_sync.

Definition inactivity_window c : Duration :=
  if is_in_recovery_mode c || (0 <? next_election_round (c_stewards c))%N || reelection_recovered (c_timing c)
  then retry_window (c_config c) else commit_batch_window (c_config c).

Definition start_freeze_on_inactivity : conv unit :=
  let! c := sget id in
  if has_election_in_flight (c_queues c) then sret tt else
  let! event := check_steward_inactivity (approved_proposals_count (c_queues c)) (inactivity_window c) in
  match event with
  | None => sret tt
  | Some event => on_freeze_entered event
  end.

Definition drive_reelection_retry : conv unit :=
  let! c := sget id in
  if negb (bool_decide (current_state c = Reelection)) || has_election_in_flight (c_queues c)
  then edit_timing (set_silence_anchor None) else
  let now := timestamp c in
  match reelection_silence_anchor (c_timing c) with
  | None => edit_timing (set_silence_anchor (Some now))
  | Some anchor =>
      if ts_ltb now (ts_add anchor (retry_window (c_config c))) then sret tt else
      edit_timing (set_silence_anchor None) ;!
      advance_election_retry
  end.

(** *** One cycle *)

(** The drives after the freeze, each whatever the ones before it returned. *)
Definition drive_all (leave_requested : bool) : conv PollOutcome :=
  attempt drive_buffered_proposals ;!
  attempt drive_sync_resend ;!
  attempt drive_sync_request ;!
  attempt start_freeze_on_inactivity ;!
  attempt drive_reelection_retry ;!
  let! wakeup := sget next_wakeup_in in
  sret (mk_poll wakeup leave_requested).

Definition poll (fuel : nat) : conv PollOutcome :=
  tick_deadlines fuel ;!
  let! leave_requested := scatch advance_freezing (λ r, sret (bool_decide (r = Ok LeaveRequested))) in
  drive_all leave_requested.
End poll.
