(* ===== verification/Quiet.v ===== *)
(** * What the housekeeping leaves alone

    Most handlers end in housekeeping: events, scores, deadlines, proposals opened by
    the way. A property that ignores what housekeeping touches is kept by all of it;
    the classes say what such a property may ignore, and the lemmas which methods
    keep it. *)

From S2P Require Import Prelude Time Machine Protos StewardList Mls Buffer Queues Scoring CommitRound ApplyResult Config Display Conversation Voting Steward HandleOutcome Inbound Messaging Poll.

Create HintDb quiet.

Section quiet.
Context {HS : Hash} {OM : OpenMls} {CS : ConsensusLib} {CD : Codec} {CT : ConsensusTexts} {HI : HashIter}.
Context {St : Type} `{!PeerScoreStorage St}.
Abbreviation Conv := (Conversation St).
Abbreviation conv := (method Conv).
Implicit Types (c : Conv) (P : Conv → Prop).

(** The report of a commit, which only the end of a round makes. *)
Definition reports_commit (ev : ConversationEvent) : bool :=
  match ev with EvCommitApplied _ => true | _ => false end.

(** [P] ignores the scores, the deadlines, a new event, the report of a commit apart,
    and what the queues hold besides the approved work, the urgent target, the join
    epochs and the commit round. *)
Class Still P : Prop := {
  still_timing t c : P c → P (c_set_timing t c);
  still_scoring s c : P c → P (c_set_scoring s c);
  still_event ev c : reports_commit ev = false → P c → P (c_set_events (c_events c ++ [ev]) c);
  still_queues q c :
    approved_proposals q = approved_proposals (c_queues c) → member_join_epoch q = member_join_epoch (c_queues c) →
    commit_round q = commit_round (c_queues c) → urgent_commit_target q = urgent_commit_target (c_queues c) → P c → P (c_set_queues q c);
}.
(** ... and also the engine, what is sent, and the group's encryption of it. *)
Class Quiet P : Prop := {
  quiet_still :: Still P;
  quiet_engine e c : P c → P (c_set_engine e c);
  quiet_bus b c : P c → P (c_set_bus b c);
  quiet_message msg c : P c → P (c_set_mls (build_message msg (c_mls c)).1 c);
  quiet_outbound o c : P c → P (c_set_outbound (c_outbound c ++ [o]) c);
}.
(** ... and the steward list too. *)
Class QuietStewards P : Prop := {
  quiet_quiet :: Quiet P;
  quiet_stewards s c : P c → P (c_set_stewards s c);
}.

(** [P] ignores the phase. *)
Class AnyPhase P : Prop := any_phase sm c : P c → P (c_set_sm sm c).

Section phase.
Context P `{!Still P, !AnyPhase P}.

Lemma phase_working : preserves P start_working.
Proof. intros c Hc. by apply still_timing, any_phase. Qed.
Lemma phase_selection : preserves P start_selection.
Proof. intros c Hc. by apply any_phase. Qed.
Lemma phase_reelection : preserves P start_reelection.
Proof. intros c Hc. by apply still_timing, any_phase. Qed.
Lemma phase_freezing : preserves P start_freezing.
Proof. intros c Hc. unfold start_freezing. destruct (sm_start_freezing _) as [sm []]; [apply still_timing|]; by apply any_phase. Qed.
Lemma phase_reopen : preserves P reopen_recovery_window.
Proof. intros c Hc. unfold reopen_recovery_window. destruct (sm_reopen_freezing _) as [sm []]; [apply still_timing|]; by apply any_phase. Qed.
End phase.

Section still.
Context P `{!Still P}.

Lemma still_emit ev : reports_commit ev = false → preserves P (emit_event ev).
Proof. intros Hev. apply preserves_modify. intros c. by apply still_event. Qed.
Lemma still_edit_timing f : preserves P (edit_timing f).
Proof. apply preserves_modify. intros c. apply still_timing. Qed.
Lemma still_on_scoring {A} (m : method (PeerScoringService St) A) : preserves P (on_scoring m).
Proof. intros c Hc. unfold on_scoring, szoom. destruct (m (c_scoring c)). by apply still_scoring. Qed.
Lemma still_edit_queues f :
  (∀ q, approved_proposals (f q) = approved_proposals q ∧ member_join_epoch (f q) = member_join_epoch q ∧
     commit_round (f q) = commit_round q ∧ urgent_commit_target (f q) = urgent_commit_target q) → preserves P (edit_queues f).
Proof. intros Hf. apply preserves_modify. intros c Hc. destruct (Hf (c_queues c)) as (? & ? & ? & ?). by apply still_queues. Qed.
Lemma still_on_queues {A} (f : ConversationQueues → ConversationQueues * A) :
  (∀ q, approved_proposals (f q).1 = approved_proposals q ∧ member_join_epoch (f q).1 = member_join_epoch q ∧
     commit_round (f q).1 = commit_round q ∧ urgent_commit_target (f q).1 = urgent_commit_target q) → preserves P (on_queues f).
Proof.
  intros Hf c Hc. unfold on_queues. specialize (Hf (c_queues c)). destruct (f (c_queues c)) as [q a].
  destruct Hf as (? & ? & ? & ?). by apply still_queues.
Qed.
Lemma still_attempt m : preserves P m → preserves P (attempt m).
Proof. intros Hm. apply preserves_catch; [done|intros; apply preserves_ret]. Qed.
End still.

Section quiet_methods.
Context P `{!Quiet P}.

Lemma quiet_broadcast b : preserves P (broadcast b).
Proof. apply preserves_modify. intros c. apply quiet_outbound. Qed.
Lemma quiet_build msg : preserves P (on_mls (build_message msg)).
Proof. intros c Hc. unfold on_mls. pose proof (quiet_message msg c Hc). by destruct (build_message msg (c_mls c)). Qed.
Lemma quiet_moved c c' : engine_moved c c' → P c → P c'.
Proof. intros (e & b & ->) Hc. by apply quiet_bus, quiet_engine. Qed.
Lemma quiet_on_engine {A} (m : engine_call Engine A) : preserves P (on_engine m).
Proof. intros c Hc. destruct (on_engine m c) as [c' r] eqn:E. by eapply quiet_moved, Hc; eapply on_engine_moved. Qed.
Lemma quiet_submit req ps : preserves P (submit_proposal req ps).
Proof. intros c Hc. destruct (submit_proposal req ps c) as [c' r] eqn:E. by eapply quiet_moved, Hc; eapply submit_proposal_moved. Qed.
End quiet_methods.

Lemma quiet_edit_stewards P `{!QuietStewards P} f : preserves P (edit_stewards f).
Proof. apply preserves_modify. intros c. apply quiet_stewards. Qed.
Lemma quiet_on_stewards P `{!QuietStewards P} {A} (m : method StewardListService A) : preserves P (on_stewards m).
Proof. intros c Hc. unfold on_stewards, szoom. destruct (m (c_stewards c)). by apply quiet_stewards. Qed.
End quiet.

#[export] Hint Resolve phase_working phase_selection phase_reelection phase_freezing phase_reopen still_emit still_edit_timing still_on_scoring still_attempt quiet_broadcast quiet_build
  quiet_on_engine quiet_submit quiet_edit_stewards quiet_on_stewards
  preserves_ret preserves_fail preserves_get preserves_lift : quiet.

Ltac quiet_step :=
  first
  [ solve [eauto 5 with quiet typeclass_instances]
  | apply still_edit_queues; [apply _|]; intros; unfold track_voting_proposal, insert_emergency; by repeat case_match
  | apply still_on_queues; [apply _|]; by intros
  | apply preserves_bind; [|intros ?]
  | apply preserves_catch; [|intros ?]
  | apply preserves_for; intros
  | progress unfold register_consensus_timeout, register_auto_vote
  | case_match ].
Ltac quiet := repeat quiet_step.

Section housekeeping.
Context {HS : Hash} {OM : OpenMls} {CS : ConsensusLib} {CD : Codec} {CT : ConsensusTexts} {HI : HashIter}.
Context {St : Type} `{!PeerScoreStorage St}.
Implicit Types (P : Conversation St → Prop).

Lemma scores_still P `{!Still P} ops : preserves P (apply_score_ops ops).
Proof. unfold apply_score_ops, emit_score_changes. quiet. Qed.
Lemma membership_still P `{!Still P} : preserves P reconcile_membership_after_commit.
Proof. unfold reconcile_membership_after_commit. quiet. Qed.
Lemma initiate_quiet P `{!Quiet P} req v : preserves P (initiate_proposal req v).
Proof. unfold initiate_proposal. quiet. Qed.
End housekeeping.
#[export] Hint Resolve scores_still membership_still initiate_quiet : quiet.

Section housekeeping_elections.
Context {HS : Hash} {OM : OpenMls} {CS : ConsensusLib} {CD : Codec} {CT : ConsensusTexts} {HI : HashIter}.
Context {St : Type} `{!PeerScoreStorage St}.
Implicit Types (P : Conversation St → Prop).

Lemma election_quiet P `{!Quiet P} r : preserves P (initiate_steward_election r).
Proof. unfold initiate_steward_election. quiet. Qed.
Lemma recovery_request_quiet P `{!Quiet P} : preserves P request_recovery.
Proof. unfold request_recovery. quiet. Qed.
Lemma sync_payload_quiet P `{!Quiet P} : preserves P build_conversation_sync_payload.
Proof. unfold build_conversation_sync_payload. quiet. Qed.
Lemma buffered_quiet P `{!Quiet P} : preserves P process_buffered_updates.
Proof. unfold process_buffered_updates, drain_buffered_updates. quiet. Qed.
Lemma reconcile_quiet P `{!QuietStewards P} : preserves P reconcile_steward_list.
Proof. unfold reconcile_steward_list. quiet. Qed.
End housekeeping_elections.
#[export] Hint Resolve election_quiet recovery_request_quiet sync_payload_quiet buffered_quiet reconcile_quiet : quiet.

Section housekeeping_rounds.
Context {HS : Hash} {OM : OpenMls} {CS : ConsensusLib} {CD : Codec} {CT : ConsensusTexts} {HI : HashIter}.
Context {St : Type} `{!PeerScoreStorage St}.
Implicit Types (P : Conversation St → Prop).

Lemma close_recovery_quiet P `{!Quiet P} : preserves P maybe_close_recovery_window.
Proof. unfold maybe_close_recovery_window. quiet. Qed.
Lemma deliver_quiet P `{!QuietStewards P} w : preserves P (deliver_welcome w).
Proof. unfold deliver_welcome. quiet. Qed.
Lemma housekeeping_quiet P `{!QuietStewards P} : preserves P steward_list_housekeeping.
Proof. unfold steward_list_housekeeping. quiet. Qed.
End housekeeping_rounds.
#[export] Hint Resolve close_recovery_quiet deliver_quiet housekeeping_quiet : quiet.
