(* ===== verification/Construct.v ===== *)
(** * Construction: [src/conversation/construct.rs]

    [create], which opens a group and seeds it, and [join], which opens the group of a
    welcome. The consensus engine, which [open_consensus] of [Bus] builds from the
    backend, is an argument, and its outcome bus starts empty. *)

From S2P Require Import Prelude Time Machine Protos StewardList Mls Buffer Queues Scoring CommitRound ApplyResult Config Display Conversation Voting Steward HandleOutcome Inbound Messaging Poll.

Section construct.
Context {HS : Hash} {OM : OpenMls} {CS : ConsensusLib} {CD : Codec} {CT : ConsensusTexts} {HI : HashIter}.
Context {St : Type} `{!PeerScoreStorage St}.
Abbreviation Conv := (Conversation St).
Abbreviation conv := (method Conv).
Implicit Types (c : Conv).

(** The steward list and scores a conversation starts with. *)
Definition bootstrap (is_creation : bool) (self_member_id : bytes) :
    method (StewardListService * PeerScoringService St) unit :=
  if is_creation then
    szoom fst (λ s p, (s, p.2)) (install_list 0 [self_member_id] 1 0) ;!
    szoom snd (λ s p, (p.1, s)) (add_member self_member_id)
  else sret tt.

Definition assemble (conversation_id : string) (mls : MlsService) (scoring : PeerScoringService St)
    (consensus : Engine) (now : Duration) (app_id : bytes) (config : ConversationConfig)
    (is_creation : bool) : res Conv :=
  let? _ := config_validate config in
  let? _ := validate_config scoring in
  let self_member_id := be_bytes 4 (g_own_leaf_index (mls_group mls)) in
  let queues := queues_new conversation_id (dedup_window config) in
  let stewards := set_max_retries (max_reelection_attempts config)
    (set_conversation_id (String.list_byte_of_string conversation_id) (svc_empty (steward_list_config config))) in
  let '((stewards, scoring), r) := bootstrap is_creation self_member_id (stewards, scoring) in
  let? _ := r in
  let state_machine := sm_new_as_member in
  let c := conversation_new conversation_id queues mls scoring stewards consensus state_machine config now
    self_member_id app_id in
  Ok (emit_event (EvPhaseChange (sm_state state_machine)) c).1.

(** [collect::<Result<_, _>>]. *)
Fixpoint joiner_keys (key_packages : list bytes) : res (list bytes) :=
  match key_packages with
  | [] => Ok []
  | kp :: key_packages =>
      let? key := result_map_err Mls (signature_key_of_key_package kp) in
      let? keys := joiner_keys key_packages in
      Ok (key :: keys)
  end.

Definition seed_initial_members (initial_members : list bytes) : conv unit :=
  if bool_decide (initial_members = []) then sret tt else
  let updates := CommitAdd <$> initial_members in
  let! joiner_identities := slift (joiner_keys initial_members) in
  let! artifacts := on_mls (create_commit_candidate updates) in
  let! delta := on_mls merge_own_commit in
  sfor (delta_added delta) (λ m, on_scoring (add_member (member_id_of (leaf_index m)))) ;!
  let! c := sget id in
  let epoch := mls_epoch c in
  let settled := settled_members (c_queues c) (members_of c) epoch in
  let sn := compute_list_size (svc_config (c_stewards c)) (len settled) in
  on_stewards (install_list epoch settled sn 0) ;!
  match art_welcome artifacts with
  | Some welcome => deliver_welcome (mk_welcome welcome [] joiner_identities)
  | None => sret tt
  end.

Definition create {SU : OpenMlsSetup} (conversation_id : string) (provider : Provider) (credential : CredentialWithKey)
    (group_config : MlsGroupCreateConfig) (consensus : Engine) (scoring : PeerScoringService St) (now : Duration)
    (app_id : bytes) (config : ConversationConfig) (initial_members : list bytes) : res Conv :=
  let? mls := result_map_err Mls (new_as_creator conversation_id provider credential group_config) in
  let? c := assemble conversation_id mls scoring consensus now app_id config true in
  let '(c, r) := seed_initial_members initial_members c in
  let? _ := r in Ok c.

Definition join {SU : OpenMlsSetup} (provider : Provider) (welcome_bytes conversation_sync_bytes : bytes)
    (consensus : Engine) (scoring : PeerScoringService St) (now : Duration) (app_id : bytes)
    (config : ConversationConfig) : res (option Conv) :=
  let? mls := result_map_err Mls (new_from_welcome provider welcome_bytes) in
  match mls with
  | None => Ok None
  | Some mls =>
      let? c := assemble (mls_conversation_id mls) mls scoring consensus now app_id config false in
      let '(c, r) := (on_joined ;! apply_welcome_sync conversation_sync_bytes) c in
      let? _ := r in Ok (Some c)
  end.
End construct.
