(* ===== verification/Invariant.v ===== *)
(** * What every handler preserves

    [queues_ok], [stewards_ok] and a valid score configuration make [conv_pinned], the
    invariant of a conversation; on demand it also keeps every integer of the protocol
    state within its Rust type ([svc_typed], [scores_typed]), which needs the decoder
    and the epochs to ([WireTypes]). [holds] adds the facts a caller may want to carry
    along ([Watch]): the resolved window, that the machine is not in [Selection], that
    the outcome bus is the one it was, and the conversation's identity. Each method of
    the conversation preserves what is watched; the lemmas are the hint database
    [keeps]. *)

From S2P Require Import Prelude Time Machine Protos StewardList Mls Buffer Queues Scoring CommitRound ApplyResult Config Display Conversation Voting Steward HandleOutcome Inbound Messaging Poll Construct.

Create HintDb keeps.

(** ** Machine widths *)

(** A message read off the wire fits its protobuf types, and an epoch is a [u64]. *)
Definition election_typed (e : StewardElectionProposal) : Prop :=
  (el_election_epoch e ≤ u64_max)%N ∧ (el_retry_round e ≤ u32_max)%N.
Record sync_typed (s : ConversationSync) : Prop := {
  st_epoch : (sync_election_epoch s ≤ u64_max)%N;
  st_retry : (sync_retry_round s ≤ u32_max)%N;
  st_sn_max : (sync_sn_max s ≤ u32_max)%N;
  st_attempts : (sync_max_reelection_attempts s ≤ u32_max)%N;
  st_threshold : is_i64 (threshold_peer_score s);
  st_default : is_i64 (default_peer_score s);
}.
Class WireTypes {OM : OpenMls} {CD : Codec} : Prop := {
  epoch_is_u64 g : (g_epoch g ≤ u64_max)%N;
  decode_request_typed b req e :
    decode_request b = Ok req → req_payload req = Some (StewardElection e) → election_typed e;
  decode_sync_typed b m s :
    decode_app_message b = Ok m → app_payload m = Some (AppConversationSync s) → sync_typed s;
}.

(** The steward service's fields within their Rust types, the bounds of a list
    within the [u32] the wire carries them as. *)
Record list_typed (l : StewardList) : Prop := {
  lt_epoch : (sl_election_epoch l ≤ u64_max)%N;
  lt_retry : (sl_retry_round l ≤ u32_max)%N;
  lt_sn_max : (sn_max (sl_config l) ≤ u32_max)%N;
}.
Record svc_typed (s : StewardListService) : Prop := {
  vt_round : (next_election_round s ≤ u32_max)%N;
  vt_retries : (max_retries s ≤ u32_max)%N;
  vt_sn_max : (sn_max (svc_config s) ≤ u32_max)%N;
  vt_list l : svc_list s = Some l → list_typed l;
}.
Definition scores_typed (c : ScoringConfig) : Prop := is_i64 (default_score c) ∧ is_i64 (threshold c).

Lemma generate_typed `{!Hash} e cid pool sn cfg r l :
  (e ≤ u64_max)%N → (r ≤ u32_max)%N → (sn_max cfg ≤ u32_max)%N → generate e cid pool sn cfg r = Ok l → list_typed l.
Proof. intros He Hr Hs. rewrite generate_eq. repeat case_match; try done. intros [= <-]. by split. Qed.

(** ** Queues *)

Section queues_ok.
Context {HS : Hash} {OM : OpenMls} (pin : option (BoundedSet N)).
Implicit Types (q : ConversationQueues).

(** The approved batch is one MLS can commit, the dedup windows are sets within
  their bound, and the buffered candidates have distinct hashes. With [pin] the
  resolved window is a given one. *)
Record queues_ok q : Prop := {
qo_approved : no_duplicate_changes (approved_proposals q);
qo_committed : bs_ok (committed_batch_hashes q);
qo_resolved : bs_ok (resolved_proposals q);
qo_welcomes : bs_ok (welcome_broadcast_hashes q);
qo_buffer : ∃ cap, buffer_ok cap (commit_round q);
qo_pin : ∀ b, pin = Some b → resolved_proposals q = b;
}.

Lemma queues_new_ok id window : pin = None → queues_ok (queues_new id window).
Proof.
intros Hp. split; [|apply bs_new_ok..|exists 0%N; apply buffer_ok_empty|congruence].
split_and!; [by apply NoDup_nil_2|..]; intros p1 p2 k H1; by apply not_elem_of_nil in H1.
Qed.

(** An operation that leaves the five parts alone. *)
Lemma queues_ok_same q q' :
approved_proposals q' = approved_proposals q → committed_batch_hashes q' = committed_batch_hashes q →
resolved_proposals q' = resolved_proposals q → welcome_broadcast_hashes q' = welcome_broadcast_hashes q →
commit_round q' = commit_round q → queues_ok q → queues_ok q'.
Proof. intros H1 H2 H3 H4 H5 [? ? ? ? ? ?]. split; by rewrite ?H1, ?H2, ?H3, ?H4, ?H5. Qed.

(** Shrinking the approved queue keeps it distinct. *)
Lemma no_duplicate_filter f a : no_duplicate_changes a → no_duplicate_changes (filterb f a).
Proof.
intros (Hn & Hr & Hi). split_and!; [by apply filterb_keys_nodup|..];
  intros p1 p2 k [_ H1]%elem_of_filterb [_ H2]%elem_of_filterb; eauto.
Qed.

Lemma queues_ok_filter f q : queues_ok q → queues_ok (set_approved (filterb f (approved_proposals q)) q).
Proof. intros [? ? ? ? ? ?]. split; try done. by apply no_duplicate_filter. Qed.

Lemma queues_ok_round b q : (∃ cap, buffer_ok cap b) → queues_ok q → queues_ok (set_round b q).
Proof. intros Hb [? ? ? ? ? ?]. by split. Qed.

Lemma queues_ok_foldl {A} (f : ConversationQueues → A → ConversationQueues) l q :
(∀ q a, queues_ok q → queues_ok (f q a)) → queues_ok q → queues_ok (foldl f q l).
Proof. intros Hf. revert q. induction l as [|a l IH]; cbn; auto. Qed.

Lemma apply_result_ok pid approved req q :
queues_ok q → queues_ok (apply_consensus_result pid approved req q).1.
Proof.
intros Hq. pose proof (apply_keeps_distinct pid approved req q (qo_approved _ Hq)) as Hd.
destruct Hq as [_ H1 H2 H3 H4 H5]. revert Hd. rewrite apply_consensus_result_eq.
generalize (already_approved q req) (has_approved_removal q). intros b hr Hd.
split; [exact Hd|..]; by repeat case_match.
Qed.

Lemma track_ok pid req q : queues_ok q → queues_ok (track_voting_proposal pid req q).
Proof. unfold track_voting_proposal. case_match; [done|]. by apply queues_ok_same. Qed.
Lemma insert_emergency_ok pid q : queues_ok q → queues_ok (insert_emergency pid q).
Proof. by apply queues_ok_same. Qed.
Lemma remove_emergency_ok pid q : queues_ok q → queues_ok (remove_emergency pid q).
Proof. by apply queues_ok_same. Qed.
Lemma insert_pending_ok req e q : queues_ok q → queues_ok (insert_pending_update req e q).1.
Proof. unfold insert_pending_update. repeat case_match; try done. by apply queues_ok_same. Qed.
Lemma remove_pending_ok id q : queues_ok q → queues_ok (remove_pending_update id q).1.
Proof. by apply queues_ok_same. Qed.
Lemma expire_pending_ok `{!HashIter} e m q : queues_ok q → queues_ok (expire_pending_updates e m q).1.
Proof. by apply queues_ok_same. Qed.
Lemma take_delta_ok q : queues_ok q → queues_ok (take_membership_delta q).1.
Proof. by apply queues_ok_same. Qed.
Lemma store_delta_ok d q : queues_ok q → queues_ok (store_membership_delta d q).
Proof. by apply queues_ok_same. Qed.
Lemma mark_applied_ok pid q : pin = None → queues_ok q → queues_ok (mark_consensus_outcome_applied pid q).
Proof. intros Hp [? ? ? ? ? ?]. split; try done; [by apply bs_insert_ok|congruence]. Qed.
Lemma record_welcome_ok h q : queues_ok q → queues_ok (record_welcome_broadcast h q).1.
Proof.
intros [? ? ? Hw ? ?]. unfold record_welcome_broadcast. apply (bs_insert_ok h) in Hw.
destruct (bs_insert h _). by split.
Qed.
Lemma insert_committed_ok h q : queues_ok q → queues_ok (insert_committed_hash h q).
Proof. intros [? ? ? ? ? ?]. split; try done. by apply bs_insert_ok. Qed.

Lemma buffer_candidate_ok c local w js e cap' q :
queues_ok q → queues_ok (set_round (buffer_add c local w js e cap' (commit_round q)).1 q).
Proof.
intros Hq. apply queues_ok_round; [|done]. destruct (qo_buffer _ Hq) as [cap Hb].
eexists. by apply buffer_add_keeps.
Qed.

Lemma receive_ok mls msg q : queues_ok q → queues_ok (receive_commit_candidate mls msg q).1.
Proof.
intros Hq. destruct (receive_eq mls msg q) as [[_ ->]|[_ (reason & -> & _)]]; [|done].
pose proof (buffer_candidate_ok msg false None [] (g_epoch (mls_group mls)) (len (mls_members mls)) q Hq) as Hb.
case_match.
- unfold stash_early_candidate. case_match; by apply (queues_ok_same q).
- by destruct (buffer_add _ _ _ _ _ _ _).
Qed.

Lemma replay_ok mls q : queues_ok q → queues_ok (replay_early_candidates mls q).
Proof.
intros Hq. unfold replay_early_candidates, take_early_candidates.
apply queues_ok_foldl; [intros; by apply receive_ok|]. by apply (queues_ok_same q).
Qed.

Lemma bookkeeping_ok e q : queues_ok q → queues_ok (apply_membership_delta_bookkeeping e q).
Proof.
intros Hq. unfold apply_membership_delta_bookkeeping. case_match; [|done].
apply queues_ok_foldl; [intros; by apply (queues_ok_same q0)|].
apply queues_ok_foldl; [|done]. intros q0 mid H0. unfold forget_removed, drop_approved_removals_for.
eapply queues_ok_same; [..|apply (queues_ok_filter (λ p, negb (removes_member p.2 (member_id_of (mid_leaf mid)))) q0 H0)]; done.
Qed.

Lemma finalize_batch_ok h e q : queues_ok q → queues_ok (finalize_committed_batch h e q).1.
Proof.
intros Hq. unfold finalize_committed_batch, take_urgent_commit_target.
set (q1 := apply_membership_delta_bookkeeping e (insert_committed_hash h q)).
assert (queues_ok q1) as H1 by (by apply bookkeeping_ok, insert_committed_ok).
destruct (urgent_commit_target q1); cbn.
- by apply (queues_ok_filter _ (set_urgent None q1)), (queues_ok_same q1).
- destruct H1 as [? ? ? ? ? ?]. split; try done. apply (no_duplicate_filter (λ _, false)) in qo_approved0.
  by rewrite filterb_none in qo_approved0.
Qed.
End queues_ok.

(** ** The commit round *)

Section round_ok.
Context {HS : Hash} {OM : OpenMls} {CD : Codec} (pin : option (BoundedSet N)).

Definition round_ok (st : RoundState) : Prop := queues_ok pin st.1.

Lemma with_mls_keeps {A} (m : mls_method A) : preserves round_ok (with_mls m).
Proof. intros [q mls] Hq. unfold with_mls. by destruct (m mls). Qed.
Lemma with_queues_keeps {A} (f : ConversationQueues → ConversationQueues * A) :
(∀ q, queues_ok pin q → queues_ok pin (f q).1) → preserves round_ok (with_queues f).
Proof. intros Hf [q mls] Hq. unfold with_queues. specialize (Hf q Hq). by destruct (f q). Qed.
Lemma update_queues_keeps f : (∀ q, queues_ok pin q → queues_ok pin (f q)) → preserves round_ok (update_queues f).
Proof. intros Hf [q mls] Hq. by apply Hf. Qed.
Lemma stage_candidate_keeps c ctx : preserves round_ok (stage_candidate c ctx).
Proof. intros [q mls] Hq. unfold stage_candidate. by destruct (stage_remote_commit _ _ _). Qed.
End round_ok.
#[export] Hint Resolve with_mls_keeps with_queues_keeps update_queues_keeps stage_candidate_keeps : keeps.
#[export] Hint Resolve finalize_batch_ok store_delta_ok receive_ok record_welcome_ok : keeps.
#[export] Hint Resolve preserves_ret preserves_fail preserves_get preserves_lift : keeps.

(** Walk a method down to its primitive steps. *)
Ltac keep_step :=
  first
  [ solve [eauto 3 with keeps]
  | apply preserves_bind; [|intros ?]
  | apply preserves_catch; [|intros ?]
  | apply preserves_for; intros ? _
  | match goal with
    | |- preserves _ (match ?x with _ => _ end) => destruct x eqn:?
    end ].
Ltac keep := repeat keep_step.

Section round_methods.
Context {HS : Hash} {OM : OpenMls} {CD : Codec} (pin : option (BoundedSet N)).

Lemma apply_one_keeps sl c ctx : preserves (round_ok pin) (apply_one sl c ctx).
Proof.
assert (∀ p, preserves (round_ok pin) (reject_staged p)) as Hr by (intros; unfold reject_staged; keep).
unfold apply_one, apply_local_candidate, apply_incoming_candidate. keep.
Qed.

Lemma apply_loop_keeps sl cs ctx self ops : preserves (round_ok pin) (apply_loop sl cs ctx self ops).
Proof.
revert ops. induction cs as [|c cs IH]; intros ops; cbn; [unfold discard_and_finish; keep|].
apply preserves_bind; [apply apply_one_keeps|]. intros []; keep.
Qed.

Lemma finalize_keeps sl recovery subset self : preserves (round_ok pin) (finalize_commit_round sl recovery subset self).
Proof.
pose proof (apply_loop_keeps sl) as Hl.
unfold finalize_commit_round, discard_and_finish, apply_in_priority_order. keep.
apply with_queues_keeps. intros q Hq. destruct (qo_buffer _ _ Hq) as [cap Hb].
apply (buffer_take_ok _ a) in Hb. destruct (buffer_take a (commit_round q)).
apply queues_ok_round; [by exists cap|done].
Qed.

Lemma decode_inbound_keeps payload : preserves (round_ok pin) (decode_inbound_payload payload).
Proof. unfold decode_inbound_payload, decode_encrypted. keep. Qed.
End round_methods.
#[export] Hint Resolve finalize_keeps decode_inbound_keeps : keeps.

(** ** The steward list *)

Section stewards_ok.
Context {HS : Hash} (typed : bool).
Implicit Types (s : StewardListService).

(** An installed list is non-empty, within its own bounds, and in the order every
  member computes for its epoch and round. *)
Record list_ok (cid : bytes) (l : StewardList) : Prop := {
lo_config : cfg_wf (sl_config l);
lo_nonempty : sl_members l ≠ [];
lo_size : (len (sl_members l) ≤ sn_max (sl_config l))%N;
lo_sorted : StronglySorted (cmp_le (steward_cmp (sl_election_epoch l) (sl_retry_round l) cid)) (sl_members l);
}.
Record stewards_ok (cid : bytes) s : Prop := {
so_id : svc_conversation_id s = cid;
so_config : cfg_wf (svc_config s);
so_list : ∀ l, svc_list s = Some l → list_ok cid l;
so_typed : typed = true → svc_typed s;
}.

Lemma generate_list_ok e cid ids sn cfg r l :
cfg_wf cfg → generate e cid ids sn cfg r = Ok l → list_ok cid l.
Proof.
intros [H1 H2]. rewrite generate_eq. destruct ids as [|i0 ids0] eqn:E; [done|]. rewrite <-E.
destruct (is_valid_size cfg sn (len ids)) eqn:Hv; [|done]. intros [= <-].
assert (len ids ≠ 0%N) as Hnz by (rewrite len_nil_iff; by rewrite E).
pose proof (len_perm _ _ (sort_by_perm (steward_cmp e r cid) ids)) as Hp.
assert (1 ≤ sn ∧ sn ≤ sn_max cfg ∧ sn ≤ len ids)%N as (Hs1 & Hs2 & Hs3).
{ revert Hv. unfold is_valid_size, size_bounds.
  destruct (N.ltb_spec (len ids) (sn_min cfg)); cbn; intros Hv; bool_simpl; lia. }
split; cbn; [done|..].
- rewrite <-len_nil_iff, len_take. lia.
- rewrite len_take. lia.
- apply StronglySorted_take, sort_by_sorted, _.
Qed.

Lemma install_keeps cid e pool sn r :
(typed = true → (e ≤ u64_max ∧ r ≤ u32_max)%N) → preserves (stewards_ok cid) (install_list e pool sn r).
Proof.
intros He s [Hi Hc Hl Ht]. unfold install_list. destruct (generate _ _ _ _ _ _) as [l|] eqn:E; [|done].
split; [done..| |].
- intros l' [= <-]. rewrite <-Hi. by eapply generate_list_ok.
- intros Hw. destruct (Ht Hw), (He Hw). split; [done..|]. intros l' [= <-]. by eapply generate_typed.
Qed.
Lemma set_config_keeps cid cfg s :
cfg_wf cfg → (typed = true → sn_max cfg ≤ u32_max)%N → stewards_ok cid s → stewards_ok cid (set_config cfg s).
Proof. intros Hc Hs [? _ Hl Ht]. split; [done..|]. intros Hw. destruct (Ht Hw). split; auto. Qed.
Lemma svc_ok_same cid s s' :
svc_config s' = svc_config s → svc_list s' = svc_list s → svc_conversation_id s' = svc_conversation_id s →
(typed = true → svc_typed s → (next_election_round s' ≤ u32_max ∧ max_retries s' ≤ u32_max)%N) →
stewards_ok cid s → stewards_ok cid s'.
Proof.
intros H1 H2 H3 H4 [? ? ? Ht]. split; rewrite ?H1, ?H2, ?H3; try done.
intros Hw. destruct (H4 Hw (Ht Hw)), (Ht Hw). split; by rewrite ?H1, ?H2.
Qed.
End stewards_ok.

(** ** The scores *)

Section scores_ok.
Context {St : Type} `{!PeerScoreStorage St}.

(** A method that writes scores and no configuration. *)
Definition keeps_config {A} (m : method (PeerScoringService St) A) : Prop :=
∀ cfg, preserves (λ s, sc_config s = cfg) m.

Lemma storage_write_config m : keeps_config (storage_write m).
Proof. intros cfg s Hs. unfold storage_write. by destruct (m (sc_storage s)). Qed.
Lemma storage_read_config {A} (m : St → result ext_error A) : keeps_config (storage_read m).
Proof. by intros cfg s Hs. Qed.
#[local] Hint Resolve storage_write_config storage_read_config : keeps.

Lemma add_member_config id : keeps_config (add_member id).
Proof. intros cfg s Hs. unfold add_member. by apply storage_write_config. Qed.
Lemma remove_member_config id : keeps_config (remove_member id).
Proof. apply storage_write_config. Qed.
Lemma apply_ops_config ops : keeps_config (apply_ops ops).
Proof.
intros cfg. unfold apply_ops. apply preserves_bind; [|intros; apply preserves_ret].
generalize (@nil (bytes * Z * Z)). induction ops as [|op ops IH]; intros t; cbn; [apply preserves_ret|].
apply preserves_bind; [destruct (touched_get _ _); keep; apply storage_read_config|].
intros [[t' cur]|]; [|done]. keep. apply storage_write_config.
Qed.
Lemma apply_snapshot_config snap : keeps_config (apply_snapshot snap).
Proof.
intros cfg s Hs. unfold apply_snapshot. generalize (default_score (sc_config s)) (@nil ScoreChange).
revert s Hs. induction (diverged snap) as [|[id score] es IH]; intros s Hs d changes; cbn [apply_snapshot_loop]; [done|].
unfold sbind. pose proof (storage_read_config (ps_get id) cfg s Hs) as H1.
destruct (storage_read _ s) as [s1 [v|]]; [|exact H1].
pose proof (storage_write_config (ps_set id score) cfg s1 H1) as H2.
destruct (storage_write _ s1) as [s2 [[]|]]; [|exact H2]. by apply IH.
Qed.
Lemma rebase_config p n e : keeps_config (rebase_entry p n e).
Proof. intros cfg. unfold rebase_entry. case_match; [apply storage_write_config|apply preserves_ret]. Qed.

(** [set_default_score] sets the default whatever its writes return. *)
Lemma set_default_config new s :
sc_config (set_default_score new s).1 = mk_scoring_config new (threshold (sc_config s)).
Proof.
unfold set_default_score, sbind at 1, smodify. destruct (_ =? _)%Z; [done|].
set (s1 := set_scoring_config _ s).
assert (preserves (λ s', sc_config s' = mk_scoring_config new (threshold (sc_config s)))
  (let! l := storage_read ps_all_scores in sfor l (rebase_entry (default_score (sc_config s)) new))) as H.
{ apply preserves_bind; [apply storage_read_config|]. intros l.
  apply preserves_for. intros e _. apply rebase_config. }
by apply (H s1).
Qed.
End scores_ok.
#[export] Hint Resolve add_member_config remove_member_config apply_ops_config apply_snapshot_config : keeps.

(** ** The conversation *)

Section conv_ok.
Context {HS : Hash} {OM : OpenMls} {CS : ConsensusLib} {CD : Codec} {CT : ConsensusTexts} {HI : HashIter}.
Context {St : Type} `{!PeerScoreStorage St}.
Abbreviation Conv := (Conversation St).
Abbreviation conv := (method Conv).
Implicit Types (c : Conv).

Definition scores_valid (s : PeerScoringService St) : Prop := validate_config s = Ok tt.

Record conv_pinned (pin : option (BoundedSet N)) (typed : bool) c : Prop := {
co_queues : queues_ok pin (c_queues c);
co_stewards : stewards_ok typed (String.list_byte_of_string (c_id c)) (c_stewards c);
co_scores : scores_valid (c_scoring c);
co_typed : typed = true → scores_typed (sc_config (c_scoring c)) ∧ (c_recovery_rounds c ≤ u32_max)%N;
}.

Definition conv_ok c : Prop := conv_pinned None false c.

(** Who the conversation is: its id, the local member, the integrator's name for it. *)
Definition identity c : string * bytes * bytes := (c_id c, c_self c, c_app_id c).

(** The facts to carry: the invariant, with the resolved window and the widths, being
  out of [Selection], the identity. *)
Record Watch := mk_watch {
w_full : bool; w_pin : option (BoundedSet N); w_typed : bool; w_sel : bool;
w_who : option (string * bytes * bytes);
}.
Record holds (w : Watch) c : Prop := {
h_full : w_full w = true → conv_pinned (w_pin w) (w_typed w) c;
h_sel : w_sel w = true → current_state c ≠ Selection;
h_who : ∀ i, w_who w = Some i → identity c = i;
}.

Lemma holds_same w c c' :
identity c' = identity c → c_queues c' = c_queues c → c_stewards c' = c_stewards c → c_scoring c' = c_scoring c →
c_sm c' = c_sm c → c_recovery_rounds c' = c_recovery_rounds c → holds w c → holds w c'.
Proof.
intros H0 H1 H2 H3 H4 H6 [Hf Hs Hi]. split.
- intros Hw. injection H0 as H0 _ _. destruct (Hf Hw). split; by rewrite ?H0, ?H1, ?H2, ?H3, ?H6.
- unfold current_state. by rewrite H4.
- intros i Hw. rewrite H0. by apply Hi.
Qed.

Section keeps.
Context (w : Watch).
Abbreviation I := (holds w).

Lemma modify_same f :
  (∀ c, identity (f c) = identity c ∧ c_queues (f c) = c_queues c ∧ c_stewards (f c) = c_stewards c ∧ c_scoring (f c) = c_scoring c ∧
        c_sm (f c) = c_sm c ∧ c_recovery_rounds (f c) = c_recovery_rounds c) →
  preserves I (smodify (E := ConversationError) f).
Proof. intros Hf c Hc. destruct (Hf c) as (? & ? & ? & ? & ? & ?). by apply (holds_same w c). Qed.

Lemma read_keeps {A} (f : Conv → res A) : preserves I (λ c, (c, f c)).
Proof. by intros c Hc. Qed.
Lemma edit_timing_keeps f : preserves I (edit_timing f).
Proof. by apply modify_same. Qed.
Lemma emit_event_keeps ev : preserves I (emit_event ev).
Proof. by apply modify_same. Qed.
Lemma broadcast_keeps p : preserves I (broadcast p).
Proof. by apply modify_same. Qed.
(** The round counter is the one field of the invariant a step sets, within [u32]. *)
Lemma modify_rounds f :
  (∀ c, identity (f c) = identity c ∧ c_queues (f c) = c_queues c ∧ c_stewards (f c) = c_stewards c ∧
        c_scoring (f c) = c_scoring c ∧ c_sm (f c) = c_sm c ∧ c_bus (f c) = c_bus c ∧
        (c_recovery_rounds (f c) ≤ u32_max)%N) → preserves I (smodify (E := ConversationError) f).
Proof.
  intros Hf c [Hc Hs Hi]. destruct (Hf c) as (H0 & H1 & H2 & H3 & H4 & H5 & H6).
  assert (c_id (f c) = c_id c) as Hid by (by injection H0). split; cbn [fst smodify].
  - intros Hw. destruct (Hc Hw) as [? ? ? Ht]. split; rewrite ?Hid, ?H1, ?H2, ?H3; try done.
    intros Hw'. split; [by apply Ht|done].
  - unfold current_state. by rewrite H4.
    - intros i Hw. rewrite H0. by apply Hi.
Qed.
Lemma enter_recovery_keeps : preserves I enter_recovery_mode.
Proof. by apply modify_rounds. Qed.
Lemma exit_recovery_keeps : preserves I exit_recovery_mode.
Proof. by apply modify_same. Qed.
Lemma rounds_keeps : preserves I (smodify (E := ConversationError) (λ c, c_set_rounds (u32_wrapping_add (c_recovery_rounds c) 1) c)).
Proof.
  apply modify_rounds. intros c. split_and!; try done. cbn. unfold u32_wrapping_add, u32_max.
  pose proof (N.mod_lt (c_recovery_rounds c + 1) 4294967296). lia.
Qed.
Lemma config_keeps f : preserves I (smodify (E := ConversationError) (λ c, c_set_config (f c) c)).
Proof. by apply modify_same. Qed.

Lemma on_queues_keeps {A} (f : ConversationQueues → ConversationQueues * A) :
  (∀ q, queues_ok (w_pin w) q → queues_ok (w_pin w) (f q).1) → preserves I (on_queues f).
Proof.
  intros Hf c [Hc Hs Hi]. unfold on_queues. specialize (Hf (c_queues c)).
  destruct (f (c_queues c)) as [q a]. split; [|done..]. intros Hw. destruct (Hc Hw). split; auto.
Qed.
Lemma edit_queues_keeps f : (∀ q, queues_ok (w_pin w) q → queues_ok (w_pin w) (f q)) → preserves I (edit_queues f).
Proof. intros Hf c [Hc Hs Hi]. split; [|done..]. intros Hw. destruct (Hc Hw). split; cbn; auto. Qed.
Lemma edit_queues_in_keeps (f : Conv → ConversationQueues → ConversationQueues) :
  (∀ c q, queues_ok (w_pin w) q → queues_ok (w_pin w) (f c q)) →
  preserves I (smodify (E := ConversationError) (λ c, c_set_queues (f c (c_queues c)) c)).
Proof. intros Hf c [Hc Hs Hi]. split; [|done..]. intros Hw. destruct (Hc Hw). split; cbn; auto. Qed.
Lemma edit_stewards_keeps f :
  (∀ cid s, stewards_ok (w_typed w) cid s → stewards_ok (w_typed w) cid (f s)) → preserves I (edit_stewards f).
Proof. intros Hf c [Hc Hs Hi]. split; [|done..]. intros Hw. destruct (Hc Hw). split; cbn; auto. Qed.
Lemma on_stewards_keeps {A} (m : method StewardListService A) :
  (∀ cid, preserves (stewards_ok (w_typed w) cid) m) → preserves I (on_stewards m).
Proof.
  intros Hf c [Hc Hs Hi]. unfold on_stewards, szoom.
  specialize (Hf (String.list_byte_of_string (c_id c)) (c_stewards c)).
  destruct (m (c_stewards c)) as [s r]. split; [|done..]. intros Hw. destruct (Hc Hw). split; auto.
Qed.
Lemma on_scoring_keeps {A} (m : method (PeerScoringService St) A) : keeps_config m → preserves I (on_scoring m).
Proof.
  intros Hf c [Hc Hs Hi]. unfold on_scoring, szoom. specialize (Hf _ (c_scoring c) eq_refl).
  destruct (m (c_scoring c)) as [s r]. split; [|done..]. intros Hw. destruct (Hc Hw) as [? ? Hv Ht].
  split; [done..| |]; unfold scores_valid, validate_config in *; cbn in *; by rewrite Hf.
Qed.
Lemma on_mls_keeps {A} (m : mls_method A) : preserves I (on_mls m).
Proof. intros c Hc. unfold on_mls. destruct (m (c_mls c)). by apply (holds_same w c). Qed.
Lemma on_round_keeps {A} (m : round_method A) : preserves (round_ok (w_pin w)) m → preserves I (on_round m).
Proof.
  intros Hm c [Hc Hs Hi]. unfold on_round. specialize (Hm (c_queues c, c_mls c)).
  destruct (m (c_queues c, c_mls c)) as [[q mls] r]. split; [|done..]. intros Hw.
  destruct (Hc Hw). split; [by apply Hm|done..].
Qed.

Lemma engine_keeps {A} (m : engine_call Engine A) : preserves I (engine m).
Proof.
  intros c [Hc Hs Hi]. unfold engine. destruct (m (c_engine c)) as [[e pub] r].
  split; [intros Hw; by destruct (Hc Hw)|done..].
Qed.
Lemma on_engine_keeps {A} (m : engine_call Engine A) : preserves I (on_engine m).
Proof. intros c Hc. unfold on_engine. pose proof (engine_keeps m c Hc) as H. by destruct (engine m c). Qed.

Lemma set_state_keeps sm t c : sm_state sm ≠ Selection → I c → I (c_set_timing t (c_set_sm sm c)).
Proof. intros Hsm [Hc Hs Hi]. split; [intros Hw; by destruct (Hc Hw)|done..]. Qed.
Lemma start_working_keeps : preserves I start_working.
Proof.
  unfold start_working. apply preserves_bind; [|intros; apply preserves_ret].
  apply preserves_modify. intros c. by apply set_state_keeps.
Qed.
Lemma start_reelection_keeps : preserves I start_reelection.
Proof.
  unfold start_reelection. apply preserves_bind; [|intros; apply preserves_ret].
  apply preserves_modify. intros c. by apply set_state_keeps.
Qed.
Lemma start_freezing_keeps : preserves I start_freezing.
Proof.
  intros c Hc. unfold start_freezing. rewrite sm_start_freezing_spec. case_decide.
  - by apply set_state_keeps.
  - by apply (holds_same w c).
Qed.
Lemma reopen_keeps : preserves I reopen_recovery_window.
Proof.
  intros c Hc. unfold reopen_recovery_window, sm_reopen_freezing. case_decide.
  - by apply set_state_keeps.
  - by apply (holds_same w c).
Qed.

Lemma attempt_keeps m : preserves I m → preserves I (attempt m).
Proof. intros Hm. unfold attempt. apply preserves_catch; [done|intros; apply preserves_ret]. Qed.
End keeps.
End conv_ok.
#[export] Hint Resolve read_keeps edit_timing_keeps emit_event_keeps broadcast_keeps enter_recovery_keeps
  exit_recovery_keeps rounds_keeps config_keeps on_queues_keeps edit_queues_keeps edit_queues_in_keeps
  edit_stewards_keeps on_stewards_keeps on_scoring_keeps on_mls_keeps on_round_keeps on_engine_keeps
  start_working_keeps start_reelection_keeps start_freezing_keeps reopen_keeps attempt_keeps : keeps.
#[export] Hint Resolve track_ok insert_emergency_ok remove_emergency_ok insert_pending_ok remove_pending_ok
  expire_pending_ok take_delta_ok mark_applied_ok apply_result_ok replay_ok : keeps.

(** ** Handlers *)

(** A step that failed or was refused is a step: the value a pure check returned is
    known where the method continues. *)
Lemma preserves_lift_bind {S E A B} (I : S → Prop) (r : result E A) (k : A → state_result S E B) :
  (∀ a, r = Ok a → preserves I (k a)) → preserves I (sbind (slift r) k).
Proof. intros Hk s Hs. unfold sbind, slift. destruct r as [a|e]; [by apply (Hk a)|done]. Qed.

(** ... and so is a fact about the value a step returned. *)
Lemma preserves_bind_post {S E A B} (I : S → Prop) (m : state_result S E A) (k : A → state_result S E B) (P : A → Prop) :
  preserves I m → (∀ s s' a, m s = (s', Ok a) → P a) → (∀ a, P a → preserves I (k a)) → preserves I (sbind m k).
Proof.
  intros Hm Hp Hk s Hs. unfold sbind. specialize (Hm s Hs). specialize (Hp s).
  destruct (m s) as [s1 [a|e]]; [|done]. apply Hk; [by eapply Hp|done].
Qed.

(** Only an election is accepted as one. *)
Lemma apply_accepts_election `{!Hash} `{!OpenMls} pid approved req q q' e :
  apply_consensus_result pid approved req q = (q', ElectionAccepted e) → req_payload req = Some (StewardElection e).
Proof.
  intros Ha. apply (f_equal snd) in Ha. revert Ha.
  rewrite apply_consensus_result_eq. repeat case_match; cbn; naive_solver.
Qed.

Section handlers.
Context {HS : Hash} {OM : OpenMls} {CS : ConsensusLib} {CD : Codec} {CT : ConsensusTexts} {HI : HashIter}.
Context {St : Type} `{!PeerScoreStorage St}.
Context (w : Watch) (Hty : w_typed w = true → WireTypes).
Abbreviation Conv := (Conversation St).
Abbreviation conv := (method Conv).
Abbreviation keeps m := (preserves (holds (St := St) w) m).

Lemma fresh_name_keeps :
keeps ((λ c, let '(e, n) := fresh_name (c_engine c) in (c_set_engine e c, Ok n)) : conv string).
Proof. intros c Hc. destruct (fresh_name (c_engine c)). by apply (holds_same w c). Qed.
#[local] Hint Resolve fresh_name_keeps : keeps.

Lemma register_auto_vote_keeps pid d v : keeps (register_auto_vote pid d v).
Proof. unfold register_auto_vote. keep. Qed.
Lemma register_timeout_keeps pid d : keeps (register_consensus_timeout pid d).
Proof. unfold register_consensus_timeout. keep. Qed.
Lemma cancel_auto_vote_keeps pid : keeps (cancel_auto_vote pid).
Proof. apply edit_timing_keeps. Qed.
Lemma cancel_all_keeps : keeps cancel_all_auto_votes.
Proof. apply edit_timing_keeps. Qed.
Lemma unregister_timeout_keeps pid : keeps (unregister_consensus_timeout pid).
Proof. apply edit_timing_keeps. Qed.
Lemma replay_keeps : keeps conv_replay_early_candidates.
Proof. apply (edit_queues_in_keeps w (λ c, replay_early_candidates (c_mls c))). intros. by apply replay_ok. Qed.
#[local] Hint Resolve register_auto_vote_keeps register_timeout_keeps cancel_auto_vote_keeps cancel_all_keeps
unregister_timeout_keeps replay_keeps : keeps.

Lemma submit_proposal_keeps req ps : keeps (submit_proposal req ps).
Proof. unfold submit_proposal. keep. Qed.
#[local] Hint Resolve submit_proposal_keeps : keeps.
Lemma initiate_proposal_keeps req v : keeps (initiate_proposal req v).
Proof. unfold initiate_proposal. keep. Qed.
Lemma broadcast_vote_keeps pid v : keeps (broadcast_vote pid v).
Proof. unfold broadcast_vote. keep. Qed.
#[local] Hint Resolve initiate_proposal_keeps broadcast_vote_keeps : keeps.
Lemma conv_vote_keeps pid v : keeps (conv_vote pid v).
Proof. unfold conv_vote. keep. Qed.

(** *** Scores *)

Lemma emit_changes_keeps l : keeps (emit_score_changes l).
Proof. unfold emit_score_changes. keep. Qed.
#[local] Hint Resolve emit_changes_keeps : keeps.
Lemma apply_score_ops_keeps ops : keeps (Conversation.apply_score_ops ops).
Proof. unfold apply_score_ops. keep. Qed.
Lemma apply_score_snapshot_keeps snap : keeps (apply_score_snapshot snap).
Proof. unfold apply_score_snapshot. keep. Qed.
Lemma sync_scoring_keeps ms : keeps (sync_scoring_members ms).
Proof. unfold sync_scoring_members. keep. Qed.
#[local] Hint Resolve apply_score_ops_keeps apply_score_snapshot_keeps sync_scoring_keeps : keeps.

(** *** Stewards *)

Lemma install_now_keeps (c : Conv) pool sn : keeps (on_stewards (install_list (mls_epoch c) pool sn 0)).
Proof. apply on_stewards_keeps. intros cid. apply install_keeps. intros Hw. split; [apply (epoch_is_u64 (WireTypes := Hty Hw))|done]. Qed.
#[local] Hint Resolve install_now_keeps : keeps.
Lemma reconcile_keeps : keeps reconcile_steward_list.
Proof. unfold reconcile_steward_list. keep. Qed.
Lemma election_keeps r : keeps (initiate_steward_election r).
Proof. unfold initiate_steward_election. keep. Qed.
#[local] Hint Resolve reconcile_keeps election_keeps : keeps.
Lemma housekeeping_keeps : keeps steward_list_housekeeping.
Proof. unfold steward_list_housekeeping. keep. Qed.
Lemma drain_buffered_keeps : keeps drain_buffered_updates.
Proof. unfold drain_buffered_updates. keep. Qed.
#[local] Hint Resolve housekeeping_keeps drain_buffered_keeps : keeps.
Lemma process_buffered_keeps : keeps process_buffered_updates.
Proof. unfold process_buffered_updates. keep. Qed.
Lemma update_request_keeps req : keeps (handle_incoming_update_request req).
Proof. unfold handle_incoming_update_request. keep. Qed.
Lemma sync_payload_keeps : keeps build_conversation_sync_payload.
Proof. unfold build_conversation_sync_payload. keep. Qed.
#[local] Hint Resolve process_buffered_keeps update_request_keeps sync_payload_keeps : keeps.
Lemma share_sync_keeps : keeps share_conversation_sync.
Proof. unfold share_conversation_sync. keep. Qed.
Lemma request_recovery_keeps : keeps request_recovery.
Proof. unfold request_recovery. keep. Qed.
Lemma score_removal_keeps target : keeps (propose_score_removal target).
Proof. unfold propose_score_removal. keep. Qed.
#[local] Hint Resolve share_sync_keeps request_recovery_keeps : keeps.
Lemma advance_retry_keeps : keeps advance_election_retry.
Proof.
unfold advance_election_retry. apply preserves_bind; [|intros []; keep].
apply edit_stewards_keeps. intros cid s. apply svc_ok_same; [done..|]. intros _ [? ? _ _].
split; [apply N.le_min_r|done].
Qed.
#[local] Hint Resolve advance_retry_keeps : keeps.

(** *** The local candidate *)

Lemma build_local_keeps self : keeps (build_local_candidate self).
Proof.
unfold build_local_candidate. keep. apply edit_queues_keeps. intros q Hok. by apply buffer_candidate_ok.
Qed.
#[local] Hint Resolve build_local_keeps : keeps.
Lemma mint_keeps : keeps mint_and_broadcast_candidate.
Proof. unfold mint_and_broadcast_candidate. keep. Qed.
#[local] Hint Resolve mint_keeps : keeps.
Lemma freeze_entered_keeps ev : keeps (on_freeze_entered ev).
Proof. unfold on_freeze_entered. keep. Qed.
Lemma commit_in_recovery_keeps : keeps commit_in_recovery.
Proof. unfold commit_in_recovery. keep. Qed.
Lemma resend_keeps : keeps resend_commit.
Proof. unfold resend_commit. keep. Qed.
#[local] Hint Resolve freeze_entered_keeps : keeps.

(** *** Resolved decisions *)

Lemma phase_change_keeps t : keeps (emit_phase_change t).
Proof. unfold emit_phase_change. keep. Qed.
#[local] Hint Resolve phase_change_keeps : keeps.
Lemma resume_keeps b : keeps (resume_from_reelection b).
Proof. unfold resume_from_reelection. keep. Qed.
Lemma refresh_keeps t : keeps (refresh_stewards_after_removal t).
Proof. unfold refresh_stewards_after_removal. keep. Qed.
#[local] Hint Resolve resume_keeps refresh_keeps : keeps.
Lemma election_accepted_keeps e : (w_typed w = true → election_typed e) → keeps (handle_election_accepted e).
Proof.
  intros He. unfold handle_election_accepted. apply preserves_bind; [keep|]. intros valid. destruct (negb valid); [keep|].
  apply preserves_bind; [|intros; keep]. apply on_stewards_keeps. intros cid. by apply install_keeps.
Qed.
Lemma emergency_scored_keeps pid ops : keeps (handle_emergency_scored pid ops).
Proof. unfold handle_emergency_scored. keep. Qed.
#[local] Hint Resolve election_accepted_keeps emergency_scored_keeps : keeps.
Lemma follow_up_keeps r :
  (w_typed w = true → ∀ e, r = ElectionAccepted e → election_typed e) → keeps (follow_up r).
Proof.
  intros Hr. unfold follow_up, start_freezing_and_emit. destruct r as [|e| | | | |]; [keep| |keep..].
  apply election_accepted_keeps. intros Hw. by apply (Hr Hw).
Qed.
#[local] Hint Resolve follow_up_keeps : keeps.
Lemma handle_outcome_keeps ev : w_pin w = None → keeps (handle_consensus_outcome ev).
Proof.
  intros Hp. unfold handle_consensus_outcome. destruct (outcome_fields ev) as [[pid approved] ts].
  do 2 (apply preserves_bind; [keep|intros _]). apply preserves_bind; [keep|]. intros c.
  destruct (is_consensus_outcome_applied _ _); [keep|]. apply preserves_bind; [keep|]. intros _.
  apply preserves_bind; [keep|]. intros proposal. apply preserves_lift_bind. intros req Hreq.
  apply preserves_bind; [keep|]. intros _.
  apply (preserves_bind_post _ _ _ (λ r, ∀ e, r = ElectionAccepted e → req_payload req = Some (StewardElection e))).
  { keep. }
  { intros c0 c1 r. unfold on_queues. destruct (apply_consensus_result _ _ _ _) as [q r'] eqn:E. intros [= _ <-] e ->.
    by apply (apply_accepts_election pid approved req (c_queues c0) q). }
  intros r Hr. apply preserves_bind; [keep|]. intros _. apply preserves_bind; [|intros; keep].
  apply follow_up_keeps. intros Hw e He. destruct (decode_request _) as [req'|] eqn:Hd; [|done].
  injection Hreq as ->. apply (decode_request_typed (WireTypes := Hty Hw) _ _ _ Hd). by apply Hr.
Qed.
End handlers.
#[export] Hint Resolve register_auto_vote_keeps register_timeout_keeps cancel_auto_vote_keeps cancel_all_keeps
  initiate_proposal_keeps broadcast_vote_keeps conv_vote_keeps apply_score_ops_keeps apply_score_snapshot_keeps
  sync_scoring_keeps reconcile_keeps election_keeps housekeeping_keeps drain_buffered_keeps
  process_buffered_keeps update_request_keeps sync_payload_keeps share_sync_keeps score_removal_keeps
  advance_retry_keeps mint_keeps freeze_entered_keeps commit_in_recovery_keeps resend_keeps
  phase_change_keeps handle_outcome_keeps : keeps.

(** A sync handed to the dispatch was decoded. *)
Definition result_typed (r : ProcessResult) : Prop := ∀ sync, r = ConversationSyncReceived sync → sync_typed sync.

Lemma receive_never_sync `{HS : Hash} {OM : OpenMls} mls msg q sync :
  (receive_commit_candidate mls msg q).2 ≠ ConversationSyncReceived sync.
Proof.
  unfold receive_commit_candidate. repeat case_match; try done. cbn. unfold into_process_result. by case_match.
Qed.
Lemma decrypted_typed `{HS : Hash} {OM : OpenMls} {CD : Codec} {WT : WireTypes} mls b m member :
  decode_app_message b = Ok m → result_typed (process_decrypted mls m member).
Proof.
  intros Hd sync. unfold process_decrypted, process_result_of. destruct (app_payload m) as [[]|] eqn:E; try done.
  - by destruct (negb _).
  - by destruct (negb _).
  - intros [= ->]. by eapply decode_sync_typed.
Qed.

Lemma decode_payload_typed `{HS : Hash} {OM : OpenMls} {CD : Codec} {WT : WireTypes} p st st' r :
  decode_inbound_payload p st = (st', Ok r) → result_typed r.
Proof.
  assert (decode_encrypted p st = (st', Ok r) → result_typed r) as He.
  { unfold decode_encrypted. rewrite sbind_ok. intros (s1 & [d|] & _ & H); [|by injection H as _ <-].
    rewrite sbind_ok in H. destruct H as (s2 & m & [= _ Hm] & H).
    destruct (decode_app_message (dec_payload d)) as [m'|] eqn:Hd; [|done]. injection Hm as <-.
    injection H as _ <-. by eapply decrypted_typed. }
  unfold decode_inbound_payload. destruct (decode_app_message p) as [[[[| | | | | | |candidate| |welcome| |]|]]|]; try exact He.
  - unfold sbind, sget, with_queues. destruct st as [q mls]. cbn [snd].
    pose proof (receive_never_sync mls candidate q) as Hn. destruct (receive_commit_candidate _ _ _) as [q' r']. intros [= _ <-].
    intros sync ->. by destruct (Hn sync).
  - destruct (bool_decide _); [by intros [= _ <-]|]. rewrite sbind_ok. intros (s1 & b & _ & H).
    destruct b; by injection H as _ <-.
Qed.

Lemma decode_inbound_typed `{HS : Hash} {OM : OpenMls} {CS : ConsensusLib} {CD : Codec} {WT : WireTypes} {St}
    p (c c' : Conversation St) r : decode_inbound p c = (c', Ok r) → result_typed r.
Proof.
  unfold decode_inbound, on_round. destruct (decode_inbound_payload p _) as [[q mls] r'] eqn:E. intros [= _ ->].
  by eapply decode_payload_typed.
Qed.

(** What a finished round hands to the dispatch. *)
Lemma conv_finalize_result `{HS : Hash} {OM : OpenMls} {CS : ConsensusLib} {St} subset self (c c' : Conversation St) f :
  conv_finalize_commit_round subset self c = (c', Ok f) → round_result_ok f.
Proof.
  unfold conv_finalize_commit_round, sbind, sget, on_round. destruct (finalize_commit_round _ _ _ _ _) as [[q mls] r] eqn:Ef.
  intros [= _ ->]. by apply finalize_result_ok in Ef.
Qed.

Section inbound_keeps.
Context {HS : Hash} {OM : OpenMls} {CS : ConsensusLib} {CD : Codec} {CT : ConsensusTexts} {HI : HashIter}.
Context {St : Type} `{!PeerScoreStorage St}.
Context (w : Watch) (Hty : w_typed w = true → WireTypes).
Abbreviation Conv := (Conversation St).
Abbreviation conv := (method Conv).
Abbreviation keeps m := (preserves (holds (St := St) w) m).

(** *** Calls into the engine that may resolve *)

(** Run the engine call of the goal on [c], which satisfies [Hc]. *)
Ltac engine_call c Hc :=
match goal with
| |- context [engine ?m c] =>
    pose proof (engine_keeps w m c Hc) as Hcall;
    let c1 := fresh "c1" in let r := fresh "r" in
    destruct (engine m c) as [c1 r]; cbn [fst] in Hcall; revert c1 r Hcall
end.

Lemma submit_incoming_keeps p : keeps (submit_incoming p).
Proof.
unfold submit_incoming. apply preserves_bind; [keep|]. intros c c0 H0. cbn zeta.
engine_call c0 H0. intros c1 [[]|e] Hcall; [done|]. revert c1 Hcall.
change (keeps ((if bool_decide (e = ProposalExpired)
  then emit_event (EvError "incoming_proposal" (proposal_expired_message p (now_secs c)))
  else sret tt) ;! sfail (A := unit) (Consensus e))). keep.
Qed.

Lemma self_leave_keeps ps : keeps (submit_self_leave_proposal ps).
Proof.
unfold submit_self_leave_proposal. apply preserves_bind; [keep|]. intros c.
apply preserves_bind; [keep|]. intros v c0 H0. cbn zeta.
engine_call c0 H0. by intros c1 [[]|[]].
Qed.
#[local] Hint Resolve submit_incoming_keeps self_leave_keeps : keeps.

Lemma forward_vote_keeps v : keeps (forward_incoming_vote v).
Proof.
intros c Hc. unfold forward_incoming_vote. engine_call c Hc. by intros c1 [[]|[]].
Qed.

Lemma timeout_keeps pid : keeps (resolve_on_timeout pid).
Proof.
unfold resolve_on_timeout. apply preserves_bind; [keep|]. intros c. destruct (negb _); [keep|].
intros c0 H0. engine_call c0 H0. done.
Qed.
#[local] Hint Resolve forward_vote_keeps timeout_keeps : keeps.

Lemma leave_keeps : keeps leave.
Proof. unfold leave, initiate_self_leave. keep. Qed.

(** *** Inbound *)

Lemma on_incoming_keeps p : keeps (on_incoming_proposal p).
Proof. unfold on_incoming_proposal, take_incoming, mirror_incoming, schedule_incoming. keep. Qed.
Lemma membership_keeps : keeps reconcile_membership_after_commit.
Proof. unfold reconcile_membership_after_commit. keep. Qed.
Lemma reset_retry_keeps : keeps (edit_stewards reset_retry).
Proof. apply edit_stewards_keeps. intros cid s. apply svc_ok_same; [done..|]. by intros _ []. Qed.
#[local] Hint Resolve on_incoming_keeps membership_keeps reset_retry_keeps : keeps.
Lemma updated_keeps : keeps on_conversation_updated.
Proof. unfold on_conversation_updated, maybe_close_recovery_window. keep. Qed.
Lemma self_removed_keeps : keeps prepare_self_leave.
Proof.
unfold prepare_self_leave. keep. 
Qed.
Lemma candidate_received_keeps s : keeps (on_commit_candidate_received s).
Proof. unfold on_commit_candidate_received. keep. Qed.
#[local] Hint Resolve updated_keeps self_removed_keeps candidate_received_keeps : keeps.

(** A synced score pair is adopted as one: the threshold alone may contradict the
  default it replaces. *)
Lemma adopt_scores_keeps t d (k : conv unit) :
scoring_config_validate (mk_scoring_config d t) = Ok tt →
(w_typed w = true → scores_typed (mk_scoring_config d t)) → keeps k →
keeps (on_scoring (smodify (set_threshold t)) ;! on_scoring (set_default_score d) ;! k).
Proof.
intros Hv Ht Hk c [Hc Hs Hi]. unfold sbind at 1, on_scoring at 1, szoom, smodify.
set (s1 := set_threshold t (c_scoring c)). unfold sbind, on_scoring, szoom. cbn [c_scoring c_set_scoring].
pose proof (set_default_config d s1) as Hd. destruct (set_default_score d s1) as [s2 r]. cbn [fst] in Hd.
assert (holds w (c_set_scoring s2 (c_set_scoring s1 c))) as H2.
{ split; [|done..]. intros Hw. destruct (Hc Hw) as [? ? ? Hct]. split; [done..| |].
  - unfold scores_valid, validate_config. cbn. by rewrite Hd.
  - intros Hw'. cbn. rewrite Hd. split; [by apply Ht|by apply Hct]. }
destruct r as [[]|e]; [by apply Hk|done].
Qed.

Lemma synced_default_typed s : sync_typed s → scores_typed (mk_scoring_config (synced_default_peer_score s) (threshold_peer_score s)).
Proof. intros []. split; [|done]. cbn. unfold synced_default_peer_score. by case_match. Qed.

Lemma apply_sync_keeps sync :
scoring_config_validate (mk_scoring_config (synced_default_peer_score sync) (threshold_peer_score sync)) = Ok tt →
(w_typed w = true → sync_typed sync) →
keeps (apply_conversation_sync_to_entry sync).
Proof.
intros Hv Ht. unfold apply_conversation_sync_to_entry. apply preserves_lift_bind. intros cfg Hcfg.
pose proof (slc_new_wf _ _ _ Hcfg) as Hwf.
assert (w_typed w = true → sn_max cfg ≤ u32_max)%N as Hmax.
{ intros Hw. destruct (Ht Hw). unfold slc_new in Hcfg. destruct (_ || _); [done|]. by injection Hcfg as <-. }
apply preserves_bind; [apply edit_stewards_keeps; intros; by apply set_config_keeps|]. intros _.
apply preserves_bind.
{ apply on_stewards_keeps. intros cid. apply install_keeps. intros Hw. by destruct (Ht Hw). }
intros _. apply preserves_bind.
{ apply edit_stewards_keeps. intros cid s. apply svc_ok_same; [done..|]. intros Hw []. by destruct (Ht Hw). }
intros _. apply adopt_scores_keeps; [done| |keep]. intros Hw. by apply synced_default_typed, Ht.
Qed.

Lemma on_sync_keeps sync : (w_typed w = true → sync_typed sync) → keeps (on_conversation_sync sync).
Proof.
intros Ht. unfold on_conversation_sync. apply preserves_bind; [keep|]. intros _.
apply preserves_bind; [keep|]. intros c. destruct (keeps_list c sync); [keep|].
apply preserves_lift_bind. intros [] Hv; cbn [negb]; [|keep].
apply validate_sync_iff, sv_scores in Hv. apply preserves_bind; [by apply apply_sync_keeps|]. keep.
Qed.
Lemma sync_request_keeps r : keeps (on_conversation_sync_request r).
Proof. unfold on_conversation_sync_request. keep. Qed.
#[local] Hint Resolve sync_request_keeps : keeps.
Lemma dispatch_keeps r : (w_typed w = true → result_typed r) → keeps (dispatch_inbound_result r).
Proof.
intros Hr. unfold dispatch_inbound_result. destruct r; lazymatch goal with |- context [on_conversation_sync] => idtac | _ => keep end.
apply preserves_bind; [|intros; keep]. apply on_sync_keeps. intros Hw. by apply (Hr Hw).
Qed.
Lemma decode_keeps p : keeps (decode_inbound p).
Proof. unfold decode_inbound. keep. Qed.
#[local] Hint Resolve decode_keeps : keeps.
Lemma decoded_dispatch_keeps p {B} (k : DispatchOutcome → conv B) :
  (∀ o, keeps (k o)) → keeps (let! r := decode_inbound p in let! o := dispatch_inbound_result r in k o).
Proof.
intros Hk. apply (preserves_bind_post _ _ _ (λ r, w_typed w = true → result_typed r)); [keep| |].
- intros c c' r H Hw. by apply (decode_inbound_typed (WT := Hty Hw) p c c').
- intros r Hr. apply preserves_bind; [by apply dispatch_keeps|done].
Qed.
Lemma process_inbound_keeps s p : keeps (process_inbound s p).
Proof.
unfold process_inbound. apply preserves_bind; [keep|]. intros c. destruct (bool_decide _); [keep|].
intros c0 Hc0. pose proof (decoded_dispatch_keeps p sret ltac:(intros; keep) c0 Hc0) as H. revert H.
unfold sbind. destruct (decode_inbound p c0) as [c1 [r|e]]; [|done]. by destruct (dispatch_inbound_result r c1) as [? []].
Qed.
Lemma welcome_sync_keeps p : keeps (apply_welcome_sync p).
Proof. unfold apply_welcome_sync. destruct (bool_decide _); [keep|]. apply decoded_dispatch_keeps. intros; keep. Qed.
Lemma joined_keeps : keeps on_joined.
Proof. unfold on_joined. keep. Qed.

(** *** Sending *)

Lemma send_keeps m : keeps (send_message m).
Proof. unfold send_message. keep. Qed.
Lemma request_sync_keeps : keeps request_conversation_sync.
Proof. unfold request_conversation_sync. keep. Qed.
Lemma add_keeps kp : keeps (conv_add_member kp).
Proof. unfold conv_add_member, propose_add. keep. Qed.
Lemma sponsor_keeps kp : keeps (sponsor_member kp).
Proof. unfold sponsor_member, propose_add. keep. Qed.
Lemma remove_keeps m : keeps (conv_remove_member m).
Proof. unfold conv_remove_member. keep. Qed.
#[local] Hint Resolve request_sync_keeps : keeps.

(** *** Polling *)

Lemma drain_keeps fuel : w_pin w = None → keeps (drain_outcomes fuel).
Proof.
intros Hp. induction fuel as [|fuel IH]; cbn; [keep|]. apply preserves_bind; [|intros []; keep].
intros c [Hc Hs Hi]. unfold try_recv.
destruct (c_bus c); (split; [intros Hw; by destruct (Hc Hw)|done..]).
Qed.
#[local] Hint Resolve drain_keeps : keeps.
Lemma tick_keeps fuel : w_pin w = None → keeps (tick_deadlines fuel).
Proof. intros Hp. unfold tick_deadlines. keep. Qed.
Lemma deliver_keeps wl : keeps (deliver_welcome wl).
Proof. unfold deliver_welcome. keep. Qed.
Lemma auto_commit_keeps : keeps maybe_auto_commit_recovery.
Proof. unfold maybe_auto_commit_recovery. keep. Qed.
Lemma clear_buffer_keeps : keeps (edit_queues (λ q, set_round (buffer_clear (Queues.commit_round q)) q)).
Proof.
apply edit_queues_keeps. intros q Hok. apply queues_ok_round; [exists 0%N; apply buffer_clear_ok|done].
Qed.
#[local] Hint Resolve deliver_keeps auto_commit_keeps clear_buffer_keeps : keeps.
Lemma retry_keeps : keeps retry_or_exhaust_recovery.
Proof. unfold retry_or_exhaust_recovery. keep. Qed.
#[local] Hint Resolve retry_keeps : keeps.
Lemma finalize_error_keeps : keeps recover_from_finalize_error.
Proof. unfold recover_from_finalize_error, resume_working. keep. Qed.
Lemma applied_keeps r b wl : keeps (applied r (leave_or_update b) wl).
Proof.
assert (keeps (dispatch_inbound_result (leave_or_update b))) by (apply dispatch_keeps; intros _ sync; by destruct b).
unfold applied. keep.
Qed.
Lemma no_candidate_keeps r p : keeps (no_candidate r p).
Proof. unfold no_candidate, resume_working, clear_round_and_work. keep. Qed.
#[local] Hint Resolve finalize_error_keeps applied_keeps no_candidate_keeps : keeps.
Lemma conclude_keeps r p f : round_result_ok f → keeps (conclude_round r p f).
Proof. unfold conclude_round. intros [->|(b & wl & ->)]; keep. Qed.
Lemma select_keeps r : keeps start_selection → keeps (select_round r).
Proof.
intros Hs. unfold select_round. do 5 (apply preserves_bind; [keep|intros ?]). intros c0 Hc0. unfold scatch.
assert (keeps (conv_finalize_commit_round (r || allow_subset_candidates (svc_config (c_stewards a3))) (c_self a3))) as Hk
  by (unfold conv_finalize_commit_round; keep).
specialize (Hk c0 Hc0). destruct (conv_finalize_commit_round _ _ c0) as [c1 [f|e]] eqn:E.
- apply conclude_keeps; [|exact Hk]. by eapply conv_finalize_result.
- revert Hk. generalize c1. change (keeps (emit_event (EvError "commit_round_finalize" (error_to_string e)) ;!
    recover_from_finalize_error)). keep.
Qed.
Lemma drive_buffered_keeps : keeps drive_buffered_proposals.
Proof. unfold drive_buffered_proposals. keep. Qed.
Lemma drive_resend_keeps : keeps drive_sync_resend.
Proof. unfold drive_sync_resend. keep. Qed.
Lemma drive_request_keeps : keeps drive_sync_request.
Proof. unfold drive_sync_request. keep. Qed.
Lemma drive_freeze_keeps : keeps start_freeze_on_inactivity.
Proof. unfold start_freeze_on_inactivity, check_steward_inactivity. keep. Qed.
Lemma drive_reelection_keeps : keeps drive_reelection_retry.
Proof. unfold drive_reelection_retry. keep. Qed.
End inbound_keeps.
#[export] Hint Resolve process_inbound_keeps welcome_sync_keeps joined_keeps leave_keeps send_keeps request_sync_keeps
  add_keeps sponsor_keeps remove_keeps tick_keeps deliver_keeps auto_commit_keeps clear_buffer_keeps retry_keeps
  finalize_error_keeps select_keeps drive_buffered_keeps drive_resend_keeps drive_request_keeps drive_freeze_keeps
  drive_reelection_keeps : keeps.
