(* ===== verification/Elections.v ===== *)
(** * Steward lists in a running conversation

    How a list gets installed, by an accepted election and by a peer's sync, and when
    a list that is shared is accepted. *)

From S2P Require Import Prelude Time Machine Protos StewardList Mls Toy Buffer Queues Scoring CommitRound ApplyResult Config Display Conversation Room Voting Steward HandleOutcome Inbound Messaging Poll Construct Invariant.

Section elections.
Context {HS : Hash} {OM : OpenMls} {CS : ConsensusLib} {CD : Codec} {CT : ConsensusTexts} {HI : HashIter}.
Context {St : Type} `{!PeerScoreStorage St}.
Abbreviation Conv := (Conversation St).
Abbreviation conv := (method Conv).
Implicit Types (c : Conv).

(** *** Frames *)

Lemma on_scoring_ok {A} (m : method (PeerScoringService St) A) c c' a :
  on_scoring m c = (c', Ok a) → ∃ s, m (c_scoring c) = (s, Ok a) ∧ c' = c_set_scoring s c.
Proof. unfold on_scoring, szoom. destruct (m (c_scoring c)) as [s [a'|e]]; [|done]. intros [= <- <-]. eauto. Qed.

Lemma on_stewards_ok {A} (m : method StewardListService A) c c' a :
  on_stewards m c = (c', Ok a) → ∃ s, m (c_stewards c) = (s, Ok a) ∧ c' = c_set_stewards s c.
Proof. unfold on_stewards, szoom. destruct (m (c_stewards c)) as [s [a'|e]]; [|done]. intros [= <- <-]. eauto. Qed.

Lemma install_ok e pool sn r s s' l :
  generate e (svc_conversation_id s) pool sn (svc_config s) r = Ok l →
  install_list e pool sn r s = (s', Ok tt) → s' = svc_set_list l s.
Proof. intros Hg. unfold install_list. rewrite Hg. by intros [= <-]. Qed.

(** Events and nothing else. *)
Definition only_events c c' : Prop := ∃ evs, c' = c_set_events evs c.

Lemma emit_changes_events l c c' : emit_score_changes l c = (c', Ok tt) → only_events c c'.
Proof.
  unfold emit_score_changes. revert c. induction l as [|ch l IH]; intros c; cbn [sfor].
  - intros [= <-]. exists (c_events c). by destruct c.
  - rewrite sbind_ok. intros (c1 & [] & ->%smodify_ok & (evs & ->)%IH). by exists evs.
Qed.

(** *** A peer's sync *)

(** The configuration a sync asks for. *)
Definition synced_config (sync : ConversationSync) : StewardListConfig :=
  mk_slc (sync_sn_min sync) (sync_sn_max sync) (sync_allow_subset_candidates sync).

Lemma slc_new_fields a b cfg : slc_new a b = Ok cfg → cfg = mk_slc a b false.
Proof. unfold slc_new. by destruct (_ || _); [|intros [= <-]]. Qed.

Lemma apply_sync_ok sync c c' :
  sync_valid (c_id c) sync (mls_epoch c) (members_of c) →
  svc_conversation_id (c_stewards c) = String.list_byte_of_string (c_id c) →
  apply_conversation_sync_to_entry sync c = (c', Ok tt) →
  c_stewards c' =
    mk_svc (Some (mk_sl (steward_members sync) (synced_config sync) (sync_election_epoch sync) (sync_retry_round sync)))
      (synced_config sync) (svc_conversation_id (c_stewards c)) (next_election_round (c_stewards c))
      (sync_max_reelection_attempts sync) ∧
  sc_config (c_scoring c') = mk_scoring_config (synced_default_peer_score sync) (threshold_peer_score sync) ∧
  pending_update_max_epochs (c_config c') = sync_pending_update_max_epochs sync ∧
  liveness_criteria_yes (c_config c') = sync_liveness_criteria_yes sync.
Proof.
  intros [_ _ _ (cfg & Hcfg & Hval) _ _] Hid H. unfold apply_conversation_sync_to_entry in H.
  pose proof (slc_new_wf _ _ _ Hcfg) as Hwf. pose proof (slc_new_fields _ _ _ Hcfg) as Hf.
  rewrite Hcfg in H. unfold sbind at 1, slift at 1 in H.
  assert (mk_slc (sn_min cfg) (sn_max cfg) (sync_allow_subset_candidates sync) = synced_config sync) as Hc
    by (by rewrite Hf).
  rewrite Hc in H. cbn zeta in H. rewrite sbind_ok in H. destruct H as (c1 & [] & ->%smodify_ok & H).
  rewrite sbind_ok in H. destruct H as (c2 & [] & (s1 & Hi & ->)%on_stewards_ok & H).
  eapply install_ok in Hi; last first.
  { cbn. rewrite Hid. apply (validated_installs_verbatim _ _ _ (sync_pool sync (members_of c)) cfg); [done|by rewrite Hf..|done]. }
  rewrite sbind_ok in H. destruct H as (c3 & [] & ->%smodify_ok & H).
  rewrite sbind_ok in H. destruct H as (c4 & [] & (s2 & ->%smodify_ok & ->)%on_scoring_ok & H).
  rewrite sbind_ok in H. destruct H as (c5 & [] & (s3 & Hd & ->)%on_scoring_ok & H).
  rewrite sbind_ok in H. destruct H as (c6 & [] & Hs & ->%smodify_ok).
  unfold apply_score_snapshot in Hs. rewrite sbind_ok in Hs.
  destruct Hs as (c7 & chs & (s4 & Hsn & ->)%on_scoring_ok & (evs & ->)%emit_changes_events).
  apply (f_equal (λ x, sc_config x.1)) in Hd. rewrite set_default_config in Hd. cbn [fst] in Hd.
  assert (sc_config s4 = sc_config s3) as Hcc.
  { apply (f_equal fst) in Hsn. cbn [fst] in Hsn. rewrite <-Hsn. by apply apply_snapshot_config. }
  rewrite <-Hd in Hcc.
  subst s1. cbn. split_and!; [done..|exact Hcc| |]; by destruct (sync_timing sync).
Qed.

(** A sync, case by case. *)
Lemma on_sync_eq sync c :
  let c0 := c_set_timing (set_resend_anchor None (c_timing c)) c in
  on_conversation_sync sync c =
    if keeps_list c sync then (c0, Ok tt) else
    match validate_conversation_sync (c_id c) sync (mls_epoch c) (members_of c) with
    | Err e => (c0, Err e)
    | Ok false => (c0, Ok tt)
    | Ok true => (apply_conversation_sync_to_entry sync ;! emit_event EvConversationSyncApplied) c0
    end.
Proof.
  intros c0. unfold on_conversation_sync, sbind at 1, edit_timing, smodify at 1. fold c0. unfold sbind at 1, sget. cbn [id].
  change (keeps_list c0 sync) with (keeps_list c sync). destruct (keeps_list c sync); [done|].
  unfold sbind at 1, slift. change (validate_conversation_sync (c_id c0) sync (mls_epoch c0) (members_of c0))
    with (validate_conversation_sync (c_id c) sync (mls_epoch c) (members_of c)).
  by destruct (validate_conversation_sync _ _ _ _) as [[]|].
Qed.

(** C26: adopting a peer's sync never overrides a list in use, and what is adopted
    is exactly what was validated. Whatever a sync holds, a list that is not yet
    exhausted at the current epoch stays installed. A sync that is processed without
    an error either changes nothing but the re-send anchor, because a list is kept
    or because some check of the sync fails, or it passed every check and then the
    list installed is the carried one, member for member in its order, under the
    carried bounds, epoch and round, with the carried retry limit, score
    configuration, liveness choice and update window. *)
Theorem sync_adopts_validated_list sync c :
  svc_conversation_id (c_stewards c) = String.list_byte_of_string (c_id c) →
  (∀ l, svc_list (c_stewards c) = Some l → is_exhausted (c_stewards c) (mls_epoch c) = false →
     svc_list (c_stewards (on_conversation_sync sync c).1) = Some l) ∧
  (∀ c', on_conversation_sync sync c = (c', Ok tt) →
     let valid := sync_valid (c_id c) sync (mls_epoch c) (members_of c) in
     (c' = c_set_timing (set_resend_anchor None (c_timing c)) c ∧ (keeps_list c sync = true ∨ ¬ valid)) ∨
     (valid ∧ keeps_list c sync = false ∧
      svc_list (c_stewards c') =
        Some (mk_sl (steward_members sync) (synced_config sync) (sync_election_epoch sync) (sync_retry_round sync)) ∧
      svc_config (c_stewards c') = synced_config sync ∧
      max_retries (c_stewards c') = sync_max_reelection_attempts sync ∧
      sc_config (c_scoring c') = mk_scoring_config (synced_default_peer_score sync) (threshold_peer_score sync) ∧
      pending_update_max_epochs (c_config c') = sync_pending_update_max_epochs sync ∧
      liveness_criteria_yes (c_config c') = sync_liveness_criteria_yes sync)).
Proof.
  intros Hid. set (c0 := c_set_timing (set_resend_anchor None (c_timing c)) c).
  pose proof (on_sync_eq sync c) as Heq. cbn zeta in Heq. fold c0 in Heq.
  rewrite Heq. split.
  - intros l Hl He. unfold keeps_list, svc_election_epoch. by rewrite Hl, He.
  - intros c' H. cbn zeta. destruct (keeps_list c sync) eqn:Hk; [left; split; [by injection H|by left]|].
    pose proof (validate_sync_iff (c_id c) sync (mls_epoch c) (members_of c)) as Hv.
    destruct (validate_conversation_sync _ _ _ _) as [[]|e]; [right| |done].
    + assert (sync_valid (c_id c) sync (mls_epoch c) (members_of c)) as Hval by (by apply Hv).
      split; [done|]. split; [done|]. rewrite sbind_ok in H. destruct H as (c1 & [] & Ha & ->%smodify_ok).
      apply (apply_sync_ok sync c0 c1) in Ha as (Hst & Hrest); [|done..]. cbn [c_stewards c_set_events]. by rewrite Hst.
    + left. split; [by injection H|]. right. intros [=]%Hv.
Qed.

(** *** An accepted election *)

Lemma phase_resume c c' b :
  resume_from_reelection b c = (c', Ok tt) →
  c_stewards c' = c_stewards c ∧ c_mode c' = c_mode c ∧ c_mls c' = c_mls c ∧ c_queues c' = c_queues c ∧
  current_state c' = (if decide (current_state c = Reelection) then Working else current_state c) ∧
  reelection_recovered (c_timing c') =
    (if decide (current_state c = Reelection) then b || reelection_recovered (c_timing c)
     else reelection_recovered (c_timing c)).
Proof.
  unfold resume_from_reelection. rewrite sbind_ok. intros (c1 & s & [-> ->]%sget_ok & H).
  case_bool_decide as Hs; [rewrite !decide_True by done|rewrite !decide_False by done; by injection H as <-].
  rewrite sbind_ok in H. destruct H as (c2 & [] & H2 & H). rewrite sbind_ok in H.
  destruct H as (c3 & st & H3 & ->%smodify_ok). unfold start_working in H3. rewrite sbind_ok in H3.
  destruct H3 as (c4 & [] & ->%smodify_ok & [= <- <-]).
  destruct b; [apply smodify_ok in H2 as ->|injection H2 as <-]; by destruct c.
Qed.

(** C16: an accepted election takes effect exactly when its list is the one this
    member computes. An invalid list changes nothing. A valid one is installed
    member for member, in its order, under the local configuration, for its epoch
    and round; recovery mode ends; a conversation parked in [Reelection] resumes
    [Working], remembering that approved work is waiting, and any other phase stays;
    all this also when sharing the list or draining the buffer fails afterwards. *)
Theorem election_accepted_installs e c :
  cfg_wf (svc_config (c_stewards c)) →
  (validate_election_list c e = Ok false → handle_election_accepted e c = (c, Ok tt)) ∧
  (validate_election_list c e = Ok true →
     ∃ c1, (on_stewards (install_list (el_election_epoch e) (proposed_stewards e) (len (proposed_stewards e))
              (el_retry_round e)) ;! exit_recovery_mode ;! resume_from_reelection true) c = (c1, Ok tt) ∧
       svc_list (c_stewards c1) =
         Some (mk_sl (proposed_stewards e) (svc_config (c_stewards c)) (el_election_epoch e) (el_retry_round e)) ∧
       c_mode c1 = Normal ∧
       current_state c1 = (if decide (current_state c = Reelection) then Working else current_state c) ∧
       reelection_recovered (c_timing c1) =
         bool_decide (current_state c = Reelection) || reelection_recovered (c_timing c) ∧
       handle_election_accepted e c =
         (let! leads := sget is_epoch_steward in
          scatch (if leads then share_conversation_sync else sret tt) (λ shared,
            process_buffered_updates ;! slift shared)) c1).
Proof.
  intros Hwf.
  assert (∀ b, validate_election_list c e = Ok b → handle_election_accepted e c = (if negb b then sret tt else
    on_stewards (install_list (el_election_epoch e) (proposed_stewards e) (len (proposed_stewards e)) (el_retry_round e)) ;!
    exit_recovery_mode ;! resume_from_reelection true ;!
    let! leads := sget is_epoch_steward in
    scatch (if leads then share_conversation_sync else sret tt) (λ shared,
      process_buffered_updates ;! slift shared)) c) as Heq.
  { intros b Hb. unfold handle_election_accepted, sbind at 1. by rewrite Hb. }
  split; intros Hv; rewrite (Heq _ Hv); [done|]. cbn [negb].
  pose proof Hv as Hg. unfold validate_election_list, validate_proposed in Hg.
  eapply (validated_installs_verbatim _ _ _ _ _ (svc_config (c_stewards c))) in Hg; [|done..].
  assert (∀ B (k : conv B), (on_stewards (install_list (el_election_epoch e) (proposed_stewards e)
    (len (proposed_stewards e)) (el_retry_round e)) ;! k) c =
    k (c_set_stewards (svc_set_list (mk_sl (proposed_stewards e) (svc_config (c_stewards c)) (el_election_epoch e)
         (el_retry_round e)) (c_stewards c)) c)) as Hin.
  { intros B k. unfold sbind, on_stewards, szoom, install_list. by rewrite Hg. }
  rewrite Hin. setoid_rewrite Hin. set (c2 := c_set_stewards _ c).
  assert (∀ B (k : conv B), (exit_recovery_mode ;! k) c2 = k (c_set_mode Normal c2)) as Hex by done.
  rewrite Hex. setoid_rewrite Hex. set (c3 := c_set_mode Normal c2).
  destruct (resume_from_reelection true c3) as [c1 r] eqn:Hr.
  assert (r = Ok tt) as ->.
  { unfold resume_from_reelection, sbind, sget in Hr. by destruct (bool_decide _); injection Hr as _ <-. }
  exists c1. split; [done|]. apply phase_resume in Hr as Hf. destruct Hf as (Hs & Hm & _ & _ & Hst & Hrec).
  rewrite Hs, Hm, Hst, Hrec. change (current_state c3) with (current_state c).
  unfold sbind at 1. rewrite Hr. split_and!; [done..| |done].
  destruct (decide (current_state c = Reelection)); [by rewrite bool_decide_true|by rewrite bool_decide_false].
Qed.
(** *** Sharing a list *)

(** The list was generated from the members this node holds as settled at the
    list's own epoch, at the canonical size. *)
Definition list_current c (l : StewardList) : Prop :=
  cfg_wf (sl_config l) ∧
  generate (sl_election_epoch l) (String.list_byte_of_string (c_id c)) (candidate_pool c (sl_election_epoch l))
    (compute_list_size (sl_config l) (len (candidate_pool c (sl_election_epoch l)))) (sl_config l)
    (sl_retry_round l) = Ok l.

Lemma shared_pool c scores l members :
  members ≡ₚ members_of c →
  sync_pool (conversation_sync_of c scores l) members ≡ₚ candidate_pool c (sl_election_epoch l).
Proof.
  intros Hp. unfold sync_pool, candidate_pool. rewrite <-(filterb_perm _ _ _ Hp). erewrite filterb_ext; [done|].
  intros m Hm. cbn [unsettled_members conversation_sync_of].
  apply eq_true_iff_eq. rewrite negb_true_iff, bool_decide_eq_false, elem_of_member_set, elem_of_filterb, negb_true_iff.
  rewrite Hp in Hm. destruct (is_settled _ _ _); naive_solver.
Qed.

Lemma nonzero_ms d : ms_exact d → millis_u64 d ≠ 0%N.
Proof.
  intros (Hp & Hm & Hb) Hz. unfold millis_u64, duration_as_millis, nanos_per_milli, u64_max in *.
  rewrite N.mod_small in Hz by lia. pose proof (N.div_mod d 1000000 ltac:(done)). lia.
Qed.

Lemma validate_generated e cid pool cfg r l :
  generate e cid pool (compute_list_size cfg (len pool)) cfg r = Ok l →
  cfg_wf cfg → pool ≠ [] ∧ sl_members l ≠ [] ∧ sl_members l ⊆ pool ∧
  sl_members l = take (N.to_nat (compute_list_size cfg (len pool))) (sort_by (steward_cmp e r cid) pool).
Proof.
  intros Hg [Hlo Hhi]. rewrite generate_eq in Hg. destruct pool as [|i0 ids] eqn:Hpool; [done|]. rewrite <-Hpool in *.
  destruct (is_valid_size _ _ _) eqn:Hv; [|done]. injection Hg as <-. cbn [sl_members].
  split_and!; [by rewrite Hpool| | |done].
  - intros Hn%len_nil_iff. rewrite len_take, (len_perm _ _ (sort_by_perm _ _)) in Hn.
    unfold is_valid_size, size_bounds in Hv. rewrite Hpool in Hv, Hn.
    unfold compute_list_size, size_bounds, len in *. cbn [length] in *. repeat case_match; cbn in *; bool_simpl; lia.
  - intros x Hx. apply elem_of_take in Hx as (i & Hx%list_elem_of_lookup_2 & _). by rewrite (sort_by_perm _ _) in Hx.
Qed.

(** A shared list is accepted by everyone it is meant for. The sync a holder
    builds from a list that is what it would generate now, over a valid
    configuration, passes every check of a peer of the same conversation that has
    the same members, in whatever order, and has reached the list's epoch; so does
    whatever scores ride along. *)
Theorem shared_sync_accepted c scores l epoch members :
  list_current c l → members ≡ₚ members_of c → (sl_election_epoch l ≤ epoch)%N →
  (sn_max (sl_config l) ≤ u32_max)%N →
  Forall ms_exact [commit_batch_window (c_config c); freeze_duration (c_config c);
    proposal_expiration (c_config c); consensus_timeout (c_config c); retry_window (c_config c)] →
  scoring_config_validate (sc_config (c_scoring c)) = Ok tt →
  validate_conversation_sync (c_id c) (conversation_sync_of c scores l) epoch members = Ok true.
Proof.
  intros [Hwf Hg] Hp He Hmax Hms Hsc. apply validate_sync_iff.
  pose proof (shared_pool c scores l members Hp) as Hpool.
  apply validate_generated in Hg as (Hne & Hln & Hsub & Hl); [|done].
  split.
  - done.
  - intros m. cbn [unsettled_members conversation_sync_of]. rewrite elem_of_filterb, Hp. by intros [_ ?].
  - cbn [steward_members conversation_sync_of]. destruct (sl_members l) as [|s rest] eqn:Hs; [done|]. exists s.
    split; [set_solver|]. rewrite Hp. assert (s ∈ candidate_pool c (sl_election_epoch l)) as Hin by set_solver.
    unfold candidate_pool in Hin. by apply elem_of_filterb in Hin as [_ ?].
  - exists (mk_slc (sn_min (sl_config l)) (sn_max (sl_config l)) false). destruct Hwf as [Hlo Hhi].
    cbn [sync_sn_min sync_sn_max conversation_sync_of]. unfold as_u32.
    rewrite !N.mod_small by (unfold u32_max in *; lia).
    split. { unfold slc_new. destruct (N.ltb_spec (sn_min (sl_config l)) 1); [lia|].
      destruct (N.ltb_spec (sn_max (sl_config l)) (sn_min (sl_config l))); [lia|done]. }
    rewrite validate_spec by (intros E; rewrite E in Hpool; by apply Permutation_nil_l in Hpool).
    f_equal. apply bool_decide_eq_true. cbn [steward_members sync_election_epoch sync_retry_round conversation_sync_of].
    rewrite Hl, (len_perm _ _ Hpool). unfold compute_list_size, size_bounds. cbn [sn_min sn_max].
    f_equal. apply sort_by_unique; [apply _|intros; by eapply steward_cmp_eq|done].
  - intros t [= <-]. rewrite !Forall_cons in Hms. destruct Hms as (H1 & H2 & H3 & H4 & H5 & _).
    apply nonzero_ms, N.eqb_neq in H1, H2, H3, H4, H5.
    unfold first_zero_timing_field, timing_config_from. cbn. by rewrite H1, H2, H3, H4, H5.
  - unfold synced_default_peer_score. cbn [default_peer_score threshold_peer_score conversation_sync_of].
    unfold scoring_config_validate in Hsc |- *.
    destruct (Z.leb_spec (default_score (sc_config (c_scoring c))) 0); [done|].
    destruct (Z.eqb_spec (default_score (sc_config (c_scoring c))) 0); [lia|]. cbn [default_score threshold].
    destruct (Z.leb_spec (default_score (sc_config (c_scoring c))) 0); [lia|done].
Qed.

(** A joiner ends with the authorities of whoever let it in. Take a member that
    holds a steward list which is what it would generate now, over a valid
    configuration whose numbers fit the wire, and a joiner of the same conversation
    that has the same members, in whatever order, has reached the list's epoch and
    holds no list. The sync the holder builds passes every check of the joiner, and
    once it is processed the joiner's list has the holder's members in the same
    order, the same epoch and round; so for every epoch and every eligibility both
    name the same epoch steward and the same backup, know the same stewards, and see
    the list exhausted at the same time. *)
Theorem joiner_shares_authority holder c scores l c' :
  svc_list (c_stewards holder) = Some l → list_current holder l → svc_list (c_stewards c) = None →
  c_id c = c_id holder → members_of c ≡ₚ members_of holder → (sl_election_epoch l ≤ mls_epoch c)%N →
  svc_conversation_id (c_stewards c) = String.list_byte_of_string (c_id c) →
  (sn_max (sl_config l) ≤ u32_max)%N →
  Forall ms_exact [commit_batch_window (c_config holder); freeze_duration (c_config holder);
    proposal_expiration (c_config holder); consensus_timeout (c_config holder); retry_window (c_config holder)] →
  scoring_config_validate (sc_config (c_scoring holder)) = Ok tt →
  on_conversation_sync (conversation_sync_of holder scores l) c = (c', Ok tt) →
  ∃ l', svc_list (c_stewards c') = Some l' ∧ sl_members l' = sl_members l ∧
    sl_election_epoch l' = sl_election_epoch l ∧ sl_retry_round l' = sl_retry_round l ∧
    ∀ epoch eligible id,
      epoch_and_backup (c_stewards c') epoch eligible = epoch_and_backup (c_stewards holder) epoch eligible ∧
      is_exhausted (c_stewards c') epoch = is_exhausted (c_stewards holder) epoch ∧
      is_steward (c_stewards c') id = is_steward (c_stewards holder) id.
Proof.
  intros Hh Hcur Hn Hid Hp He Hsalt Hmax Hms Hsc H.
  pose proof (shared_sync_accepted holder scores l (mls_epoch c) (members_of c) Hcur Hp He Hmax Hms Hsc) as Hv.
  rewrite <-Hid in Hv. rewrite on_sync_eq in H. unfold keeps_list, svc_election_epoch in H. rewrite Hn, Hv in H. cbn [fmap option_fmap option_map is_some_and] in H.
  rewrite sbind_ok in H. destruct H as (c1 & [] & Ha & He1%smodify_ok).
  apply apply_sync_ok in Ha as (Hst & _); [|by apply validate_sync_iff|done]. subst c'.
  change (c_stewards (c_set_events _ c1)) with (c_stewards c1). rewrite Hst. eexists. split; [done|]. split_and!; [done..|].
  intros epoch eligible id. unfold epoch_and_backup, is_exhausted, is_steward. rewrite Hh. by destruct l.
Qed.

(** C33: a listed steward that has left makes the sync unacceptable. Every steward
    of a sync that passes validation is a current member: one removed member on the
    list is enough to have it refused, whoever else on it is still present. *)
Theorem departed_steward_refuses_sync id sync epoch members s :
  s ∈ steward_members sync → s ∉ members →
  validate_conversation_sync id sync epoch members ≠ Ok true.
Proof.
  intros Hs Hm [_ _ _ (cfg & _ & Hv) _ _]%validate_sync_iff.
  assert (sync_pool sync members ≠ []) as Hne by (intros E; by rewrite E in Hv).
  rewrite validate_spec in Hv by done. injection Hv as Hv%bool_decide_eq_true.
  rewrite Hv in Hs. apply elem_of_take in Hs as (i & Hs%list_elem_of_lookup_2 & _). rewrite (sort_by_perm _ _) in Hs.
  by apply elem_of_filterb in Hs as [_ ?].
Qed.
End elections.

(** ** At concrete inputs *)

#[local] Existing Instances example_hash toy_mls canonical_hash_iter toy_consensus toy_texts toy_codec.

(** Leaf 0 before it has a list. *)
Definition joiner : Room := c_set_stewards (mk_svc None slc_default [x67] 0 2) room.

Lemma sync_adopts_validated_list_witness :
  svc_list (c_stewards (on_conversation_sync toy_sync joiner).1) =
    Some (mk_sl [member_id_of 0; member_id_of 1] (mk_slc 1 2 false) 3 0).
Proof.
  destruct (sync_adopts_validated_list toy_sync joiner) as [_ H]; [by vm_compute|].
  destruct (on_conversation_sync toy_sync joiner) as [c' r] eqn:E.
  assert (r = Ok tt) as Hr. { change r with (c', r).2. rewrite <-E. by vm_compute. }
  destruct (H c') as [[-> Hbad]|(_ & _ & Hl & _)]; [by rewrite Hr| |exact Hl].
  exfalso. assert (keeps_list joiner toy_sync = false) as Hk by (by vm_compute).
  assert (validate_conversation_sync (c_id joiner) toy_sync (mls_epoch joiner) (members_of joiner) = Ok true) as Hv
    by (by vm_compute).
  destruct Hbad as [Hb|Hb]; [by rewrite Hk in Hb|]. by apply Hb, validate_sync_iff.
Defined.

Definition toy_election : StewardElectionProposal := mk_election [member_id_of 0; member_id_of 1] 3 1.

Lemma election_accepted_installs_witness :
  ∃ c1 : Room, svc_list (c_stewards c1) = Some (mk_sl [member_id_of 0; member_id_of 1] slc_default 3 1) ∧
    current_state c1 = Working.
Proof.
  set (c := c_set_sm (mk_sm Reelection) room).
  destruct (election_accepted_installs toy_election c) as [_ H]; [by vm_compute|].
  assert (validate_election_list c toy_election = Ok true) as Hv by (by vm_compute).
  destruct (H Hv) as (c1 & _ & Hl & _ & Hs & _). exists c1. split; [exact Hl|].
  rewrite Hs. by vm_compute.
Defined.

Definition room_list : StewardList := mk_sl [member_id_of 0; member_id_of 1] slc_default 3 0.

Lemma joiner_shares_authority_witness :
  ∃ c' : Room, epoch_and_backup (c_stewards c') 4 (λ _, true) = (Some (member_id_of 1), Some (member_id_of 0)).
Proof.
  destruct (on_conversation_sync (conversation_sync_of room [] room_list) joiner) as [c' r] eqn:E.
  assert (r = Ok tt) as Hr by (change r with (c', r).2; rewrite <-E; by vm_compute). subst r.
  destruct (joiner_shares_authority room joiner [] room_list c') as (l' & _ & _ & _ & _ & H).
  - reflexivity.
  - split; [split; by vm_compute|by vm_compute].
  - reflexivity.
  - reflexivity.
  - apply (bool_decide_unpack _). by vm_compute.
  - by vm_compute.
  - by vm_compute.
  - by vm_compute.
  - repeat (constructor; [split_and!; [done|by vm_compute|by vm_compute]|]). constructor.
  - by vm_compute.
  - exact E.
  - exists c'. destruct (H 4%N (λ _, true) []) as [-> _]. by vm_compute.
Defined.

Lemma departed_steward_refuses_sync_witness :
  validate_conversation_sync "g" toy_sync 3 [member_id_of 0] ≠ Ok true.
Proof. apply (departed_steward_refuses_sync _ _ _ _ (member_id_of 1)); apply (bool_decide_unpack _); by vm_compute. Defined.
