(* ===== verification/System.v ===== *)
(** * The running system

    A conversation from its construction on: [step] is one call of the integrator or
    one movement of the clock, [reachable] what any sequence of them leads to. *)

From S2P Require Import Prelude Time Machine Protos StewardList Mls Toy Buffer Queues Scoring CommitRound ApplyResult Config Display Conversation Room Voting Steward HandleOutcome Inbound Messaging Poll Construct Invariant.

Section system.
Context {HS : Hash} {OM : OpenMls} {CS : ConsensusLib} {CD : Codec} {CT : ConsensusTexts} {HI : HashIter}.
Context {St : Type} `{!PeerScoreStorage St}.
Abbreviation Conv := (Conversation St).
Abbreviation conv := (method Conv).
Implicit Types (c : Conv).

(** The calls of the public interface that change a conversation, [poll] apart. *)
Inductive call : ∀ A, conv A → Prop :=
  | call_process_inbound sender payload : call _ (process_inbound sender payload)
  | call_apply_welcome_sync b : call _ (apply_welcome_sync b)
  | call_send_message b : call _ (send_message b)
  | call_request_sync : call _ request_conversation_sync
  | call_add_member kp : call _ (conv_add_member kp)
  | call_sponsor_member kp : call _ (sponsor_member kp)
  | call_remove_member id : call _ (conv_remove_member id)
  | call_initiate_proposal req v : call _ (initiate_proposal req v)
  | call_vote pid v : call _ (conv_vote pid v)
  | call_leave : call _ leave
  | call_share_sync : call _ share_conversation_sync
  | call_request_recovery : call _ request_recovery
  | call_propose_score_removal target : call _ (propose_score_removal target)
  | call_enter_recovery : call _ enter_recovery_mode
  | call_exit_recovery : call _ exit_recovery_mode
  | call_commit_in_recovery : call _ commit_in_recovery
  | call_resend_commit : call _ resend_commit.

Definition tick_clock (now : Duration) c : Conv :=
  mk_conversation (c_id c) now (c_queues c) (c_mls c) (c_scoring c) (c_stewards c) (c_engine c) (c_bus c) (c_sm c)
    (c_config c) (c_mode c) (c_recovery_rounds c) (c_timing c) (c_self c) (c_app_id c) (c_events c) (c_outbound c).

Inductive step : Conv → Conv → Prop :=
  | step_call A (m : conv A) c : call A m → step c (m c).1
  | step_poll fuel c : step c (poll fuel c).1
  | step_clock c now : (c_now c ≤ now)%N → step c (tick_clock now c)
  | step_events c : step c (drain_events c).1
  | step_outbound c : step c (drain_outbound c).1.

(** A conversation as [create] and [join] leave it before their first traffic. *)
Inductive constructed : Conv → Prop :=
  | from_assemble id mls scoring e now app cfg creation c :
      assemble id mls scoring e now app cfg creation = Ok c → constructed c
  | from_seed members c c' :
      constructed c → seed_initial_members members c = (c', Ok tt) → constructed c'
  | from_join sync c c' :
      constructed c → (on_joined ;! apply_welcome_sync sync) c = (c', Ok tt) → constructed c'.

Definition reachable c : Prop := ∃ c0, constructed c0 ∧ rtc step c0 c.

(** *** Every call preserves the invariant *)

Abbreviation keeps w m := (preserves (holds (St := St) w) m).

Lemma call_keeps w A (m : conv A) : (w_typed w = true → WireTypes) → call A m → keeps w m.
Proof.
  intros Hty. destruct 1; eauto 3 with keeps.
  unfold request_recovery. keep.
Qed.

Lemma start_selection_keeps w : w_sel w = false → keeps w start_selection.
Proof.
  intros Hw. unfold start_selection. apply preserves_bind; [|intros; apply preserves_ret].
  apply preserves_modify. intros c [Hc Hs Hi]. split; [intros Hf; by destruct (Hc Hf)|congruence|done..].
Qed.

Lemma poll_keeps w fuel :
  w_pin w = None → w_sel w = false → (w_typed w = true → WireTypes) → keeps w (poll fuel).
Proof.
  intros Hpin Hw Hty. pose proof (start_selection_keeps w Hw) as Hsel.
  assert (keeps w advance_freezing) as Ha.
  { unfold advance_freezing, report_progress. keep. }
  unfold poll, drive_all. keep.
Qed.

(** *** Construction establishes it *)

Abbreviation invariant typed := (mk_watch true None typed false None).

Lemma holds_invariant typed c : holds (invariant typed) c ↔ conv_pinned None typed c.
Proof. split; [intros [Hf _ _]; by apply Hf|]. intros Hc. by split. Qed.

(** A configuration within the machine types of its fields, the list bounds within
    what the wire carries. *)
Definition config_typed (cfg : ConversationConfig) : Prop :=
  (max_reelection_attempts cfg ≤ u32_max)%N ∧ (sn_max (steward_list_config cfg) ≤ u32_max)%N.

Lemma bootstrap_ok typed cid creation self p :
  stewards_ok typed cid p.1 →
  stewards_ok typed cid (bootstrap creation self p).1.1 ∧
  sc_config (bootstrap creation self p).1.2 = sc_config p.2.
Proof.
  destruct p as [s sc]. cbn [fst snd]. intros Hs. unfold bootstrap. destruct creation; [|done].
  unfold sbind, szoom. cbn [fst snd]. pose proof (install_keeps typed cid 0 [self] 1 0 ltac:(done) s Hs) as H1.
  destruct (install_list 0 [self] 1 0 s) as [s1 [[]|e]]; cbn [fst] in H1; [|done].
  pose proof (add_member_config self (sc_config sc) sc eq_refl) as H2. cbn [snd].
  destruct (add_member self sc) as [sc1 r]. by cbn [fst] in *.
Qed.

Lemma assemble_ok typed id mls scoring e now app cfg creation c :
  (typed = true → config_typed cfg ∧ scores_typed (sc_config scoring)) →
  assemble id mls scoring e now app cfg creation = Ok c → conv_pinned None typed c.
Proof.
  unfold assemble. intros Ht H. destruct (config_validate cfg) as [[]|] eqn:Hcfg; [|done]. cbn [result_bind] in H.
  destruct (validate_config scoring) as [[]|] eqn:Hsc; [|done]. cbn [result_bind] in H.
  apply config_validate_ok in Hcfg as (_ & _ & _ & Hwf).
  set (s0 := set_max_retries _ _) in H.
  assert (stewards_ok typed (String.list_byte_of_string id) s0) as Hs0.
  { split; [done..|]. intros Hty. destruct (Ht Hty) as [[] _]. by split. }
  destruct (bootstrap_ok typed _ creation (be_bytes 4 (g_own_leaf_index (mls_group mls))) (s0, scoring) Hs0) as [H1 H2].
  destruct (bootstrap _ _ _) as [[s1 sc1] [[]|err]]; [|done]. injection H as <-. cbn in H1, H2.
  split; [by apply queues_new_ok|done|unfold scores_valid, validate_config in *; cbn; by rewrite H2|].
  intros Hty. cbn. rewrite H2. split; [by apply Ht|done].
Qed.

Lemma seed_keeps w members : (w_typed w = true → WireTypes) → keeps w (seed_initial_members members).
Proof.
  intros Hty.
  unfold seed_initial_members. keep. by apply (install_now_keeps w Hty).
Qed.

Lemma join_keeps w sync : (w_typed w = true → WireTypes) → keeps w (on_joined ;! apply_welcome_sync sync).
Proof. intros Hty. apply preserves_bind; [by apply joined_keeps|]. intros _. by apply welcome_sync_keeps. Qed.

Lemma step_keeps typed c c' :
  (typed = true → WireTypes) → step c c' → conv_pinned None typed c → conv_pinned None typed c'.
Proof.
  intros Hty Hs. rewrite <-!holds_invariant. intros H0. destruct Hs as [A m c Hm|fuel c|c now _|c|c].
  - by apply (call_keeps (invariant typed) A m).
  - by apply (poll_keeps (invariant typed) fuel).
  - by apply (holds_same (invariant typed) c).
  - by apply (holds_same (invariant typed) c).
  - by apply (holds_same (invariant typed) c).
Qed.

Lemma constructed_ok c : constructed c → conv_ok c.
Proof.
  induction 1 as [id mls scoring e now app cfg creation c Ha|members c c' _ IH Hs|sync c c' _ IH Hj].
  - by eapply assemble_ok.
  - apply holds_invariant in IH. apply (seed_keeps (invariant false) members ltac:(done)) in IH. rewrite Hs in IH.
    exact (proj1 (holds_invariant false c') IH).
  - apply holds_invariant in IH. apply (join_keeps (invariant false) sync ltac:(done)) in IH. rewrite Hj in IH.
    exact (proj1 (holds_invariant false c') IH).
Qed.

Lemma reachable_ok c : reachable c → conv_ok c.
Proof.
  intros (c0 & H0%constructed_ok & Hr). induction Hr as [c|c c1 c2 Hs _ IH]; [done|].
  apply IH. by apply (step_keeps false c).
Qed.

(** C1: every state a conversation reaches is sound. From its construction, through
    any sequence of calls, polls, incoming packets and clock movements, whatever
    they return, the approved batch never holds two removals of a member or two
    admissions of a joiner; the dedup windows are bounded sets; the buffered
    candidates have distinct hashes; an installed steward list is non-empty, within
    its bounds and in the order every member computes; and the score configuration
    passes its validation, also after a peer's sync was adopted. *)
Theorem reachable_states_sound c : reachable c → conv_ok c.
Proof. apply reachable_ok. Qed.

(** *** Machine widths *)

(** A conversation lives on by the steps of the system, and by the first traffic
    [create] and [join] make. *)
Inductive lives : Conv → Conv → Prop :=
  | lives_step c c' : step c c' → lives c c'
  | lives_seed members c c' : seed_initial_members members c = (c', Ok tt) → lives c c'
  | lives_join sync c c' : (on_joined ;! apply_welcome_sync sync) c = (c', Ok tt) → lives c c'.

Lemma lives_keeps typed c c' :
  (typed = true → WireTypes) → lives c c' → conv_pinned None typed c → conv_pinned None typed c'.
Proof.
  intros Hty [c1 c2 Hs|members c1 c2 Hs|sync c1 c2 Hs]; [by apply step_keeps|..];
    rewrite <-!holds_invariant; intros H0.
  - apply (seed_keeps (invariant typed) members Hty) in H0. by rewrite Hs in H0.
  - apply (join_keeps (invariant typed) sync Hty) in H0. by rewrite Hs in H0.
Qed.

Lemma list_of_wf cid typed s l : stewards_ok typed cid s → svc_list s = Some l → cfg_wf (sl_config l).
Proof. intros [_ _ Hl _] E. by destruct (Hl l E). Qed.

(** C18: every integer of the protocol state keeps to its Rust type, and so does what
    is sent of it. Started from a configuration whose retry limit and list bounds
    fit a [u32] and a score configuration that fits an [i64], and fed by an MLS
    library and a decoder that return values of their types, a conversation keeps,
    through any life, the election round, the retry limit, the recovery rounds, the
    installed list's epoch and round and the score configuration within their
    machine integers; and a sync built from an installed list fits the types of its
    wire fields, the list bounds, which the code casts from [usize] to [u32],
    arriving as they are. *)
Theorem reachable_states_typed `{!WireTypes} id mls scoring e now app cfg creation c0 c :
  config_typed cfg → scores_typed (sc_config scoring) →
  assemble id mls scoring e now app cfg creation = Ok c0 → rtc lives c0 c →
  svc_typed (c_stewards c) ∧ scores_typed (sc_config (c_scoring c)) ∧ (c_recovery_rounds c ≤ u32_max)%N ∧
  ∀ l scores, svc_list (c_stewards c) = Some l →
    sync_typed (conversation_sync_of c scores l) ∧
    sync_sn_min (conversation_sync_of c scores l) = sn_min (sl_config l) ∧
    sync_sn_max (conversation_sync_of c scores l) = sn_max (sl_config l).
Proof.
  intros Hcfg Hsc Ha Hr. assert (conv_pinned None true c) as [_ Hs _ Ht].
  { apply (assemble_ok true) in Ha; [|done]. induction Hr as [|c1 c2 c3 Hl _ IH]; [done|].
    apply IH. by apply (lives_keeps true c1). }
  destruct (Ht eq_refl) as [Hst Hrounds]. pose proof (so_typed _ _ _ Hs eq_refl) as Hv.
  split_and!; [done..|]. intros l scores Hl. destruct (list_of_wf _ _ _ _ Hs Hl) as [H1 H2].
  destruct Hv as [_ Hm _ Hvl], Hst as [Hd Hth]. destruct (Hvl l Hl) as [He Hrr Hsn].
  assert (∀ n, n ≤ u32_max → as_u32 n = n)%N as Hcast.
  { intros n Hn. unfold as_u32. apply N.mod_small. unfold u32_max in Hn. lia. }
  unfold conversation_sync_of. cbn [sync_sn_min sync_sn_max]. rewrite !Hcast by lia. split; [|done]. by split.
Qed.

(** *** [Selection] is never a resting state *)

Create HintDb total.
Lemma attempt_total (m : conv unit) : never_fails (attempt m).
Proof. apply never_fails_catch. by intros r. Qed.
Lemma start_working_total : never_fails (S := Conv) start_working.
Proof. done. Qed.
Lemma start_reelection_total : never_fails (S := Conv) start_reelection.
Proof. done. Qed.
Lemma reopen_total : never_fails (S := Conv) reopen_recovery_window.
Proof. intros c. unfold reopen_recovery_window. by destruct (sm_reopen_freezing _) as [? []]. Qed.
#[local] Hint Resolve attempt_total start_working_total start_reelection_total reopen_total never_fails_ret
  never_fails_get never_fails_modify : total.

Ltac total_step :=
  first
  [ solve [eauto 3 with total]
  | apply never_fails_bind; [|intros ?]
  | apply never_fails_catch; intros ?
  | apply never_fails_for; intros ?
  | match goal with |- never_fails (match ?x with _ => _ end) => destruct x eqn:? end
  | intros c; done ].
Ltac total := repeat total_step.

Lemma timeout_total pid : never_fails (S := Conv) (resolve_on_timeout pid).
Proof. unfold resolve_on_timeout. total. intros c. by destruct (engine (St := St) _ c). Qed.
Lemma drain_total fuel : never_fails (S := Conv) (drain_outcomes fuel).
Proof. induction fuel; cbn; total. intros c. unfold try_recv. by destruct (c_bus c). Qed.
#[local] Hint Resolve timeout_total drain_total : total.
Lemma tick_total fuel : never_fails (S := Conv) (tick_deadlines fuel).
Proof. unfold tick_deadlines, edit_timing. total. Qed.
Lemma poll_total fuel : never_fails (S := Conv) (poll fuel).
Proof. unfold poll, drive_all. total. Qed.
Lemma self_leave_total : never_fails (S := Conv) prepare_self_leave.
Proof. unfold prepare_self_leave, emit_event, cancel_all_auto_votes, edit_timing. total. Qed.
Lemma deliver_total wl : never_fails (S := Conv) (deliver_welcome wl).
Proof. unfold deliver_welcome, emit_event, broadcast. total. Qed.
Lemma retry_total : never_fails (S := Conv) retry_or_exhaust_recovery.
Proof. unfold retry_or_exhaust_recovery, exit_recovery_mode, emit_phase_change, emit_event. total. Qed.

Abbreviation awake := (mk_watch false None false true None).
Lemma awake_iff c : holds awake c ↔ current_state c ≠ Selection.
Proof. split; [intros []; auto|]. by intros Hc. Qed.

(** [m] leaves [Selection], or reports the leave. *)
Definition leaves_selection {A} (m : conv A) : Prop := ∀ c, holds awake (m c).1.
Definition settled (x : Conv * res DispatchOutcome) : Prop := holds awake x.1 ∨ x.2 = Ok LeaveRequested.
Definition settles (m : conv DispatchOutcome) : Prop := ∀ c, settled (m c).

Lemma leaves_bind {A B} (m : conv A) (k : A → conv B) :
  leaves_selection m → (∀ a, keeps awake (k a)) → leaves_selection (sbind m k).
Proof.
  intros Hm Hk c. unfold sbind. specialize (Hm c). destruct (m c) as [c1 [a|e]]; [by apply Hk|done].
Qed.
Lemma leaves_after {A B} (m : conv A) (k : A → conv B) :
  never_fails m → (∀ a, leaves_selection (k a)) → leaves_selection (sbind m k).
Proof.
  intros Hm Hk c. unfold sbind. specialize (Hm c). destruct (m c) as [c1 [a|e]]; [apply Hk|done].
Qed.
Lemma settles_after {A} (m : conv A) k : never_fails m → (∀ a, settles (k a)) → settles (sbind m k).
Proof.
  intros Hm Hk c. unfold sbind. specialize (Hm c). destruct (m c) as [c1 [a|e]]; [apply Hk|done].
Qed.
Lemma settles_leaves (m : conv DispatchOutcome) : leaves_selection m → settles m.
Proof. intros Hm c. by left. Qed.

Lemma working_leaves : leaves_selection start_working.
Proof. intros c. by apply awake_iff. Qed.
Lemma reelection_leaves : leaves_selection start_reelection.
Proof. intros c. by apply awake_iff. Qed.
Lemma reopen_leaves : leaves_selection reopen_recovery_window.
Proof.
  intros c. apply awake_iff. unfold reopen_recovery_window, sm_reopen_freezing. by case_decide.
Qed.

#[local] Hint Extern 0 (WireTypes) => discriminate : keeps.

Lemma resume_leaves : leaves_selection resume_working.
Proof. apply leaves_bind; [apply working_leaves|]. intros s. keep. Qed.
Lemma retry_leaves : leaves_selection retry_or_exhaust_recovery.
Proof.
  apply leaves_after; [done|]. intros _. apply leaves_after; [done|]. intros c.
  apply leaves_bind; [|intros; keep]. destruct (negb _ && _).
  - apply leaves_after; [done|]. intros _. apply leaves_bind; [apply working_leaves|]. intros s. keep.
  - apply leaves_bind; [apply reopen_leaves|]. intros s. keep.
Qed.
Lemma updated_leaves : leaves_selection on_conversation_updated.
Proof.
  apply leaves_after; [done|]. intros _. apply leaves_after; [done|]. intros _.
  apply leaves_bind; [apply working_leaves|]. intros s. unfold maybe_close_recovery_window. keep.
Qed.

Lemma no_candidate_leaves r p : leaves_selection (no_candidate r p).
Proof.
  unfold no_candidate. destruct r; [destruct p; cbn [negb]|].
  - apply retry_leaves.
  - apply leaves_after; [done|]. intros _. apply leaves_after; [done|]. intros _.
    apply leaves_bind; [apply resume_leaves|]. intros _. keep.
  - apply leaves_bind; [|intros s; keep]. destruct p.
    + apply leaves_bind; [apply reelection_leaves|]. intros s. keep.
    + apply leaves_after; [done|]. intros _. apply working_leaves.
Qed.

Lemma applied_settles r b wl : settles (applied r (leave_or_update b) wl).
Proof.
  apply settles_after; [by destruct r|]. intros _.
  apply settles_after; [destruct wl; [apply deliver_total|done]|]. intros _ c.
  unfold scatch. destruct b; cbn [leave_or_update dispatch_inbound_result].
  - right. unfold sbind. pose proof (self_leave_total c) as H.
    by destruct (prepare_self_leave c) as [c1 [[]|e]].
  - left. assert (leaves_selection (on_conversation_updated ;! sret Done)) as H.
    { apply leaves_bind; [apply updated_leaves|]. intros; keep. }
    specialize (H c). by destruct ((on_conversation_updated ;! sret Done) c) as [c1 [o|e]].
Qed.

Lemma conclude_settles r p f :
  round_result_ok f → settles (conclude_round r p f).
Proof.
  intros Hf. unfold conclude_round. apply settles_after.
  { destruct (bool_decide _); [done|]. apply never_fails_catch. by intros []. }
  intros _. apply settles_after; [by destruct (bool_decide _)|]. intros _.
  destruct Hf as [->|(b & wl & ->)]; [apply settles_leaves, no_candidate_leaves|apply applied_settles].
Qed.

Lemma finalize_settles subset self (k : result ConversationError CommitRoundResult → conv DispatchOutcome) :
  (∀ e, leaves_selection (k (Err e))) → (∀ f, round_result_ok f → settles (k (Ok f))) →
  settles (scatch (conv_finalize_commit_round subset self) k).
Proof.
  intros He Hk c. unfold scatch.
  destruct (conv_finalize_commit_round subset self c) as [c1 [f|e]] eqn:E; [|left; apply He].
  apply Hk. unfold conv_finalize_commit_round, sbind, sget, on_round in E.
  destruct (finalize_commit_round _ _ _ _ _) as [[q mls] r] eqn:Ef. injection E as <- ->.
  by apply finalize_result_ok in Ef.
Qed.

Lemma select_settles r : settles (select_round r).
Proof.
  apply settles_after; [done|]. intros _. apply settles_after; [done|]. intros ev.
  apply settles_after; [done|]. intros p. apply settles_after; [done|]. intros _.
  apply settles_after; [done|]. intros c0. apply finalize_settles.
  - intros e. apply leaves_after; [done|]. intros _. unfold recover_from_finalize_error.
    apply leaves_after; [done|]. intros c. destruct (is_in_recovery_mode c); [apply retry_leaves|].
    apply leaves_bind; [apply resume_leaves|]. intros _. keep.
  - intros f Hf. by apply conclude_settles.
Qed.

Lemma advance_settles c :
  holds awake c → settled (advance_freezing c).
Proof.
  intros Hc. unfold advance_freezing. unfold sbind at 1, sget at 1.
  destruct (negb (bool_decide _)).
  { left. assert (keeps awake (edit_timing (set_progress None) ;! sret Done)) as Hk by keep. by apply Hk. }
  unfold sbind at 1, sget at 1. set (r := is_in_recovery_mode c).
  assert (keeps awake (if r then maybe_auto_commit_recovery else sret tt)) as Hm by keep.
  specialize (Hm c Hc). unfold sbind at 1.
  destruct ((if r then maybe_auto_commit_recovery else sret tt) c) as [c1 [[]|e]]; [|by left].
  unfold sbind at 1, sget at 1. cbn [id]. destruct (negb _ && negb _); [|apply select_settles].
  left. assert (keeps awake (report_progress (commit_candidate_count c1) ;! sret Done)) as Hk
    by (unfold report_progress; keep).
  by apply Hk.
Qed.

Lemma drive_all_keeps b : keeps awake (drive_all b).
Proof. unfold drive_all. keep. Qed.
Lemma drive_all_leave b c out : (drive_all b c).2 = Ok out → leave_requested out = b.
Proof.
  destruct (drive_all b c) as [c' r] eqn:E. cbn [snd]. intros ->. unfold drive_all in E.
  repeat (rewrite sbind_ok in E; destruct E as (? & ? & _ & E)). by injection E as _ <-.
Qed.

(** C7: a conversation never rests in [Selection]. From a state outside it no call
    of the interface enters it, whatever the call returns; one [poll], which selects
    and finalizes a commit round inside one call, never fails, and whether the round
    merges a commit, finds none, or fails at the MLS engine or the score storage, it
    ends in another state, unless it reports that the conversation is to be torn
    down because the merged commit removed the local member. *)
Theorem selection_is_transient c :
  current_state c ≠ Selection →
  (∀ A (m : conv A), call A m → current_state (m c).1 ≠ Selection) ∧
  (∀ fuel, ∃ out, (poll fuel c).2 = Ok out ∧
     (current_state (poll fuel c).1 = Selection → leave_requested out = true)).
Proof.
  intros Hc%awake_iff. split.
  { intros A m Hm. apply (proj1 (awake_iff _)). by apply (call_keeps awake A m ltac:(done) Hm). }
  intros fuel. destruct (never_fails_ok (poll fuel) c (poll_total fuel)) as [out Hout]. exists out.
  split; [done|]. revert Hout. unfold poll, sbind.
  pose proof (tick_keeps awake ltac:(done) fuel eq_refl c Hc) as H1.
  destruct (tick_deadlines fuel c) as [c1 [[]|e]]; [|done]. cbn [fst] in H1.
  pose proof (advance_settles c1 H1) as Ha. unfold scatch.
  destruct (advance_freezing c1) as [c2 r]. unfold settled in Ha. cbn [fst snd] in Ha.
  unfold sret. cbv beta iota. intros Hout Hsel. rewrite (drive_all_leave _ c2 out Hout).
  apply bool_decide_eq_true. destruct Ha as [Ha|Ha]; [|done].
  by apply (drive_all_keeps (bool_decide (r = Ok LeaveRequested))), awake_iff in Ha.
Qed.

(** *** Resolved decisions *)

Lemma handle_unfold ev c :
  let '(pid, approved, ts) := outcome_fields ev in
  is_consensus_outcome_applied (c_queues c) pid = false →
  handle_consensus_outcome ev c =
    let c0 := (emit_event (EvConsensusReached pid approved ts) (without_deadlines pid c)).1 in
    match get_proposal (c_id c) pid (c_engine c) with
    | Err e => (c0, Err (Consensus e))
    | Ok p =>
        match decode_request (prop_payload p) with
        | Err e => (c0, Err (MessageErr e))
        | Ok req =>
            (edit_queues (mark_consensus_outcome_applied pid) ;!
             let! r := on_queues (apply_consensus_result pid approved req) in
             conv_replay_early_candidates ;!
             follow_up r ;!
             (if bool_decide (emergency_score_ops req approved = []) then sret tt
              else handle_emergency_scored pid (emergency_score_ops req approved)) ;!
             on_engine (remove_session (c_id c) pid)) c0
        end
    end.
Proof.
  unfold handle_consensus_outcome. destruct (outcome_fields ev) as [[pid approved] ts]. intros Hn.
  unfold sbind at 1, cancel_auto_vote, edit_timing at 1, smodify at 1.
  unfold sbind at 1, unregister_consensus_timeout, edit_timing at 1, smodify at 1.
  unfold sbind at 1, sget at 1. cbn [id c_queues c_set_timing]. rewrite Hn.
  unfold sbind at 1, emit_event at 1, smodify at 1. unfold sbind at 1, slift at 1.
  cbn [c_id c_engine c_set_timing c_set_events].
  destruct (get_proposal (c_id c) pid (c_engine c)) as [p|e]; [|done]. cbn [result_map_err].
  unfold sbind at 1, slift at 1. by destruct (decode_request (prop_payload p)).
Qed.

(** C9: a decision takes effect once. A decision already applied only drops the
    proposal's two deadlines, so a second resolution of one proposal, whatever
    published it, stages, elects, scores and announces nothing. A new one is
    announced, and if the library no longer has its proposal, or the payload does
    not decode, nothing else happens. Otherwise it is recorded as applied, also when
    its follow-up fails halfway, so no later copy can apply it again. *)
Theorem outcome_applied_once ev c :
  conv_ok c →
  let '(pid, approved, ts) := outcome_fields ev in
  (is_consensus_outcome_applied (c_queues c) pid = true →
     handle_consensus_outcome ev c = (without_deadlines pid c, Ok tt)) ∧
  (is_consensus_outcome_applied (c_queues c) pid = false →
     (∀ e, get_proposal (c_id c) pid (c_engine c) = Err e →
        handle_consensus_outcome ev c =
          ((emit_event (EvConsensusReached pid approved ts) (without_deadlines pid c)).1, Err (Consensus e))) ∧
     (∀ p e, get_proposal (c_id c) pid (c_engine c) = Ok p → decode_request (prop_payload p) = Err e →
        handle_consensus_outcome ev c =
          ((emit_event (EvConsensusReached pid approved ts) (without_deadlines pid c)).1, Err (MessageErr e))) ∧
     (∀ p req, get_proposal (c_id c) pid (c_engine c) = Ok p → decode_request (prop_payload p) = Ok req →
        is_consensus_outcome_applied (c_queues (handle_consensus_outcome ev c).1) pid = true)).
Proof.
  intros Hc. pose proof (handle_unfold ev c) as Hu. destruct (outcome_fields ev) as [[pid approved] ts] eqn:Hev.
  split.
  { intros Ha. unfold handle_consensus_outcome. rewrite Hev.
    unfold sbind at 1, cancel_auto_vote, edit_timing at 1, smodify at 1.
    unfold sbind at 1, unregister_consensus_timeout, edit_timing at 1, smodify at 1.
    unfold sbind at 1, sget at 1. cbn [id c_queues c_set_timing]. by rewrite Ha. }
  intros Hn. specialize (Hu Hn). cbn zeta in Hu. split_and!.
  - intros e He. by rewrite Hu, He.
  - intros p e Hp He. by rewrite Hu, Hp, He.
  - intros p req Hp Hr. rewrite Hu, Hp, Hr. clear Hu. set (c0 := (emit_event _ _).1).
    unfold sbind at 1, edit_queues at 1, smodify at 1. set (q1 := mark_consensus_outcome_applied pid (c_queues c0)).
    set (w := mk_watch true (Some (resolved_proposals q1)) false false None).
    assert (queues_ok None q1) as Hq1 by (by apply mark_applied_ok, Hc).
    assert (holds w (c_set_queues q1 c0)) as Hw.
    { split; [|done..]. intros _. destruct Hc as [? ? ?]. split; [|done..].
      destruct Hq1 as [? ? ? ? ? ?]. split; [done..|]. by intros b [= <-]. }
    match goal with |- is_consensus_outcome_applied (c_queues (?m (c_set_queues q1 c0)).1) pid = true =>
      assert (keeps w m) as Hk end.
    { apply preserves_bind; [keep|]. intros r. apply preserves_bind; [by apply replay_keeps|]. intros _.
      apply preserves_bind; [by apply follow_up_keeps|]. intros _.
      apply preserves_bind; [destruct (bool_decide _); [keep|by apply emergency_scored_keeps]|]. intros _.
      apply on_engine_keeps. }
    apply Hk in Hw. destruct (h_full _ _ Hw eq_refl) as [Hqs _ _ _]. pose proof (qo_pin _ _ Hqs _ eq_refl) as Hpin.
    unfold is_consensus_outcome_applied. rewrite Hpin. unfold bs_contains. apply contains_true.
    change (resolved_proposals q1) with (bs_insert pid (resolved_proposals (c_queues c0))).1.
    rewrite bs_insert_eq by apply Hc. destruct (bs_contains _ _) eqn:Hb; [by apply contains_true in Hb|].
    cbn. set_solver.
Qed.

(** The drain of the outcome bus is what its loop says: if handling the published
    outcomes one after the other, with whatever they publish in turn, empties the bus,
    then some fuel and any larger one reach the same state, with the bus empty;
    whenever the run leaves the bus empty the loop ended there. *)
Lemma drain_fuel :
  (∀ c c', drains c c' → c_bus c' = [] ∧ ∃ n, ∀ fuel, n ≤ fuel → drain_outcomes fuel c = (c', Ok tt)) ∧
  (∀ fuel c, c_bus (drain_outcomes fuel c).1 = [] → drains c (drain_outcomes fuel c).1).
Proof. split; [apply drains_fuel|apply fuel_drains]. Qed.
End system.

(** ** At concrete inputs *)

#[local] Existing Instances example_hash toy_mls canonical_hash_iter toy_consensus toy_texts toy_codec.

(** The room leaf 0 creates, and the packet by which leaf 1 leaves it. *)
Definition created : res Room :=
  assemble "g" toy_service (scoring_new (mk_in_memory ∅) ∅ scoring_config_default) (mk_engine ∅ 7)
    (duration_from_secs 1000) [xaa] config_default true.
Definition leave_packet : bytes :=
  [x04; x01; x03] ++ toy_encode_app (to_app_message (AppProposal
    (mk_proposal "p" (toy_encode_request (remove_member_request (member_id_of 1))) 9 (member_id_of 1) [] 1 1 0 0 true))).
Definition after_leave_packet (c : Room) : Room := (poll 2 (process_inbound [xbb] leave_packet c).1).1.

Definition created_room : Room := match created with Ok c => c | Err _ => room end.

Lemma created_ok : created = Ok created_room.
Proof.
  assert (is_ok created = true) as H by (by vm_compute).
  unfold created_room. destruct created; [done|discriminate H].
Qed.

Lemma reachable_states_sound_witness :
  no_duplicate_changes (approved_proposals (c_queues (after_leave_packet created_room))).
Proof.
  assert (reachable (after_leave_packet created_room)) as Hr.
  { exists created_room. split.
    { pose proof created_ok as H. unfold created in H. exact (from_assemble _ _ _ _ _ _ _ _ _ H). }
    eapply rtc_l; [apply (step_call _ (process_inbound [xbb] leave_packet)); constructor|].
    eapply rtc_l; [apply (step_poll 2)|]. apply rtc_refl. }
  pose proof (reachable_states_sound _ Hr) as [Hq _ _]. exact (qo_approved _ _ Hq).
Defined.

Example leave_is_staged :
  approved_proposals (c_queues (after_leave_packet created_room)) = [(9%N, remove_member_request (member_id_of 1))].
Proof. by vm_compute. Qed.

Lemma selection_is_transient_witness :
  ∃ out, (poll 4 room).2 = Ok out.
Proof.
  assert (current_state room ≠ Selection) as Hs by done.
  destruct (selection_is_transient room Hs) as [_ H]. destruct (H 4) as (out & Hout & _). exists out. exact Hout.
Defined.

(** The room with the leave of leaf 1 open and resolved. *)
Definition resolved_room : Room := (process_inbound [xbb] leave_packet room).1.
Definition leave_outcome : ConsensusEvent := ConsensusReached 9 true 1000.

Lemma room_ok : conv_ok room.
Proof.
  split; [by apply queues_new_ok| |by vm_compute|done].
  split; [done|by vm_compute| |done]. intros l [= <-].
  split; [by vm_compute|done|by vm_compute|]. repeat constructor; by vm_compute.
Qed.

#[local] Instance toy_wire : WireTypes.
Proof.
  assert (∀ b : byte, Byte.to_N b ≤ 255)%N as Hb by (intros b; pose proof (Byte.to_N_bounded b); lia).
  split.
  - intros g. apply N.le_min_r.
  - intros b req e. cbn. unfold toy_decode_request. repeat case_match; try done; intros [= <-]; try done.
    intros [= <-]. split; cbn; unfold u64_max, u32_max;
      match goal with |- (Byte.to_N ?b ≤ _)%N => specialize (Hb b); lia end.
  - intros b m s. cbn. unfold toy_decode_app. repeat case_match; try done; intros [= <-]; try done.
    intros [= <-]. by split.
Qed.

Lemma reachable_states_typed_witness : svc_typed (c_stewards (after_leave_packet created_room)).
Proof.
  pose proof created_ok as Ha. unfold created in Ha.
  assert (config_typed config_default) as Hc by done.
  assert (scores_typed scoring_config_default) as Hs by (split; split; by apply Z.leb_le).
  pose proof (reachable_states_typed _ _ (scoring_new (mk_in_memory ∅) ∅ scoring_config_default) _ _ _ _ _ _ (after_leave_packet created_room) Hc Hs Ha) as [H _]; [|exact H].
  eapply rtc_l; [apply lives_step, (step_call _ (process_inbound [xbb] leave_packet)); constructor|].
  eapply rtc_l; [apply lives_step, (step_poll 2)|]. apply rtc_refl.
Defined.

Lemma outcome_applied_once_witness :
  is_consensus_outcome_applied (c_queues (handle_consensus_outcome leave_outcome resolved_room).1) 9 = true.
Proof.
  assert (conv_ok resolved_room) as Hok.
  { pose proof (process_inbound_keeps (St := InMemoryPeerScoreStorage) (mk_watch true None false false None) ltac:(done) [xbb] leave_packet room) as H.
    destruct H as [H _ _]; [|by apply H]. split; [|done..]. intros _. exact room_ok. }
  destruct (outcome_applied_once leave_outcome resolved_room Hok) as [_ H].
  assert (is_consensus_outcome_applied (c_queues resolved_room) 9 = false) as Hn by (by vm_compute).
  destruct (H Hn) as (_ & _ & Ha).
  assert (∃ p, get_proposal (c_id resolved_room) 9 (c_engine resolved_room) = Ok p ∧
    decode_request (prop_payload p) = Ok (remove_member_request (member_id_of 1))) as (p & Hp & Hd).
  { eexists. split; by vm_compute. }
  exact (Ha p _ Hp Hd).
Defined.
