(* ===== verification/Joining.v ===== *)
(** * One conversation: what creator and joiner share

    [create] and [join] lead to [constructed] conversations, and what identifies a
    conversation, its id, never changes: the id salts the steward order, so members
    that disagreed on it would elect different lists. *)

From S2P Require Import Prelude Utf8 Time Machine Protos StewardList Mls Toy Buffer Queues Scoring CommitRound ApplyResult Config Display Conversation Room Voting Steward HandleOutcome Inbound Messaging Poll Construct Invariant System.

Section joining.
Context {HS : Hash} {OM : OpenMls} {CS : ConsensusLib} {CD : Codec} {CT : ConsensusTexts} {HI : HashIter}.
Context {St : Type} `{!PeerScoreStorage St}.
Abbreviation Conv := (Conversation St).
Implicit Types (c : Conv).

(** ** The identity never changes *)

(** Watching the identity, and nothing else. *)
Abbreviation same_as i := (mk_watch false None false false (Some i)).

Lemma holds_same_as i c : holds (same_as i) c ↔ identity c = i.
Proof. split; [intros [_ _ H]; by apply H|]. intros Hc. split; [done..|by intros j [= <-]]. Qed.

Lemma step_identity c c' : step c c' → identity c' = identity c.
Proof.
  intros Hs. apply holds_same_as. assert (holds (same_as (identity c)) c) as Hc by (by apply holds_same_as).
  destruct Hs as [A m c Hm|fuel c|c now _|c|c].
  - by apply (call_keeps (same_as (identity c)) A m).
  - by apply (poll_keeps (same_as (identity c)) fuel).
  - by apply (holds_same (same_as (identity c)) c).
  - by apply (holds_same (same_as (identity c)) c).
  - by apply (holds_same (same_as (identity c)) c).
Qed.

Lemma steps_identity c c' : rtc step c c' → identity c' = identity c.
Proof. induction 1 as [|c c1 c2 Hs _ IH]; [done|]. by rewrite IH, (step_identity _ _ Hs). Qed.

Lemma seed_identity members c : identity (seed_initial_members members c).1 = identity c.
Proof. apply holds_same_as, (seed_keeps (same_as (identity c))); [done..|by apply holds_same_as]. Qed.
Lemma join_identity sync c : identity ((on_joined ;! apply_welcome_sync sync) c).1 = identity c.
Proof. apply holds_same_as, (join_keeps (same_as (identity c))); [done..|by apply holds_same_as]. Qed.

Lemma assemble_identity id mls scoring e now app cfg creation c :
  assemble id mls scoring e now app cfg creation = Ok c →
  identity c = (id, member_id_of (g_own_leaf_index (mls_group mls)), app).
Proof.
  unfold assemble. destruct (config_validate cfg); [|done]. cbn. destruct (validate_config scoring); [|done]. cbn.
  destruct (bootstrap _ _ _) as [[s1 sc1] [[]|err]]; [|done]. by intros [= <-].
Qed.

(** ** Construction *)

Section setup.
Context {SU : OpenMlsSetup}.

Lemma create_ok id p cred gcfg e scoring now app cfg members c :
  create id p cred gcfg e scoring now app cfg members = Ok c →
  ∃ g, new_with_group_id p gcfg (String.list_byte_of_string id) cred = Ok g ∧ constructed c ∧
    identity c = (id, member_id_of (g_own_leaf_index g), app).
Proof.
  unfold create, new_as_creator. destruct (new_with_group_id _ _ _ _) as [g|]; [|done]. cbn [result_map_err result_bind].
  destruct (assemble _ _ _ _ _ _ _ _) as [c0|] eqn:Ha; [|done]. cbn [result_bind].
  pose proof (seed_identity members c0) as Hi. destruct (seed_initial_members members c0) as [c1 [[]|]] eqn:Hs; [|done].
  intros [= <-]. exists g. split; [done|]. split.
  - eapply from_seed; [|exact Hs]. by eapply from_assemble.
  - cbn in Hi. rewrite Hi. by apply assemble_identity in Ha.
Qed.

Lemma join_ok p welcome sync e scoring now app cfg c :
  join p welcome sync e scoring now app cfg = Ok (Some c) →
  ∃ mls, new_from_welcome p welcome = Ok (Some mls) ∧ constructed c ∧
    identity c = (mls_conversation_id mls, member_id_of (g_own_leaf_index (mls_group mls)), app).
Proof.
  unfold join. destruct (new_from_welcome p welcome) as [[mls|]|]; [|done..]. cbn [result_map_err result_bind].
  destruct (assemble _ _ _ _ _ _ _ _) as [c0|] eqn:Ha; [|done]. cbn [result_bind].
  pose proof (join_identity sync c0) as Hi. destruct ((on_joined ;! apply_welcome_sync sync) c0) as [c1 [[]|]] eqn:Hs; [|done].
  intros [= <-]. exists mls. split; [done|]. split.
  - eapply from_join; [|exact Hs]. by eapply from_assemble.
  - cbn in Hi. rewrite Hi. by apply assemble_identity in Ha.
Qed.

Lemma new_from_welcome_id p welcome mls :
  new_from_welcome p welcome = Ok (Some mls) →
  mls_conversation_id mls = String.string_of_list_byte (from_utf8_lossy (g_group_id (mls_group mls))).
Proof.
  unfold new_from_welcome. destruct (mls_message_in welcome); [|done]. cbn. destruct (extract_welcome _); [|done].
  destruct (staged_welcome_new _ _) as [sw|[]]; [|done..]. destruct (into_group _ _); [|done]. cbn. by intros [= <-].
Qed.

(** C27: everybody in a conversation calls it by the same name, for good. A
    conversation created under a Rust string and one joined from a welcome into a
    group with the creator's group id have the same id and the same steward salt,
    as the creator wrote them, and each member's own id is the leaf its group puts it
    on; through any sequence of calls, polls and packets afterwards neither member
    changes its id, its salt or its own name. A message that is no welcome, or a
    welcome the library has no matching key package or joiner secret for, joins
    nothing and is not an error. *)
Theorem conversation_shared `{!OpenMlsSetupLaws} id p1 cred gcfg e1 sc1 now1 app1 cfg1 members c1 g
    p2 welcome sync e2 sc2 now2 app2 cfg2 c2 mls c1' c2' :
  is_utf8 (String.list_byte_of_string id) →
  create id p1 cred gcfg e1 sc1 now1 app1 cfg1 members = Ok c1 →
  new_with_group_id p1 gcfg (String.list_byte_of_string id) cred = Ok g →
  join p2 welcome sync e2 sc2 now2 app2 cfg2 = Ok (Some c2) →
  new_from_welcome p2 welcome = Ok (Some mls) →
  g_group_id (mls_group mls) = g_group_id g →
  rtc step c1 c1' → rtc step c2 c2' →
  c_id c1' = id ∧ c_id c2' = id ∧
  svc_conversation_id (c_stewards c1') = String.list_byte_of_string id ∧
  svc_conversation_id (c_stewards c2') = String.list_byte_of_string id ∧
  c_self c1' = member_id_of (g_own_leaf_index g) ∧ c_self c2' = member_id_of (g_own_leaf_index (mls_group mls)) ∧
  c_app_id c1' = app1 ∧ c_app_id c2' = app2 ∧
  (∀ p w m, mls_message_in w = Ok m →
     (∀ wl, extract_welcome m = Some wl →
        staged_welcome_new p wl = Err NoMatchingKeyPackage ∨ staged_welcome_new p wl = Err JoinerSecretNotFound) →
     join p w sync e2 sc2 now2 app2 cfg2 = Ok None).
Proof.
  intros Hu (g' & Hg & Hc1 & Hi1)%create_ok Hg' Hj Hw Hsame Hr1 Hr2. rewrite Hg in Hg'. injection Hg' as <-.
  apply join_ok in Hj as (mls' & Hw' & Hc2 & Hi2). rewrite Hw in Hw'. injection Hw' as <-.
  assert (mls_conversation_id mls = id) as Hid.
  { rewrite (new_from_welcome_id _ _ _ Hw), Hsame, (new_group_id _ _ _ _ _ Hg), from_utf8_lossy_id by done.
    apply String.string_of_list_byte_of_string. }
  assert (conv_ok c1' ∧ conv_ok c2') as [Ho1 Ho2].
  { split; [apply (reachable_ok c1')|apply (reachable_ok c2')]; eexists; eauto. }
  apply steps_identity in Hr1, Hr2. rewrite Hi1 in Hr1. rewrite Hi2, Hid in Hr2.
  injection Hr1 as E1 E6 E2. injection Hr2 as E3 E4 E5.
  pose proof (so_id _ _ _ (co_stewards _ _ _ Ho1)) as S1. pose proof (so_id _ _ _ (co_stewards _ _ _ Ho2)) as S2.
  rewrite E1 in S1. rewrite E3 in S2. split_and!; try done.
  intros p w m Hm Hn. unfold join, new_from_welcome. rewrite Hm. cbn.
  destruct (extract_welcome m) as [wl|]; [|done]. by destruct (Hn wl eq_refl) as [-> | ->].
Qed.
End setup.
End joining.

(** ** At concrete inputs *)

#[local] Existing Instances example_hash toy_mls canonical_hash_iter toy_consensus toy_texts toy_codec.

Definition no_scores : PeerScoringService InMemoryPeerScoreStorage :=
  scoring_new (mk_in_memory ∅) ∅ scoring_config_default.
Definition creation : res Room :=
  create (St := InMemoryPeerScoreStorage) "g" [] [x0a] tt (mk_engine ∅ 7) no_scores 0 [xaa] config_default [[x0b]].
(** The welcome the creator's conversation hands over for its invited member. *)
Definition creation_welcome : bytes :=
  match creation with
  | Ok c => mjoin (omap (λ e, match e with EvWelcomeReady w _ => Some (welcome_bytes w) | _ => None end) (c_events c))
  | Err _ => []
  end.
(** Leaf 1 in the group the creator made. *)
Definition joined_group : ToyGroup := mk_toy {[ 0%N := [x0a]; 1%N := [x0b] ]} 1 1 [] None.
Definition joining : res (option Room) :=
  join (St := InMemoryPeerScoreStorage) [x0b] creation_welcome [] (mk_engine ∅ 7) no_scores 0 [xbb] config_default.

Lemma conversation_shared_witness :
  ∃ c1 c2, creation = Ok c1 ∧ joining = Ok (Some c2) ∧
    svc_conversation_id (c_stewards c1) = svc_conversation_id (c_stewards c2) ∧ c_self c1 = member_id_of 0 ∧ c_self c2 = member_id_of 1.
Proof.
  assert (is_ok creation = true) as H1 by (by vm_compute).
  assert (match joining with Ok (Some _) => true | _ => false end = true) as H2 by (by vm_compute).
  destruct creation as [c1|] eqn:E1; [|discriminate H1].
  destruct joining as [[c2|]|] eqn:E2; [|discriminate H2..].
  pose proof E1 as F1. unfold creation in F1. pose proof E2 as F2. unfold joining in F2.
  assert (is_utf8 (String.list_byte_of_string "g")) as Hu by (apply is_utf8_ascii; repeat constructor).
  destruct (conversation_shared _ _ _ _ _ _ _ _ _ _ c1 (mk_toy {[ 0%N := [x0a] ]} 0 0 [] None) _ _ _ _ _ _ _ _ c2
    (mk_mls (OM := toy_mls) "g" joined_group None) c1 c2 Hu F1 eq_refl F2 eq_refl eq_refl)
    as (_ & _ & S1 & S2 & Hs1 & Hs2 & _); [constructor..|].
  exists c1, c2. split_and!; [done|done|by rewrite S1, S2|exact Hs1|exact Hs2].
Defined.
