(* ===== verification/Harness.v ===== *)
(** * The harness of the integration tests: [src/tests/common/harness.rs]

    Members with a virtual clock each, wired to one bus. [process] is one driving round:
    the clocks advance, everybody polls, welcomes are routed to whom they are for, and
    what was sent is delivered to all. A test is a [Harness] that may be missing: it is
    when an [expect], an assertion or the time budget of [process_until] failed. *)

From S2P Require Import Prelude Time Machine Protos StewardList Mls Buffer Queues Scoring CommitRound ApplyResult Config Display Conversation Toy Room Voting Steward HandleOutcome Inbound Messaging Poll Construct Invariant System Joining Net.

#[local] Existing Instances example_hash net_mls net_setup net_consensus net_codec toy_texts canonical_hash_iter.

Abbreviation NetConv := (Conversation (OM := net_mls) (CS := net_consensus) InMemoryPeerScoreStorage).

(** ** A member *)

(** The integrator's side of it, its key standing for the wallet, the credential and
    the provider, and its conversation, if it has one. *)
Record TestMember := mk_test_member {
  tm_key : byte;
  tm_clock : Duration;
  tm_minted : N;
  tm_convo : option NetConv;
  tm_events : list ConversationEvent;
  tm_inbound_errors : list ConversationError;
  tm_last_sync : option bytes;
  tm_pending_config : ConversationConfig;
  tm_accepts_welcome : bool;
}.
Definition tm_set_convo (c : option NetConv) (m : TestMember) : TestMember :=
  mk_test_member (tm_key m) (tm_clock m) (tm_minted m) c (tm_events m) (tm_inbound_errors m) (tm_last_sync m)
    (tm_pending_config m) (tm_accepts_welcome m).
Definition tm_log (events : list ConversationEvent) (m : TestMember) : TestMember :=
  mk_test_member (tm_key m) (tm_clock m) (tm_minted m) (tm_convo m) (tm_events m ++ events) (tm_inbound_errors m)
    (tm_last_sync m) (tm_pending_config m) (tm_accepts_welcome m).
Definition tm_reject (e : ConversationError) (m : TestMember) : TestMember :=
  mk_test_member (tm_key m) (tm_clock m) (tm_minted m) (tm_convo m) (tm_events m) (tm_inbound_errors m ++ [e])
    (tm_last_sync m) (tm_pending_config m) (tm_accepts_welcome m).

Definition HARNESS_EPOCH : Duration := duration_from_secs 1750000000.
Definition fast_config : ConversationConfig :=
  let d := config_default in
  mk_config (duration_from_millis 50) (duration_from_millis 20) (retry_window d) (duration_from_millis 150)
    (duration_from_millis 2000) (duration_from_millis 150) (duration_from_millis 30) (pending_update_max_epochs d)
    (max_reelection_attempts d) (liveness_criteria_yes d) (max_consensus_sessions d) (commit_batch_max d) (dedup_window d)
    (recovery_auto_commit_delay d) (recovery_max_rounds d) (steward_list_config d).
Definition with_stewards (slc : StewardListConfig) (c : ConversationConfig) : ConversationConfig :=
  mk_config (commit_batch_window c) (freeze_duration c) (retry_window c) (backup_takeover_window c) (proposal_expiration c)
    (consensus_timeout c) (voting_delay c) (pending_update_max_epochs c) (max_reelection_attempts c)
    (liveness_criteria_yes c) (max_consensus_sessions c) (commit_batch_max c) (dedup_window c)
    (recovery_auto_commit_delay c) (recovery_max_rounds c) slc.

Definition signing_pubkey (m : TestMember) : bytes := [tm_key m].
Definition test_app_id (m : TestMember) : bytes := [tm_key m].
(** Every member numbers its proposals in a range of its own. *)
Definition engine_of (key : byte) : NetEngine := mk_net_engine [key] ∅ (1000 * Byte.to_N key).
Definition consensus_of (m : TestMember) : NetEngine := engine_of (tm_key m).
Definition make_scoring : PeerScoringService InMemoryPeerScoreStorage := scoring_new (mk_in_memory ∅) ∅ scoring_config_default.

Definition member_join (key : byte) (config : ConversationConfig) (slc : StewardListConfig) : TestMember :=
  mk_test_member key HARNESS_EPOCH 0 None [] [] None (with_stewards slc config) true.
Definition member_create (key : byte) (id : string) (config : ConversationConfig) (slc : StewardListConfig) : option TestMember :=
  let m := member_join key config slc in
  match create (St := InMemoryPeerScoreStorage) id (signing_pubkey m) (signing_pubkey m) tt (consensus_of m) make_scoring (tm_clock m) (test_app_id m)
    (tm_pending_config m) [] with
  | Ok c => Some (tm_set_convo (Some c) m)
  | Err _ => None
  end.

(** *** Queries *)

Definition asks {A} (d : A) (f : NetConv → A) (m : TestMember) : A := match tm_convo m with Some c => f c | None => d end.
Definition is_working : TestMember → bool := asks false (λ c, bool_decide (current_state c = Working)).
Definition tm_epoch : TestMember → N := asks 0%N mls_epoch.
Definition epoch_authenticator : TestMember → N := asks 0%N (λ c, ng_secret (mls_group (c_mls c))).
Definition member_count : TestMember → N := asks 0%N (λ c, len (g_members (mls_group (c_mls c)))).
Definition retry_round : TestMember → N := asks 0%N (λ c, next_election_round (c_stewards c)).
Definition approved_count : TestMember → N := asks 0%N (λ c, len (approved_proposals_for_current_epoch c)).
Definition tm_pending_update_count : TestMember → N := asks 0%N conv_pending_update_count.
Definition tm_is_steward : TestMember → bool := asks false conv_is_steward.
Definition tm_is_epoch_steward : TestMember → bool := asks false is_epoch_steward.
Definition tm_member_id : TestMember → option MemberId := asks None own_id.
Definition tm_state : TestMember → option ConversationState := asks None (λ c, Some (current_state c)).
Definition member_keys (m : TestMember) : list bytes :=
  sort_by bytes_cmp (asks [] (λ c, signature_key <$> g_members (mls_group (c_mls c))) m).

Definition pending_vote_request (m : TestMember) : option N :=
  head (omap (λ e, match e with EvVoteRequested pid _ => Some pid | _ => None end) (reverse (tm_events m))).
Definition consensus_outcome (pid : N) (m : TestMember) : option bool :=
  head (omap (λ e, match e with EvConsensusReached id b _ => if (id =? pid)%N then Some b else None | _ => None end)
    (reverse (tm_events m))).
Definition received (m : TestMember) : list (bytes * Member) :=
  omap (λ e, match e with EvConversationMessage (mk_app_message (Some (AppConversationMessage b _))) sender => Some (b, sender) | _ => None end)
    (tm_events m).
Definition got_chat (body : bytes) (m : TestMember) : bool := existsb (λ c : bytes * Member, bool_decide (c.1 = body)) (received m).
Definition phases_of (events : list ConversationEvent) : list ConversationState :=
  omap (λ e, match e with EvPhaseChange s => Some s | _ => None end) events.
Definition phase_changes (m : TestMember) : list ConversationState := phases_of (tm_events m).
Definition saw_phase (s : ConversationState) (m : TestMember) : bool := existsb (λ p, bool_decide (p = s)) (phase_changes m).
Definition saw_leaving (m : TestMember) : bool := existsb (λ e, match e with EvLeaving => true | _ => false end) (tm_events m).
Definition saw_expired_proposal (m : TestMember) : bool :=
  existsb (λ e, match e with Consensus ProposalExpired => true | _ => false end) (tm_inbound_errors m).
Definition welcome_readys (m : TestMember) : list (MemberWelcome * bool) :=
  omap (λ e, match e with EvWelcomeReady w local => Some (w, local) | _ => None end) (tm_events m).
Definition invites (key : bytes) (req : ConversationUpdateRequest) : bool :=
  match req_payload req with
  | Some (MemberInvite kp) => match signature_key_of_key_package kp with Ok k => bool_decide (k = key) | Err _ => false end
  | _ => false
  end.
Definition observed_invite_proposals (key : bytes) (m : TestMember) : list N :=
  dedup (sort_by N.compare (omap (λ e, match e with
    | EvVoteRequested pid req | EvOwnProposalSubmitted pid req => if invites key req then Some pid else None
    | _ => None end) (tm_events m))).
Definition committed_batches (m : TestMember) : list (list ConversationUpdateRequest) :=
  omap (λ e, match e with EvCommitApplied b => Some b | _ => None end) (tm_events m).
Definition commits_applied (m : TestMember) : N := len (committed_batches m).
Definition committed_adds (m : TestMember) : list bytes :=
  omap (λ r, match req_payload r with
    | Some (MemberInvite kp) => result_ok (signature_key_of_key_package kp)
    | _ => None end) (mjoin (committed_batches m)).

(** *** Driving *)

(** Enough for the outcomes one poll publishes. *)
Definition DRAIN : nat := 50.

Definition drives {A} (m : method NetConv A) (t : TestMember) : option (TestMember * result ConversationError A) :=
  c ← tm_convo t; let '(c, r) := m c in Some (tm_set_convo (Some c) t, r).
Definition tm_poll (t : TestMember) : TestMember := match drives (poll DRAIN) t with Some (t, _) => t | None => t end.
Definition tm_advance (d : Duration) (t : TestMember) : TestMember :=
  let now := (tm_clock t + d)%N in
  mk_test_member (tm_key t) now (tm_minted t) (tick_clock now <$> tm_convo t) (tm_events t) (tm_inbound_errors t)
    (tm_last_sync t) (tm_pending_config t) (tm_accepts_welcome t).

(** A fresh key package; its bytes. *)
Definition mint_key_package (t : TestMember) : TestMember * bytes :=
  (mk_test_member (tm_key t) (tm_clock t) (tm_minted t + 1) (tm_convo t) (tm_events t) (tm_inbound_errors t)
     (tm_last_sync t) (tm_pending_config t) (tm_accepts_welcome t), [tm_key t; byte_of_N (tm_minted t)]).
Definition withhold_welcome (t : TestMember) : TestMember :=
  mk_test_member (tm_key t) (tm_clock t) (tm_minted t) (tm_convo t) (tm_events t) (tm_inbound_errors t) (tm_last_sync t)
    (tm_pending_config t) false.
Definition rejoin (config : ConversationConfig) (t : TestMember) : TestMember :=
  mk_test_member (tm_key t) (tm_clock t) (tm_minted t) None (tm_events t) (tm_inbound_errors t) None config (tm_accepts_welcome t).

Definition tm_drain_outbound (t : TestMember) : TestMember * list Outbound :=
  match tm_convo t with
  | Some c => let '(c, out) := drain_outbound c in (tm_set_convo (Some c) t, out)
  | None => (t, [])
  end.
Definition deliver_raw (sender payload : bytes) (t : TestMember) : TestMember :=
  match drives (process_inbound sender payload) t with
  | Some (t, Err e) => tm_reject e t
  | Some (t, Ok _) => t
  | None => t
  end.
Definition deliver (packet : Outbound) : TestMember → TestMember := deliver_raw (out_sender packet) (out_payload packet).

(** An announcement is its sender and the key package. *)
Definition deliver_key_package (packet : bytes * bytes) (t : TestMember) : TestMember :=
  if bool_decide (packet.1 = test_app_id t) then t else
  if negb (is_working t) then t else
  match drives (sponsor_member packet.2) t with Some (t, _) => t | None => t end.

Definition try_accept_welcome (w : MemberWelcome) (t : TestMember) : TestMember :=
  if bool_decide (is_Some (tm_convo t)) || negb (tm_accepts_welcome t) then t else
  match join (St := InMemoryPeerScoreStorage) (signing_pubkey t) (welcome_bytes w) (conversation_sync_bytes w) (consensus_of t) make_scoring (tm_clock t)
    (test_app_id t) (tm_pending_config t) with
  | Ok (Some c) =>
      mk_test_member (tm_key t) (tm_clock t) (tm_minted t) (Some c) (tm_events t) (tm_inbound_errors t)
        (Some (conversation_sync_bytes w)) (tm_pending_config t) (tm_accepts_welcome t)
  | _ => t
  end.
Definition drain_events_collect_welcomes (t : TestMember) : TestMember * list MemberWelcome :=
  match tm_convo t with
  | Some c => let '(c, events) := drain_events c in
      (tm_log events (tm_set_convo (Some c) t), omap (λ e, match e with EvWelcomeReady w true => Some w | _ => None end) events)
  | None => (t, [])
  end.

(** ** The members on one bus *)

Record Harness := mk_harness { members : list TestMember; muted : list N }.
Definition h_set (ms : list TestMember) (h : Harness) : Harness := mk_harness ms (muted h).

Definition start (keys : list byte) (id : string) (config : ConversationConfig) (slc : StewardListConfig) : option Harness :=
  match keys with
  | [] => None
  | key :: keys => m ← member_create key id config slc; Some (mk_harness (m :: ((λ k, member_join k config slc) <$> keys)) [])
  end.

Definition is_muted (i : N) (h : Harness) : bool := bool_decide (i ∈ muted h).
Definition mute (i : N) (h : Harness) : Harness := mk_harness (members h) (i :: muted h).
Definition unmute (i : N) (h : Harness) : Harness := mk_harness (members h) (filter (λ j, j ≠ i) (muted h)).

(** Everybody in turn, with what each hands over unless it is muted. *)
Definition collect {A} (f : TestMember → TestMember * list A) (h : Harness) : Harness * list A :=
  let run := imap (λ i m, let '(m, out) := f m in (m, if is_muted (N.of_nat i) h then [] else out)) (members h) in
  (h_set run.*1 h, mjoin run.*2).
Definition to_all {A} (f : A → TestMember → TestMember) (xs : list A) (h : Harness) : Harness :=
  h_set (foldl (λ ms x, f x <$> ms) (members h) xs) h.

Definition deliver_key_package_all (packet : bytes * bytes) : Harness → Harness := to_all deliver_key_package [packet].
Definition drain_and_route_welcomes (h : Harness) : Harness :=
  let '(h, welcomes) := collect drain_events_collect_welcomes h in to_all try_accept_welcome welcomes h.
Definition relay_outbound (h : Harness) : Harness := let '(h, bus) := collect tm_drain_outbound h in to_all deliver bus h.

Definition process (step : Duration) (h : Harness) : Harness :=
  let h := h_set (tm_advance step <$> members h) h in
  let h := h_set (tm_poll <$> members h) h in
  drain_and_route_welcomes (relay_outbound (drain_and_route_welcomes h)).

(** Thirty seconds in steps of fifty milliseconds. *)
Definition STEP : Duration := duration_from_millis 50.
Fixpoint process_for (fuel : nat) (predicate : Harness → bool) (h : Harness) : option (Harness * nat) :=
  if predicate h then Some (h, 0) else
  match fuel with
  | O => None
  | S fuel => '(h, n) ← process_for fuel predicate (process STEP h); Some (h, S n)
  end.
Definition process_until (predicate : Harness → bool) (h : Harness) : option Harness := fst <$> process_for 600 predicate h.
Definition process_times (n : nat) (step : Duration) (h : Harness) : Harness := Nat.iter n (process step) h.

(** *** Queries on all *)

Definition agree_on {A} `{!EqDecision A} (f : TestMember → A) (ms : list TestMember) : bool :=
  match ms with [] => true | m :: ms => forallb (λ m', bool_decide (f m' = f m)) ms end.
Definition epochs_agree (h : Harness) : bool := agree_on tm_epoch (members h).
Definition all_working (h : Harness) : bool := forallb is_working (members h).
Definition converged (h : Harness) : bool :=
  agree_on (λ m, (tm_epoch m, epoch_authenticator m)) (filterb (λ m, bool_decide (is_Some (tm_convo m))) (members h)).
Definition membership_agrees (h : Harness) : bool := agree_on member_keys (members h).
Definition member (i : nat) (h : Harness) : option TestMember := members h !! i.
Definition holds (i : nat) (p : TestMember → bool) (h : Harness) : bool := is_some_and (members h !! i) p.

(** *** Acting through a member *)

Definition update (i : nat) (f : TestMember → TestMember) (h : Harness) : Harness := h_set (alter f i (members h)) h.
(** A call that must succeed. *)
Definition act {A} (i : nat) (m : method NetConv A) (h : Harness) : option Harness :=
  t ← members h !! i; '(t, r) ← drives m t;
  match r with Ok _ => Some (h_set (<[i := t]> (members h)) h) | Err _ => None end.
(** A call whose error is looked at. *)
Definition try_act {A} (i : nat) (m : method NetConv A) (h : Harness) : option (Harness * result ConversationError A) :=
  t ← members h !! i; '(t, r) ← drives m t; Some (h_set (<[i := t]> (members h)) h, r).
Definition mint (i : nat) (h : Harness) : option (Harness * bytes) :=
  t ← members h !! i; let '(t, kp) := mint_key_package t in Some (h_set (<[i := t]> (members h)) h, kp).
Definition announce (i : nat) (h : Harness) : option (Harness * (bytes * bytes)) :=
  '(h, kp) ← mint i h; t ← members h !! i; Some (h, (test_app_id t, kp)).
Definition take_outbound (i : nat) (h : Harness) : option (Harness * list Outbound) :=
  t ← members h !! i; let '(t, out) := tm_drain_outbound t in Some (h_set (<[i := t]> (members h)) h, out).
Definition hand (packets : list Outbound) (i : nat) : Harness → Harness := update i (λ t, foldl (λ t p, deliver p t) t packets).
(** [i] invites [j] with a fresh key package. *)
Definition invite (i j : nat) (h : Harness) : option Harness := '(h, kp) ← mint j h; act i (conv_add_member kp) h.
Definition remove (i j : nat) (h : Harness) : option Harness :=
  t ← members h !! j; id ← tm_member_id t; act i (conv_remove_member id) h.
Definition assert (b : bool) : option unit := if b then Some tt else None.
Definition passes (test : option unit) : bool := bool_decide (is_Some test).
Definition find_member (p : nat → bool) (h : Harness) : option nat := List.find p (seq 0 (length (members h))).

Definition bootstrap (keys : list byte) (id : string) (config : ConversationConfig) (slc : StewardListConfig) : option Harness :=
  h ← start keys id config slc;
  '(h, announcements) ← foldl (λ s i, '(h, ps) ← s; '(h, p) ← announce i h; Some (h, ps ++ [p]))
    (Some (h, [])) (seq 1 (length keys - 1));
  process_until (λ h, forallb is_working (tail (members h))) (foldl (λ h p, deliver_key_package_all p h) h announcements).

(** ** Every conversation on the bus is sound

    Whatever the members are and do: what the tests look at are conversations the
    invariant of [Invariant] holds of. *)

Abbreviation invariant := (mk_watch true None false false None).

Definition sound (t : TestMember) : Prop := ∀ c, tm_convo t = Some c → conv_ok c.
Definition all_sound (h : Harness) : Prop := Forall sound (members h).

Lemma conv_kept {A} (m : method NetConv A) c :
  preserves (Invariant.holds (St := InMemoryPeerScoreStorage) invariant) m → conv_ok c → conv_ok (m c).1.
Proof. intros Hm Hc%(holds_invariant false). exact (proj1 (holds_invariant false _) (Hm _ Hc)). Qed.

Lemma same_kept (c c' : NetConv) :
  identity c' = identity c → c_queues c' = c_queues c → c_stewards c' = c_stewards c → c_scoring c' = c_scoring c →
  c_sm c' = c_sm c → c_recovery_rounds c' = c_recovery_rounds c → conv_ok c → conv_ok c'.
Proof.
  intros H0 H1 H2 H3 H4 H6 Hc%(holds_invariant false).
  exact (proj1 (holds_invariant false _) (holds_same invariant c c' H0 H1 H2 H3 H4 H6 Hc)).
Qed.

Lemma drives_sound {A} (m : method NetConv A) t t' r :
  preserves (Invariant.holds (St := InMemoryPeerScoreStorage) invariant) m → sound t → drives m t = Some (t', r) → sound t'.
Proof.
  unfold drives. intros Hm Ht. destruct (tm_convo t) as [c|] eqn:E; [|done]. cbn.
  pose proof (conv_kept m c Hm (Ht c E)) as Hc. destruct (m c) as [c' r']. intros [= <- <-] c'' [= <-]. done.
Qed.
Lemma call_driven {A} (m : method NetConv A) :
  call A m → preserves (Invariant.holds (St := InMemoryPeerScoreStorage) invariant) m.
Proof. intros Hm. by apply call_keeps. Qed.

Lemma poll_sound t : sound t → sound (tm_poll t).
Proof.
  intros Ht. unfold tm_poll. destruct (drives _ t) as [[t' r]|] eqn:E; [|done].
  eapply drives_sound; [|done|done]. by apply poll_keeps.
Qed.
Lemma advance_sound d t : sound t → sound (tm_advance d t).
Proof.
  intros Ht c. cbn. destruct (tm_convo t) as [c0|] eqn:E; [|done]. intros [= <-].
  by apply (same_kept c0), Ht.
Qed.
Lemma deliver_sound p t : sound t → sound (deliver p t).
Proof.
  intros Ht. unfold deliver, deliver_raw. destruct (drives _ t) as [[t' [[]|e]]|] eqn:E; [..|done].
  all: eapply (drives_sound _ t t'); [|done|done]; apply call_driven; constructor.
Qed.
Lemma drain_outbound_sound t : sound t → sound (tm_drain_outbound t).1.
Proof. intros Ht. unfold tm_drain_outbound. destruct (tm_convo t) as [c|] eqn:E; [|done]. intros c' [= <-]. by apply (same_kept c), Ht. Qed.
Lemma drain_events_sound t : sound t → sound (drain_events_collect_welcomes t).1.
Proof.
  intros Ht. unfold drain_events_collect_welcomes. destruct (tm_convo t) as [c|] eqn:E; [|done].
  intros c' [= <-]. by apply (same_kept c), Ht.
Qed.

Lemma accept_welcome_sound w t : sound t → sound (try_accept_welcome w t).
Proof.
  intros Ht. unfold try_accept_welcome. destruct (_ || _); [done|].
  destruct (join _ _ _ _ _ _ _ _) as [[c|]|e] eqn:E; [|done..]. intros c' [= <-].
  apply join_ok in E as (mls & _ & Hc & _). by apply constructed_ok.
Qed.
Lemma deliver_key_package_sound p t : sound t → sound (deliver_key_package p t).
Proof.
  intros Ht. unfold deliver_key_package. do 2 (case_match; [done|]).
  destruct (drives _ t) as [[t' r]|] eqn:E; [|done]. eapply drives_sound; [|done|done]. apply call_driven. constructor.
Qed.
Lemma mint_sound t : sound t → sound (mint_key_package t).1.
Proof. done. Qed.

(** *** On the bus *)

Lemma map_sound (f : TestMember → TestMember) ms :
  (∀ t, sound t → sound (f t)) → Forall sound ms → Forall sound (f <$> ms).
Proof. intros Hf. induction 1; cbn; constructor; auto. Qed.
Lemma to_all_sound {A} (f : A → TestMember → TestMember) xs h :
  (∀ x t, sound t → sound (f x t)) → all_sound h → all_sound (to_all f xs h).
Proof.
  intros Hf. unfold all_sound, to_all. cbn. generalize (members h) as ms. induction xs as [|x xs IH]; cbn; [done|].
  intros ms Hms. by apply IH, map_sound; [apply Hf|].
Qed.
Lemma collect_sound {A} (f : TestMember → TestMember * list A) h :
  (∀ t, sound t → sound (f t).1) → all_sound h → all_sound (collect f h).1.
Proof.
  intros Hf. unfold all_sound, collect. cbn. intros Hms. apply Forall_fmap, Forall_lookup. intros i [t out] Hi.
  apply list_lookup_imap_Some in Hi as (t' & Hi & Heq). pose proof (Hf t' (Forall_lookup_1 _ _ _ _ Hms Hi)) as Hs.
  destruct (f t') as [t'' out'] in Hs, Heq. by injection Heq as -> _.
Qed.

Lemma route_sound h : all_sound h → all_sound (drain_and_route_welcomes h).
Proof.
  intros Hh. unfold drain_and_route_welcomes. pose proof (collect_sound _ h drain_events_sound Hh) as Hc.
  destruct (collect _ h) as [h' ws]. by apply to_all_sound; [apply accept_welcome_sound|].
Qed.
Lemma relay_sound h : all_sound h → all_sound (relay_outbound h).
Proof.
  intros Hh. unfold relay_outbound. pose proof (collect_sound _ h drain_outbound_sound Hh) as Hc.
  destruct (collect _ h) as [h' ps]. by apply to_all_sound; [apply deliver_sound|].
Qed.
Lemma process_sound d h : all_sound h → all_sound (process d h).
Proof.
  intros Hh. unfold process. apply route_sound, relay_sound, route_sound.
  apply map_sound; [apply poll_sound|]. by apply map_sound; [apply advance_sound|].
Qed.
Lemma process_for_sound fuel p h h' n : all_sound h → process_for fuel p h = Some (h', n) → all_sound h'.
Proof.
  revert h n. induction fuel as [|fuel IH]; intros h n Hh; cbn; case_match; [by intros [= <- _]|done|by intros [= <- _]|].
  intros ([h1 n1] & Hp & [= <- _])%bind_Some. exact (IH _ _ (process_sound STEP h Hh) Hp).
Qed.
Lemma try_act_sound {A} i (m : method NetConv A) h h' r : call A m → all_sound h → try_act i m h = Some (h', r) → all_sound h'.
Proof.
  intros Hm Hh. unfold try_act. intros (t & Hi & Hd)%bind_Some. apply bind_Some in Hd as ([t' r'] & Hd & [= <- _]).
  apply Forall_insert; [done|]. exact (drives_sound m t t' _ (call_driven m Hm) (Forall_lookup_1 _ _ _ _ Hh Hi) Hd).
Qed.
(** A call that must succeed is one whose error is looked at. *)
Lemma act_tried {A} i (m : method NetConv A) h h' : act i m h = Some h' → ∃ a, try_act i m h = Some (h', Ok a).
Proof.
  unfold act, try_act. destruct (members h !! i) as [t|]; [|done]. cbn. destruct (drives m t) as [[t' [a|e]]|]; [|done..].
  intros [= <-]. by exists a.
Qed.
Lemma update_sound i f h : (∀ t, sound t → sound (f t)) → all_sound h → all_sound (update i f h).
Proof. intros Hf Hh. unfold all_sound, update. cbn. apply Forall_alter; [done|]. intros t Hi Ht. by apply Hf. Qed.
Lemma start_sound keys id config slc h : start keys id config slc = Some h → all_sound h.
Proof.
  destruct keys as [|key keys]; [done|]. cbn. unfold member_create. destruct (create _ _ _ _ _ _ _ _ _ _) as [c|] eqn:E; [|done].
  intros [= <-]. constructor.
  - intros c' [= <-]. apply create_ok in E as (g & _ & Hc & _). by apply constructed_ok.
  - by apply Forall_fmap, Forall_true.
Qed.

(** What a test does to a member beside driving the bus. *)
Inductive handled : (TestMember → TestMember) → Prop :=
  | handled_poll : handled tm_poll
  | handled_advance d : handled (tm_advance d)
  | handled_deliver p : handled (deliver p)
  | handled_announced p : handled (deliver_key_package p)
  | handled_welcome w : handled (try_accept_welcome w)
  | handled_mint : handled (λ t, (mint_key_package t).1)
  | handled_take : handled (λ t, (tm_drain_outbound t).1)
  | handled_withhold : handled withhold_welcome
  | handled_rejoin config : handled (rejoin config).
Inductive drive : Harness → Harness → Prop :=
  | drive_process d h : drive h (process d h)
  | drive_act {A} i (m : method NetConv A) h h' r : call A m → try_act i m h = Some (h', r) → drive h h'
  | drive_member i f h : handled f → drive h (update i f h)
  | drive_mute i h : drive h (mute i h)
  | drive_unmute i h : drive h (unmute i h).

Lemma handled_sound f t : handled f → sound t → sound (f t).
Proof.
  intros [] Ht; eauto using poll_sound, advance_sound, deliver_sound, deliver_key_package_sound, accept_welcome_sound,
    drain_outbound_sound; intros c; [by apply Ht..|done].
Qed.

(** Whatever a test does, with any number of members, every conversation it looks at
    is sound. *)
Theorem bus_sound keys id config slc h h' :
  start keys id config slc = Some h → rtc drive h h' → all_sound h'.
Proof.
  intros Hs%start_sound Hr. induction Hr as [h|h h1 h2 Hd _ IH]; [done|]. apply IH. destruct Hd; [|..|done|done].
  - by apply process_sound.
  - by eapply try_act_sound.
  - apply update_sound; [|done]. intros t. by apply handled_sound.
Qed.
