(* ===== verification/Recovery.v ===== *)
(** * Failing elections

    An election that keeps failing escalates to a request for a recovery. *)

From S2P Require Import Prelude Time Machine Protos StewardList Mls Toy Buffer Queues Scoring CommitRound ApplyResult Config Display Conversation Room Voting Steward HandleOutcome Inbound Messaging Poll Quiet.

Section recovery.
Context {HS : Hash} {OM : OpenMls} {CS : ConsensusLib} {CD : Codec} {CT : ConsensusTexts} {HI : HashIter}.
Context {St : Type} `{!PeerScoreStorage St}.
Abbreviation Conv := (Conversation St).
Abbreviation conv := (method Conv).
Implicit Types (c : Conv).

(** *** Failing elections *)

(** Proposals and all the rest of the housekeeping leave the steward service alone. *)
#[local] Instance steady_quiet s : Quiet (λ c, c_stewards c = s).
Proof. repeat split; by intros. Qed.

Lemma advance_retry_stewards c : c_stewards (advance_election_retry c).1 = bump_retry (c_stewards c).
Proof.
  set (s := bump_retry (c_stewards c)).
  assert (∀ k : conv unit, preserves (λ c, c_stewards c = s) k → c_stewards (k (c_set_stewards s c)).1 = s) as H
    by (intros k Hk; by apply Hk).
  apply H. quiet.
Qed.

(** [k] elections that fail one after the other. *)
Fixpoint failed_elections (k : nat) c : Conv :=
  match k with O => c | S k => failed_elections k (advance_election_retry c).1 end.

Lemma failed_elections_stewards k c :
  (next_election_round (c_stewards c) ≤ u32_max)%N →
  c_stewards (failed_elections k c) =
    svc_set_round (N.min (next_election_round (c_stewards c) + N.of_nat k) u32_max) (c_stewards c).
Proof.
  revert c. induction k as [|k IH]; intros c Hr; cbn [failed_elections].
  - rewrite N.add_0_r, N.min_l by done. by destruct (c_stewards c).
  - rewrite IH; rewrite !advance_retry_stewards; unfold bump_retry, u32_saturating_add; cbn; [|lia].
    unfold svc_set_round. cbn. f_equal. lia.
Qed.

(** Two members that agree on the group: the list, the round, the members and the
    removals under way. *)
Definition same_view c c' : Prop :=
  svc_list (c_stewards c) = svc_list (c_stewards c') ∧
  next_election_round (c_stewards c) = next_election_round (c_stewards c') ∧
  members_of c ≡ₚ members_of c' ∧
  ∀ id, has_approved_removal (c_queues c) id = has_approved_removal (c_queues c') id.

(** Whom [is_deadlock_proposer] takes. *)
Definition may_file c (id : bytes) : bool :=
  bool_decide (id ∈ member_set (members_of c)) && negb (has_approved_removal (c_queues c) id).
Definition filer c : option bytes :=
  responsible_proposer (c_stewards c) (next_election_round (c_stewards c)) (members_of c) (may_file c).

Lemma authority_ext s pool f g : (∀ x, f x = g x) → authority_sequence s pool f = authority_sequence s pool g.
Proof.
  intros Hfg. unfold authority_sequence.
  rewrite (filterb_ext f g (match svc_list s with Some l => sl_members l | None => [] end)) by (intros; apply Hfg).
  do 2 f_equal. apply filterb_ext. intros x _. by rewrite Hfg.
Qed.

Lemma filer_agreed c c' : same_view c c' → filer c = filer c'.
Proof.
  intros (Hl & Hr & Hp & Hq). unfold filer, responsible_proposer. rewrite Hr.
  rewrite (authority_perm _ _ _ _ (may_file c) Hl Hp), (authority_ext _ _ (may_file c) (may_file c')); [done|].
  intros x. unfold may_file. rewrite Hq. f_equal. apply bool_decide_ext. unfold member_set.
  rewrite !elem_of_list_to_set. by rewrite Hp.
Qed.

Lemma filer_spec c m : filer c = Some m → may_file c m = true.
Proof.
  unfold filer. intros H. assert (authority_sequence (c_stewards c) (members_of c) (may_file c) ≠ []) as Hne.
  { intros E. unfold responsible_proposer in H. by rewrite E in H. }
  rewrite responsible_proposer_slot in H by done. injection H as <-.
  pose proof (slot_elem _ (N.to_nat (next_election_round (c_stewards c))) Hne) as Hs. by apply elem_of_authority in Hs as [? _].
Qed.
Lemma proposer_filer c : is_deadlock_proposer c = bool_decide (filer c = Some (c_self c)).
Proof. done. Qed.

(** A Deadlock emergency passes the gates of a proposal. *)
Lemma deadlock_passes c :
  is_in_recovery_mode c = false → c_self c ≠ [] → current_state c = Working ∨ current_state c = Reelection →
  ∃ req voters, request_recovery c = initiate_proposal req CreatorYes c ∧
    req = mk_request (Some (EmergencyCriteria (Some (with_creator (c_self c) (deadlock (mls_epoch c)))))) ∧
    in_flight_already c req = false ∧ check_proposal_allowed c (kind_of req) = Ok voters.
Proof.
  intros Hm Hs Hst. eexists _, _. split_and!; [|done|done|].
  - unfold request_recovery, sbind, sget. cbn [id]. rewrite Hm. unfold into_update_request, slift. cbn [creator_member_id with_creator].
    by destruct (c_self c).
  - unfold check_proposal_allowed, partial_freeze_blocks, kind_ltb. cbn [kind_of kind_ordinal req_payload].
    by destruct Hst as [-> | ->]; rewrite andb_false_r.
Qed.

(** C29: elections that keep failing end in one request for a recovery. After each
    failed election the retry round grows by one and the list stays; the failures
    before the limit open the next election, the ones past it file instead an
    emergency with Deadlock evidence of the current epoch, in the filer's name and
    with its own vote for it. Of all the members that agree on the list, the round, the
    members and the removals under way exactly one files it, a current member whose
    removal is not approved, if there is any; and for that member the emergency gets
    through the gates of a proposal, also while the conversation waits in
    [Reelection] under a partial freeze. *)
Theorem failed_elections_escalate c k :
  (next_election_round (c_stewards c) ≤ u32_max)%N → (max_retries (c_stewards c) < u32_max)%N →
  let ck := failed_elections k c in
  let c1 := c_set_stewards (bump_retry (c_stewards ck)) ck in
  svc_list (c_stewards ck) = svc_list (c_stewards c) ∧
  next_election_round (c_stewards ck) = N.min (next_election_round (c_stewards c) + N.of_nat k) u32_max ∧
  ((next_election_round (c_stewards c) + N.of_nat k < max_retries (c_stewards c))%N →
     advance_election_retry ck = attempt (initiate_steward_election true) c1) ∧
  ((max_retries (c_stewards c) ≤ next_election_round (c_stewards c) + N.of_nat k)%N →
     (is_deadlock_proposer c1 = false → advance_election_retry ck = (c1, Ok tt)) ∧
     (is_deadlock_proposer c1 = true → is_in_recovery_mode c1 = false → c_self c1 ≠ [] →
      current_state c1 = Working ∨ current_state c1 = Reelection →
      let evidence := mk_evidence (violation_as_i32 DeadlockV) [] [] (mls_epoch c1) (c_self c1) in
      let req := mk_request (Some (EmergencyCriteria (Some evidence))) in
      ∃ voters, in_flight_already c1 req = false ∧ check_proposal_allowed c1 (kind_of req) = Ok voters ∧
        (advance_election_retry ck).1 =
          (match initiate_proposal req CreatorYes c1 with
           | (c2, Ok _) => c2
           | (c2, Err e) => (emit_event (EvError "Reelection stuck" (error_to_string e)) c2).1
           end))) ∧
  (∀ m, m ∈ members_of c1 → has_approved_removal (c_queues c1) m = false →
     ∃ f, f ∈ members_of c1 ∧ has_approved_removal (c_queues c1) f = false ∧
       ∀ c', same_view c1 c' → (is_deadlock_proposer c' = true ↔ c_self c' = f)).
Proof.
  intros Hr Hmax ck c1. pose proof (failed_elections_stewards k c Hr) as Hs. fold ck in Hs.
  assert (∀ A (g : conv A), (edit_stewards bump_retry ;! g) ck = g c1) as Hb by done.
  unfold advance_election_retry. rewrite !Hb. unfold sbind at 1 2 3, sget. cbn [id].
  change (c_stewards c1) with (bump_retry (c_stewards ck)). rewrite Hs.
  unfold bump_retry at 1 2 3 4 5 6, u32_saturating_add. cbn [svc_set_round svc_list next_election_round max_retries].
  split_and!; [done..| | |].
  - intros Hk. destruct (N.ltb_spec (max_retries (c_stewards c))
      (N.min (N.min (next_election_round (c_stewards c) + N.of_nat k) u32_max + 1) u32_max)); [lia|done].
  - intros Hk. destruct (N.ltb_spec (max_retries (c_stewards c))
      (N.min (N.min (next_election_round (c_stewards c) + N.of_nat k) u32_max + 1) u32_max)); [|lia]. split.
    + by intros ->.
    + intros -> Hm Hself Hst. destruct (deadlock_passes c1 Hm Hself Hst) as (req & voters & Hq & Er & Hf & Hc). subst req.
      cbn zeta. exists voters. split_and!; [done..|]. unfold scatch. rewrite Hq. by destruct (initiate_proposal _ _ _) as [c2 [[]|e]].
  - intros m Hm Hrem. assert (filer c1 ≠ None) as Hne.
    { unfold filer. cut (authority_sequence (c_stewards c1) (members_of c1) (may_file c1) ≠ []).
      { intros Ha. by rewrite responsible_proposer_slot. }
      intros E. apply (not_elem_of_nil m). rewrite <-E.
      apply elem_of_authority. split; [|by right].
      unfold may_file. rewrite Hrem, andb_true_r. apply bool_decide_eq_true. unfold member_set. by apply elem_of_list_to_set. }
    destruct (filer c1) as [f|] eqn:Hf; [|done]. exists f. pose proof (filer_spec c1 f Hf) as Hmay.
    unfold may_file, member_set in Hmay. apply andb_true_iff in Hmay as [Hin%bool_decide_eq_true Ha%negb_true_iff].
    apply elem_of_list_to_set in Hin. split_and!; [done..|].
    intros c' Hv. rewrite proposer_filer, <-(filer_agreed c1 c' Hv), Hf, bool_decide_eq_true. naive_solver.
Qed.
End recovery.

(** ** At concrete inputs *)

#[local] Existing Instances example_hash toy_mls canonical_hash_iter toy_consensus toy_texts toy_codec.

(** The room waiting for an election. *)
Definition parked_room : Room := c_set_sm (mk_sm Reelection) room.

(** After the third failure the round is 3, and leaf 1 files the emergency. *)
Lemma failed_elections_escalate_witness :
  (advance_election_retry (failed_elections 2 parked_room)).2 = Ok tt ∧
  next_election_round (c_stewards (failed_elections 3 parked_room)) = 3%N ∧
  ∃ f, ∀ c' : Room,
    same_view (c_set_stewards (bump_retry (c_stewards (failed_elections 2 parked_room))) (failed_elections 2 parked_room)) c' →
    (is_deadlock_proposer c' = true ↔ c_self c' = f).
Proof.
  assert ((next_election_round (c_stewards parked_room) ≤ u32_max)%N) as H1 by (by vm_compute).
  assert ((max_retries (c_stewards parked_room) < u32_max)%N) as H2 by (by vm_compute).
  destruct (failed_elections_escalate parked_room 2 H1 H2) as (_ & _ & _ & He & Hf).
  destruct (failed_elections_escalate parked_room 3 H1 H2) as (_ & Hn & _). split_and!.
  - destruct He as [He _]; [by vm_compute|]. rewrite He; [done|by vm_compute].
  - rewrite Hn. by vm_compute.
  - destruct (Hf (member_id_of 0)) as (f & _ & _ & Hu); [|by vm_compute|by exists f].
    apply (bool_decide_unpack _). by vm_compute.
Defined.
