(* ===== verification/Candidate.v ===== *)
(** * The local candidate: what a steward puts up for the round

    [build_local_candidate] of [src/conversation/handle.rs] against a reference: which
    approved changes it picks, what it leaves in the buffer and in the group, and
    when the commit it makes is one that its peers' action check lets through. *)

From S2P Require Import Prelude Time Machine Protos StewardList Mls Toy Buffer Queues Scoring CommitRound ApplyResult Config Display Conversation Room.

Section candidate.
Context {HS : Hash} {OM : OpenMls} {CS : ConsensusLib} {CD : Codec} {CT : ConsensusTexts} {HI : HashIter}.
Context {St : Type} `{!PeerScoreStorage St}.
Abbreviation Conv := (Conversation St).
Abbreviation conv := (method Conv).
Implicit Types (c : Conv).

(** ** Which changes are picked *)

(** What one approved change adds to our commit: nothing when it is skipped. *)
Definition pick c (urgent : option bytes) (req : ConversationUpdateRequest) : res (option MlsCommitInput) :=
  match req_payload req with
  | Some (MemberInvite kp) =>
      match urgent with
      | Some _ => Ok None
      | None =>
          let? key := result_map_err Mls (signature_key_of_key_package kp) in
          Ok (if contains (signature_key <$> g_members (mls_group (c_mls c))) key then None else Some (CommitAdd kp))
      end
  | Some (RemoveMember id) =>
      Ok (if contains (members_of c) id && bool_decide (urgent = None ∨ urgent = Some id)
          then Some (CommitRemove id) else None)
  | _ => Err InvalidConversationUpdateRequest
  end.

Definition joiner_of (u : MlsCommitInput) : option bytes :=
  match u with CommitAdd kp => result_ok (signature_key_of_key_package kp) | CommitRemove _ => None end.

(** The membership change an update asks for, as the action check names it. *)
Definition update_action (u : MlsCommitInput) : option (ActionKind * bytes) :=
  match u with
  | CommitAdd kp => (λ k, (AkAdd, k)) <$> result_ok (signature_key_of_key_package kp)
  | CommitRemove id => Some (AkRemove, id)
  end.
(** ... and as the receivers of the commit read it. *)
Definition update_output (u : MlsCommitInput) : option MlsProposalOutput :=
  match u with
  | CommitAdd kp => OutAdd <$> result_ok (signature_key_of_key_package kp)
  | CommitRemove id => Some (OutRemove id)
  end.

(** A voted change that the members and the urgent target let into our commit. *)
Definition kept c (urgent : option bytes) (a : ActionKind * bytes) : Prop :=
  match a.1 with
  | AkAdd => urgent = None ∧ a.2 ∉ signature_key <$> g_members (mls_group (c_mls c))
  | AkRemove => (urgent = None ∨ urgent = Some a.2) ∧ a.2 ∈ members_of c
  end.

Lemma update_output_action u : action_projection_from_mls <$> update_output u = update_action u.
Proof. destruct u as [kp|id]; cbn; [|done]. by destruct (result_ok _). Qed.

Lemma omap_update_output (us : list MlsCommitInput) : action_projection_from_mls <$> omap update_output us = omap update_action us.
Proof.
  induction us as [|u us IH]; [done|]. cbn. rewrite <-(update_output_action u).
  destruct (update_output u); cbn; by rewrite IH.
Qed.

Lemma pick_action c urgent req o a :
  pick c urgent req = Ok o →
  o ≫= update_action = Some a ↔ action_projection_from_request req = Some a ∧ kept c urgent a.
Proof.
  unfold pick, action_projection_from_request, kept.
  destruct (req_payload req) as [[kp|id| | ]|] eqn:Er; try done.
  - destruct urgent as [t|].
    { intros [= <-]. cbn. destruct (signature_key_of_key_package kp) as [k|e]; cbn; [|naive_solver].
      split; [done|]. intros [[= <-] [? _]]. done. }
    destruct (signature_key_of_key_package kp) as [k|e] eqn:Ek; cbn; [|done]. intros [= <-].
    destruct (contains _ k) eqn:Hc; cbn.
    + apply contains_true in Hc. naive_solver.
    + apply contains_false in Hc. rewrite Ek. cbn. naive_solver.
  - intros [= <-]. unfold contains. destruct (bool_decide_reflect (id ∈ members_of c)) as [Hm|Hm]; cbn.
    + destruct (bool_decide_reflect (urgent = None ∨ urgent = Some id)); cbn; naive_solver.
    + naive_solver.
Qed.

(** The loop is a map with the picks. *)
Lemma collect_updates_ok c urgent entries ups js ups' js' :
  collect_updates c urgent entries ups js = Ok (ups', js') →
  ∃ picks, Forall2 (λ req o, pick c urgent req = Ok o) entries picks ∧
    ups' = ups ++ omap id picks ∧ js' = js ++ omap joiner_of (omap id picks).
Proof.
  revert ups js. induction entries as [|req entries IH]; intros ups js; cbn.
  { intros [= <- <-]. exists []. rewrite !app_nil_r. by split_and!. }
  assert (∀ o, pick c urgent req = Ok o →
    collect_updates c urgent entries (ups ++ option_list o) (js ++ option_list (o ≫= joiner_of)) = Ok (ups', js') →
    ∃ picks, Forall2 (λ req o, pick c urgent req = Ok o) (req :: entries) picks ∧
      ups' = ups ++ omap id picks ∧ js' = js ++ omap joiner_of (omap id picks)) as Hstep.
  { intros o Ho (picks & Hp & -> & ->)%IH. exists (o :: picks). split; [by constructor|].
    destruct o as [u|]; cbn; rewrite ?app_nil_r, <-?app_assoc; [|done].
    split; [done|]. by destruct (joiner_of u). }
  unfold pick in Hstep. destruct (req_payload req) as [[kp|rid| | ]|]; try done.
  - destruct urgent as [t|]; cbn.
    { specialize (Hstep _ eq_refl). cbn in Hstep. by rewrite !app_nil_r in Hstep. }
    destruct (signature_key_of_key_package kp) as [k|e] eqn:Ek; cbn in *; [|done].
    unfold contains in Hstep. specialize (Hstep _ eq_refl).
    destruct (existsb _ _) eqn:Hx.
    + rewrite bool_decide_true in Hstep.
      * cbn in Hstep. by rewrite !app_nil_r in Hstep.
      * apply existsb_elem in Hx as (m & Hm & Hk%bool_decide_eq_true). apply list_elem_of_fmap. eauto.
    + rewrite existsb_not_elem in Hx. rewrite bool_decide_false in Hstep.
      * cbn in Hstep. by rewrite Ek in Hstep.
      * intros (m & -> & Hm)%list_elem_of_fmap. apply Hx in Hm. by apply bool_decide_eq_false in Hm.
  - specialize (Hstep _ eq_refl). unfold contains, member_set in *.
    assert (bool_decide (rid ∈ list_to_set (C := gset bytes) (members_of c)) = bool_decide (rid ∈ members_of c)) as ->
      by (apply bool_decide_ext, elem_of_list_to_set).
    destruct (is_some_and urgent _) eqn:Hu.
    + assert (bool_decide (urgent = None ∨ urgent = Some rid) = false) as E.
      { apply bool_decide_eq_false. destruct urgent; cbn in Hu; bool_simpl; naive_solver. }
      rewrite E, andb_false_r in Hstep. cbn in Hstep. by rewrite !app_nil_r in Hstep.
    + assert (bool_decide (urgent = None ∨ urgent = Some rid) = true) as E.
      { apply bool_decide_eq_true. destruct urgent; cbn in Hu; bool_simpl; naive_solver. }
      rewrite E, andb_true_r in Hstep.
      destruct (bool_decide (rid ∈ members_of c)); cbn in *; by rewrite ?app_nil_r in Hstep.
Qed.

(** The changes our updates make are the kept ones among those looked at. *)
Lemma picked_actions c urgent entries picks a :
  Forall2 (λ req o, pick c urgent req = Ok o) entries picks →
  a ∈ omap update_action (omap id picks) ↔ a ∈ omap action_projection_from_request entries ∧ kept c urgent a.
Proof.
  induction 1 as [|req o entries picks Ho _ IH]; [set_solver|].
  assert (a ∈ omap update_action (omap id (o :: picks)) ↔
    o ≫= update_action = Some a ∨ a ∈ omap update_action (omap id picks)) as ->.
  { destruct o as [u|]; cbn; [destruct (update_action u); set_solver|]. naive_solver. }
  rewrite IH, (pick_action _ _ _ _ _ Ho). cbn.
  destruct (action_projection_from_request req); set_solver.
Qed.

(** ** Building it *)

(** The approved changes a candidate looks at: the first [commit_batch_max]. *)
Definition batch c : list ConversationUpdateRequest :=
  take (N.to_nat (commit_batch_max (c_config c))) (im_values (approved_proposals (c_queues c))).

(** Who may build one. *)
Definition may_commit c (self_member_id : bytes) : Prop :=
  is_steward (c_stewards c) self_member_id = true ∨ c_mode c = Recovery.

Lemma may_commit_iff c self :
  negb (is_steward (c_stewards c) self) && negb (is_in_recovery_mode c) = false ↔ may_commit c self.
Proof.
  unfold may_commit, is_in_recovery_mode. destruct (is_steward _ _); cbn; [naive_solver|].
  destruct (bool_decide_reflect (c_mode c = Recovery)); naive_solver.
Qed.

(** The conversation after our candidate was made: the group holds the pending
    commit and the candidate went to the buffer. *)
Definition with_candidate c (mls' : MlsService) (cand : CommitCandidate) (welcome : option bytes)
    (joiners : list bytes) : Conv :=
  c_set_queues (set_round (buffer_add cand true welcome joiners (g_epoch (mls_group mls')) (len (mls_members mls'))
    (commit_round (c_queues c))).1 (c_queues c)) (c_set_mls mls' c).

Definition own_candidate c (self_member_id : bytes) (art : CommitArtifacts) : CommitCandidate :=
  mk_candidate (name_bytes (c_queues c)) (art_proposals art) (art_commit art) self_member_id.

(** What a call of [build_local_candidate] did, result by result. *)
Definition candidate_outcome (self_member_id : bytes) c c' (r : res (option bytes)) : Prop :=
  match r with
  | Ok (Some payload) => ∃ updates joiners art mls',
      may_commit c self_member_id ∧ has_approved_removal (c_queues c) self_member_id = false ∧
      non_mls_ids c = [] ∧ updates ≠ [] ∧
      collect_updates c (urgent_commit_target (c_queues c)) (batch c) [] [] = Ok (updates, joiners) ∧
      create_commit_candidate updates (c_mls c) = (mls', Ok art) ∧
      payload = encode_app_message (to_app_message (AppCommitCandidate (own_candidate c self_member_id art))) ∧
      c' = with_candidate c mls' (own_candidate c self_member_id art) (art_welcome art) joiners
  | Ok None => c' = c ∧ may_commit c self_member_id ∧ approved_proposals (c_queues c) ≠ [] ∧
      (has_approved_removal (c_queues c) self_member_id = true ∨
       ∀ a, a ∈ omap action_projection_from_request (batch c) → ¬ kept c (urgent_commit_target (c_queues c)) a)
  | Err NotASteward => c' = c ∧ ¬ may_commit c self_member_id
  | Err NoProposals => c' = c ∧ may_commit c self_member_id ∧ approved_proposals (c_queues c) = []
  | Err (UnexpectedNonMlsProposals ids) => c' = c ∧ ids ≠ [] ∧
      ∀ id, id ∈ ids ↔ ∃ req, (id, req) ∈ approved_proposals (c_queues c) ∧ is_governance (kind_of req) = true
  | Err InvalidConversationUpdateRequest =>
      c' = c ∧ ∃ req, req ∈ batch c ∧ req_payload req = None
  | Err (Mls e) => c' = c_set_mls (c_mls c') c
  | Err _ => False
  end.

Lemma collect_updates_invalid c urgent entries ups js e :
  collect_updates c urgent entries ups js = Err e →
  (∃ e', e = Mls e') ∨
  e = InvalidConversationUpdateRequest ∧ ∃ req, req ∈ entries ∧ produces_mls_action req = false.
Proof.
  revert ups js. induction entries as [|req entries IH]; intros ups js; cbn; [done|].
  assert (∀ ups js, collect_updates c urgent entries ups js = Err e →
    (∃ e', e = Mls e') ∨ e = InvalidConversationUpdateRequest ∧
    ∃ req0, req0 ∈ req :: entries ∧ produces_mls_action req0 = false) as IH'.
  { intros ups' js' [He|(-> & r & Hr & Hp)]%IH; [by left|right; set_solver]. }
  destruct (req_payload req) as [[kp|rid| | ]|] eqn:Er.
  - destruct (bool_decide _); [apply IH'|]. destruct (signature_key_of_key_package kp); cbn.
    + destruct (existsb _ _); apply IH'.
    + intros [= <-]. left. eauto.
  - destruct (is_some_and _ _); [apply IH'|]. destruct (negb _); apply IH'.
  - intros [= <-]. right. split; [done|]. exists req. split; [set_solver|]. unfold produces_mls_action. by rewrite Er.
  - intros [= <-]. right. split; [done|]. exists req. split; [set_solver|]. unfold produces_mls_action. by rewrite Er.
  - intros [= <-]. right. split; [done|]. exists req. split; [set_solver|]. unfold produces_mls_action. by rewrite Er.
Qed.

Lemma elem_of_non_mls_ids c id :
  id ∈ non_mls_ids c ↔ ∃ req, (id, req) ∈ approved_proposals (c_queues c) ∧ is_governance (kind_of req) = true.
Proof.
  unfold non_mls_ids. rewrite list_elem_of_fmap. split.
  - intros ([i req] & -> & [Hg Hin]%elem_of_filterb). eauto.
  - intros (req & Hin & Hg). exists (id, req). split; [done|]. by apply elem_of_filterb.
Qed.

Lemma batch_no_governance c req :
  non_mls_ids c = [] → req ∈ batch c → produces_mls_action req = false → req_payload req = None.
Proof.
  intros Hn Hin Hp. unfold batch in Hin. apply elem_of_take in Hin as (i & Hi & _).
  apply list_elem_of_lookup_2, list_elem_of_fmap in Hi as ([id req'] & -> & Hin). cbn in *.
  destruct (decide (is_governance (kind_of req') = true)) as [Hg|Hg].
  - assert (id ∈ non_mls_ids c) as H by (apply elem_of_non_mls_ids; eauto). rewrite Hn in H. set_solver.
  - unfold kind_of, produces_mls_action in *. destruct (req_payload req') as [[]|]; naive_solver.
Qed.

Lemma build_outcome self c c' r :
  build_local_candidate self c = (c', r) → candidate_outcome self c c' r.
Proof.
  unfold build_local_candidate. unfold sbind at 1, sget. cbn [id].
  destruct (negb (is_steward _ _) && _) eqn:Ha.
  { intros [= <- <-]. split; [done|]. intros H%may_commit_iff. by rewrite H in Ha. }
  apply may_commit_iff in Ha.
  destruct (bool_decide_reflect (approved_proposals (c_queues c) = [])) as [He|He]; [by intros [= <- <-]|].
  destruct (has_approved_removal _ _) eqn:Hr; [intros [= <- <-]; split_and!; [done..|by left]|].
  destruct (bool_decide_reflect (non_mls_ids c = [])) as [Hn|Hn]; cbn [negb]; last first.
  { intros [= <- <-]. split_and!; [done..|]. intros i. apply elem_of_non_mls_ids. }
  fold (batch c). unfold sbind at 1, slift.
  destruct (collect_updates _ _ _ _ _) as [[ups js]|e] eqn:Hc; last first.
  { intros [= <- <-]. apply collect_updates_invalid in Hc as [(e' & ->)|(-> & req & Hin & Hp)].
    - by destruct c.
    - split; [done|]. exists req. split; [done|]. by apply (batch_no_governance c). }
  pose proof (collect_updates_ok _ _ _ _ _ _ _ Hc) as (picks & Hp & Hu & _). cbn in Hu. subst ups.
  destruct (bool_decide_reflect (omap id picks = [])) as [Hz|Hz].
  { intros [= <- <-]. split_and!; [done..|]. right. intros a Ha' Hk.
    assert (a ∈ omap update_action (omap id picks)) as Hin by (by apply (picked_actions c (urgent_commit_target (c_queues c)) _ _ _ Hp)).
    rewrite Hz in Hin. set_solver. }
  unfold sbind at 1, on_mls. destruct (create_commit_candidate _ _) as [mls' [art|e]] eqn:Hm; cbn.
  - intros [= <- <-]. exists (omap id picks), js, art, mls'. split_and!; try done. 
  - intros [= <- <-]. by destruct c.
Qed.

(** C11: what a steward commits is the voted set, and when it is not. A candidate is
    only built by a steward or in recovery, over approved work that does not remove
    the builder and holds no governance proposal; its updates are exactly the changes
    among the first [commit_batch_max] approvals that the urgent target and the
    members let through; it is announced and buffered for the group's epoch, and
    only the group and the round change. The peers' action check, which compares
    with the whole voted set, lets such a commit through exactly when no voted
    change was left out: one over the batch limit, off the urgent target, an invite
    of a current member or a removal of a stranger makes every peer reject it. *)
Theorem own_commit_exact self c c' payload :
  build_local_candidate self c = (c', Ok (Some payload)) →
  ∃ updates joiners art mls',
    may_commit c self ∧ has_approved_removal (c_queues c) self = false ∧ non_mls_ids c = [] ∧ updates ≠ [] ∧
    create_commit_candidate updates (c_mls c) = (mls', Ok art) ∧
    payload = encode_app_message (to_app_message (AppCommitCandidate (own_candidate c self art))) ∧
    c' = with_candidate c mls' (own_candidate c self art) (art_welcome art) joiners ∧
    (∀ a, a ∈ omap update_action updates ↔
       a ∈ omap action_projection_from_request (batch c) ∧ kept c (urgent_commit_target (c_queues c)) a) ∧
    ∀ sender ctx,
      validate_commit_candidate (c_queues c) sender (omap update_output updates) ctx = None ↔
      ∀ a, a ∈ voted_actions (c_queues c) →
        a ∈ omap action_projection_from_request (batch c) ∧ kept c (urgent_commit_target (c_queues c)) a.
Proof.
  intros (ups & js & art & mls' & Hm & Hr & Hn & Hu & Hc & Ha & Hp & Hc')%build_outcome.
  exists ups, js, art, mls'. do 7 (split; [done|]).
  apply collect_updates_ok in Hc as (picks & Hf & -> & _). cbn in *.
  assert (∀ a, a ∈ omap update_action (omap id picks) ↔
     a ∈ omap action_projection_from_request (batch c) ∧ kept c (urgent_commit_target (c_queues c)) a) as Hacts.
  { intros a. by apply picked_actions. }
  split; [exact Hacts|]. intros sender ctx. rewrite validate_none_iff, omap_update_output. setoid_rewrite Hacts.
  split; [naive_solver|]. intros Hall a. split; [naive_solver|]. intros [Hin _].
  apply list_elem_of_omap in Hin as (req & Hin & Hq). apply list_elem_of_omap. exists req. split; [|done].
  unfold batch in Hin. apply elem_of_take in Hin as (i & Hi & _). by eapply list_elem_of_lookup_2.
Qed.

(** Every call of the builder that ends without a candidate left everything as
    it was, and says why: not allowed to commit, nothing approved, our own removal
    approved or nothing to commit, a governance proposal among the approved ones
    (which it names), or an approved request without a payload. Only an MLS error
    may have touched the group, and no other error comes out. *)
Theorem no_candidate_reason self c c' r :
  build_local_candidate self c = (c', r) →
  (∀ payload, r ≠ Ok (Some payload)) →
  candidate_outcome self c c' r ∧ c_queues c' = c_queues c ∧ c_outbound c' = c_outbound c ∧
  ((∀ e, r ≠ Err (Mls e)) → c' = c).
Proof.
  intros H%build_outcome Hns. split; [done|].
  destruct r as [[payload|]|e]; [by destruct (Hns payload)|by destruct H as [-> _]|].
  destruct e; cbn in H; try done; try by destruct H as [-> _].
  rewrite H. split_and!; [done..|]. intros Hne. by destruct (Hne e).
Qed.

(** ** Sending it again *)

Lemma find_app_none {A} (f : A → bool) l l' :
  existsb f l = false → List.find f (l ++ l') = List.find f l'.
Proof. induction l as [|x l IH]; cbn; [done|]. destruct (f x); [done|apply IH]. Qed.

Lemma find_existsb_none {A} (f : A → bool) l : existsb f l = false → List.find f l = None.
Proof. induction l as [|x l IH]; cbn; [done|]. destruct (f x); [done|apply IH]. Qed.

Lemma buffer_add_local cand w js e cap b :
  has_local_candidate b = false →
  let held := if (buf_epoch b =? e)%N then candidates b else [] in
  let b' := (buffer_add cand true w js e cap b).1 in
  if bool_decide (compute_commit_hash (commit_message cand) ∉ commit_hash <$> held) && (len held <? cap)%N
  then local_candidate_bytes b' = Some (encode_app_message (to_app_message (AppCommitCandidate cand)))
  else local_candidate_bytes b' = None.
Proof.
  intros Hl held b'. unfold b', buffer_add. set (b0 := if (buf_epoch b =? e)%N then b else mk_buffer e []).
  assert (candidates b0 = held) as Hc by (unfold b0, held; by case_match).
  assert (existsb is_local_candidate held = false) as Hl0 by (unfold held; by case_match).
  rewrite Hc. set (h := compute_commit_hash _). clearbody h.
  assert (existsb (λ d, bool_decide (commit_hash d = h)) held = negb (bool_decide (h ∉ commit_hash <$> held))) as ->.
  { apply eq_true_iff_eq. rewrite existsb_elem, negb_true_iff, bool_decide_eq_false.
    setoid_rewrite bool_decide_eq_true. split.
    - intros (d & Hd & <-) Hnin. apply Hnin. by apply list_elem_of_fmap_2.
    - intros Hin%dec_stable. apply list_elem_of_fmap in Hin as (d & -> & Hd). eauto. }
  destruct (bool_decide (h ∉ commit_hash <$> held)); cbn [negb andb]; unfold local_candidate_bytes; cbn [fst].
  - rewrite N.leb_antisym. destruct (len held <? cap)%N; cbn [negb fst candidates].
    + by rewrite find_app_none.
    + by rewrite Hc, find_existsb_none.
  - by rewrite Hc, find_existsb_none.
Qed.

(** C35: a candidate is sent again unchanged. When the round held no candidate of
    ours, minting broadcasts exactly one message. A later [resend_commit] repeats
    that very message and changes nothing else, provided the buffer took the
    candidate; when it did not, because as many candidates as the group has members
    were already collected or one has the same commit, the message is out all the
    same but the round holds no candidate of ours and nothing is sent again. *)
Theorem resend_repeats_candidate c c1 :
  mint_and_broadcast_candidate c = (c1, Ok true) →
  has_local_candidate (commit_round (c_queues c)) = false →
  ∃ cand payload e, let b := commit_round (c_queues c) in
    let held := if (buf_epoch b =? e)%N then candidates b else [] in
    payload = encode_app_message (to_app_message (AppCommitCandidate cand)) ∧
    steward_member_id cand = c_self c ∧ e = mls_epoch c1 ∧
    c_outbound c1 = c_outbound c ++ [mk_outbound (c_id c) (c_app_id c) payload] ∧
    resend_commit c1 =
      if bool_decide (compute_commit_hash (commit_message cand) ∉ commit_hash <$> held)
         && (len held <? len (members_of c1))%N
      then (c_set_outbound (c_outbound c1 ++ [mk_outbound (c_id c1) (c_app_id c1) payload]) c1, Ok true)
      else (c1, Ok false).
Proof.
  unfold mint_and_broadcast_candidate, sbind at 1, sget, sbind.
  destruct (build_local_candidate (c_self c) c) as [c0 [[payload|]|e]] eqn:E; [|done..].
  apply build_outcome in E as (ups & js & art & mls' & _ & _ & _ & _ & _ & _ & -> & ->).
  intros [= <-] Hl. exists (own_candidate c (c_self c) art),
    (encode_app_message (to_app_message (AppCommitCandidate (own_candidate c (c_self c) art)))), (g_epoch (mls_group mls')).
  split_and!; [done..|].
  unfold resend_commit, sbind, sget. cbn -[local_candidate_bytes buffer_add compute_commit_hash].
  pose proof (buffer_add_local (own_candidate c (c_self c) art) (art_welcome art) js (g_epoch (mls_group mls'))
    (len (mls_members mls')) _ Hl) as H. cbn zeta in H.
  change (members_of _) with (mls_members mls').
  cbn -[local_candidate_bytes buffer_add compute_commit_hash] in H.
  destruct (bool_decide _ && _); by rewrite H.
Qed.
End candidate.

(** ** The properties at concrete inputs *)

#[local] Existing Instances example_hash toy_mls canonical_hash_iter toy_consensus toy_texts toy_codec.

(** The room with the admission of key [0c] and the removal of a stranger approved. *)
Definition inviting_room : Room :=
  c_set_queues (insert_approved_proposal 5 (member_invite_request [x0c]) (c_queues room)) room.
Definition stale_room : Room :=
  c_set_queues (insert_approved_proposal 6 (remove_member_request (member_id_of 9)) (c_queues inviting_room)) inviting_room.

Lemma own_commit_exact_witness :
  (∃ updates, validate_commit_candidate (c_queues inviting_room) (member_id_of 0) (omap update_output updates) round_ctx = None) ∧
  (∃ updates, validate_commit_candidate (c_queues stale_room) (member_id_of 0) (omap update_output updates) round_ctx ≠ None).
Proof.
  split.
  - destruct (build_local_candidate (member_id_of 0) inviting_room) as [c1 r1] eqn:E1.
    pose proof (f_equal snd E1) as H1. vm_compute in H1. subst r1.
    apply own_commit_exact in E1 as (ups & _ & _ & _ & _ & _ & _ & _ & _ & _ & _ & _ & Hv).
    exists ups. apply Hv. intros a Ha. cbn in Ha. apply list_elem_of_singleton in Ha as ->.
    split; [apply (bool_decide_unpack _); by vm_compute|]. split; [done|]. apply (bool_decide_unpack _); by vm_compute.
  - destruct (build_local_candidate (member_id_of 0) stale_room) as [c2 r2] eqn:E2.
    pose proof (f_equal snd E2) as H2. vm_compute in H2. subst r2.
    apply own_commit_exact in E2 as (ups & _ & _ & _ & _ & _ & _ & _ & _ & _ & _ & _ & Hv).
    exists ups. intros Hn. pose proof (proj1 (Hv _ _) Hn (AkRemove, member_id_of 9)) as [_ [_ Hk]].
    { apply (bool_decide_unpack _). by vm_compute. }
    revert Hk. apply (bool_decide_unpack _). by vm_compute.
Defined.

Lemma no_candidate_reason_witness :
  candidate_outcome (member_id_of 7) inviting_room inviting_room (Err NotASteward).
Proof.
  destruct (build_local_candidate (member_id_of 7) inviting_room) as [c1 r1] eqn:E1.
  pose proof (f_equal snd E1) as H1. vm_compute in H1. subst r1.
  pose proof (no_candidate_reason _ _ _ _ E1 ltac:(done)) as (H & _ & _ & Hc).
  assert (c1 = inviting_room) as -> by (apply Hc; discriminate). exact H.
Defined.

Lemma resend_repeats_candidate_witness :
  ∃ c1, mint_and_broadcast_candidate inviting_room = (c1, Ok true) ∧ length (c_outbound c1) = 1.
Proof.
  destruct (mint_and_broadcast_candidate inviting_room) as [c1 r1] eqn:E1.
  pose proof (f_equal snd E1) as H1. vm_compute in H1. subst r1. exists c1. split; [done|].
  pose proof (resend_repeats_candidate _ _ E1 eq_refl) as (cand & payload & e & _ & _ & _ & Ho & _).
  rewrite Ho. reflexivity.
Defined.
