(* ===== verification/Agreement.v ===== *)
(** * Agreement: two members finish a round with the same commit

    The commit round ([CommitRound]) seen from two members at once. [OpenMlsPeers]
    states what MLS gives two members of one group at one epoch: a message of a third
    one reads the same for both. On top of it every member tries the same candidates
    in the same order and stops at the same one. *)

From S2P Require Import Prelude Time Machine Protos StewardList Mls Toy Buffer Queues Scoring CommitRound ApplyResult Config Display Conversation Room Candidate.

(** ** Two views of one group *)

(** [peers i j g1 g2]: [g1] and [g2] are the views the members at leaves [i] and [j]
    have of one group at one epoch. Their own pending proposals may differ. A member
    reads the others' messages, not its own. *)
Class OpenMlsPeers {OM : OpenMls} := {
  peers : N → N → MlsGroup → MlsGroup → Prop;
  sent_by : N → ProtocolMessage → Prop;
  same_proposal : QueuedProposal → QueuedProposal → Prop;
  same_staged : StagedCommit → StagedCommit → Prop;
}.

(** What a processed message says. *)
Definition same_processed {OM : OpenMls} {PR : OpenMlsPeers}
    (p1 p2 : Sender * ProcessedContent QueuedProposal StagedCommit) : Prop :=
  p1.1 = p2.1 ∧
  match p1.2, p2.2 with
  | ProposalMessage a, ProposalMessage b => same_proposal a b
  | StagedCommitMessage a, StagedCommitMessage b => same_staged a b
  | ApplicationMessage a, ApplicationMessage b => a = b
  | OtherContent, OtherContent => True
  | _, _ => False
  end.

Class OpenMlsPeersLaws {OM : OpenMls} {PR : OpenMlsPeers} : Prop := {
  peers_epoch i j g1 g2 : peers i j g1 g2 → g_epoch g1 = g_epoch g2;
  peers_group_id i j g1 g2 : peers i j g1 g2 → g_group_id g1 = g_group_id g2;
  peers_members i j g1 g2 : peers i j g1 g2 → g_members g1 = g_members g2;
  same_staged_actions a b : same_staged a b →
    sc_add_signature_keys a = sc_add_signature_keys b ∧ sc_removed_leaves a = sc_removed_leaves b;
  peers_process i j pm : ¬ sent_by i pm → ¬ sent_by j pm →
    related (peers i j) same_processed (process_message pm) (process_message pm);
  peers_store i j a b : same_proposal a b →
    related (peers i j) (λ _ _, True) (store_pending_proposal a) (store_pending_proposal b);
  peers_clear i j : related (peers i j) (λ _ _, True) clear_pending_proposals clear_pending_proposals;
}.

(** Two candidates with the same wire content, whoever buffered them. *)
Definition same_candidate (c1 c2 : BufferedCommitCandidate) : Prop :=
  candidate_msg c1 = candidate_msg c2 ∧ commit_hash c1 = commit_hash c2.

(** A candidate as every member sees it. *)
Definition public (c : BufferedCommitCandidate) : BufferedCommitCandidate :=
  mk_buffered (candidate_msg c) (commit_hash c) false None [].

Lemma same_candidate_public c1 c2 : same_candidate c1 c2 ↔ public c1 = public c2.
Proof. unfold same_candidate, public. split; [by intros [-> ->]|by intros [= -> ->]]. Qed.

Section staging.
Context {HS : Hash} {OM : OpenMls} {PR : OpenMlsPeers} {PL : OpenMlsPeersLaws}.
Context (i j : N).

(** The staged commits two services hold, if any. *)
Definition same_slot (o1 o2 : option StagedCommit) : Prop :=
  match o1, o2 with Some a, Some b => same_staged a b | None, None => True | _, _ => False end.
Definition peer_services (s1 s2 : MlsService) : Prop :=
  peers i j (mls_group s1) (mls_group s2) ∧ same_slot (pending_staged_commit s1) (pending_staged_commit s2).

(** A message neither of the two members sent. *)
Definition foreign (b : bytes) : Prop :=
  ∀ pm, parse_protocol_message b = Ok pm → ¬ sent_by i pm ∧ ¬ sent_by j pm.

Lemma related_on_group {A B} (Q : A → B → Prop) f1 f2 m1 m2 :
  related (peers i j) Q m1 m2 → related peer_services Q (on_group f1 m1) (on_group f2 m2).
Proof.
  intros Hm s1 s2 [Hs Hsl]. destruct (Hm _ _ Hs) as [Hg Hr]. unfold on_group, peer_services in *.
  by destruct (m1 (mls_group s1)) as [g1 [a|e]], (m2 (mls_group s2)) as [g2 [b|e']]; cbn in *.
Qed.

(** What staging says, up to the member it says it to. *)
Definition same_staging (r1 r2 : StagedCandidateResult) : Prop :=
  match r1, r2 with
  | ScStaged s1 _ a1, ScStaged s2 _ a2 => s1 = s2 ∧ a1 = a2
  | ScAborted, ScAborted => True
  | ScBundleSenderMismatch s1, ScBundleSenderMismatch s2 => s1 = s2
  | _, _ => False
  end.

Lemma related_parse {A} (Q : A → A → Prop) b k1 k2 :
  foreign b →
  (∀ pm, ¬ sent_by i pm → ¬ sent_by j pm → related peer_services Q (k1 pm) (k2 pm)) →
  related peer_services Q (sbind (slift (parse_protocol_message b)) k1) (sbind (slift (parse_protocol_message b)) k2).
Proof.
  intros Hf Hk. unfold foreign in Hf. destruct (parse_protocol_message b) as [pm|e].
  - specialize (Hf pm eq_refl) as [Hi Hj]. intros s1 s2 Hs. by apply Hk.
  - intros s1 s2 Hs. by split.
Qed.

Lemma related_process pm :
  ¬ sent_by i pm → ¬ sent_by j pm →
  related peer_services same_processed (on_group ProcessMessage (process_message pm))
    (on_group ProcessMessage (process_message pm)).
Proof. intros Hi Hj. by apply related_on_group, peers_process. Qed.

Lemma stage_proposals_related ps acc :
  (∀ p, p ∈ ps → foreign p) → related peer_services eq (stage_proposals ps acc) (stage_proposals ps acc).
Proof.
  revert acc. induction ps as [|p ps IH]; intros acc Hf; [by apply related_ret|].
  cbn. apply related_parse; [apply Hf; set_solver|]. intros pm Hi Hj.
  apply (related_bind _ same_processed); [by apply related_process|].
  intros [sd1 c1] [sd2 c2] [Hsd Hc]. cbn in Hsd, Hc. subst sd2. destruct sd1 as [idx|]; [|by apply related_ret].
  destruct c1 as [?|qp1|?|], c2 as [?|qp2|?|]; try done; try by apply related_ret.
  apply (related_bind _ (λ _ _, True)).
  - by apply related_on_group, peers_store.
  - intros _ _ _. apply IH. set_solver.
Qed.

Lemma staged_actions_same a b : same_staged a b → staged_actions a = staged_actions b.
Proof. intros [Ha Hr]%same_staged_actions. unfold staged_actions. by rewrite Ha, Hr. Qed.

(** The two members read a third one's candidate alike. *)
Lemma stage_remote_commit_related ps cb :
  (∀ p, p ∈ ps → foreign p) → foreign cb →
  related peer_services same_staging (stage_remote_commit ps cb) (stage_remote_commit ps cb).
Proof.
  intros Hps Hcb. unfold stage_remote_commit.
  apply (related_bind _ eq); [by apply stage_proposals_related|]. intros senders ? <-.
  destruct senders as [senders|]; [|by apply related_ret].
  apply related_parse; [done|]. intros pm Hi Hj.
  apply (related_bind _ peer_services); [by apply related_get|]. intros s1 s2 [Hs _].
  rewrite (peers_group_id _ _ _ _ Hs), (peers_epoch _ _ _ _ Hs).
  destruct (negb _); [by apply related_ret|]. destruct (N.ltb _ _); [by apply related_ret|].
  apply (related_bind _ same_processed); [by apply related_process|].
  intros [sd1 c1] [sd2 c2] [Hsd Hc]. cbn in Hsd, Hc. subst sd2. destruct sd1 as [idx|]; [|by apply related_ret].
  destruct c1 as [?|?|sc1|], c2 as [?|?|sc2|]; try done; try by apply related_ret.
  destruct (existsb _ senders); [by apply related_ret|].
  apply (related_bind _ (λ _ _, True)); [apply related_modify; by intros ? ? [? _]|]. intros _ _ _.
  apply related_ret. split; [done|]. by apply staged_actions_same.
Qed.

(** ** The round at two members *)

(** The same voted changes over two views of one group. The maps of approved
    proposals may be in different orders. *)
Definition same_round (st1 st2 : RoundState) : Prop :=
  peer_services st1.2 st2.2 ∧ approved_proposals st1.1 ≡ₚ approved_proposals st2.1.

(** Two snapshots that differ at most in who is asking. *)
Definition same_context (x1 x2 : RoundContext) : Prop :=
  mls_count x1 = mls_count x2 ∧ ctx_current_epoch x1 = ctx_current_epoch x2 ∧
  in_recovery x1 = in_recovery x2 ∧ epoch_steward_id x1 = epoch_steward_id x2.

Definition foreign_candidate (c : BufferedCommitCandidate) : Prop :=
  (∀ p, p ∈ mls_proposals (candidate_msg c) → foreign p) ∧ foreign (commit_message (candidate_msg c)).

Definition same_staging_outcome (r1 r2 : StagingOutcome) : Prop :=
  match r1, r2 with
  | StStaged s1 _ a1, StStaged s2 _ a2 => s1 = s2 ∧ a1 = a2
  | StAbort, StAbort => True
  | StViolation v1, StViolation v2 => v1 = v2
  | _, _ => False
  end.

Lemma stage_candidate_related c x1 x2 :
  foreign_candidate c → same_context x1 x2 →
  related same_round same_staging_outcome (stage_candidate (candidate_msg c) x1) (stage_candidate (candidate_msg c) x2).
Proof.
  intros [Hps Hcb] (_ & He & _) [q1 m1] [q2 m2] [Hm Hq]. cbn in Hm, Hq.
  pose proof (stage_remote_commit_related _ _ Hps Hcb m1 m2 Hm) as [Hm' Hr]. unfold stage_candidate. rewrite He.
  destruct (stage_remote_commit _ _ m1) as [m1' r1], (stage_remote_commit _ _ m2) as [m2' r2]. cbn in *.
  split; [done|]. destruct r1 as [[]|], r2 as [[]|]; cbn in *; try done.
  - destruct Hr as [<- <-]. by destruct (negb _).
  - by subst.
Qed.

Lemma voted_actions_perm q1 q2 : approved_proposals q1 ≡ₚ approved_proposals q2 → voted_actions q1 ≡ₚ voted_actions q2.
Proof. intros H. unfold voted_actions, im_values. by rewrite H. Qed.

Lemma validate_same q1 q2 sender acts x1 x2 :
  approved_proposals q1 ≡ₚ approved_proposals q2 → same_context x1 x2 →
  validate_commit_candidate q1 sender acts x1 = validate_commit_candidate q2 sender acts x2.
Proof.
  intros Hq (_ & He & _). unfold validate_commit_candidate. rewrite He.
  fold (voted_actions q1) (voted_actions q2).
  assert (dedup (sort_by action_cmp (voted_actions q1)) = dedup (sort_by action_cmp (voted_actions q2))) as ->.
  { apply (sort_dedup_set_eq action_cmp action_cmp_eq). intros a. by rewrite (voted_actions_perm _ _ Hq). }
  done.
Qed.

Lemma check_authorized_same sl sender x1 x2 :
  same_context x1 x2 → check_commit_sender_authorized sl sender x1 = check_commit_sender_authorized sl sender x2.
Proof. intros (_ & He & Hr & _). unfold check_commit_sender_authorized. by rewrite He, Hr. Qed.

Lemma reject_staged_same p1 p2 st1 st2 t1 t2 o1 o2 :
  same_round st1 st2 → reject_staged p1 st1 = (t1, Ok o1) → reject_staged p2 st2 = (t2, Ok o2) →
  same_round t1 t2 ∧ o1 = Drop p1 ∧ o2 = Drop p2.
Proof.
  intros [Hm Hq] H1 H2. pose proof (reject_staged_drop _ _ _ _ H1) as (-> & Hq1 & _).
  pose proof (reject_staged_drop _ _ _ _ H2) as (-> & Hq2 & _).
  split; [|done]. split; [|by rewrite Hq1, Hq2]. destruct Hm as [Hm _].
  destruct st1 as [q1 m1], st2 as [q2 m2]. unfold reject_staged, sbind, with_mls, discard_staged_commit in H1, H2.
  unfold sbind, smodify, on_group in H1, H2. cbn -[set_group set_staged] in H1, H2.
  pose proof (peers_clear i j _ _ Hm) as [Hg _]. cbn in Hg.
  cbn in H1, H2. destruct (clear_pending_proposals (mls_group m1)) as [g1 [[]|e1]]; [|done].
  destruct (clear_pending_proposals (mls_group m2)) as [g2 [[]|e2]]; [|done].
  injection H1 as <-. injection H2 as <-. by split.
Qed.

(** Why a staged candidate is refused, with its penalty; [None] when it is merged. *)
Definition refusal (sl : StewardListService) (q : ConversationQueues) (x : RoundContext) (r : StagingOutcome) :
    option (option ScoreOp) :=
  match r with
  | StAbort => Some None
  | StViolation v => Some (target_score_op v)
  | StStaged sender _ acts =>
      match check_commit_sender_authorized sl sender x with
      | Some v => Some (target_score_op v)
      | None => target_score_op <$> validate_commit_candidate q sender acts x
      end
  end.

Lemma apply_incoming_verdict sl c x st t o :
  apply_incoming_candidate sl c x st = (t, Ok o) →
  ∃ s1 staging, stage_candidate (candidate_msg c) x st = (s1, Ok staging) ∧ s1.1 = st.1 ∧
    match refusal sl st.1 x staging with
    | Some p => reject_staged p s1 = (t, Ok o)
    | None => ∃ out b, o = Terminal out (steward_member_id (candidate_msg c)) b
    end.
Proof.
  destruct st as [q mls]. unfold apply_incoming_candidate. rewrite sbind_ok. intros (s1 & staging & Hst & H).
  exists s1, staging. split; [done|]. pose proof (stage_candidate_queues _ _ _ _ _ _ Hst) as Hq. split; [done|].
  destruct staging as [sender sr acts| |v]; cbn [refusal]; [|done..].
  destruct (check_commit_sender_authorized sl sender x) as [v|]; [done|].
  rewrite sbind_ok in H. destruct H as (s2 & q2 & [= <- <-] & H). rewrite Hq in H. cbn [fst].
  destruct (validate_commit_candidate q sender acts x) as [v|]; [done|]. cbn.
  apply stage_candidate_staged in Hst as (_ & -> & _).
  repeat (rewrite sbind_ok in H; destruct H as (? & ? & ? & H)). injection H as _ <-. eauto.
Qed.

Lemma apply_local_verdict c x st t o :
  apply_local_candidate c x st = (t, Ok o) → ∃ out b, o = Terminal out (steward_member_id (candidate_msg c)) b.
Proof.
  unfold apply_local_candidate. intros H.
  repeat (rewrite sbind_ok in H; destruct H as (? & ? & ? & H)). injection H as _ <-. eauto.
Qed.

Lemma apply_one_committer sl c x st t out com b :
  apply_one sl c x st = (t, Ok (Terminal out com b)) → com = steward_member_id (candidate_msg c).
Proof.
  unfold apply_one. destruct (is_local_candidate c).
  - intros (? & ? & [= _ -> _])%apply_local_verdict. done.
  - intros (s1 & st1 & _ & _ & H)%apply_incoming_verdict. destruct (refusal _ _ _ _).
    + by apply reject_staged_drop in H as [? _].
    + destruct H as (? & ? & [= _ -> _]). done.
Qed.

Lemma refusal_same sl q1 q2 x1 x2 r1 r2 :
  approved_proposals q1 ≡ₚ approved_proposals q2 → same_context x1 x2 → same_staging_outcome r1 r2 →
  refusal sl q1 x1 r1 = refusal sl q2 x2 r2.
Proof.
  intros Hq Hx Hr. destruct r1, r2; cbn in *; try done.
  - destruct Hr as [<- <-]. rewrite (check_authorized_same sl _ _ _ Hx). destruct (check_commit_sender_authorized _ _ _); [done|].
    by rewrite (validate_same _ _ _ _ _ _ Hq Hx).
  - by subst.
Qed.

(** A third member's candidate fares the same at both. *)
Lemma apply_incoming_same sl c1 c2 x1 x2 st1 st2 t1 t2 o1 o2 :
  candidate_msg c1 = candidate_msg c2 → foreign_candidate c1 → same_context x1 x2 → same_round st1 st2 →
  apply_incoming_candidate sl c1 x1 st1 = (t1, Ok o1) → apply_incoming_candidate sl c2 x2 st2 = (t2, Ok o2) →
  (∃ op, o1 = Drop op ∧ o2 = Drop op ∧ same_round t1 t2) ∨
  (∃ out1 out2 com b1 b2, o1 = Terminal out1 com b1 ∧ o2 = Terminal out2 com b2).
Proof.
  intros Hc Hf Hx Hst (s1 & r1 & Hs1 & Hq1 & H1)%apply_incoming_verdict (s2 & r2 & Hs2 & Hq2 & H2)%apply_incoming_verdict.
  rewrite <-Hc in Hs2. destruct (related_ok _ _ _ _ _ _ _ _ _ _ (stage_candidate_related _ _ _ Hf Hx) Hst Hs1 Hs2) as [Hs Hr].
  destruct Hst as [_ Hq]. rewrite (refusal_same sl _ _ _ _ _ _ Hq Hx Hr) in H1. destruct (refusal _ _ _ _) as [p|].
  - left. destruct (reject_staged_same _ _ _ _ _ _ _ _ Hs H1 H2) as (? & -> & ->). eauto.
  - right. destruct H1 as (? & ? & ->), H2 as (? & ? & ->). rewrite Hc. eauto 10.
Qed.

(** ** The loop *)

(** Nothing the candidates before it lead to makes the loop refuse the candidate. *)
Definition never_refused (sl : StewardListService) (x : RoundContext) (st : RoundState) (c : BufferedCommitCandidate) : Prop :=
  ∀ pre ops st1 t op, dropped_all sl x pre st st1 ops → apply_one sl c x st1 ≠ (t, Ok (Drop op)).

(** What two members hold of one candidate: a third member's, which neither sent, or
    one of the two's own, which the other does not refuse. *)
Definition fair_pair sl (x1 x2 : RoundContext) (st1 st2 : RoundState) (c1 c2 : BufferedCommitCandidate) : Prop :=
  same_candidate c1 c2 ∧
  ((is_local_candidate c1 = false ∧ is_local_candidate c2 = false ∧ foreign_candidate c1) ∨
   (never_refused sl x1 st1 c1 ∧ never_refused sl x2 st2 c2)).

Lemma never_refused_step sl x st st1 c d op :
  apply_one sl c x st = (st1, Ok (Drop op)) → never_refused sl x st d → never_refused sl x st1 d.
Proof. intros Ha Hn pre ops st2 t op' Hd. eapply Hn. by econstructor. Qed.

Lemma fair_pair_step sl x1 x2 st1 st2 t1 t2 c1 c2 op1 op2 d1 d2 :
  apply_one sl c1 x1 st1 = (t1, Ok (Drop op1)) → apply_one sl c2 x2 st2 = (t2, Ok (Drop op2)) →
  fair_pair sl x1 x2 st1 st2 d1 d2 → fair_pair sl x1 x2 t1 t2 d1 d2.
Proof.
  intros H1 H2 [Hs [Hr|[Hn1 Hn2]]]; (split; [done|]); [by left|right].
  split; by eapply never_refused_step.
Qed.

(** Where two loops over the same candidates stop. *)
Definition stopped_alike sl (x1 x2 : RoundContext) (self1 self2 : bytes) (ops : list ScoreOp)
    (cs1 cs2 : list BufferedCommitCandidate) (st1 st2 t1 t2 : RoundState) (r1 r2 : CommitRoundResult) : Prop :=
  (∃ s1 s2 penalties, r1 = mk_round_result NoCandidate (ops ++ penalties) [] ∧
     r2 = mk_round_result NoCandidate (ops ++ penalties) [] ∧
     dropped_all sl x1 cs1 st1 s1 penalties ∧ dropped_all sl x2 cs2 st2 s2 penalties ∧ same_round s1 s2 ∧
     with_mls discard_own_commit s1 = (t1, Ok tt) ∧ with_mls discard_own_commit s2 = (t2, Ok tt)) ∨
  (∃ pre1 c1 post1 pre2 c2 post2 s1 s2 penalties,
     cs1 = pre1 ++ c1 :: post1 ∧ cs2 = pre2 ++ c2 :: post2 ∧ same_candidate c1 c2 ∧ length pre1 = length pre2 ∧
     dropped_all sl x1 pre1 st1 s1 penalties ∧ dropped_all sl x2 pre2 st2 s2 penalties ∧ same_round s1 s2 ∧
     apply_one sl c1 x1 s1 = (t1, Ok (Terminal (rr_outcome r1) (steward_member_id (candidate_msg c1)) (committed_batch r1))) ∧
     apply_one sl c2 x2 s2 = (t2, Ok (Terminal (rr_outcome r2) (steward_member_id (candidate_msg c1)) (committed_batch r2))) ∧
     rr_score_ops r1 = record_winner_scores (ops ++ penalties) (steward_member_id (candidate_msg c1)) self1 x1 post1 sl ∧
     rr_score_ops r2 = record_winner_scores (ops ++ penalties) (steward_member_id (candidate_msg c1)) self2 x2 post2 sl).

Lemma discard_and_finish_eq ops st t r :
  discard_and_finish ops st = (t, Ok r) → r = mk_round_result NoCandidate ops [] ∧ with_mls discard_own_commit st = (t, Ok tt).
Proof. unfold discard_and_finish. rewrite sbind_ok. by intros (? & [] & H & [= -> <-]). Qed.

Lemma apply_loop_same sl x1 x2 self1 self2 cs1 cs2 ops st1 st2 t1 t2 r1 r2 :
  same_context x1 x2 → Forall2 (fair_pair sl x1 x2 st1 st2) cs1 cs2 → same_round st1 st2 →
  apply_loop sl cs1 x1 self1 ops st1 = (t1, Ok r1) → apply_loop sl cs2 x2 self2 ops st2 = (t2, Ok r2) →
  stopped_alike sl x1 x2 self1 self2 ops cs1 cs2 st1 st2 t1 t2 r1 r2.
Proof.
  intros Hx. revert cs2 ops st1 st2. induction cs1 as [|c1 cs1 IH]; intros cs2 ops st1 st2 Hp Hst H1 H2.
  { inversion Hp; subst. cbn in H1, H2. apply discard_and_finish_eq in H1 as [-> H1], H2 as [-> H2].
    left. exists st1, st2, []. rewrite app_nil_r. split_and!; try done; constructor. }
  inversion Hp as [|? c2 ? cs2' Hc Hcs]; subst. clear Hp. cbn in H1, H2. rewrite sbind_ok in H1, H2.
  destruct H1 as (s1 & o1 & Ho1 & H1), H2 as (s2 & o2 & Ho2 & H2).
  assert ((∃ op, o1 = Drop op ∧ o2 = Drop op ∧ same_round s1 s2) ∨
    (∃ out1 out2 com1 com2 b1 b2, o1 = Terminal out1 com1 b1 ∧ o2 = Terminal out2 com2 b2)) as Ho.
  { destruct Hc as [[Hm _] [(Hl1 & Hl2 & Hf)|[Hn1 Hn2]]].
    - unfold apply_one in Ho1, Ho2. rewrite Hl1 in Ho1. rewrite Hl2 in Ho2.
      destruct (apply_incoming_same _ _ _ _ _ _ _ _ _ _ _ Hm Hf Hx Hst Ho1 Ho2) as [?|(?&?&?&?&?&?&?)]; [by left|right; eauto 10].
    - right. destruct o1 as [? ? ?|op]; [|by destruct (Hn1 _ _ _ _ _ (dropped_nil _ _ _) Ho1)].
      destruct o2 as [? ? ?|op]; [|by destruct (Hn2 _ _ _ _ _ (dropped_nil _ _ _) Ho2)]. eauto 10. }
  destruct Ho as [(op & -> & -> & Hs)|(out1 & out2 & com1 & com2 & b1 & b2 & -> & ->)].
  - destruct (IH cs2' (ops ++ option_list op) s1 s2) as [(u1 & u2 & pen & -> & -> & Hu1 & Hu2 & Hu)|H]; [|done..| |].
    + eapply Forall2_impl; [exact Hcs|]. intros d1 d2. by eapply fair_pair_step.
    + left. exists u1, u2, (option_list op ++ pen). rewrite app_assoc. destruct Hu as (? & ? & ?). split_and!; try done; by econstructor.
    + right. destruct H as (pre1 & d1 & post1 & pre2 & d2 & post2 & u1 & u2 & pen & -> & -> & Hd & Hlen & Hp1 & Hp2 & Hu & Hu1 & Hu2 & Hr1 & Hr2).
      exists (c1 :: pre1), d1, post1, (c2 :: pre2), d2, post2, u1, u2, (option_list op ++ pen).
      split_and!; try done; [cbn; by rewrite Hlen|by econstructor..|by rewrite app_assoc|by rewrite app_assoc].
  - pose proof (apply_one_committer _ _ _ _ _ _ _ _ Ho1) as ->. pose proof (apply_one_committer _ _ _ _ _ _ _ _ Ho2) as ->.
    injection H1 as <- <-. injection H2 as <- <-. destruct Hc as [Hc _]. pose proof Hc as [Hm _].
    right. exists [], c1, cs1, [], c2, cs2', st1, st2, []. rewrite app_nil_r.
    split_and!; try done; [constructor..| |]; by rewrite Hm.
Qed.

(** ** The whole round *)

Lemma steward_from_ext l epoch k f g :
  (∀ x, f x = g x) → steward_from l epoch k f = steward_from l epoch k g.
Proof.
  intros H. unfold steward_from. case_match; [done|].
  induction (rotation _ _) as [|x r IH]; [done|]. cbn. by rewrite H, IH.
Qed.

Lemma epoch_steward_ext s epoch f g : (∀ x, f x = g x) → epoch_steward s epoch f = epoch_steward s epoch g.
Proof.
  intros H. unfold epoch_steward. destruct (svc_list s) as [l|]; [|done]. by apply steward_from_ext.
Qed.

Lemma snapshot_same sl e rec self1 self2 st1 st2 :
  same_round st1 st2 →
  same_context (snapshot st1.1 st1.2 sl e rec self1) (snapshot st2.1 st2.2 sl e rec self2).
Proof.
  intros [[Hm _] Hq]. unfold same_context, snapshot. cbn. split_and!; [|done|done|].
  - unfold len, im_values. rewrite (filterb_perm _ _ _ (fmap_Permutation snd _ _ Hq)). done.
  - apply epoch_steward_ext. intros x. unfold steward_eligibility, has_approved_removal, mls_members, im_values.
    rewrite (existsb_perm _ _ _ (fmap_Permutation snd _ _ Hq)). by rewrite (peers_members _ _ _ _ Hm).
Qed.

Lemma public_rank cs x allow :
  public <$> rank_applicable_candidates cs x allow = rank_applicable_candidates (public <$> cs) x allow.
Proof.
  unfold rank_applicable_candidates. rewrite (sort_by_fmap public _ (compare_candidate_priority (epoch_steward_id x))) by done.
  f_equal. induction cs as [|c cs IH]; [done|]. rewrite fmap_cons, !filterb_cons, <-IH.
  change (n_proposals (public c)) with (n_proposals c). by destruct (if allow then _ else _).
Qed.

Lemma rank_same_context cs x1 x2 allow :
  same_context x1 x2 → rank_applicable_candidates cs x1 allow = rank_applicable_candidates cs x2 allow.
Proof. intros (Hn & _ & _ & He). unfold rank_applicable_candidates. by rewrite Hn, He. Qed.

Lemma rank_same cs1 cs2 x1 x2 allow :
  NoDup (commit_hash <$> cs1) → public <$> cs1 ≡ₚ public <$> cs2 → same_context x1 x2 →
  public <$> rank_applicable_candidates cs1 x1 allow = public <$> rank_applicable_candidates cs2 x2 allow.
Proof.
  intros Hn Hp Hx. rewrite !public_rank, (rank_same_context _ _ _ _ Hx). unfold rank_applicable_candidates.
  apply sort_by_unique; [apply _| |by apply filterb_perm].
  intros a b [_ Ha]%elem_of_filterb [_ Hb]%elem_of_filterb Ht%compare_priority_tie.
  apply (nodup_fmap_inj_in commit_hash (public <$> cs1)); [|done..].
  rewrite <-list_fmap_compose. exact Hn.
Qed.

Lemma elem_of_rank cs x allow c : c ∈ rank_applicable_candidates cs x allow → c ∈ cs.
Proof. unfold rank_applicable_candidates. rewrite elem_of_sort_by, elem_of_filterb. by intros [_ ?]. Qed.

Lemma fmap_public_forall2 cs1 cs2 :
  public <$> cs1 = public <$> cs2 → Forall2 (λ c1 c2, c1 ∈ cs1 ∧ c2 ∈ cs2 ∧ same_candidate c1 c2) cs1 cs2.
Proof.
  intros H. apply Forall2_same_length_lookup. split.
  { apply (f_equal length) in H. by rewrite !length_fmap in H. }
  intros k c1 c2 H1 H2. split_and!; [by eapply list_elem_of_lookup_2..|].
  apply same_candidate_public. apply (f_equal (λ l, l !! k)) in H. rewrite !list_lookup_fmap, H1, H2 in H. cbn in H. congruence.
Qed.

Lemma record_winner_public ops com self x losers sl :
  record_winner_scores ops com self x losers sl = record_winner_scores ops com self x (public <$> losers) sl.
Proof. unfold record_winner_scores. rewrite <-list_fmap_compose. done. Qed.

Lemma record_winner_context ops com self x1 x2 losers sl :
  same_context x1 x2 → record_winner_scores ops com self x1 losers sl = record_winner_scores ops com self x2 losers sl.
Proof. intros (_ & _ & _ & He). unfold record_winner_scores. by rewrite He. Qed.

(** The round once its candidates have been taken out of the buffer. *)
Definition taken (st : RoundState) : RoundState :=
  (set_round (buffer_take (g_epoch (mls_group st.2)) (commit_round st.1)).1 st.1, st.2).
Definition round_candidates (st : RoundState) : list BufferedCommitCandidate :=
  (buffer_take (g_epoch (mls_group st.2)) (commit_round st.1)).2.
Definition round_context sl (rec : bool) (self : bytes) (st : RoundState) : RoundContext :=
  snapshot st.1 st.2 sl (g_epoch (mls_group st.2)) rec self.

Lemma finalize_unfold sl rec allow self st :
  finalize_commit_round sl rec allow self st =
    let cs := round_candidates st in
    let sorted := rank_applicable_candidates cs (round_context sl rec self st) allow in
    if bool_decide (cs = []) then discard_and_finish [] (taken st)
    else if bool_decide (sorted = []) then discard_and_finish [] (taken st)
    else apply_loop sl sorted (round_context sl rec self st) self [] (taken st).
Proof.
  destruct st as [q mls]. unfold finalize_commit_round, round_candidates, taken. unfold sbind at 1, sget, sbind at 1, with_queues.
  cbn [fst snd]. destruct (buffer_take _ _) as [b cs] eqn:E. cbn [fst snd].
  destruct (bool_decide (cs = [])); [done|]. unfold sbind at 1. cbn [fst snd].
  change (snapshot (set_round b q) mls sl (g_epoch (mls_group mls)) rec self) with (round_context sl rec self (q, mls)).
  by destruct (bool_decide _).
Qed.

(** An empty ranking takes the same way out as the loop. *)
Lemma finalize_as_loop sl rec allow self st :
  finalize_commit_round sl rec allow self st =
    apply_loop sl (rank_applicable_candidates (round_candidates st) (round_context sl rec self st) allow)
      (round_context sl rec self st) self [] (taken st).
Proof.
  rewrite finalize_unfold. cbn zeta. destruct (bool_decide_reflect (round_candidates st = [])) as [->|_]; [by destruct allow|].
  by destruct (bool_decide_reflect (rank_applicable_candidates (round_candidates st) (round_context sl rec self st) allow = [])) as [->|_].
Qed.

(** The candidates of the two members, one by one: see [fair_pair]. *)
Definition fair_round sl (rec : bool) (self1 self2 : bytes) (st1 st2 : RoundState) : Prop :=
  ∀ c1 c2, c1 ∈ round_candidates st1 → c2 ∈ round_candidates st2 → same_candidate c1 c2 →
    fair_pair sl (round_context sl rec self1 st1) (round_context sl rec self2 st2) (taken st1) (taken st2) c1 c2.

Lemma round_context_same sl rec self1 self2 st1 st2 :
  same_round st1 st2 → same_context (round_context sl rec self1 st1) (round_context sl rec self2 st2).
Proof.
  intros Hst. pose proof (snapshot_same sl (g_epoch (mls_group st1.2)) rec self1 self2 st1 st2 Hst) as Hx.
  unfold round_context. destruct Hst as [[Hm _] _]. by rewrite <-(peers_epoch _ _ _ _ Hm).
Qed.

(** Both rounds stop at the same place. *)
Lemma finalize_same sl rec allow self1 self2 st1 st2 t1 t2 r1 r2 :
  same_round st1 st2 →
  NoDup (commit_hash <$> round_candidates st1) →
  public <$> round_candidates st1 ≡ₚ public <$> round_candidates st2 →
  fair_round sl rec self1 self2 st1 st2 →
  finalize_commit_round sl rec allow self1 st1 = (t1, Ok r1) →
  finalize_commit_round sl rec allow self2 st2 = (t2, Ok r2) →
  let x1 := round_context sl rec self1 st1 in let x2 := round_context sl rec self2 st2 in
  stopped_alike sl x1 x2 self1 self2 []
    (rank_applicable_candidates (round_candidates st1) x1 allow) (rank_applicable_candidates (round_candidates st2) x2 allow)
    (taken st1) (taken st2) t1 t2 r1 r2.
Proof.
  intros Hst Hn Hp Hf H1 H2 x1 x2. rewrite finalize_as_loop in H1, H2.
  pose proof (round_context_same sl rec self1 self2 _ _ Hst) as Hx. fold x1 x2 in Hx, H1, H2.
  eapply (apply_loop_same _ _ _ _ _ _ _ _ _ _ _ _ _ _ Hx); [|exact Hst|exact H1|exact H2].
  eapply Forall2_impl; [by apply fmap_public_forall2, rank_same|].
  intros c1 c2 (Hc1 & Hc2 & Hc). apply elem_of_rank in Hc1, Hc2. by apply Hf.
Qed.

(** C4: two members that saw the same candidates commit the same one. Take two views
    of one group at one epoch, with the same changes approved, the same steward list
    and the same candidates collected, in whatever order each arrived, and suppose
    that when one of the two is a candidate's author the other does not refuse it.
    Then both rounds end the same way: with no candidate and the same penalties, or
    with the same candidate merged, credited to the same committer, after the same
    penalties and with the same losers, so that the scores the two record differ at
    most in what a member does not charge to itself. *)
Theorem members_agree sl rec allow self1 self2 st1 st2 t1 t2 r1 r2 :
  same_round st1 st2 →
  NoDup (commit_hash <$> round_candidates st1) →
  public <$> round_candidates st1 ≡ₚ public <$> round_candidates st2 →
  fair_round sl rec self1 self2 st1 st2 →
  finalize_commit_round sl rec allow self1 st1 = (t1, Ok r1) →
  finalize_commit_round sl rec allow self2 st2 = (t2, Ok r2) →
  (∃ penalties, r1 = mk_round_result NoCandidate penalties [] ∧ r2 = mk_round_result NoCandidate penalties []) ∨
  (∃ c1 c2 u1 u2 penalties losers,
     let x1 := round_context sl rec self1 st1 in let x2 := round_context sl rec self2 st2 in
     let committer := steward_member_id (candidate_msg c1) in
     c1 ∈ round_candidates st1 ∧ c2 ∈ round_candidates st2 ∧ same_candidate c1 c2 ∧
     apply_one sl c1 x1 u1 = (t1, Ok (Terminal (rr_outcome r1) committer (committed_batch r1))) ∧
     apply_one sl c2 x2 u2 = (t2, Ok (Terminal (rr_outcome r2) committer (committed_batch r2))) ∧
     rr_score_ops r1 = record_winner_scores penalties committer self1 x1 losers sl ∧
     rr_score_ops r2 = record_winner_scores penalties committer self2 x1 losers sl).
Proof.
  intros Hst Hn Hp Hf H1 H2. pose proof (round_context_same sl rec self1 self2 _ _ Hst) as Hx.
  pose proof (rank_same _ _ _ _ allow Hn Hp Hx) as Hr.
  destruct (finalize_same sl rec allow _ _ _ _ _ _ _ _ Hst Hn Hp Hf H1 H2)
    as [(? & ? & pen & -> & -> & _)|(pre1 & c1 & post1 & pre2 & c2 & post2 & u1 & u2 & pen & E1 & E2 & Hc & Hlen & _ & _ & _ & Ha1 & Ha2 & Hs1 & Hs2)];
    [left; by exists pen|].
  right. exists c1, c2, u1, u2, pen, post1. cbn zeta.
  split_and!; [eapply elem_of_rank; rewrite E1; set_solver|eapply elem_of_rank; rewrite E2; set_solver|done..|].
  rewrite Hs2, <-(record_winner_context _ _ _ _ _ _ _ Hx), record_winner_public, (record_winner_public _ _ _ _ post1). f_equal.
  rewrite E1, E2, !fmap_app in Hr. apply app_inj_1 in Hr as [_ Hr]; [by injection Hr|]. by rewrite !length_fmap.
Qed.
End staging.

(** ** The author's side

    A candidate that leaves nothing voted out is one the others do not refuse, as
    long as they read in its commit the updates its author put there. *)

Section author.
Context {HS : Hash} {OM : OpenMls} {CS : ConsensusLib} {CD : Codec} {CT : ConsensusTexts} {HI : HashIter}.
Context {St : Type} `{!PeerScoreStorage St}.

(** C24: an honest steward's commit is not refused by a peer. When a steward collects
    its updates from the approved changes and none of the voted ones is left out, a
    peer with the same changes approved, for which the author is authorized and whose
    MLS reads the author's updates in the commit, merges it: neither the signature,
    the authorization nor the action check drops it, so no penalty is charged. *)
Theorem honest_candidate_accepted (author : Conversation St) sl x st updates joiners chosen self_removed s1 t o :
  collect_updates author (urgent_commit_target (c_queues author)) (batch author) [] [] = Ok (updates, joiners) →
  (∀ a, a ∈ voted_actions (c_queues author) →
     a ∈ omap action_projection_from_request (batch author) ∧ kept author (urgent_commit_target (c_queues author)) a) →
  approved_proposals (c_queues author) ≡ₚ approved_proposals st.1 →
  authorized sl (c_self author) x →
  stage_candidate (candidate_msg chosen) x st
    = (s1, Ok (StStaged (c_self author) self_removed (omap update_output updates))) →
  apply_incoming_candidate sl chosen x st = (t, Ok o) →
  ∃ outcome batch, o = Terminal outcome (c_self author) batch.
Proof.
  intros Hc Hall Hq Ha Hst (s1' & r & Hst' & _ & H)%apply_incoming_verdict.
  rewrite Hst in Hst'. injection Hst' as <- <-. cbn [refusal] in H.
  apply check_authorized_iff in Ha. rewrite Ha in H.
  assert (validate_commit_candidate st.1 (c_self author) (omap update_output updates) x = None) as Hv.
  { apply validate_none_iff. intros a. rewrite omap_update_output, <-(voted_actions_perm _ _ Hq).
    apply collect_updates_ok in Hc as (picks & Hf & -> & _). cbn.
    rewrite (picked_actions author (urgent_commit_target (c_queues author)) _ _ _ Hf).
    split; [apply Hall|]. intros [Hin _].
    apply list_elem_of_omap in Hin as (req & Hin & Hr). apply list_elem_of_omap. exists req. split; [|done].
    unfold batch in Hin. apply elem_of_take in Hin as (k & Hk & _). by eapply list_elem_of_lookup_2. }
  rewrite Hv in H. destruct st as [q mls]. apply stage_candidate_staged in Hst as (_ & <- & _). exact H.
Qed.
End author.

(** ** A copy under another name *)

Section renamed.
Context {HS : Hash} {OM : OpenMls}.

(** The same commit claimed by somebody else. *)
Definition renamed (thief : bytes) (msg : CommitCandidate) : CommitCandidate :=
  mk_candidate (cand_conversation_id msg) (mls_proposals msg) (commit_message msg) thief.

Lemma well_formed_renamed thief q msg :
  thief ≠ [] → well_formed_candidate q msg → well_formed_candidate q (renamed thief msg).
Proof. unfold well_formed_candidate. cbn. naive_solver. Qed.

Lemma buffer_add_fresh msg e cap b :
  let held := if (buf_epoch b =? e)%N then candidates b else [] in
  let h := compute_commit_hash (commit_message msg) in
  h ∉ commit_hash <$> held → (len held < cap)%N →
  buffer_add msg false None [] e cap b = (mk_buffer e (held ++ [mk_buffered msg h false None []]), Buffered).
Proof.
  intros held h Hh Hc. unfold buffer_add. set (b0 := if (buf_epoch b =? e)%N then b else mk_buffer e []).
  assert (buf_epoch b0 = e ∧ candidates b0 = held) as [He Hb].
  { unfold b0, held. destruct (N.eqb_spec (buf_epoch b) e); done. }
  rewrite Hb. fold h. rewrite (proj2 (existsb_not_elem _ _)).
  - apply N.leb_gt in Hc. by rewrite Hc, He.
  - intros c Hin. apply bool_decide_eq_false. intros E. apply Hh. rewrite <-E. by apply list_elem_of_fmap_2.
Qed.

Lemma buffer_add_again msg e cap cs h c :
  c ∈ cs → commit_hash c = compute_commit_hash (commit_message msg) →
  h = DuplicateHash → buffer_add msg false None [] e cap (mk_buffer e cs) = (mk_buffer e cs, h).
Proof.
  intros Hc Hh ->. unfold buffer_add. cbn. rewrite N.eqb_refl. cbn.
  rewrite (proj2 (existsb_elem _ _)); [done|]. exists c. split; [done|]. by apply bool_decide_eq_true.
Qed.

(** C28: a renamed copy of a commit shadows it and costs its author. The id a candidate
    claims is not part of what identifies it in the round. When a copy of an honest
    candidate that claims another steward arrives first, it is buffered, the genuine
    candidate is then refused as a duplicate, and where staging authenticates the
    commit as its author's, the copy is turned into a violation by that author, who
    is charged a broken commit: the steward's round is lost and its score with it. *)
Theorem renamed_copy_blames_author mls q msg thief mls0 mls1 x sr acts :
  let b := commit_round q in let e := g_epoch (mls_group mls) in
  let held := if (buf_epoch b =? e)%N then candidates b else [] in
  let q1 := (receive_commit_candidate mls (renamed thief msg) q).1 in
  well_formed_candidate q msg → approved_proposals q ≠ [] →
  thief ≠ [] → thief ≠ steward_member_id msg →
  compute_commit_hash (commit_message msg) ∉ commit_hash <$> held → (len held < len (mls_members mls))%N →
  stage_remote_commit (mls_proposals msg) (commit_message msg) mls0
    = (mls1, Ok (ScStaged (steward_member_id msg) sr acts)) →
  (receive_commit_candidate mls (renamed thief msg) q).2 = CommitCandidateReceived thief ∧
  receive_commit_candidate mls msg q1 = (q1, Noop DuplicateBufferedHash) ∧
  ∃ v, stage_candidate (renamed thief msg) x (q, mls0) = ((q, mls1), Ok (StViolation v)) ∧
    target_score_op v = Some (mk_score_op (steward_member_id msg) BrokenCommit).
Proof.
  intros b e held q1 Hw Ha Ht Hne Hh Hc Hst.
  pose proof (buffer_add_fresh (renamed thief msg) e (len (mls_members mls)) b Hh Hc) as Hadd.
  assert (approved_proposals_count q ≠ 0%N) as Hcnt by (intros H0%len_nil_iff; done).
  apply N.eqb_neq in Hcnt.
  destruct (receive_eq mls (renamed thief msg) q) as [[_ E]|[Hn _]]; [|by destruct Hn; apply well_formed_renamed].
  rewrite Hcnt in E. fold b e in E. rewrite Hadd in E. unfold q1. rewrite E. cbn [fst snd]. split; [done|]. split.
  - match goal with |- receive_commit_candidate _ _ ?q2 = _ => destruct (receive_eq mls msg q2) as [[_ E2]|[Hn _]] end;
      [|by destruct Hn].
    rewrite E2. change (approved_proposals_count (set_round _ q)) with (approved_proposals_count q). rewrite Hcnt.
    cbn [commit_round set_round]. fold e. erewrite buffer_add_again; [|apply elem_of_app; right; by apply list_elem_of_singleton|done|done].
    done.
  - unfold stage_candidate. cbn [mls_proposals commit_message renamed steward_member_id]. rewrite Hst.
    rewrite bool_decide_false by done. cbn [negb]. eexists. split; [done|]. done.
Qed.
End renamed.

(** ** Concrete views *)

#[local] Existing Instances example_hash toy_mls canonical_hash_iter toy_consensus toy_texts toy_codec.

(** The pending proposals of the others than [i] and [j]. *)
Definition toy_others (i j : N) (g : ToyGroup) : list (N * toy_proposal) :=
  filter (λ p : N * toy_proposal, p.1 ≠ i ∧ p.1 ≠ j) (toy_pending g).

#[local] Instance toy_peers : OpenMlsPeers := {|
  peers i j g1 g2 := toy_members g1 = toy_members g2 ∧ toy_epoch g1 = toy_epoch g2 ∧
    toy_own g1 = i ∧ toy_own g2 = j ∧ toy_others i j g1 = toy_others i j g2;
  sent_by i m := toy_sender m = i;
  same_proposal := eq;
  same_staged := eq;
|}.

Lemma toy_pending_of_others i j s g1 g2 :
  s ≠ i → s ≠ j → toy_others i j g1 = toy_others i j g2 → toy_pending_of s g1 = toy_pending_of s g2.
Proof.
  intros Hi Hj H. unfold toy_pending_of, toy_others in *.
  assert (∀ l : list (N * toy_proposal), filter (λ p, p.1 = s) l = filter (λ p, p.1 = s) (filter (λ p, p.1 ≠ i ∧ p.1 ≠ j) l)) as E.
  { intros l. rewrite list_filter_filter. apply list_filter_iff. intros p. naive_solver. }
  by rewrite E, H, <-E.
Qed.

#[local] Instance toy_peers_laws : OpenMlsPeersLaws.
Proof.
  split; cbn.
  - by intros i j g1 g2 (_ & -> & _).
  - done.
  - intros i j g1 g2 (-> & _). done.
  - by intros a b ->.
  - intros i j pm Hi Hj g1 g2 Hg. pose proof Hg as (_ & _ & H1 & H2 & Ho). split; [exact Hg|]. cbn.
    rewrite H1, H2, !decide_False, (toy_pending_of_others i j _ g1 g2) by done.
    by repeat case_decide.
  - intros i j a b -> g1 g2 (Hm & He & H1 & H2 & Ho). split; [|done]. cbn. split_and!; [done..|].
    unfold toy_others in *. cbn. by rewrite !filter_app, Ho.
  - intros i j g1 g2 (Hm & He & H1 & H2 & Ho). split; [|done]. by split_and!.
Qed.

(** The room of [toy_group] seen by leaf 0 and, with its buffer the other way round,
    by leaf 2; leaf 1 put up a commit and a copy of it under another's name. *)
Definition view (own : N) : MlsService := mk_mls (OM := toy_mls) "g" (mk_toy {[ 0%N := [x0a]; 1%N := [x0b]; 2%N := [x0d] ]} 3 own [] None) None.
Definition stolen : BufferedCommitCandidate :=
  mk_buffered (mk_candidate [x67] toy_peer_proposals (toy_peer_commit ++ [x00]) (member_id_of 0))
    (compute_commit_hash (toy_peer_commit ++ [x00])) false None [].
Definition view_state (own : N) (cs : list BufferedCommitCandidate) : RoundState :=
  (set_round (mk_buffer 3 cs) round_queues, view own).

Lemma view_rounds : same_round 0 2 (view_state 0 [peer_buffered; stolen]) (view_state 2 [stolen; peer_buffered]).
Proof. split; [|done]. by split_and!. Qed.

Lemma view_nodup : NoDup (commit_hash <$> round_candidates (view_state 0 [peer_buffered; stolen])).
Proof. apply (bool_decide_unpack _). by vm_compute. Qed.

Lemma view_foreign k r : foreign 0 2 (k :: x01 :: r).
Proof. intros pm. unfold parse_protocol_message. cbn. destruct r; [done|]. intros [= <-]. split; discriminate. Qed.

Lemma view_fair : fair_round 0 2 round_svc false (member_id_of 0) (member_id_of 2)
  (view_state 0 [peer_buffered; stolen]) (view_state 2 [stolen; peer_buffered]).
Proof.
  intros c1 c2 Hc1 Hc2 Hs. split; [exact Hs|]. left. cbn in Hc1, Hc2.
  assert (∀ c, c ∈ [peer_buffered; stolen] → is_local_candidate c = false ∧ foreign_candidate 0 2 c) as H.
  { intros c [->|[->|[]%elem_of_nil]%elem_of_cons]%elem_of_cons; split; try done; split; try apply view_foreign.
    all: intros p Hp; cbn in Hp; apply list_elem_of_singleton in Hp as ->; apply view_foreign. }
  destruct (H c1 Hc1). split_and!; [done| |done]. apply H. set_solver.
Qed.

Lemma members_agree_witness :
  ∃ t1 t2 r1 r2,
    finalize_commit_round round_svc false false (member_id_of 0) (view_state 0 [peer_buffered; stolen]) = (t1, Ok r1) ∧
    finalize_commit_round round_svc false false (member_id_of 2) (view_state 2 [stolen; peer_buffered]) = (t2, Ok r2) ∧
    ∃ c1 c2, same_candidate c1 c2 ∧ c1 ∈ [peer_buffered; stolen] ∧ c2 ∈ [stolen; peer_buffered].
Proof.
  destruct (finalize_commit_round round_svc false false (member_id_of 0) (view_state 0 [peer_buffered; stolen])) as [t1 o1] eqn:E1.
  destruct (finalize_commit_round round_svc false false (member_id_of 2) (view_state 2 [stolen; peer_buffered])) as [t2 o2] eqn:E2.
  pose proof (f_equal snd E1) as H1. vm_compute in H1. subst o1.
  pose proof (f_equal snd E2) as H2. vm_compute in H2. subst o2.
  eexists t1, t2, _, _. split; [reflexivity|]. split; [reflexivity|].
  pose proof (members_agree 0 2 round_svc false false _ _ _ _ _ _ _ _ view_rounds view_nodup (Permutation_swap _ _ _) view_fair E1 E2) as H.
  destruct H as [(p & H & _)|(c1 & c2 & _ & _ & _ & _ & Hc1 & Hc2 & Hs & _)]; [discriminate|].
  exists c1, c2. split; [exact Hs|]. split; [exact Hc1|exact Hc2].
Defined.

(** Leaf 1 puts up the admission of key [0c]; leaf 0 reads it. *)
Definition author_room : Room :=
  conversation_new "g" round_queues toy_service room_scores room_stewards (mk_engine ∅ 7) (mk_sm Working)
    config_default (duration_from_secs 1000) (member_id_of 1) [xbb].

Lemma honest_candidate_accepted_witness :
  ∃ outcome batch, (apply_incoming_candidate round_svc peer_buffered round_ctx (round_queues, toy_service)).2
    = Ok (Terminal outcome (member_id_of 1) batch).
Proof.
  destruct (apply_incoming_candidate round_svc peer_buffered round_ctx (round_queues, toy_service)) as [t r] eqn:E.
  destruct r as [o|e]; [|by apply (f_equal snd) in E; vm_compute in E].
  destruct (stage_candidate peer_candidate round_ctx (round_queues, toy_service)) as [s1 r1] eqn:Es.
  pose proof (f_equal snd Es) as Hs. vm_compute in Hs. subst r1.
  destruct (honest_candidate_accepted author_room round_svc round_ctx (round_queues, toy_service)
    [CommitAdd [x0c]] [[x0c]] peer_buffered false s1 t o) as (outcome & bt & ->).
  - reflexivity.
  - intros a Ha. cbn in Ha. apply list_elem_of_singleton in Ha as ->.
    split; [apply (bool_decide_unpack _); by vm_compute|]. split; [done|]. apply (bool_decide_unpack _); by vm_compute.
  - done.
  - right. right. reflexivity.
  - exact Es.
  - exact E.
  - exists outcome, bt. reflexivity.
Defined.

Lemma renamed_copy_blames_author_witness :
  ∃ v, (stage_candidate (renamed (member_id_of 0) peer_candidate) round_ctx (round_queues, toy_service)).2 = Ok (StViolation v) ∧
    target_score_op v = Some (mk_score_op (member_id_of 1) BrokenCommit).
Proof.
  destruct (stage_remote_commit toy_peer_proposals toy_peer_commit toy_service) as [m1 r] eqn:E.
  pose proof (f_equal snd E) as Hr. vm_compute in Hr. subst r.
  pose proof (renamed_copy_blames_author toy_service round_queues peer_candidate (member_id_of 0) toy_service m1 round_ctx
    false [OutAdd [x0c]]) as H.
  destruct H as (_ & _ & v & Hv & Hp); [|discriminate..|by apply not_elem_of_nil|reflexivity|exact E|].
  - unfold well_formed_candidate. repeat split; try discriminate.
    intros p Hp. apply list_elem_of_singleton in Hp as ->. reflexivity.
  - exists v. rewrite Hv. split; [reflexivity|exact Hp].
Defined.
