(* ===== verification/Merge.v ===== *)
(** * Two members merge the same commit

    [Agreement] shows that two members stop a round at the same candidate. Here is
    what merging it makes of them: the same group again, and the same work left.
    [OpenMlsMerge] states what MLS says of two members that merge one commit, each on
    its own side: the author the commit it has pending, the other the one it staged. *)

From S2P Require Import Prelude Time Machine Protos StewardList Mls Toy Buffer Queues Scoring CommitRound ApplyResult Config Display Conversation Room Candidate Agreement.

(** [views] is [peers] whatever proposals each of the two has pending; [announces a pm]
    says that the commit [a], pending at its author, went out as [pm]. *)
Class OpenMlsMerge {OM : OpenMls} := {
  views : N → N → MlsGroup → MlsGroup → Prop;
  announces : StagedCommit → ProtocolMessage → Prop;
}.

(** What the members see of a group, unchanged. *)
Definition same_public {OM : OpenMls} (g g' : MlsGroup) : Prop :=
  g_members g' = g_members g ∧ g_epoch g' = g_epoch g.

Class OpenMlsMergeLaws {OM : OpenMls} {PR : OpenMlsPeers} {MR : OpenMlsMerge} : Prop := {
  peers_sym i j g1 g2 : peers i j g1 g2 → peers j i g2 g1;
  views_sym i j g1 g2 : views i j g1 g2 → views j i g2 g1;
  same_staged_sym a b : same_staged a b → same_staged b a;
  peers_views i j g1 g2 : peers i j g1 g2 → views i j g1 g2;
  views_members i j g1 g2 : views i j g1 g2 → g_members g1 = g_members g2;
  (* what is pending at the other member is not seen *)
  peers_clear_commit i j g1 g2 : peers i j g1 g2 → peers i j g1 (clear_pending_commit g2).1;
  views_clear_commit i j g1 g2 : views i j g1 g2 → views i j g1 (clear_pending_commit g2).1;
  views_clear_proposals i j g1 g2 : views i j g1 g2 → views i j g1 (clear_pending_proposals g2).1;
  (* reading the other's own messages *)
  hears_message i j g1 g2 pm : peers i j g1 g2 → sent_by i pm → peers i j g1 (process_message pm g2).1;
  hears_proposal i j g1 g2 g pm s qp :
    sent_by i pm → (process_message pm g).2 = Ok (s, ProposalMessage qp) →
    peers i j g1 g2 → peers i j g1 (store_pending_proposal qp g2).1;
  hears_commit i j g1 g2 pm s a b :
    peers i j g1 g2 → sent_by i pm → g_pending_commit g1 = Some a → announces a pm →
    (process_message pm g2).2 = Ok (s, StagedCommitMessage b) → same_staged a b;
  (* only a merge changes the group; reading leaves the own commit pending *)
  process_public pm g : same_public g (process_message pm g).1;
  store_public qp g : same_public g (store_pending_proposal qp g).1;
  clear_commit_public g : same_public g (clear_pending_commit g).1;
  clear_proposals_public g : same_public g (clear_pending_proposals g).1;
  process_pending pm g : g_pending_commit (process_message pm g).1 = g_pending_commit g;
  store_pending qp g : g_pending_commit (store_pending_proposal qp g).1 = g_pending_commit g;
  clear_pending g : g_pending_commit (clear_pending_proposals g).1 = g_pending_commit g;
  (* nor does what a member proposes and sends by itself *)
  message_public b g : same_public g (create_message b g).1;
  add_public kp g : same_public g (propose_add_member kp g).1;
  remove_public k g : same_public g (propose_remove_member k g).1;
  commit_public g : same_public g (commit_to_pending_proposals g).1;
  peers_message i j g1 g2 b : peers i j g1 g2 → peers i j g1 (create_message b g2).1;
  peers_add i j g1 g2 kp : peers i j g1 g2 → peers i j g1 (propose_add_member kp g2).1;
  peers_remove i j g1 g2 k : peers i j g1 g2 → peers i j g1 (propose_remove_member k g2).1;
  peers_commit i j g1 g2 : peers i j g1 g2 → peers i j g1 (commit_to_pending_proposals g2).1;
  (* merging one commit from two sides *)
  merge_epoch sc g : (g_epoch g ≤ g_epoch (g_merge_staged_commit sc g).1)%N;
  merge_same i j g1 g2 a b g1' g2' :
    views i j g1 g2 → same_staged a b →
    g_merge_staged_commit a g1 = (g1', Ok tt) → g_merge_staged_commit b g2 = (g2', Ok tt) → peers i j g1' g2';
  merge_own i j g1 g2 a b g1' g2' :
    views i j g1 g2 → g_pending_commit g1 = Some a → same_staged a b →
    merge_pending_commit g1 = (g1', Ok tt) → g_merge_staged_commit b g2 = (g2', Ok tt) → peers i j g1' g2';
}.

(** ** The work left *)

Section work.
Context {HS : Hash} {OM : OpenMls}.
Implicit Types (q : ConversationQueues).

(** Two members of [members] have the same work to do, and count the same of them as
    settled from [epoch] on. *)
Record same_work (members : list bytes) (epoch : N) q1 q2 : Prop := {
  sw_approved : approved_proposals q1 ≡ₚ approved_proposals q2;
  sw_keys : NoDup (im_keys (approved_proposals q1));
  sw_urgent : urgent_commit_target q1 = urgent_commit_target q2;
  sw_settled : ∀ m e, m ∈ members → (epoch ≤ e)%N → is_settled q1 m e = is_settled q2 m e;
}.

Lemma bookkeeping_urgent e q : urgent_commit_target (apply_membership_delta_bookkeeping e q) = urgent_commit_target q.
Proof.
  assert (∀ X (f : ConversationQueues → X → ConversationQueues) l q0,
    (∀ q0 x, urgent_commit_target (f q0 x) = urgent_commit_target q0) →
    urgent_commit_target (foldl f q0 l) = urgent_commit_target q0) as Hf.
  { intros X f l. induction l as [|x l IH]; intros q0 H; [done|]. cbn. by rewrite IH, H. }
  unfold apply_membership_delta_bookkeeping. case_match; [|done]. by rewrite !Hf.
Qed.

Lemma retain_perm ids (a1 a2 : list (N * ConversationUpdateRequest)) :
  a1 ≡ₚ a2 →
  foldl (λ a id, im_retain (λ _ req, negb (removes_member req id)) a) a1 ids ≡ₚ
  foldl (λ a id, im_retain (λ _ req, negb (removes_member req id)) a) a2 ids.
Proof. revert a1 a2. induction ids as [|id ids IH]; intros a1 a2 H; [done|]. cbn. by apply IH, filterb_perm. Qed.
Lemma retain_nodup ids (a : list (N * ConversationUpdateRequest)) :
  NoDup (im_keys a) → NoDup (im_keys (foldl (λ a id, im_retain (λ _ req, negb (removes_member req id)) a) a ids)).
Proof. revert a. induction ids as [|id ids IH]; intros a H; [done|]. by apply IH, filterb_keys_nodup. Qed.

Lemma bookkeeping_same ms ms' e e' E d q1 q2 :
  same_work ms e q1 q2 → (e ≤ e')%N → (∀ m, m ∈ ms' → m ∈ ms ∨ m ∈ added_ids d) →
  pending_membership_delta q1 = Some d → pending_membership_delta q2 = Some d →
  same_work ms' e' (apply_membership_delta_bookkeeping E q1) (apply_membership_delta_bookkeeping E q2).
Proof.
  intros [Ha Hk Hu Hs] He Hms Hd1 Hd2. split.
  - rewrite !(bookkeeping_approved _ _ d) by done. by apply retain_perm.
  - rewrite (bookkeeping_approved _ _ d) by done. by apply retain_nodup.
  - by rewrite !bookkeeping_urgent.
  - intros m e0 Hm He0. unfold is_settled. rewrite !(bookkeeping_joins _ _ d) by done.
    case_decide; [done|]. case_decide; [done|]. destruct (Hms m Hm); [|done]. apply Hs; [done|lia].
Qed.

Lemma finalize_batch_same ms ms' e e' E d h q1 q2 q1' q2' b1 b2 :
  same_work ms e q1 q2 → (e ≤ e')%N → (∀ m, m ∈ ms' → m ∈ ms ∨ m ∈ added_ids d) →
  finalize_committed_batch h E (store_membership_delta d q1) = (q1', b1) →
  finalize_committed_batch h E (store_membership_delta d q2) = (q2', b2) →
  same_work ms' e' q1' q2' ∧ b1 ≡ₚ b2.
Proof.
  intros Hw He Hms. set (p1 := insert_committed_hash h (store_membership_delta d q1)).
  set (p2 := insert_committed_hash h (store_membership_delta d q2)).
  assert (same_work ms e p1 p2) as Hw' by (by destruct Hw; split).
  pose proof (bookkeeping_same ms ms' e e' E d p1 p2 Hw' He Hms eq_refl eq_refl) as [Ha Hk Hu Hs].
  unfold finalize_committed_batch, take_urgent_commit_target. fold p1 p2. rewrite Hu.
  destruct (urgent_commit_target (apply_membership_delta_bookkeeping E p2)) as [target|];
    intros [= <- <-] [= <- <-]; (split; [split|]); try done.
  - by apply filterb_perm.
  - by apply filterb_keys_nodup.
  - by apply NoDup_nil_2.
  - by apply (fmap_Permutation snd).
Qed.
End work.

(** ** The merge *)

Section merge.
Context {HS : Hash} {OM : OpenMls} {OL : OpenMlsLaws} {PR : OpenMlsPeers} {PL : OpenMlsPeersLaws}.
Context {MR : OpenMlsMerge} {ML : OpenMlsMergeLaws}.
Implicit Types (s : MlsService).

Lemma merge_staged_ok s s' d :
  merge_staged_commit s = (s', Ok d) →
  ∃ sc, pending_staged_commit s = Some sc ∧ g_merge_staged_commit sc (mls_group s) = (mls_group s', Ok tt) ∧
    pending_staged_commit s' = None ∧ d = mls_delta s' (populated_leaves s) (removed_members_of s sc).
Proof.
  unfold merge_staged_commit, sbind, sget, smodify, slift, on_group. cbn [id mls_group set_staged].
  destruct (pending_staged_commit s) as [sc|]; [|done]. cbn [ok_or].
  destruct (g_merge_staged_commit sc (mls_group s)) as [g [[]|e]] eqn:E; [|done].
  cbn. intros [= <- <-]. by exists sc.
Qed.

Lemma merge_own_ok s s' d :
  merge_own_commit s = (s', Ok d) →
  merge_pending_commit (mls_group s) = (mls_group s', Ok tt) ∧ pending_staged_commit s' = pending_staged_commit s ∧
  d = mls_delta s' (populated_leaves s)
    (match g_pending_commit (mls_group s) with Some sc => removed_members_of s sc | None => [] end).
Proof.
  unfold merge_own_commit, sbind, sget, on_group. cbn [id].
  destruct (merge_pending_commit (mls_group s)) as [g [[]|e]]; [|done]. by intros [= <- <-].
Qed.

Lemma discard_own_ok s s' :
  discard_own_commit s = (s', Ok tt) →
  mls_group s' = (clear_pending_proposals (clear_pending_commit (mls_group s)).1).1 ∧
  pending_staged_commit s' = pending_staged_commit s.
Proof.
  unfold discard_own_commit, sbind, on_group. destruct (clear_pending_commit (mls_group s)) as [g [[]|e]]; [|done].
  cbn. destruct (clear_pending_proposals g) as [g' [[]|e]]; [|done]. by intros [= <-].
Qed.

(** The candidate that ended a round was merged. *)
Definition merges_as (c : BufferedCommitCandidate) s s' (d : MembershipDelta) : Prop :=
  if is_local_candidate c then merge_own_commit s = (s', Ok d)
  else ∃ s1 s2 sender sr acts,
    stage_remote_commit (mls_proposals (candidate_msg c)) (commit_message (candidate_msg c)) s
      = (s1, Ok (ScStaged sender sr acts)) ∧
    discard_own_commit s1 = (s2, Ok tt) ∧ merge_staged_commit s2 = (s', Ok d).

Lemma terminal_merges sl c x st t o com b :
  apply_one sl c x st = (t, Ok (Terminal o com b)) →
  ∃ d, finalize_committed_batch (commit_hash c) (ctx_current_epoch x + 1) (store_membership_delta d st.1) = (t.1, b) ∧
    merges_as c st.2 t.2 d ∧ ∃ leaving w, o = Applied (leave_or_update leaving) w.
Proof.
  destruct st as [q mls]. unfold apply_one, merges_as. destruct (is_local_candidate c).
  - unfold apply_local_candidate. rewrite sbind_ok. intros ([q1 mls1] & d & Hm & H).
    unfold with_mls in Hm. destruct (merge_own_commit mls) as [m [d'|]] eqn:E; [|done]. injection Hm as <- <- <-.
    unfold sbind, update_queues, with_queues, sret in H. destruct (finalize_committed_batch _ _ _) as [q2 b2] eqn:Ef.
    injection H as <- <- _ <-. exists d'. split_and!; [done..|]. by eexists _, _.
  - unfold apply_incoming_candidate. rewrite sbind_ok. intros ([q1 mls1] & staging & Hst & H).
    assert (∀ p (s0 : RoundState), reject_staged p s0 ≠ (t, Ok (Terminal o com b))) as Hrej.
    { intros p s0 Hp. by apply reject_staged_drop in Hp as [? _]. }
    destruct staging as [sender sr acts| |v]; [|by apply Hrej in H..].
    apply stage_candidate_staged in Hst as (Hq & _ & Hst). cbn in Hq, Hst. subst q1.
    destruct (check_commit_sender_authorized _ _ _); [by apply Hrej in H|].
    rewrite sbind_ok in H. destruct H as (s2 & q2 & [= <- <-] & H).
    destruct (validate_commit_candidate _ _ _ _); [by apply Hrej in H|].
    rewrite sbind_ok in H. destruct H as ([q3 mls3] & [] & Hdis & H). unfold with_mls in Hdis.
    destruct (discard_own_commit mls1) as [m3 [[]|]] eqn:Ed; [|done]. injection Hdis as <- <-.
    rewrite sbind_ok in H. destruct H as ([q4 mls4] & d & Hm & H). unfold with_mls in Hm.
    destruct (merge_staged_commit m3) as [m4 [d'|]] eqn:Em; [|done]. injection Hm as <- <- <-.
    unfold sbind, update_queues, with_queues, sret in H. destruct (finalize_committed_batch _ _ _) as [q5 b5] eqn:Ef.
    injection H as <- <- _ <-. exists d'. split_and!; [done| |by eexists _, _]. by exists mls1, m3, sender, sr, acts.
Qed.

(** ** Both sides of one merge *)

Context (i j : N).
Abbreviation peer_services := (peer_services i j).

Lemma member_at_same g1 g2 n : g_members g1 = g_members g2 → g_member_at g1 n = g_member_at g2 n.
Proof.
  intros H. apply option_eq. intros m. by rewrite !member_at_spec, H.
Qed.

Lemma removed_same s1 s2 a b :
  g_members (mls_group s1) = g_members (mls_group s2) → same_staged a b →
  removed_members_of s1 a = removed_members_of s2 b.
Proof.
  intros Hm [_ Hr]%same_staged_actions. unfold removed_members_of. rewrite Hr.
  apply list_omap_ext, Forall2_same_length_lookup. split; [done|]. intros k x y Hx Hy. rewrite Hx in Hy. injection Hy as <-.
  by rewrite (member_at_same _ _ _ Hm).
Qed.

Lemma delta_same s1 s2 s1' s2' r1 r2 :
  g_members (mls_group s1) = g_members (mls_group s2) → g_members (mls_group s1') = g_members (mls_group s2') →
  r1 = r2 → mls_delta s1' (populated_leaves s1) r1 = mls_delta s2' (populated_leaves s2) r2.
Proof. intros Hm Hm' <-. unfold mls_delta, populated_leaves. by rewrite Hm, Hm'. Qed.

(** Whoever is a member after a merge was one before it or is among the added. *)
Lemma members_after s s' removed m :
  m ∈ mls_members s' → m ∈ mls_members s ∨ m ∈ added_ids (mls_delta s' (populated_leaves s) removed).
Proof.
  unfold mls_members, added_ids. intros (x & -> & Hx)%list_elem_of_fmap.
  destruct (contains (populated_leaves s) (leaf_index x)) eqn:E.
  - left. apply contains_true, list_elem_of_fmap in E as (y & Hy & Hin).
    apply list_elem_of_fmap. exists y. by rewrite Hy.
  - right. apply list_elem_of_fmap. exists x. split; [done|]. apply elem_of_filterb. by rewrite E.
Qed.

Lemma merged_members s s' sc :
  g_merge_staged_commit sc (mls_group s) = (mls_group s', Ok tt) → (g_epoch (mls_group s) ≤ g_epoch (mls_group s'))%N.
Proof. intros H. pose proof (merge_epoch sc (mls_group s)) as He. by rewrite H in He. Qed.

Lemma discard_keeps_views s s' g :
  discard_own_commit s = (s', Ok tt) → views i j g (mls_group s) → views i j g (mls_group s').
Proof. intros [-> _]%discard_own_ok H. by apply views_clear_proposals, views_clear_commit. Qed.
Lemma discard_keeps_views_l s s' g :
  discard_own_commit s = (s', Ok tt) → views i j (mls_group s) g → views i j (mls_group s') g.
Proof.
  intros [-> _]%discard_own_ok H%views_sym. by apply views_sym, views_clear_proposals, views_clear_commit.
Qed.

(** What reading and dropping candidates leaves of a group. *)
Record reading_keeps (g : MlsGroup) s : Prop := {
  rk_public : same_public g (mls_group s);
  rk_pending : g_pending_commit (mls_group s) = g_pending_commit g;
}.

Lemma keeps_on_group {A} g boxed (f : group_call MlsGroup A) :
  (∀ g0, same_public g0 (f g0).1) → (∀ g0, g_pending_commit (f g0).1 = g_pending_commit g0) →
  preserves (reading_keeps g) (on_group boxed f).
Proof.
  intros Hf Hp s [[Hm He] Hc]. unfold on_group. specialize (Hf (mls_group s)) as [Hfm Hfe]. specialize (Hp (mls_group s)).
  destruct (f (mls_group s)) as [g1 r]. cbn in *. split; [split|]; cbn; congruence.
Qed.

Lemma stage_keeps g ps cb : preserves (reading_keeps g) (stage_remote_commit ps cb).
Proof.
  assert (∀ acc, preserves (reading_keeps g) (stage_proposals ps acc)) as Hps.
  { induction ps as [|p ps' IH]; intros acc; cbn; [apply preserves_ret|].
    apply preserves_bind; [apply preserves_lift|]. intros pm.
    apply preserves_bind; [apply keeps_on_group; intros; [apply process_public|apply process_pending]|].
    intros [[] []]; try apply preserves_ret.
    apply preserves_bind; [apply keeps_on_group; intros; [apply store_public|apply store_pending]|]. by intros. }
  unfold stage_remote_commit. apply preserves_bind; [done|]. intros [senders|]; [|apply preserves_ret].
  apply preserves_bind; [apply preserves_lift|]. intros pm. apply preserves_bind; [apply preserves_get|]. intros s.
  case_match; [apply preserves_ret|]. case_match; [apply preserves_ret|].
  apply preserves_bind; [apply keeps_on_group; intros; [apply process_public|apply process_pending]|].
  intros [[] []]; try apply preserves_ret. case_match; [apply preserves_ret|].
  apply preserves_bind; [|intros; apply preserves_ret]. apply preserves_modify. by intros ? [? ?].
Qed.

Lemma discard_staged_keeps g : preserves (reading_keeps g) discard_staged_commit.
Proof.
  unfold discard_staged_commit. apply preserves_bind; [apply preserves_modify; by intros ? [? ?]|]. intros _.
  apply keeps_on_group; intros; [apply clear_proposals_public|apply clear_pending].
Qed.

Lemma discard_own_public s s' : discard_own_commit s = (s', Ok tt) → same_public (mls_group s) (mls_group s').
Proof.
  intros [-> _]%discard_own_ok. destruct (clear_commit_public (mls_group s)) as [H1 H2].
  destruct (clear_proposals_public (clear_pending_commit (mls_group s)).1) as [H3 H4]. split; congruence.
Qed.

(** Dropping candidates, one after the other. *)
Lemma dropped_keeps sl x cs st st' ops :
  dropped_all sl x cs st st' ops →
  reading_keeps (mls_group st.2) st'.2 ∧ (pending_staged_commit st.2 = None → pending_staged_commit st'.2 = None) ∧ st'.1 = st.1.
Proof.
  induction 1 as [st|c cs st st1 st2 op ops Ha _ ([Hp1 Hc1] & Hs & Hq)]; [by repeat split|].
  assert (reading_keeps (mls_group st.2) st1.2 ∧ pending_staged_commit st1.2 = None ∧ st1.1 = st.1) as ([Hp Hc] & Hn & Hq1).
  { unfold apply_one in Ha. destruct (is_local_candidate c); [by apply local_never_dropped in Ha|].
    apply apply_incoming_verdict in Ha as (s1 & staging & Hst & Hq1 & Hr). destruct (refusal _ _ _ _) as [p|]; [|by destruct Hr as (? & ? & ?)].
    pose proof (reject_staged_drop _ _ _ _ Hr) as (_ & Hq2 & Hn). split_and!; [|done|congruence].
    destruct st as [q mls], s1 as [q1 m1]. unfold stage_candidate in Hst.
    pose proof (stage_keeps (mls_group mls) (mls_proposals (candidate_msg c)) (commit_message (candidate_msg c)) mls) as Hk.
    destruct (stage_remote_commit _ _ mls) as [m1' r1]. injection Hst as -> <- _.
    unfold reject_staged, sbind, with_mls in Hr.
    pose proof (discard_staged_keeps (mls_group mls) m1') as Hk2.
    destruct (discard_staged_commit m1') as [m2 [[]|e]]; [|done]. injection Hr as <- _. apply Hk2, Hk. by repeat split. }
  destruct Hp, Hp1.
  split_and!; [|by auto|congruence]. split; [split|]; congruence.
Qed.

(** What a merge leaves two services with: the same group, nothing staged, the same
    membership delta, whose additions are all that is new in the group. *)
Definition merged_alike s1 s1' s2' (d1 d2 : MembershipDelta) : Prop :=
  peers i j (mls_group s1') (mls_group s2') ∧ pending_staged_commit s2' = None ∧ d1 = d2 ∧
  (g_epoch (mls_group s1) ≤ g_epoch (mls_group s1'))%N ∧
  ∀ m, m ∈ mls_members s1' → m ∈ mls_members s1 ∨ m ∈ added_ids d1.

Lemma same_public_members s s' : same_public (mls_group s) (mls_group s') → mls_members s' = mls_members s.
Proof. intros [H _]. unfold mls_members. by rewrite H. Qed.

Lemma merged_alike_from s0 s1 s1' s2' d1 d2 :
  same_public (mls_group s0) (mls_group s1) → merged_alike s1 s1' s2' d1 d2 → merged_alike s0 s1' s2' d1 d2.
Proof.
  intros Hp (H1 & H2 & H3 & H4 & H5). rewrite (same_public_members _ _ Hp) in H5. destruct Hp as [_ He].
  split_and!; [done..| |done]. lia.
Qed.

(** A third member's commit, staged by both. *)
Lemma merge_third ps cb s1 s2 m1 m2 n1 n2 s1' s2' sd1 sd2 sr1 sr2 a1 a2 d1 d2 :
  peer_services s1 s2 → (∀ p, p ∈ ps → foreign i j p) → foreign i j cb →
  stage_remote_commit ps cb s1 = (m1, Ok (ScStaged sd1 sr1 a1)) →
  stage_remote_commit ps cb s2 = (m2, Ok (ScStaged sd2 sr2 a2)) →
  discard_own_commit m1 = (n1, Ok tt) → discard_own_commit m2 = (n2, Ok tt) →
  merge_staged_commit n1 = (s1', Ok d1) → merge_staged_commit n2 = (s2', Ok d2) →
  merged_alike s1 s1' s2' d1 d2 ∧ pending_staged_commit s1' = None.
Proof.
  intros Hs Hps Hcb H1 H2 Hd1 Hd2 (a & Ha & Hg1 & Hn1 & Ed1)%merge_staged_ok (b & Hb & Hg2 & Hn2 & Ed2)%merge_staged_ok.
  destruct (related_ok _ _ _ _ _ _ _ _ _ _ (stage_remote_commit_related i j ps cb Hps Hcb) Hs H1 H2) as [[Hm Hsl] _].
  pose proof (peers_views _ _ _ _ Hm) as Hv.
  assert (same_public (mls_group s1) (mls_group n1)) as Hpub.
  { pose proof (stage_keeps (mls_group s1) ps cb s1) as Hk. rewrite H1 in Hk. destruct Hk as [[Hk1 Hk2] _]; [by repeat split|]. cbn in Hk1, Hk2.
    destruct (discard_own_public _ _ Hd1) as [? ?]. split; congruence. }
  pose proof (discard_keeps_views_l _ _ _ Hd1 (discard_keeps_views _ _ _ Hd2 Hv)) as Hv'.
  apply discard_own_ok in Hd1 as [_ Hp1], Hd2 as [_ Hp2]. rewrite <-Hp1, <-Hp2, Ha, Hb in Hsl. cbn in Hsl.
  pose proof (merge_same _ _ _ _ _ _ _ _ Hv' Hsl Hg1 Hg2) as Hp.
  split; [|done]. apply (merged_alike_from _ _ _ _ _ _ Hpub). split_and!; [done..| |by eapply merged_members|].
  - rewrite Ed1, Ed2. apply delta_same; [by eapply views_members|by eapply peers_members|].
    apply removed_same; [by eapply views_members|done].
  - intros m Hin. rewrite Ed1. by apply members_after.
Qed.

(** *** The author's own commit *)

(** [c] is the candidate that the group's pending commit went out as, by the member
    at leaf [k]. *)
Definition own_candidate_of (k : N) (g : MlsGroup) (c : BufferedCommitCandidate) : Prop :=
  (∀ p pm, p ∈ mls_proposals (candidate_msg c) → parse_protocol_message p = Ok pm → sent_by k pm) ∧
  ∃ a pm, g_pending_commit g = Some a ∧ announces a pm ∧ sent_by k pm ∧
    parse_protocol_message (commit_message (candidate_msg c)) = Ok pm.

Lemma own_candidate_keeps k g s c : reading_keeps g s → own_candidate_of k g c → own_candidate_of k (mls_group s) c.
Proof. intros [_ Hp] [Hps (a & pm & Ha & ?)]. split; [done|]. exists a, pm. by rewrite Hp. Qed.

Lemma hears_proposals g1 ps acc s s' r :
  (∀ p pm, p ∈ ps → parse_protocol_message p = Ok pm → sent_by i pm) →
  peers i j g1 (mls_group s) → stage_proposals ps acc s = (s', r) → peers i j g1 (mls_group s').
Proof.
  intros Hps. revert acc s. induction ps as [|p ps IH]; intros acc s Hg; cbn; [by intros [= <- _]|].
  unfold sbind, slift, on_group. destruct (parse_protocol_message p) as [pm|] eqn:Ep; [|by intros [= <- _]].
  assert (sent_by i pm) as Hi by (eapply Hps; [by left|done]).
  pose proof (hears_message _ _ _ _ pm Hg Hi) as Hg'.
  destruct (process_message pm (mls_group s)) as [g [[[idx|] c]|e]] eqn:Epm; cbn in *; [|by intros [= <- _]..].
  destruct c as [|qp| |]; cbn; try by intros [= <- _].
  assert ((process_message pm (mls_group s)).2 = Ok (SenderMember idx, ProposalMessage qp)) as E2 by (by rewrite Epm).
  pose proof (hears_proposal i j g1 g (mls_group s) pm _ qp Hi E2 Hg') as Hg2.
  destruct (store_pending_proposal qp g) as [g2 [[]|e]]; cbn in *; [|by intros [= <- _]].
  apply IH; [|done]. intros p' pm' Hin. by apply Hps; right.
Qed.

Lemma hears_commit_staged g1 c s s' sd sr acts :
  own_candidate_of i g1 c → peers i j g1 (mls_group s) →
  stage_remote_commit (mls_proposals (candidate_msg c)) (commit_message (candidate_msg c)) s = (s', Ok (ScStaged sd sr acts)) →
  peers i j g1 (mls_group s') ∧
  ∃ a b, g_pending_commit g1 = Some a ∧ pending_staged_commit s' = Some b ∧ same_staged a b ∧ acts = staged_actions b.
Proof.
  intros [Hps (a & pm & Ha & Han & Hi & Ep)] Hg. unfold stage_remote_commit. rewrite sbind_ok.
  intros (s1 & [senders|] & H1 & H); [|done]. pose proof (hears_proposals _ _ _ _ _ _ Hps Hg H1) as Hg1.
  rewrite Ep in H. unfold sbind, slift, sget, on_group in H. cbn [id] in H.
  repeat (case_match; [done|]).
  pose proof (hears_message _ _ _ _ pm Hg1 Hi) as Hg2.
  pose proof (λ k b, hears_commit i j g1 (mls_group s1) pm k a b Hg1 Hi Ha Han) as Hb.
  destruct (process_message pm (mls_group s1)) as [g [[[idx|] ct]|e]]; cbn in *; [|done..].
  destruct ct as [|qp|b|]; try done. case_match; [done|]. injection H as <- _ _ <-.
  split; [done|]. exists a, b. split_and!; [done..| |done]. by eapply Hb.
Qed.

Lemma merge_author c s1 s2 m2 n2 s1' s2' sd sr acts d1 d2 :
  peer_services s1 s2 → pending_staged_commit s1 = None → own_candidate_of i (mls_group s1) c →
  merge_own_commit s1 = (s1', Ok d1) →
  stage_remote_commit (mls_proposals (candidate_msg c)) (commit_message (candidate_msg c)) s2
    = (m2, Ok (ScStaged sd sr acts)) →
  discard_own_commit m2 = (n2, Ok tt) → merge_staged_commit n2 = (s2', Ok d2) →
  merged_alike s1 s1' s2' d1 d2 ∧ pending_staged_commit s1' = None.
Proof.
  intros [Hg _] Hn Hc (Hg1 & Hs1 & Ed1)%merge_own_ok H2 Hd2 (b & Hb & Hg2 & Hn2 & Ed2)%merge_staged_ok.
  destruct (hears_commit_staged _ _ _ _ _ _ _ Hc Hg H2) as [Hm (a & b' & Ha & Hb' & Hab & _)].
  pose proof (discard_own_ok _ _ Hd2) as [_ Hp2]. rewrite <-Hp2, Hb in Hb'. injection Hb' as <-.
  pose proof (discard_keeps_views _ _ _ Hd2 (peers_views _ _ _ _ Hm)) as Hv.
  pose proof (merge_own _ _ _ _ _ _ _ _ Hv Ha Hab Hg1 Hg2) as Hp.
  assert (same_public (mls_group s2) (mls_group n2)) as Hpub.
  { pose proof (stage_keeps (mls_group s2) (mls_proposals (candidate_msg c)) (commit_message (candidate_msg c)) s2) as Hk.
    rewrite H2 in Hk. destruct Hk as [[Hk1 Hk2] _]; [by repeat split|]. cbn in Hk1, Hk2.
    destruct (discard_own_public _ _ Hd2) as [? ?]. split; congruence. }
  split; [|by rewrite Hs1]. split_and!; [done..| | |].
  - rewrite Ed1, Ed2, Ha. apply delta_same; [by eapply views_members|by eapply peers_members|].
    apply removed_same; [by eapply views_members|done].
  - rewrite (peers_epoch _ _ _ _ Hg), (peers_epoch _ _ _ _ Hp). destruct Hpub as [_ <-]. by eapply merged_members.
  - intros m Hin. rewrite Ed1. by apply members_after.
Qed.
End merge.

(** ** The whole round *)

Section round.
Context {HS : Hash} {OM : OpenMls} {OL : OpenMlsLaws} {PR : OpenMlsPeers} {PL : OpenMlsPeersLaws}.
Context {MR : OpenMlsMerge} {ML : OpenMlsMergeLaws}.

(** Two members between two rounds: one group, nothing staged, the same work, and the
    same members settled from [k] epochs on. *)
Record together_from (k i j : N) (st1 st2 : RoundState) : Prop := {
  tg_services : peer_services i j st1.2 st2.2;
  tg_idle : pending_staged_commit st1.2 = None;
  tg_work : same_work (mls_members st1.2) (k + g_epoch (mls_group st1.2)) st1.1 st2.1;
}.
Abbreviation together := (together_from 0).

Lemma together_members k i j st1 st2 : together_from k i j st1 st2 → mls_members st1.2 = mls_members st2.2.
Proof. intros [[Hg _] _ _]. unfold mls_members. by rewrite (peers_members _ _ _ _ Hg). Qed.
Lemma together_later k k' i j st1 st2 : together_from k i j st1 st2 → (k ≤ k')%N → together_from k' i j st1 st2.
Proof. intros [Hs Hi [Ha Hk Hu Hse]] Hle. split; [done..|split; [done..|]]. intros m e Hm He. apply Hse; [done|lia]. Qed.
Lemma together_idle k i j st1 st2 : together_from k i j st1 st2 → pending_staged_commit st2.2 = None.
Proof. intros [[_ Hs] Hi _]. rewrite Hi in Hs. by destruct (pending_staged_commit st2.2). Qed.

Lemma peer_services_sym i j s1 s2 : peer_services i j s1 s2 → peer_services j i s2 s1.
Proof.
  intros [Hg Hs]. split; [by apply peers_sym|]. unfold same_slot in *.
  repeat case_match; try done. by apply same_staged_sym.
Qed.

(** Who wrote the candidate the two members hold: a third member, or one of the two,
    which holds it as its own. *)
Definition authored (i j : N) (st1 st2 : RoundState) (c1 c2 : BufferedCommitCandidate) : Prop :=
  (is_local_candidate c1 = false ∧ is_local_candidate c2 = false ∧ foreign_candidate i j c1) ∨
  (is_local_candidate c1 = true ∧ is_local_candidate c2 = false ∧ own_candidate_of i (mls_group st1.2) c1) ∨
  (is_local_candidate c1 = false ∧ is_local_candidate c2 = true ∧ own_candidate_of j (mls_group st2.2) c2).

Lemma merged_alike_sym i j s1 s2 s1' s2' d1 d2 :
  peers i j (mls_group s1) (mls_group s2) → pending_staged_commit s2' = None →
  merged_alike j i s2 s2' s1' d2 d1 → merged_alike i j s1 s1' s2' d1 d2.
Proof.
  intros Hg Hn (Hp%peers_sym & _ & -> & He & Hm). unfold merged_alike.
  assert (mls_members s1' = mls_members s2') as -> by (unfold mls_members; by rewrite (peers_members _ _ _ _ Hp)).
  assert (mls_members s1 = mls_members s2) as -> by (unfold mls_members; by rewrite (peers_members _ _ _ _ Hg)).
  rewrite (peers_epoch _ _ _ _ Hg), (peers_epoch _ _ _ _ Hp). done.
Qed.

(** The two merges of the winning candidate, whoever wrote it. *)
Lemma merges_alike i j c1 c2 st1 st2 t1 t2 d1 d2 :
  peer_services i j st1.2 st2.2 → pending_staged_commit st1.2 = None → pending_staged_commit st2.2 = None →
  same_candidate c1 c2 → authored i j st1 st2 c1 c2 →
  merges_as c1 st1.2 t1 d1 → merges_as c2 st2.2 t2 d2 →
  merged_alike i j st1.2 t1 t2 d1 d2 ∧ pending_staged_commit t1 = None.
Proof.
  intros Hs Hn1 Hn2 [Hc _] Ha H1 H2. unfold merges_as in *.
  destruct Ha as [(L1 & L2 & Hf)|[(L1 & L2 & Ho)|(L1 & L2 & Ho)]]; rewrite L1 in H1; rewrite L2 in H2.
  - destruct H1 as (m1 & n1 & sd1 & sr1 & a1 & H1 & Hd1 & Hm1), H2 as (m2 & n2 & sd2 & sr2 & a2 & H2 & Hd2 & Hm2).
    rewrite <-Hc in H2. destruct Hf as [Hps Hcb].
    eapply (merge_third i j _ _ _ _ _ _ _ _ _ _ _ _ _ _ _ _ _ _ Hs Hps Hcb H1 H2 Hd1 Hd2 Hm1 Hm2).
  - destruct H2 as (m2 & n2 & sd2 & sr2 & a2 & H2 & Hd2 & Hm2). rewrite <-Hc in H2.
    eapply (merge_author i j _ _ _ _ _ _ _ _ _ _ _ _ Hs Hn1 Ho H1 H2 Hd2 Hm2).
  - destruct H1 as (m1 & n1 & sd1 & sr1 & a1 & H1 & Hd1 & Hm1). rewrite Hc in H1.
    destruct (merge_author j i _ _ _ _ _ _ _ _ _ _ _ _ (peer_services_sym _ _ _ _ Hs) Hn2 Ho H2 H1 Hd1 Hm1) as [Hm Hn].
    split; [|by destruct Hm as (_ & ? & _)]. destruct Hs as [Hg _]. by apply (merged_alike_sym _ _ _ st2.2).
Qed.

Lemma discard_together k i j st1 st2 t1 t2 :
  together_from k i j st1 st2 →
  with_mls discard_own_commit st1 = (t1, Ok tt) → with_mls discard_own_commit st2 = (t2, Ok tt) → together_from k i j t1 t2.
Proof.
  destruct st1 as [q1 m1], st2 as [q2 m2]. intros [[Hg Hs] Hi Hw]. unfold with_mls.
  destruct (discard_own_commit m1) as [n1 [[]|]] eqn:E1; [|done]. intros [= <-].
  destruct (discard_own_commit m2) as [n2 [[]|]] eqn:E2; [|done]. intros [= <-]. cbn in *.
  pose proof (discard_own_public _ _ E1) as Hp1. pose proof (discard_own_public _ _ E2) as Hp2.
  apply discard_own_ok in E1 as [G1 S1], E2 as [G2 S2].
  assert (peers i j (mls_group n1) (mls_group n2)) as Hg'.
  { rewrite G1, G2. refine (proj1 (peers_clear i j _ _ _)). apply peers_clear_commit, peers_sym, peers_clear_commit, peers_sym, Hg. }
  split; cbn.
  - split; [done|]. by rewrite S1, S2.
  - congruence.
  - rewrite (same_public_members _ _ Hp1). destruct Hp1 as [_ ->]. done.
Qed.

(** Dropping the same candidates keeps them together. *)
Lemma still_together k i j sl x1 x2 pre1 pre2 ops1 ops2 st1 st2 s1 s2 :
  together_from k i j st1 st2 → peer_services i j s1.2 s2.2 →
  dropped_all sl x1 pre1 (taken st1) s1 ops1 → dropped_all sl x2 pre2 (taken st2) s2 ops2 → together_from k i j s1 s2.
Proof.
  intros [_ Hi [Ha Hk Hu Hse]] Hs H1 H2.
  apply dropped_keeps in H1 as ([Hp _] & Hn & Hq1), H2 as (_ & _ & Hq2).
  split; [done|by apply Hn|]. rewrite Hq1, Hq2, (same_public_members _ _ Hp). destruct Hp as [_ ->]. by split.
Qed.

(** How the two rounds ended. *)
Definition ended_alike (r1 r2 : CommitRoundResult) : Prop :=
  (rr_outcome r1 = NoCandidate ∧ rr_outcome r2 = NoCandidate) ∨
  (∃ leaving1 leaving2 w1 w2, rr_outcome r1 = Applied (leave_or_update leaving1) w1 ∧
     rr_outcome r2 = Applied (leave_or_update leaving2) w2).

(** Two members that stop at one candidate, whoever wrote it, are together again. *)
Lemma terminals_together k k' i j sl x1 x2 c1 c2 s1 s2 t1 t2 o1 o2 com1 com2 b1 b2 :
  together_from k i j s1 s2 → (k ≤ k' ∨ k + g_epoch (mls_group s1.2) ≤ k' + g_epoch (mls_group t1.2))%N →
  same_candidate c1 c2 → authored i j s1 s2 c1 c2 → ctx_current_epoch x1 = ctx_current_epoch x2 →
  apply_one sl c1 x1 s1 = (t1, Ok (Terminal o1 com1 b1)) → apply_one sl c2 x2 s2 = (t2, Ok (Terminal o2 com2 b2)) →
  together_from k' i j t1 t2 ∧ b1 ≡ₚ b2 ∧
  ∃ leaving1 leaving2 w1 w2, o1 = Applied (leave_or_update leaving1) w1 ∧ o2 = Applied (leave_or_update leaving2) w2.
Proof.
  intros Ht Hk Hc Hau Hx (d1 & Hb1 & Hm1 & l1 & w1 & Ho1)%terminal_merges (d2 & Hb2 & Hm2 & l2 & w2 & Ho2)%terminal_merges.
  pose proof (together_idle _ _ _ _ _ Ht) as Hi2. destruct Ht as [Hs Hi1 Hw].
  destruct (merges_alike _ _ _ _ _ _ _ _ _ _ Hs Hi1 Hi2 Hc Hau Hm1 Hm2) as [(Hg & Hn2 & <- & He & Hms) Hn1].
  rewrite <-(proj2 Hc), <-Hx in Hb2.
  assert (k + g_epoch (mls_group s1.2) ≤ k' + g_epoch (mls_group t1.2))%N as Hke by (destruct Hk as [?|?]; lia).
  destruct (finalize_batch_same _ _ _ _ _ _ _ _ _ _ _ _ _ Hw Hke Hms Hb1 Hb2) as [Hw' Hbb].
  split_and!; [split| |by eexists _, _, _, _]; [|done..]. split; [done|]. by rewrite Hn1, Hn2.
Qed.

Lemma round_together k k' i j sl rec allow self1 self2 st1 st2 t1 t2 r1 r2 :
  together_from k i j st1 st2 → (k ≤ k' ∨ k + g_epoch (mls_group st1.2) ≤ k' + g_epoch (mls_group t1.2))%N →
  NoDup (commit_hash <$> round_candidates st1) →
  public <$> round_candidates st1 ≡ₚ public <$> round_candidates st2 →
  fair_round i j sl rec self1 self2 st1 st2 →
  (∀ c1 c2, c1 ∈ round_candidates st1 → c2 ∈ round_candidates st2 → same_candidate c1 c2 → authored i j st1 st2 c1 c2) →
  finalize_commit_round sl rec allow self1 st1 = (t1, Ok r1) →
  finalize_commit_round sl rec allow self2 st2 = (t2, Ok r2) →
  together_from k' i j t1 t2 ∧ committed_batch r1 ≡ₚ committed_batch r2 ∧ ended_alike r1 r2.
Proof.
  intros Ht Hk Hn Hp Hf Hau H1 H2. pose proof Ht as [Hs Hi [Ha _ _ _]].
  assert (same_round i j st1 st2) as Hr by done.
  pose proof (finalize_same _ _ _ _ _ _ _ _ _ _ _ _ _ Hr Hn Hp Hf H1 H2) as Hst. cbn zeta in Hst.
  destruct Hst as [(s1 & s2 & pen & -> & -> & Hp1 & Hp2 & [Hs12 _] & Hd1 & Hd2)|
    (pre1 & c1 & post1 & pre2 & c2 & post2 & s1 & s2 & pen & E1 & E2 & Hc & _ & Hp1 & Hp2 & [Hs12 _] & Ha1 & Ha2 & _)].
  - pose proof (still_together _ _ _ _ _ _ _ _ _ _ _ _ _ _ Ht Hs12 Hp1 Hp2) as Ht'.
    assert (k ≤ k')%N as Hkk.
    { destruct Hk as [?|Hk]; [done|]. apply dropped_keeps in Hp1 as ([[_ He] _] & _). destruct s1 as [q m]. unfold with_mls in Hd1.
      destruct (discard_own_commit m) as [m' [[]|]] eqn:E; [|done]. injection Hd1 as <-. apply discard_own_public in E as [_ E].
      cbn [snd] in *. assert (g_epoch (mls_group m') = g_epoch (mls_group st1.2)) by (by rewrite E, He). lia. }
    split_and!; [eapply together_later; [by eapply discard_together|exact Hkk]|done|by left].
  - pose proof (still_together _ _ _ _ _ _ _ _ _ _ _ _ _ _ Ht Hs12 Hp1 Hp2) as Ht'.
    assert (k ≤ k' ∨ k + g_epoch (mls_group s1.2) ≤ k' + g_epoch (mls_group t1.2))%N as Hk'.
    { apply dropped_keeps in Hp1 as ([[_ He] _] & _). cbn [taken snd] in He. by rewrite He. }
    assert (authored i j s1 s2 c1 c2) as Hau'.
    { assert (authored i j st1 st2 c1 c2) as H.
      { apply Hau; [|..|done]; eapply elem_of_rank; [rewrite E1|rewrite E2]; set_solver. }
      apply dropped_keeps in Hp1 as [Hk1 _], Hp2 as [Hk2 _].
      destruct H as [?|[(? & ? & Ho)|(? & ? & Ho)]]; [by left|right; left|right; right]; (split_and!; [done..|]);
        by eapply own_candidate_keeps. }
    pose proof (round_context_same i j sl rec self1 self2 _ _ Hr) as (_ & Hx & _).
    destruct (terminals_together _ _ _ _ _ _ _ _ _ _ _ _ _ _ _ _ _ _ _ Ht' Hk' Hc Hau' Hx Ha1 Ha2) as (Ht2 & Hb & He).
    split_and!; [done..|by right].
Qed.
End round.
Abbreviation together := (together_from 0).

(** ** The concrete group *)

#[local] Existing Instances example_hash toy_mls toy_laws toy_peers toy_peers_laws.

#[export] Instance toy_merging : OpenMlsMerge := {|
  views i j g1 g2 := toy_members g1 = toy_members g2 ∧ toy_epoch g1 = toy_epoch g2 ∧ toy_own g1 = i ∧ toy_own g2 = j;
  announces a pm := toy_listed_in (toy_payload pm) = a;
|}.

Lemma toy_others_sym i j g : toy_others i j g = toy_others j i g.
Proof. unfold toy_others. apply list_filter_iff. naive_solver. Qed.
Lemma toy_others_push i j g k p : k = i ∨ k = j → toy_others i j (toy_push (k, p) g) = toy_others i j g.
Proof.
  intros Hk. unfold toy_others. cbn. rewrite filter_app, filter_cons_False, app_nil_r; [done|]. cbn. naive_solver.
Qed.

#[export] Instance toy_merging_laws : OpenMlsMergeLaws.
Proof.
  split; cbn -[toy_push N.min]; try done.
  - intros i j g1 g2 (? & ? & ? & ? & Ho). split_and!; try done. by rewrite !(toy_others_sym j i).
  - by intros i j g1 g2 (? & ? & ? & ?).
  - by intros i j g1 g2 (? & ? & ? & ? & ?).
  - by intros i j g1 g2 (-> & _).
  - intros i j g1 g2 g pm s qp <-. repeat (case_decide; try done); intros [= _ <-] (? & ? & ? & ? & ?);
      (split_and!; try done; by rewrite toy_others_push by naive_solver).
  - intros i j g1 g2 pm s a b _ <- _ <-. repeat (case_decide; try done). by intros [= _ <-].
  - intros i j g1 g2 kp (? & ? & ? & <- & ?). split_and!; try done. by rewrite toy_others_push by by right.
  - intros i j g1 g2 k (? & ? & ? & <- & ?). split_and!; try done. by rewrite toy_others_push by by right.
  - intros _ g. lia.
  - intros i j g1 g2 a b g1' g2' (Hm & He & H1 & H2) <- [= <-] [= <-]. cbn. by rewrite Hm, He.
  - intros i j g1 g2 a b g1' g2' (Hm & He & H1 & H2) -> <- [= <-] [= <-]. cbn. by rewrite Hm, He.
Qed.
