(* ===== verification/Wakeup.v ===== *)
(** * Waking up in time

    The integrator sleeps for [next_wakeup_in] between two polls; what that promise
    covers. *)

From S2P Require Import Prelude Time Machine Protos StewardList Mls Toy Buffer Queues Scoring CommitRound ApplyResult Config Display Conversation Room Voting Steward HandleOutcome Inbound Messaging Poll System.

Section wakeup.
Context {HS : Hash} {OM : OpenMls} {CS : ConsensusLib} {CD : Codec} {CT : ConsensusTexts} {HI : HashIter}.
Context {St : Type} `{!PeerScoreStorage St}.
Abbreviation Conv := (Conversation St).
Implicit Types (c : Conv).

Lemma earliest_spec l :
  match earliest l with
  | None => l = []
  | Some t => t ∈ l ∧ ∀ t', t' ∈ l → (since_epoch t ≤ since_epoch t')%N
  end.
Proof.
  induction l as [|t l IH]; [done|]. cbn [earliest foldr]. fold (earliest l). destruct (earliest l) as [a|].
  - destruct IH as [Ha Hmin]. unfold ts_min. destruct (ts_leb t a) eqn:E.
    + apply ts_leb_le in E. split; [set_solver|]. intros t' [->|Ht]%elem_of_cons; [done|].
      specialize (Hmin t' Ht). lia.
    + assert (since_epoch a < since_epoch t)%N by (unfold ts_leb in E; apply N.leb_gt in E; lia).
      split; [set_solver|]. intros t' [->|Ht]%elem_of_cons; [lia|by apply Hmin].
  - subst. split; [set_solver|]. by intros t' ->%list_elem_of_singleton.
Qed.

(** No deadline of the list has come at [now]. *)
Definition none_due (l : list Timestamp) (now : Duration) : Prop := ∀ t, t ∈ l → (now < since_epoch t)%N.

Lemma votes_not_due c now : none_due (pending_deadlines c) now → auto_votes_due (tick_clock now c) = [].
Proof.
  intros H. unfold auto_votes_due. rewrite filterb_none; [done|]. intros [k e] Hin%elem_of_hash_iter.
  apply N.leb_gt, H. unfold pending_deadlines. apply elem_of_app. right. apply elem_of_app. left.
  apply list_elem_of_fmap. exists e. split; [done|]. apply list_elem_of_fmap. exists (k, e).
  split; [done|]. by apply elem_of_map_to_list.
Qed.

Lemma timeouts_not_due c now : none_due (pending_deadlines c) now → timeouts_due (tick_clock now c) = [].
Proof.
  intros H. unfold timeouts_due. rewrite filterb_none; [done|]. intros [k t] Hin%elem_of_hash_iter.
  apply N.leb_gt, H. unfold pending_deadlines. apply elem_of_app. left.
  apply list_elem_of_fmap. exists (k, t). split; [done|]. by apply elem_of_map_to_list.
Qed.

Lemma phase_not_due c now t :
  none_due (pending_deadlines c) now → phase_deadline c = Some t → ts_leb t (timestamp (tick_clock now c)) = false.
Proof.
  intros H Ht. apply N.leb_gt, H. unfold pending_deadlines. rewrite Ht. set_solver.
Qed.

Lemma freeze_not_due c now :
  none_due (pending_deadlines c) now → is_freeze_window_elapsed (tick_clock now c) = false.
Proof.
  intros H. pose proof (phase_not_due c now) as Hp. unfold is_freeze_window_elapsed, elapsed_since_anchor, phase_deadline in *.
  change (current_state (tick_clock now c)) with (current_state c). case_bool_decide as Hs; [|done]. cbn [andb].
  change (c_timing (tick_clock now c)) with (c_timing c). destruct (started_at _) as [a|]; [|done].
  rewrite Hs in Hp. by apply (Hp _ H).
Qed.

Lemma batch_not_due c now :
  none_due (pending_deadlines c) now → current_state c = Working → (0 < approved_proposals_count (c_queues c))%N →
  inactivity_window c = (if is_in_recovery_mode c then retry_window (c_config c) else commit_batch_window (c_config c)) →
  elapsed_since_anchor (phase_timer (c_timing c)) (timestamp (tick_clock now c)) (inactivity_window c) = false.
Proof.
  intros H Hs Ha Hw. pose proof (phase_not_due c now) as Hp. unfold elapsed_since_anchor, phase_deadline in *.
  destruct (started_at _) as [a|]; [|done]. rewrite Hs in Hp. destruct (N.eqb_spec (approved_proposals_count (c_queues c)) 0); [lia|].
  rewrite Hw. by apply (Hp _ H).
Qed.

Lemma request_not_due c now anchor :
  none_due (pending_deadlines c) now → sync_request_anchor (c_timing c) = Some anchor →
  ts_ltb (timestamp (tick_clock now c)) (ts_add anchor (backup_takeover_window (c_config c))) = true.
Proof.
  intros H Ha. apply N.ltb_lt, H. unfold pending_deadlines, sync_request_deadline. rewrite Ha.
  rewrite !elem_of_app. do 3 right. cbn. set_solver.
Qed.

(** C37: the promised sleep is neither too long nor empty. [None] means that no
    deadline is pending; [Some d] that the earliest one falls exactly [d] from now,
    or has passed when [d] is zero. Until then, and for ever when it is [None], no
    automatic vote and no session timeout is due, the freeze window has not
    elapsed, a waiting sync request is not repeated, and approved work does not
    open a freeze, provided its window is the one of the recovery mode alone: the
    shorter one that a pending election retry or a resumed re-election calls for is
    not what the sleep is computed from. *)
Theorem wakeup_covers_deadlines c now :
  (c_now c ≤ now)%N →
  match next_wakeup_in c with
  | None => pending_deadlines c = []
  | Some d => ∃ t, t ∈ pending_deadlines c ∧ (∀ t', t' ∈ pending_deadlines c → since_epoch t ≤ since_epoch t')%N ∧
      (since_epoch t = c_now c + d ∨ d = 0 ∧ since_epoch t ≤ c_now c)%N
  end ∧
  (is_some_and (next_wakeup_in c) (λ d, (c_now c + d <=? now)%N) = false →
   auto_votes_due (tick_clock now c) = [] ∧ timeouts_due (tick_clock now c) = [] ∧
   is_freeze_window_elapsed (tick_clock now c) = false ∧
   (∀ anchor, sync_request_anchor (c_timing c) = Some anchor →
      ts_ltb (timestamp (tick_clock now c)) (ts_add anchor (backup_takeover_window (c_config c))) = true) ∧
   (current_state c = Working → (0 < approved_proposals_count (c_queues c))%N →
    inactivity_window c =
      (if is_in_recovery_mode c then retry_window (c_config c) else commit_batch_window (c_config c)) →
    elapsed_since_anchor (phase_timer (c_timing c)) (timestamp (tick_clock now c)) (inactivity_window c) = false)).
Proof.
  intros Hnow. unfold next_wakeup_in. pose proof (earliest_spec (pending_deadlines c)) as He.
  destruct (earliest (pending_deadlines c)) as [t|]; cbn [fmap option_fmap option_map is_some_and].
  - destruct He as [Ht Hmin]. unfold saturating_duration_since, saturating_sub, timestamp. cbn [since_epoch]. split.
    + exists t. split_and!; [done..|]. lia.
    + intros Hd%N.leb_gt. assert (none_due (pending_deadlines c) now) as Hn by (intros t' Ht'; specialize (Hmin t' Ht'); lia).
      split_and!; eauto using votes_not_due, timeouts_not_due, freeze_not_due, request_not_due, batch_not_due.
  - split; [done|]. intros _. assert (none_due (pending_deadlines c) now) as Hn by (rewrite He; intros t' Ht; set_solver).
    split_and!; eauto using votes_not_due, timeouts_not_due, freeze_not_due, request_not_due, batch_not_due.
Qed.
End wakeup.

(** ** At a concrete input *)

#[local] Existing Instances example_hash toy_mls canonical_hash_iter toy_consensus toy_texts toy_codec.

(** The room freezing, thirty seconds before the window closes. *)
Definition freezing_room : Room := (start_freezing room).1.

Lemma wakeup_covers_deadlines_witness :
  next_wakeup_in freezing_room = Some (duration_from_secs 30) ∧
  is_freeze_window_elapsed (tick_clock (duration_from_secs 1029) freezing_room) = false.
Proof.
  assert ((c_now freezing_room ≤ duration_from_secs 1029)%N) as Hn by (by vm_compute).
  destruct (wakeup_covers_deadlines freezing_room _ Hn) as [_ H]. split; [by vm_compute|].
  destruct H as (_ & _ & Hf & _); [by vm_compute|exact Hf].
Defined.
