(* ===== verification/Landing.v ===== *)
(** * A steward lands the approved work

    One commit round from its start to its end, for the member that commits: the
    freeze that mints a candidate, the end of the window, and the merge, with all the
    housekeeping that follows it. *)

From S2P Require Import Prelude Time Machine Protos StewardList Mls Toy Buffer Queues Scoring CommitRound ApplyResult Config Display Conversation Room Voting Steward HandleOutcome Inbound Messaging Poll Quiet Construct System Candidate Agreement.

Section landing.
Context {HS : Hash} {OM : OpenMls} {CS : ConsensusLib} {CD : Codec} {CT : ConsensusTexts} {HI : HashIter}.
Context {St : Type} `{!PeerScoreStorage St}.
Abbreviation Conv := (Conversation St).
Abbreviation conv := (method Conv).
Implicit Types (c : Conv).

(** ** What the steps after a merge leave alone *)

Section settled.
(** The phase, once it is set, and what the merge left. *)
Context (phase : option ConversationState) (c0 : Conv).

Record settled c : Prop := {
  se_phase : ∀ s, phase = Some s → current_state c = s;
  se_mode : c_mode c = c_mode c0;
  se_approved : approved_proposals (c_queues c) = approved_proposals (c_queues c0);
  se_events : c_events c0 ⊆ c_events c;
  se_outbound : c_outbound c0 ⊆ c_outbound c;
}.

#[export] Instance settled_quiet : QuietStewards settled.
Proof.
  split; [split; [split|..]|].
  all: intros *; cbn; try (intros [E1 E2 E3 E4 E5]; by split).
  - intros _ [E1 E2 E3 E4 E5]. split; try done. cbn. set_solver.
  - intros Ha _ _ _ [E1 E2 E3 E4 E5]. split; try done. cbn. congruence.
  - intros [E1 E2 E3 E4 E5]. split; try done. cbn. set_solver.
Qed.
End settled.

Lemma updated_settles c0 c : settled None c0 c → settled (Some Working) c0 (on_conversation_updated c).1.
Proof.
  intros [_ Hm Ha He Ho]. unfold on_conversation_updated.
  match goal with |- settled _ _ ((edit_stewards reset_retry ;! edit_timing (set_recovered false) ;!
    (let! e := start_working in emit_event (EvPhaseChange e) ;! ?after)) c).1 =>
    change (settled (Some Working) c0 ((emit_event (EvPhaseChange Working) ;! after)
      (start_working (edit_timing (set_recovered false) (edit_stewards reset_retry c).1).1).1).1) end.
  match goal with |- settled _ _ (?m ?c).1 => cut (preserves (settled (Some Working) c0) m); [intros Hp; apply Hp|quiet] end. split; try done. by intros s [= <-].
Qed.

(** ** The merge *)

(** A removal of a member the merge removed. *)
Definition removal_landed (d : MembershipDelta) (req : ConversationUpdateRequest) : Prop :=
  ∃ id, id ∈ removed_ids d ∧ removes_member req id = true.

Lemma bookkeeping_rest e q :
  urgent_commit_target (apply_membership_delta_bookkeeping e q) = urgent_commit_target q ∧
  pending_membership_delta (apply_membership_delta_bookkeeping e q) = pending_membership_delta q.
Proof.
  set (same := λ q', urgent_commit_target q' = urgent_commit_target q ∧ pending_membership_delta q' = pending_membership_delta q).
  assert (∀ X (f : ConversationQueues → X → ConversationQueues) l q0, (∀ q0 x, same q0 → same (f q0 x)) → same q0 → same (foldl f q0 l)) as Hf.
  { intros X f l. induction l as [|x l IH]; intros q0 Hs H0; [done|]. apply IH; [done|]. by apply Hs. }
  change (same (apply_membership_delta_bookkeeping e q)). unfold apply_membership_delta_bookkeeping.
  case_match; [|done]. apply Hf; [by intros|]. apply Hf; [by intros|done].
Qed.

Lemma finalize_batch hash e q d :
  pending_membership_delta q = Some d →
  let '(q', batch) := finalize_committed_batch hash e q in
  pending_membership_delta q' = Some d ∧
  (∀ req, req ∈ batch → req ∈ im_values (approved_proposals q) ∧ ¬ removal_landed d req) ∧
  (urgent_commit_target q = None →
     approved_proposals q' = [] ∧
     ∀ req, req ∈ batch ↔ req ∈ im_values (approved_proposals q) ∧ ¬ removal_landed d req).
Proof.
  intros Hd. unfold finalize_committed_batch. set (q1 := insert_committed_hash hash q).
  assert (pending_membership_delta q1 = Some d) as Hd1 by done.
  destruct (bookkeeping_rest e q1) as [Hu Hp]. unfold take_urgent_commit_target. rewrite Hu.
  assert (∀ req, req ∈ im_values (approved_proposals (apply_membership_delta_bookkeeping e q1)) ↔
    req ∈ im_values (approved_proposals q) ∧ ¬ removal_landed d req) as Hb.
  { intros req. unfold im_values. rewrite (bookkeeping_approved _ _ _ Hd1), !list_elem_of_fmap.
    setoid_rewrite elem_of_foldl_retain. unfold removal_landed. split.
    - intros (p & -> & Hin & Hn). split; [eauto|]. intros (id & Hid & Hr). rewrite Hn in Hr; done.
    - intros [(p & -> & Hin) Hn]. exists p. split_and!; [done..|]. intros id Hid. apply not_true_iff_false. eauto. }
  destruct (urgent_commit_target q1) as [t|] eqn:Ht; cbn.
  - split_and!; [congruence|set_solver|]. intros Hn. change (urgent_commit_target q1) with (urgent_commit_target q) in Ht. congruence.
  - rewrite Hp, Hd1. split_and!; [done|intros req Hin; by apply Hb|]. intros _. split; [done|exact Hb].
Qed.

(** Merging our own candidate. *)
Lemma apply_own_lands chosen ctx q mls mls' d :
  merge_own_commit mls = (mls', Ok d) →
  ∃ q' batch, apply_local_candidate chosen ctx (q, mls) =
      ((q', mls'), Ok (Terminal (Applied (leave_or_update (self_remove_pending ctx))
         ((λ w, mk_welcome w [] (buf_joiner_identities chosen)) <$> buf_welcome_bytes chosen))
         (steward_member_id (candidate_msg chosen)) batch)) ∧
    finalize_committed_batch (commit_hash chosen) (ctx_current_epoch ctx + 1) (store_membership_delta d q) = (q', batch).
Proof.
  intros Hm. unfold apply_local_candidate, sbind at 1, with_mls. rewrite Hm. cbn [result_map_err].
  unfold sbind, update_queues, with_queues. destruct (finalize_committed_batch _ _ _) as [q' batch] eqn:E. by exists q', batch.
Qed.

Lemma apply_one_drop sl chosen ctx st st' op :
  apply_one sl chosen ctx st = (st', Ok (Drop op)) → st'.1 = st.1.
Proof.
  unfold apply_one. destruct (is_local_candidate chosen); [by intros ?%local_never_dropped|].
  intros (s1 & st1 & _ & Hq & H)%apply_incoming_verdict. destruct (refusal _ _ _ _).
  - apply reject_staged_drop in H as (_ & Hs & _). congruence.
  - destruct H as (? & ? & [=]).
Qed.

Lemma dropped_queues sl ctx cs st st' ops : dropped_all sl ctx cs st st' ops → st'.1 = st.1.
Proof. induction 1 as [|c cs st st1 st2 op ops Ha _ IH]; [done|]. rewrite IH. by eapply apply_one_drop. Qed.

(** The group merged this candidate's commit, our own or the staged one of a peer, and
    the merge returned [d]. *)
Definition merged_with (chosen : BufferedCommitCandidate) (mls mls' : MlsService) (d : MembershipDelta) : Prop :=
  if is_local_candidate chosen then merge_own_commit mls = (mls', Ok d) else
  ∃ mls1 mls2 staging,
    stage_remote_commit (mls_proposals (candidate_msg chosen)) (commit_message (candidate_msg chosen)) mls = (mls1, Ok staging) ∧
    discard_own_commit mls1 = (mls2, Ok tt) ∧ merge_staged_commit mls2 = (mls', Ok d).

(** The last steps of either path: the delta is stored, the batch taken. *)
Lemma delta_stored hash e (k : list ConversationUpdateRequest → CandidateOutcome) d q mls st' o com batch :
  (update_queues (store_membership_delta d) ;!
   (let! b := with_queues (finalize_committed_batch hash e) in sret (k b))) (q, mls) = (st', Ok (Terminal o com batch)) →
  (∀ b, ∃ o com, k b = Terminal o com b) →
  finalize_committed_batch hash e (store_membership_delta d q) = (st'.1, batch) ∧ mls = st'.2.
Proof.
  intros H Hk. unfold sbind, update_queues, with_queues, sret in H.
  destruct (finalize_committed_batch _ _ _) as [q' b]. destruct (Hk b) as (o' & com' & Ek). rewrite Ek in H.
  by injection H as <- _ _ <-.
Qed.

(** Whoever committed, the queues keep the delta of the merge and the batch is what is
    not in it. *)
Lemma apply_one_batch sl chosen ctx st st' o com batch :
  apply_one sl chosen ctx st = (st', Ok (Terminal o com batch)) →
  ∃ d hash e, merged_with chosen st.2 st'.2 d ∧
    finalize_committed_batch hash e (store_membership_delta d st.1) = (st'.1, batch).
Proof.
  destruct st as [q mls]. unfold apply_one, merged_with. destruct (is_local_candidate chosen).
  - unfold apply_local_candidate, sbind at 1, with_mls. destruct (merge_own_commit mls) as [mls' [d|e]] eqn:Em; [|done].
    cbn [result_map_err]. intros H. apply delta_stored in H as [Hf <-]; [|eauto]. eauto.
  - unfold apply_incoming_candidate. rewrite sbind_ok. intros ([q1 mls1] & staging & Hst & H).
    apply stage_candidate_queues in Hst as Hq. cbn in Hq. subst q1.
    assert (∀ p, reject_staged p (q, mls1) ≠ (st', Ok (Terminal o com batch))) as Hrej.
    { intros p Hp. by apply reject_staged_drop in Hp as [? _]. }
    destruct staging as [sender sr acts| |v]; [|by apply Hrej in H..].
    apply stage_candidate_staged in Hst as (_ & _ & Hst).
    destruct (check_commit_sender_authorized _ _ _); [by apply Hrej in H|]. unfold sbind at 1, sget in H. cbn [fst] in H.
    destruct (validate_commit_candidate _ _ _ _); [by apply Hrej in H|].
    unfold sbind at 1, with_mls at 1 in H. destruct (discard_own_commit mls1) as [mls2 [[]|e]] eqn:Ed; [|done].
    cbn [result_map_err] in H. unfold sbind at 1, with_mls in H.
    destruct (merge_staged_commit mls2) as [mls3 [d|e]] eqn:Em; [|done]. cbn [result_map_err] in H.
    apply delta_stored in H as [Hf <-]; [|eauto]. exists d, (commit_hash chosen), (ctx_current_epoch ctx + 1)%N.
    split; [|exact Hf]. by exists mls1, mls2, (ScStaged sender sr acts).
Qed.

(** *** What the integrator is told *)

Definition commit_reports c : list (list ConversationUpdateRequest) :=
  omap (λ ev, match ev with EvCommitApplied batch => Some batch | _ => None end) (c_events c).
#[local] Instance reports_quiet x : QuietStewards (λ c, commit_reports c = x).
Proof.
  repeat split; try done. intros ev c Hev Hc. unfold commit_reports in *. cbn. rewrite omap_app, Hc.
  destruct ev; by rewrite ?app_nil_r.
Qed.
#[local] Instance reports_phase x : AnyPhase (λ c, commit_reports c = x).
Proof. by intros sm c. Qed.

(** A finished round reports its batch, once, unless it is empty. *)
Lemma conclude_reports rec has r c b w :
  rr_outcome r = Applied (leave_or_update b) w →
  commit_reports (conclude_round rec has r c).1 =
    commit_reports c ++ (if bool_decide (committed_batch r = []) then [] else [committed_batch r]).
Proof.
  intros Ho. unfold conclude_round. rewrite Ho.
  set (told := commit_reports c ++ _).
  assert (preserves (λ c, commit_reports c = told) (applied rec (leave_or_update b) w)) as Ha.
  { unfold applied. assert (preserves (λ c, commit_reports c = told) exit_recovery_mode) by (by intros d).
    assert (preserves (λ c, commit_reports c = told) (dispatch_inbound_result (leave_or_update b))).
    { destruct b; cbn [leave_or_update dispatch_inbound_result].
      - unfold prepare_self_leave. assert (preserves (λ c, commit_reports c = told) (on_mls mls_delete))
          by (intros d Hd; unfold on_mls; by destruct (mls_delete (c_mls d))).
        assert (preserves (λ c, commit_reports c = told) cancel_all_auto_votes) by (intros d Hd; exact Hd). quiet.
      - unfold on_conversation_updated. quiet. }
    quiet. }
  set (scoring := if bool_decide (rr_score_ops r = []) then _ else _).
  assert (preserves (λ d, commit_reports d = commit_reports c) scoring) as Hs by (subst scoring; quiet).
  assert ((scoring c).2 = Ok tt) as Hr.
  { subst scoring. case_bool_decide; [done|]. unfold scatch. by destruct (apply_score_ops _ c) as [? [?|?]]. }
  specialize (Hs c eq_refl). unfold sbind at 1. destruct (scoring c) as [c1 r1]. cbn [fst snd] in Hs, Hr. subst r1.
  assert (∀ k : conv DispatchOutcome, ((if bool_decide (committed_batch r = []) then sret tt
    else emit_event (EvCommitApplied (committed_batch r))) ;! k) c1 =
    k (if bool_decide (committed_batch r = []) then c1 else (emit_event (EvCommitApplied (committed_batch r)) c1).1)) as E
    by (intros k; by case_bool_decide).
  rewrite E. apply Ha. subst told. case_bool_decide; [by rewrite app_nil_r|].
  unfold commit_reports in *. cbn. by rewrite omap_app, Hs.
Qed.

(** C12: removals are never reported as committed. A round that applied a commit merged
    the first of the ranked candidates that was not dropped, our own or a peer's, and
    keeps the delta of that merge. The batch it hands over holds approved requests
    only, and none that removes a member this delta removed: the bookkeeping of the
    merge takes those off the approved queue before the queue is drained into the batch.
    What follows the merge emits one [CommitApplied] with the batch, and none when the
    batch is empty; so a commit of removals alone is never reported. *)
Theorem removals_unreported sl rec subset self st st' r o w :
  finalize_commit_round sl rec subset self st = (st', Ok r) → rr_outcome r = Applied o w →
  ∃ pre chosen post st1 penalties d,
    rank_applicable_candidates (round_candidates st) (round_context sl rec self st) subset = pre ++ chosen :: post ∧
    dropped_all sl (round_context sl rec self st) pre (taken st) st1 penalties ∧ merged_with chosen st1.2 st'.2 d ∧
    pending_membership_delta st'.1 = Some d ∧
    (∀ req, req ∈ committed_batch r → req ∈ im_values (approved_proposals st.1) ∧ ¬ removal_landed d req) ∧
    ((∀ req, req ∈ im_values (approved_proposals st.1) → removal_landed d req) → committed_batch r = []) ∧
    ∀ rec has c, commit_reports (conclude_round rec has r c).1 =
      commit_reports c ++ (if bool_decide (committed_batch r = []) then [] else [committed_batch r]).
Proof.
  rewrite finalize_as_loop. intros H Ho.
  apply apply_loop_ok in H as [(pre & chosen & post & st1 & pen & com & Hc & Hd & Ha & _)|(st1 & pen & _ & -> & _)]; [|done].
  apply apply_one_terminal in Ha as Ht. destruct Ht as (b & w' & Ht). rewrite Ht in *.
  apply apply_one_batch in Ha as (d & hash & e & Hm & Hf). pose proof (dropped_queues _ _ _ _ _ _ Hd) as Hq.
  pose proof (finalize_batch hash e (store_membership_delta d st1.1) d eq_refl) as Hb. rewrite Hf in Hb.
  destruct Hb as (Hp & Hb & _). exists pre, chosen, post, st1, pen, d.
  assert (∀ req, req ∈ committed_batch r → req ∈ im_values (approved_proposals st.1) ∧ ¬ removal_landed d req) as Hall.
  { intros req Hin. destruct (Hb req Hin) as [Hin' Hn]. split; [|done]. cbn in Hin'. by rewrite Hq in Hin'. }
  split_and!; [done..|exact Hall| |].
  - intros Hrem. destruct (committed_batch r) as [|req rest]; [done|].
    destruct (Hall req) as [Hin Hn]; [by left|]. by destruct Hn; apply Hrem.
  - intros rec' has c. by eapply conclude_reports.
Qed.

(** The changes a full commit of the approved work makes. *)
Definition voted_count c : N := len (filterb produces_mls_action (im_values (approved_proposals (c_queues c)))).
Definition applicable (allow : bool) c (own : BufferedCommitCandidate) : Prop :=
  if allow then (n_proposals own ≤ voted_count c)%N else n_proposals own = voted_count c.

(** The round holds one candidate, ours, and it can be merged. *)
Record own_round (allow : bool) c (own : BufferedCommitCandidate) (mls' : MlsService) (d : MembershipDelta) : Prop := {
  or_round : commit_round (c_queues c) = mk_buffer (mls_epoch c) [own];
  or_local : is_local_candidate own = true;
  or_whole : applicable allow c own;
  or_stay : has_approved_removal (c_queues c) (c_self c) = false;
  or_urgent : urgent_commit_target (c_queues c) = None;
  or_merge : merge_own_commit (c_mls c) = (mls', Ok d);
}.

Definition own_welcome (own : BufferedCommitCandidate) : option MemberWelcome :=
  (λ w, mk_welcome w [] (buf_joiner_identities own)) <$> buf_welcome_bytes own.

Lemma finalize_own allow c own mls' d :
  own_round allow c own mls' d →
  ∃ q' batch ops,
    conv_finalize_commit_round allow (c_self c) c =
      (c_set_mls mls' (c_set_queues q' c), Ok (mk_round_result (Applied ConversationUpdated (own_welcome own)) ops batch)) ∧
    approved_proposals q' = [] ∧
    ∀ req, req ∈ batch ↔ req ∈ im_values (approved_proposals (c_queues c)) ∧ ¬ removal_landed d req.
Proof.
  intros [Hr Hl Hw Hs Hu Hm]. unfold conv_finalize_commit_round. unfold sbind at 1, sget. cbn [id].
  unfold on_round. rewrite finalize_as_loop.
  set (st := (c_queues c, c_mls c)). set (ctx := round_context _ _ _ st).
  assert (round_candidates st = [own]) as ->.
  { unfold round_candidates, buffer_take, st. cbn [fst snd]. rewrite Hr. cbn [buf_epoch]. unfold mls_epoch. by rewrite N.eqb_refl. }
  assert (rank_applicable_candidates [own] ctx allow = [own]) as ->.
  { unfold rank_applicable_candidates. rewrite filterb_all; [done|]. intros x ->%list_elem_of_singleton.
    unfold applicable, voted_count in Hw. destruct allow; [by apply N.leb_le|by apply N.eqb_eq]. }
  cbn [apply_loop]. unfold apply_one. rewrite Hl. unfold sbind at 1.
  destruct (apply_own_lands own ctx (taken st).1 (taken st).2 mls' d Hm) as (q' & batch & E & Hb).
  assert (self_remove_pending ctx = false) as Hself by exact Hs.
  rewrite <-surjective_pairing, Hself in E. rewrite E. cbn.
  pose proof (finalize_batch (commit_hash own) (ctx_current_epoch ctx + 1) (store_membership_delta d (taken st).1) d eq_refl) as Hf.
  rewrite Hb in Hf. destruct Hf as (_ & _ & Hf). destruct Hf as [Ha Hiff]; [exact Hu|].
  eexists q', batch, _. split; [reflexivity|]. split; [exact Ha|exact Hiff].
Qed.

(** A welcome goes out whatever becomes of the sync that rides along. *)
Lemma deliver_welcome_ready w c :
  (deliver_welcome w c).2 = Ok tt ∧
  ∃ msg, EvWelcomeReady msg true ∈ c_events (deliver_welcome w c).1 ∧
    welcome_bytes msg = welcome_bytes w ∧ joiner_identities msg = joiner_identities w.
Proof.
  unfold deliver_welcome, sbind, scatch, sret.
  destruct (reconcile_steward_list c) as [c1 [x|e]]; [destruct (build_conversation_sync_payload c1) as [c2 [sync|e]]|]; cbn.
  all: split; [done|]; eexists; split_and!; [apply elem_of_app; right; by left|done|done].
Qed.

(** ** The end of the window *)

(** The round has landed: what the conversation looks like after it. *)
Record landed c (own : BufferedCommitCandidate) (d : MembershipDelta) (c' : Conv) : Prop := {
  la_working : current_state c' = Working;
  la_normal : c_mode c' = Normal;
  la_drained : approved_proposals (c_queues c') = [];
  la_applied : ∃ batch, (∀ req, req ∈ batch ↔ req ∈ im_values (approved_proposals (c_queues c)) ∧ ¬ removal_landed d req) ∧
    (batch ≠ [] → EvCommitApplied batch ∈ c_events c');
  la_welcome : ∀ w, buf_welcome_bytes own = Some w →
    ∃ msg, EvWelcomeReady msg true ∈ c_events c' ∧ welcome_bytes msg = w ∧ joiner_identities msg = buf_joiner_identities own;
  la_events : c_events c ⊆ c_events c';
  la_outbound : c_outbound c ⊆ c_outbound c';
}.

Lemma settled_refl c : settled None c c.
Proof. by split. Qed.
Lemma settled_trans ph c0 c1 c2 : settled None c0 c1 → settled ph c1 c2 → settled ph c0 c2.
Proof. intros [_ E1 E2 H1 H2] [E E3 E4 H3 H4]. split; [done|congruence..|set_solver|set_solver]. Qed.

(** Scores, the report, the end of a recovery, the welcome, the housekeeping. *)
Lemma conclude_lands rec has c own ops batch :
  approved_proposals (c_queues c) = [] → rec = is_in_recovery_mode c →
  ∃ c', conclude_round rec has (mk_round_result (Applied ConversationUpdated (own_welcome own)) ops batch) c = (c', Ok Done) ∧
    current_state c' = Working ∧ c_mode c' = Normal ∧ approved_proposals (c_queues c') = [] ∧
    (batch ≠ [] → EvCommitApplied batch ∈ c_events c') ∧
    (∀ w, buf_welcome_bytes own = Some w →
      ∃ msg, EvWelcomeReady msg true ∈ c_events c' ∧ welcome_bytes msg = w ∧ joiner_identities msg = buf_joiner_identities own) ∧
    c_events c ⊆ c_events c' ∧ c_outbound c ⊆ c_outbound c'.
Proof.
  intros Ha ->. unfold conclude_round, applied. cbn [rr_score_ops committed_batch rr_outcome].
  set (m1 := if bool_decide (ops = []) then _ else _).
  assert ((m1 c).2 = Ok tt ∧ settled None c (m1 c).1) as [E1 H1].
  { subst m1. case_bool_decide; [split; [done|apply settled_refl]|]. split.
    - unfold scatch. by destruct (apply_score_ops ops c) as [? [?|?]].
    - assert (preserves (settled None c) (scatch (apply_score_ops ops) (λ r, match r with
        | Ok _ => sret tt | Err e => emit_event (EvError "apply_commit_round_score_ops" (error_to_string e)) end))) as Hp by quiet.
      apply Hp, settled_refl. }
  destruct (m1 c) as [c1 r1] eqn:Em1. cbn in E1, H1. subst r1. unfold sbind at 1. rewrite Em1.
  set (c2 := if bool_decide (batch = []) then c1 else (emit_event (EvCommitApplied batch) c1).1).
  assert (settled None c c2 ∧ (batch ≠ [] → EvCommitApplied batch ∈ c_events c2)) as [H2 Hev].
  { subst c2. case_bool_decide; [done|]. split; [|intros _; apply elem_of_app; right; by left].
    destruct H1 as [E1' E2' E3' E4' E5']. split; try done. cbn. set_solver. }
  assert (∀ A (k : conv A), ((if bool_decide (batch = []) then sret tt else emit_event (EvCommitApplied batch)) ;! k) c1 = k c2) as E2
    by (intros A k; subst c2; by case_bool_decide).
  rewrite E2. set (c3 := c_set_mode Normal c2).
  assert (∀ A (k : conv A), ((if is_in_recovery_mode c then exit_recovery_mode else sret tt) ;! k) c2 = k c3) as E3.
  { intros A k. unfold is_in_recovery_mode. destruct (bool_decide_reflect (c_mode c = Recovery)) as [Hm|Hm]; [done|].
    unfold sbind, sret. f_equal. subst c3. destruct H2 as [_ Hm2 _ _ _]. destruct (c_mode c); [|done]. by destruct c2; cbn in *; subst. }
  rewrite E3.
  set (c4 := match own_welcome own with Some w => (deliver_welcome w c3).1 | None => c3 end).
  assert (settled None c3 c4 ∧ ∀ w, buf_welcome_bytes own = Some w →
    ∃ msg, EvWelcomeReady msg true ∈ c_events c4 ∧ welcome_bytes msg = w ∧ joiner_identities msg = buf_joiner_identities own)
    as [H4 Hw].
  { subst c4. unfold own_welcome. destruct (buf_welcome_bytes own) as [w|]; [|split; [apply settled_refl|done]].
    split; [apply (deliver_quiet (settled None c3)), settled_refl|]. intros w0 [= <-]. apply deliver_welcome_ready. }
  assert (∀ A (k : conv A), (match own_welcome own with Some w => deliver_welcome w | None => sret tt end ;! k) c3 = k c4) as E4.
  { intros A k. subst c4. destruct (own_welcome own) as [w|]; [|done]. unfold sbind.
    destruct (deliver_welcome_ready w c3) as [E _]. destruct (deliver_welcome w c3) as [? ?]. cbn in *. by subst. }
  rewrite E4. pose proof (updated_settles c4 c4 (settled_refl c4)) as H5.
  exists (on_conversation_updated c4).1. split.
  { unfold scatch. cbn [dispatch_inbound_result]. unfold sbind. by destruct (on_conversation_updated c4) as [? [[]|?]]. }
  pose proof (settled_trans _ _ _ _ H4 H5) as [Hp Hm Ha' He Ho]. destruct H2 as [_ _ Ha2 He2 Ho2].
  split_and!.
  - by apply Hp.
  - done.
  - rewrite Ha'. cbn. by rewrite Ha2.
  - intros Hb. apply He. by apply Hev.
  - intros w Hwb. destruct (Hw w Hwb) as (msg & Hin & ? & ?). exists msg. split; [|done]. by apply (se_events _ _ _ H5).
  - intros e Hin. by apply He, He2.
  - intros e Hin. by apply Ho, Ho2.
Qed.

Lemma select_lands c own mls' d :
  own_round (is_in_recovery_mode c || allow_subset_candidates (svc_config (c_stewards c))) c own mls' d →
  ∃ c', select_round (is_in_recovery_mode c) c = (c', Ok Done) ∧ landed c own d c'.
Proof.
  intros Hr. set (allow := _ || _) in Hr.
  set (c1 := (emit_event (EvPhaseChange Selection) (start_selection (edit_timing (set_progress None) c).1).1).1).
  assert (own_round allow c1 own mls' d) as Hr1 by (destruct Hr; by split).
  destruct (finalize_own _ _ _ _ _ Hr1) as (q' & batch & ops & E & Ha & Hb).
  destruct (conclude_lands (is_in_recovery_mode c) (0 <? approved_proposals_count (c_queues c1))%N
    (c_set_mls mls' (c_set_queues q' c1)) own ops batch Ha eq_refl) as (c' & Ec & Hw & Hm & Hd & He & Hwel & Hev & Hout).
  exists c'. split.
  - unfold select_round.
    match goal with |- (edit_timing (set_progress None) ;! (let! e := start_selection in let! h := sget ?f in
      emit_event (EvPhaseChange e) ;! @?k h)) c = _ => change (k (f c1) c1 = (c', Ok Done)) end.
    cbn beta. unfold sbind at 1, sget. cbn [id]. unfold scatch at 1.
    change (is_in_recovery_mode c || allow_subset_candidates (svc_config (c_stewards c1))) with allow.
    rewrite E. exact Ec.
  - split; try done.
    + exists batch. split; [|done]. intros req. by rewrite Hb.
    + intros ev Hin. apply Hev. cbn. apply elem_of_app. by left.
Qed.

Lemma advance_lands c own mls' d :
  current_state c = Freezing →
  all_candidates_in (is_in_recovery_mode c) c = true ∨ window_elapsed (is_in_recovery_mode c) c = true →
  own_round (is_in_recovery_mode c || allow_subset_candidates (svc_config (c_stewards c))) c own mls' d →
  ∃ c', advance_freezing c = (c', Ok Done) ∧ landed c own d c'.
Proof.
  intros Hs Hw Hr. destruct (select_lands _ _ _ _ Hr) as (c' & E & Hl). exists c'. split; [|done].
  unfold advance_freezing. unfold sbind at 1, sget at 1. rewrite Hs. cbn [bool_decide negb].
  assert (maybe_auto_commit_recovery c = (c, Ok tt)) as Hm.
  { unfold maybe_auto_commit_recovery. unfold sbind at 1, sget. cbn [id]. destruct (recovery_auto_commit_delay _); [|done].
    assert (has_local_candidate (commit_round (c_queues c)) = true) as ->.
    { rewrite (or_round _ _ _ _ _ Hr). unfold has_local_candidate. cbn. by rewrite (or_local _ _ _ _ _ Hr). }
    by rewrite orb_true_r. }
  rewrite bool_decide_true by done. cbn [negb]. unfold sbind at 1, sget at 1. unfold sbind at 1.
  assert ((if is_in_recovery_mode c then maybe_auto_commit_recovery else sret tt) c = (c, Ok tt)) as ->
    by by destruct (is_in_recovery_mode c).
  unfold sbind at 1, sget. cbn [id].
  assert (negb (all_candidates_in (is_in_recovery_mode c) c) && negb (window_elapsed (is_in_recovery_mode c) c) = false) as ->
    by (destruct Hw as [-> | ->]; [done|by rewrite andb_false_r]).
  exact E.
Qed.

(** ** The freeze *)

(** Working with approved work, with no election under way and the inactivity
    window over. *)
Record freeze_due c : Prop := {
  fd_working : current_state c = Working;
  fd_election : has_election_in_flight (c_queues c) = false;
  fd_work : approved_proposals (c_queues c) ≠ [];
  fd_window : elapsed_since_anchor (phase_timer (c_timing c)) (timestamp c) (inactivity_window c) = true;
}.

Definition frozen c : Conv :=
  c_set_timing (set_phase_timer (phase_timer_start (timestamp c) (phase_timer (c_timing c))) (c_timing c))
    (c_set_sm (mk_sm Freezing) c).

Lemma freeze_starts c : freeze_due c → start_freeze_on_inactivity c = on_freeze_entered Freezing (frozen c).
Proof.
  intros [Hs He Hw Ht]. unfold start_freeze_on_inactivity. unfold sbind at 1, sget. cbn [id]. rewrite He.
  unfold sbind at 1, check_steward_inactivity. unfold sbind at 1, sget. cbn [id]. rewrite Hs. cbn [negb orb].
  rewrite bool_decide_true by done. cbn [negb orb].
  destruct (N.eqb_spec (approved_proposals_count (c_queues c)) 0) as [E|_]; [by apply len_nil_iff in E|].
  unfold elapsed_since_anchor in Ht. destruct (started_at _) as [t|] eqn:Est; [|done].
  unfold elapsed_since_anchor. rewrite Est, Ht. cbn [negb]. unfold start_freezing.
  unfold current_state in Hs. destruct (c_sm c) as [s]. cbn in Hs. by subst.
Qed.

(** What minting a candidate leaves, once the round holds it. *)
Record minted c (own : BufferedCommitCandidate) c1 : Prop := {
  mi_round : commit_round (c_queues c1) = mk_buffer (mls_epoch c1) [own];
  mi_local : is_local_candidate own = true;
  mi_stay : has_approved_removal (c_queues c) (c_self c) = false;
  mi_same : c1 = c_set_outbound (c_outbound c ++ [mk_outbound (c_id c) (c_app_id c)
      (encode_app_message (to_app_message (AppCommitCandidate (candidate_msg own))))])
    (c_set_queues (set_round (commit_round (c_queues c1)) (c_queues c)) (c_set_mls (c_mls c1) c));
}.

Lemma add_first cand w js e cap b own :
  candidates b = [] → own ∈ candidates (buffer_add cand true w js e cap b).1 →
  (buffer_add cand true w js e cap b).1 = mk_buffer e [own] ∧ candidate_msg own = cand ∧ is_local_candidate own = true.
Proof.
  intros Hb. unfold buffer_add. set (b0 := if (buf_epoch b =? e)%N then b else mk_buffer e []).
  assert (candidates b0 = [] ∧ buf_epoch b0 = e) as [-> He].
  { unfold b0. by destruct (N.eqb_spec (buf_epoch b) e). }
  cbn [existsb]. destruct (_ <=? _)%N; cbn [fst].
  - unfold b0. destruct (_ =? _)%N; [rewrite Hb|]; set_solver.
  - cbn. intros ->%list_elem_of_singleton. by rewrite He.
Qed.

Lemma outcome_queues self c c' r :
  candidate_outcome self c c' r → (∀ payload, r ≠ Ok (Some payload)) → c_queues c' = c_queues c.
Proof.
  intros H Hns. destruct r as [[payload|]|e]; [by destruct (Hns payload)|by destruct H as [-> _]|].
  destruct e; cbn in H; try done; try by destruct H as [-> _]. by rewrite H.
Qed.

Lemma mint_puts_up c own :
  candidates (commit_round (c_queues c)) = [] →
  own ∈ candidates (commit_round (c_queues (mint_and_broadcast_candidate c).1)) →
  minted c own (mint_and_broadcast_candidate c).1 ∧ (mint_and_broadcast_candidate c).2 = Ok true.
Proof.
  intros Hb. unfold mint_and_broadcast_candidate, sbind, sget.
  destruct (build_local_candidate (c_self c) c) as [c' r] eqn:Eb. apply build_outcome in Eb.
  destruct r as [[payload|]|e].
  - destruct Eb as (ups & js & art & mls1 & _ & Hr & _ & _ & _ & _ & -> & ->). cbn -[buffer_add]. intros Hin.
    apply add_first in Hin as (E & Hm & Hl); [|done]. split; [|done]. split; [exact E|done|done|by rewrite Hm].
  - apply outcome_queues in Eb; [|done]. cbn. rewrite Eb, Hb. set_solver.
  - apply outcome_queues in Eb; [|done]. cbn. rewrite Eb, Hb. set_solver.
Qed.

(** The round of a minted candidate, whatever time passes and is noted meanwhile. *)
Lemma minted_lands allow c own c1 c2 mls' delta :
  minted c own c1 → c_queues c2 = c_queues c1 → c_mls c2 = c_mls c1 → c_self c2 = c_self c1 →
  c_events c ⊆ c_events c2 → c_outbound c2 = c_outbound c1 → c_stewards c2 = c_stewards c1 →
  urgent_commit_target (c_queues c) = None → merge_own_commit (c_mls c1) = (mls', Ok delta) →
  current_state c2 = Freezing → window_elapsed (is_in_recovery_mode c2) c2 = true →
  allow = is_in_recovery_mode c2 || allow_subset_candidates (svc_config (c_stewards c2)) → applicable allow c own →
  ∃ c3, advance_freezing c2 = (c3, Ok Done) ∧ landed c own delta c3.
Proof.
  intros [Hr Hl Hstay Hc1] Eq Em Es Hev Eo Est Hu Hm Hs Hw -> Hall.
  assert (c_queues c1 = set_round (commit_round (c_queues c1)) (c_queues c)) as Hq by (rewrite Hc1 at 1; done).
  assert (c_self c1 = c_self c) as Hself by (rewrite Hc1; done).
  assert (approved_proposals (c_queues c2) = approved_proposals (c_queues c)) as Ha by (rewrite Eq, Hq; done).
  destruct (advance_lands c2 own mls' delta) as (c3 & E & [H1 H2 H3 (batch & H4 & H4') H5 H6 H7]); [done|by right|..].
  - split; [rewrite Eq, Hr; unfold mls_epoch; by rewrite Em|done|unfold applicable, voted_count; by rewrite Ha| | |by rewrite Em].
    + rewrite Es, Hself. unfold has_approved_removal. by rewrite Ha.
    + rewrite Eq, Hq. done.
  - exists c3. split; [done|]. split; try done.
    + exists batch. split; [|done]. intros req. by rewrite H4, Ha.
    + intros ev He. by apply H6, Hev.
    + intros o He. apply H7. rewrite Eo, Hc1. cbn. apply elem_of_app. by left.
Qed.

(** A window that is over once [d] has passed since its start. *)
Lemma window_passes (t now d w : Duration) timer :
  started_at timer = Some (mk_timestamp t) → (w ≤ d)%N → (t + d ≤ now)%N → (now ≤ duration_max)%N →
  elapsed_since_anchor timer (mk_timestamp now) w = true.
Proof.
  intros Ht Hw Hd Hn. unfold elapsed_since_anchor. rewrite Ht. apply ts_leb_le.
  unfold ts_add, duration_saturating_add. cbn. lia.
Qed.

(** The steward's drive out of [Working]. *)
Lemma freeze_mints c own :
  freeze_due c → conv_is_steward c = true → candidates (commit_round (c_queues c)) = [] →
  own ∈ candidates (commit_round (c_queues (start_freeze_on_inactivity c).1)) →
  let c0 := (mint_and_broadcast_candidate (frozen c)).1 in
  (start_freeze_on_inactivity c).1 = (emit_event (EvPhaseChange Freezing) c0).1 ∧ minted (frozen c) own c0.
Proof.
  intros Hd Hst Hb. rewrite (freeze_starts c Hd). unfold on_freeze_entered. unfold sbind at 1 3, sget. cbn [id].
  change (is_steward (c_stewards (frozen c)) (c_self (frozen c))) with (conv_is_steward c). rewrite Hst.
  unfold sbind, scatch. destruct (mint_and_broadcast_candidate (frozen c)) as [c0 r] eqn:E. intros Hown.
  assert (own ∈ candidates (commit_round (c_queues (mint_and_broadcast_candidate (frozen c)).1))) as Hin
    by (rewrite E; by destruct r).
  apply mint_puts_up in Hin as [Hm Hr]; [|done]. rewrite E in Hm, Hr. cbn in Hr. by subst.
Qed.

(** C8: a steward lands the approved work. A conversation works with approved changes,
    no election is under way and the inactivity window is over: the steward's next
    drive enters the freeze, puts up its candidate and sends it. When no other
    candidate arrives, the round ends once the freeze window has passed: the group
    merges the commit, the approved work is drained, the joiners' welcome goes out and
    the conversation works again, in normal mode, whatever the scores, the welcome and
    the housekeeping ran into. What is reported as committed is the approved work
    without the removals that landed. Provided the candidate holds all the voted
    changes and OpenMLS merges it. *)
Theorem steward_lands_work c own d mls' delta :
  freeze_due c → conv_is_steward c = true → c_mode c = Normal → urgent_commit_target (c_queues c) = None →
  candidates (commit_round (c_queues c)) = [] →
  (freeze_duration (c_config c) ≤ d)%N → (c_now c + d ≤ duration_max)%N →
  let c1 := (start_freeze_on_inactivity c).1 in
  own ∈ candidates (commit_round (c_queues c1)) →
  applicable (allow_subset_candidates (svc_config (c_stewards c))) c own →
  merge_own_commit (c_mls c1) = (mls', Ok delta) →
  current_state c1 = Freezing ∧
  c_outbound c1 = c_outbound c ++ [mk_outbound (c_id c) (c_app_id c)
    (encode_app_message (to_app_message (AppCommitCandidate (candidate_msg own))))] ∧
  ∃ c2, advance_freezing (tick_clock (c_now c + d) c1) = (c2, Ok Done) ∧ landed c own delta c2.
Proof.
  intros Hd Hst Hmode Hu Hb Hfd Hmax c1 Hown Hall Hmerge.
  destruct (freeze_mints c own Hd Hst Hb Hown) as [Hc1 Hm]. fold c1 in Hc1.
  set (c0 := (mint_and_broadcast_candidate (frozen c)).1) in *. pose proof (mi_same _ _ _ Hm) as Hs.
  assert (c_mode c0 = Normal) as Hmode0 by (rewrite Hs; exact Hmode).
  assert (c_stewards c0 = c_stewards c) as Hst0 by (rewrite Hs; done).
  assert (current_state c0 = Freezing) as Hfr by (rewrite Hs; done).
  split; [by rewrite Hc1|]. split; [by rewrite Hc1, Hs|].
  destruct (minted_lands (allow_subset_candidates (svc_config (c_stewards c))) (frozen c) own c0
    (tick_clock (c_now c + d) c1) mls' delta) as (c2 & E & [H1 H2 H3 H4 H5 H6 H7]);
    [done|by rewrite Hc1|by rewrite Hc1|by rewrite Hc1| |by rewrite Hc1|by rewrite Hc1|done| |by rewrite Hc1| | |done|].
  - rewrite Hc1, Hs. cbn. set_solver.
  - by rewrite Hc1 in Hmerge.
  - assert (is_in_recovery_mode (tick_clock (c_now c + d) c1) = false) as ->
      by (rewrite Hc1; unfold is_in_recovery_mode; cbn; by rewrite Hmode0).
    apply andb_true_iff. split; [apply bool_decide_eq_true; by rewrite Hc1|]. rewrite Hc1.
    apply (window_passes (c_now c) _ d); [by rewrite Hs|by rewrite Hs|done|done].
  - rewrite Hc1. unfold is_in_recovery_mode. cbn. by rewrite Hmode0, Hst0.
  - exists c2. split; [exact E|by split].
Qed.

(** ** In a recovery *)

(** A freeze of a recovery whose grace for manual commits is over, and whose window
    is not; nobody has committed yet. *)
Record grace_over c (t : Duration) : Prop := {
  go_freezing : current_state c = Freezing;
  go_recovery : c_mode c = Recovery;
  go_start : started_at (phase_timer (c_timing c)) = Some (mk_timestamp t);
  go_grace : ∃ delay, recovery_auto_commit_delay (c_config c) = Some delay ∧ (t + delay ≤ c_now c)%N;
  go_window : window_elapsed true c = false;
  go_nobody : candidates (commit_round (c_queues c)) = [];
}.

Lemma progress_noted p c :
  ∃ t evs, report_progress p c = (c_set_timing t (c_set_events (c_events c ++ evs) c), Ok tt) ∧
    phase_timer t = phase_timer (c_timing c).
Proof.
  unfold report_progress. unfold sbind at 1, sget. cbn [id]. case_bool_decide.
  - exists (c_timing c), []. rewrite app_nil_r. by destruct c.
  - eexists _, [_]. unfold sbind, edit_timing, emit_event, smodify. cbn. split; [by destruct c|done].
Qed.

(** Minting touches the queues, the group and what is to be sent. *)
Lemma mint_frame c :
  ∃ q mls out, (mint_and_broadcast_candidate c).1 = c_set_outbound out (c_set_queues q (c_set_mls mls c)) ∧
    approved_proposals q = approved_proposals (c_queues c).
Proof.
  unfold mint_and_broadcast_candidate, sbind, sget.
  destruct (build_local_candidate (c_self c) c) as [c' r] eqn:Eb. apply build_outcome in Eb.
  assert (∃ q mls out, c = c_set_outbound out (c_set_queues q (c_set_mls mls c)) ∧
    approved_proposals q = approved_proposals (c_queues c)) as Hid
    by (exists (c_queues c), (c_mls c), (c_outbound c); by destruct c).
  destruct r as [[payload|]|e].
  - destruct Eb as (ups & js & art & mls1 & _ & _ & _ & _ & _ & _ & _ & ->). by eexists _, mls1, _.
  - destruct Eb as [-> _]. exact Hid.
  - destruct e; cbn in Eb; try done; try (destruct Eb as [-> _]; exact Hid).
    cbn. exists (c_queues c), (c_mls c'), (c_outbound c). split; [|done]. rewrite Eb. by destruct c.
Qed.

Lemma grace_mints c t :
  (c_now c ≤ duration_max)%N → grace_over c t →
  let c0 := (mint_and_broadcast_candidate c).1 in
  advance_freezing c = (let! _ := report_progress (commit_candidate_count c0) in sret Done) c0.
Proof.
  intros Hnow [Hs Hm Ht (delay & Hd & Hg) Hw Hb] c0.
  unfold advance_freezing. unfold sbind at 1, sget at 1. rewrite Hs. cbn [bool_decide negb].
  rewrite bool_decide_true by done. cbn [negb]. unfold sbind at 1, sget at 1.
  assert (is_in_recovery_mode c = true) as -> by (unfold is_in_recovery_mode; by rewrite Hm).
  assert (maybe_auto_commit_recovery c = (c0, Ok tt)) as Ha.
  { unfold maybe_auto_commit_recovery. unfold sbind at 1, sget. cbn [id]. rewrite Hd.
    assert (has_local_candidate (commit_round (c_queues c)) = false) as -> by (unfold has_local_candidate; by rewrite Hb).
    unfold timestamp. rewrite (window_passes t _ delay delay) by done. cbn [negb orb].
    unfold attempt, scatch, sbind. subst c0. by destruct (mint_and_broadcast_candidate c) as [? [?|?]]. }
  unfold sbind at 1. rewrite Ha. unfold sbind at 1, sget. cbn [id all_candidates_in negb andb].
  assert (window_elapsed true c0 = false) as ->; [|done].
  rewrite <-Hw. subst c0. by destruct (mint_frame c) as (q & mls & out & -> & _).
Qed.

(** C30: a recovery lands the approved work through any member. In the freeze of a
    recovery, once the grace for manual commits is over, the next poll of a member
    that is online puts up and sends its candidate, steward or not. When no other
    candidate arrives, the round ends once the recovery window has passed: its group
    merges the commit, also when it holds only part of the approved work, its approved
    queue is drained, the recovery is over and the conversation works again. *)
Theorem recovery_lands_work c own t now mls' delta :
  grace_over c t → urgent_commit_target (c_queues c) = None → (c_now c ≤ now ≤ duration_max)%N →
  (t + recovery_window c ≤ now)%N →
  let c1 := (advance_freezing c).1 in
  own ∈ candidates (commit_round (c_queues c1)) →
  (n_proposals own ≤ voted_count c)%N →
  merge_own_commit (c_mls c1) = (mls', Ok delta) →
  current_state c1 = Freezing ∧ c_mode c1 = Recovery ∧
  c_outbound c1 = c_outbound c ++ [mk_outbound (c_id c) (c_app_id c)
    (encode_app_message (to_app_message (AppCommitCandidate (candidate_msg own))))] ∧
  ∃ c2, advance_freezing (tick_clock now c1) = (c2, Ok Done) ∧ landed c own delta c2.
Proof.
  intros Hg Hu [Hn1 Hn2] Hw c1 Hown Hall Hmerge. pose proof (grace_mints c t ltac:(lia) Hg) as Ea.
  destruct Hg as [Hs Hm Ht _ _ Hb]. cbn zeta in Ea.
  set (c0 := (mint_and_broadcast_candidate c).1) in *.
  destruct (progress_noted (commit_candidate_count c0) c0) as (tm & evs & Ep & Htm).
  assert (c1 = c_set_timing tm (c_set_events (c_events c0 ++ evs) c0)) as Hc1
    by (unfold c1; rewrite Ea; unfold sbind; by rewrite Ep).
  assert (minted c own c0) as Hmint by (apply mint_puts_up; [done|by rewrite Hc1 in Hown]).
  pose proof (mi_same _ _ _ Hmint) as H0.
  assert (current_state c1 = Freezing ∧ c_mode c1 = Recovery ∧ c_config c1 = c_config c) as (Hs1 & Hm1 & Hcfg)
    by (rewrite Hc1, H0; by split_and!).
  split; [done|]. split; [done|]. split; [by rewrite Hc1, H0|].
  assert (is_in_recovery_mode (tick_clock now c1) = true) as Hrec by (unfold is_in_recovery_mode; cbn; by rewrite Hm1).
  apply (minted_lands true c own c0 (tick_clock now c1) mls' delta Hmint);
    [by rewrite Hc1|by rewrite Hc1|by rewrite Hc1| |by rewrite Hc1|by rewrite Hc1|done| |done| | |done].
  - rewrite Hc1, H0. cbn. set_solver.
  - by rewrite Hc1 in Hmerge.
  - rewrite Hrec. unfold window_elapsed, timestamp. cbn [c_now tick_clock].
    apply (window_passes t _ (recovery_window c)); [cbn; rewrite Hc1; cbn; by rewrite Htm, H0| |done|done].
    unfold recovery_window. cbn. by rewrite Hcfg.
  - by rewrite Hrec.
Qed.
End landing.

(** ** At concrete inputs *)

#[local] Existing Instances example_hash toy_mls canonical_hash_iter toy_consensus toy_texts toy_codec.

(** The room with a change approved and the inactivity window over. *)
Definition due_room (req : ConversationUpdateRequest) : Room :=
  c_set_timing (set_phase_timer (mk_phase_timer (Some (mk_timestamp 0))) (c_timing room))
    (c_set_queues (insert_approved_proposal 5 req (c_queues room)) room).
Definition put_up_room (req : ConversationUpdateRequest) : Room := (start_freeze_on_inactivity (due_room req)).1.
Definition room_candidate (req : ConversationUpdateRequest) : BufferedCommitCandidate :=
  default peer_buffered (head (candidates (commit_round (c_queues (put_up_room req))))).

Lemma steward_lands_work_witness :
  let c := due_room (member_invite_request [x0c]) in
  ∃ d c2 batch, landed c (room_candidate (member_invite_request [x0c])) d c2 ∧
    member_invite_request [x0c] ∈ batch ∧ EvCommitApplied batch ∈ c_events c2.
Proof.
  cbn zeta. set (c := due_room _). set (own := room_candidate _).
  destruct (merge_own_commit (c_mls (put_up_room (member_invite_request [x0c])))) as [mls' r] eqn:Em.
  pose proof (f_equal snd Em) as Er. vm_compute in Er. subst r.
  assert (freeze_due c) as Hd by (split; [by vm_compute..|intros H; apply (f_equal length) in H; by vm_compute in H|by vm_compute]).
  assert (own ∈ candidates (commit_round (c_queues (start_freeze_on_inactivity c).1))) as Hown
    by (apply (bool_decide_unpack _); by vm_compute).
  destruct (steward_lands_work c own (freeze_duration config_default) mls' (mk_delta [mk_member 2 [x0c] [x0c]] []) Hd)
    as (_ & _ & c2 & E & Hl); [by vm_compute..|exact Hown|by vm_compute|exact Em|].
  destruct (la_applied _ _ _ _ Hl) as (batch & Hb & Hev).
  assert (member_invite_request [x0c] ∈ batch) as Hin by (apply Hb; split; [by left|intros (id & Hid & _); by apply not_elem_of_nil in Hid]).
  eexists _, c2, batch. split; [exact Hl|]. split; [exact Hin|]. apply Hev. intros E0. rewrite E0 in Hin. by apply not_elem_of_nil in Hin.
Defined.

(** The removal of the room's other member merges and is not reported. *)
Lemma removals_unreported_witness :
  let c := put_up_room (remove_member_request (member_id_of 1)) in
  ∃ st' r o w, finalize_commit_round (c_stewards c) false false (member_id_of 0) (c_queues c, c_mls c) = (st', Ok r) ∧
    rr_outcome r = Applied o w ∧ members_of (c_set_mls st'.2 c) = [member_id_of 0] ∧ committed_batch r = [].
Proof.
  cbn zeta. set (c := put_up_room _).
  set (what := λ p : RoundState * res CommitRoundResult, (members_of (c_set_mls p.1.2 c), pending_membership_delta p.1.1, p.2)).
  assert (what (finalize_commit_round (c_stewards c) false false (member_id_of 0) (c_queues c, c_mls c)) =
    ([member_id_of 0], Some (mk_delta [] [mk_member_handle 1 [x0b]]),
     Ok (mk_round_result (Applied ConversationUpdated None) [mk_score_op (member_id_of 0) SuccessfulCommit] []))) as Hrun
    by (by vm_compute).
  destruct (finalize_commit_round _ _ _ _ _) as [st' r0] eqn:E. unfold what in Hrun. cbn [fst snd] in Hrun.
  injection Hrun as Hms Hd ->.
  pose proof (removals_unreported _ _ _ _ _ _ _ ConversationUpdated None E eq_refl) as (_ & _ & _ & _ & _ & d & _ & _ & _ & Hd' & _ & Hb & _).
  rewrite Hd in Hd'. injection Hd' as <-.
  eexists st', _, _, _. split; [reflexivity|]. split; [reflexivity|]. split; [exact Hms|].
  apply Hb. intros req Hin. apply list_elem_of_singleton in Hin as ->. exists (member_id_of 1). split; [by left|by vm_compute].
Defined.

(** The room in a recovery, seen by leaf 0, which is not on the steward list, seven
    seconds after the freeze began. *)
Definition recovery_room : Room :=
  let c := due_room (member_invite_request [x0c]) in
  c_set_stewards (svc_set_list (mk_sl [member_id_of 1] slc_default 3 0) (c_stewards c))
    (c_set_mode Recovery (c_set_sm (mk_sm Freezing)
      (c_set_timing (set_phase_timer (mk_phase_timer (Some (mk_timestamp (duration_from_secs 993)))) (c_timing c)) c))).

Lemma recovery_lands_work_witness :
  conv_is_steward recovery_room = false ∧
  ∃ (c1 : Room) own d c2, own ∈ candidates (commit_round (c_queues c1)) ∧ landed recovery_room own d c2.
Proof.
  split; [by vm_compute|]. set (c1 := (advance_freezing recovery_room).1).
  set (own := room_candidate (member_invite_request [x0c])).
  destruct (merge_own_commit (c_mls c1)) as [mls' r] eqn:Em.
  pose proof (f_equal snd Em) as Er. vm_compute in Er. subst r.
  assert (grace_over recovery_room (duration_from_secs 993)) as Hg.
  { split; [by vm_compute..| |by vm_compute|by vm_compute]. eexists. split; [reflexivity|by vm_compute]. }
  assert (own ∈ candidates (commit_round (c_queues c1))) as Hown by (apply (bool_decide_unpack _); by vm_compute).
  destruct (recovery_lands_work recovery_room own (duration_from_secs 993) (duration_from_secs 2000) mls'
    (mk_delta [mk_member 2 [x0c] [x0c]] []) Hg) as (_ & _ & _ & c2 & _ & Hl);
    [by vm_compute|split; by vm_compute|by vm_compute|exact Hown|by vm_compute|exact Em|].
  exact (ex_intro _ c1 (ex_intro _ own (ex_intro _ _ (ex_intro _ c2 (conj Hown Hl))))).
Defined.
