(* ===== verification/Retries.v ===== *)
(** * Recovery rounds without a commit

    A round of a recovery that lands no commit is retried, and the recovery is given
    up after a bounded number of such rounds. *)

From S2P Require Import Prelude Time Machine Protos StewardList Mls Toy Buffer Queues Scoring CommitRound ApplyResult Config Display Conversation Room Voting Steward HandleOutcome Inbound Messaging Poll Quiet System Candidate Agreement Landing.

Section retries.
Context {HS : Hash} {OM : OpenMls} {CS : ConsensusLib} {CD : Codec} {CT : ConsensusTexts} {HI : HashIter}.
Context {St : Type} `{!PeerScoreStorage St}.
Abbreviation Conv := (Conversation St).
Abbreviation conv := (method Conv).
Implicit Types (c : Conv).

(** *** One round *)

(** A round that merges nothing leaves the queues as it took them, also when it
    fails half way. *)
Lemma apply_one_fails sl chosen ctx st st' e : apply_one sl chosen ctx st = (st', Err e) → st'.1 = st.1.
Proof.
  destruct st as [q mls]. unfold apply_one. destruct (is_local_candidate chosen).
  - unfold apply_local_candidate, sbind at 1, with_mls. destruct (merge_own_commit mls) as [? [?|?]]; cbn; [|by intros [= <- _]].
    unfold sbind, update_queues, with_queues, sret. by destruct (finalize_committed_batch _ _ _).
  - unfold apply_incoming_candidate, sbind at 1.
    destruct (stage_candidate _ ctx (q, mls)) as [[q1 mls1] [staging|e1]] eqn:Es;
      [apply stage_candidate_queues in Es; cbn in Es; subst q1|by apply stage_candidate_ok in Es].
    assert (∀ p, reject_staged p (q, mls1) = (st', Err e) → st'.1 = q) as Hrej.
    { intros p. unfold reject_staged, sbind at 1, with_mls. destruct (discard_staged_commit mls1) as [? [?|?]]; [done|].
      by intros [= <- _]. }
    destruct staging as [sender sr acts| |v]; [|by apply Hrej..].
    destruct (check_commit_sender_authorized sl sender ctx); [by apply Hrej|]. unfold sbind at 1, sget. cbn [fst].
    destruct (validate_commit_candidate q sender acts ctx); [by apply Hrej|].
    unfold sbind at 1, with_mls at 1. destruct (discard_own_commit mls1) as [mls2 [?|?]]; cbn; [|by intros [= <- _]].
    unfold sbind at 1, with_mls. destruct (merge_staged_commit mls2) as [? [?|?]]; cbn; [|by intros [= <- _]].
    unfold sbind, update_queues, with_queues, sret. by destruct (finalize_committed_batch _ _ _).
Qed.

Lemma apply_loop_fails sl cs ctx self ops st st' e :
  apply_loop sl cs ctx self ops st = (st', Err e) → st'.1 = st.1.
Proof.
  revert ops st. induction cs as [|c cs IH]; intros ops st; cbn.
  - unfold discard_and_finish, sbind, with_mls. destruct st as [q mls].
    destruct (discard_own_commit mls) as [? [?|?]]; [done|by intros [= <- _]].
  - unfold sbind. destruct (apply_one sl c ctx st) as [st1 [[o com batch|op]|e1]] eqn:Ea; [done| |].
    + intros H%IH. rewrite H. by eapply apply_one_drop.
    + intros [= <- _]. by eapply apply_one_fails.
Qed.

(** What ends a round without a commit: nothing applied, or our own failure. *)
Definition commits_nothing (r : res CommitRoundResult) : Prop :=
  match r with Ok r => rr_outcome r = NoCandidate | Err _ => True end.

Lemma nothing_committed sl rec allow self st st' r :
  finalize_commit_round sl rec allow self st = (st', r) → commits_nothing r →
  approved_proposals st'.1 = approved_proposals st.1 ∧
  match r with Ok r => committed_batch r = [] | Err _ => True end.
Proof.
  rewrite finalize_as_loop. intros H Hn. assert (approved_proposals (taken st).1 = approved_proposals st.1) as <- by done.
  destruct r as [r|e]; [|by apply apply_loop_fails in H as ->].
  apply apply_loop_ok in H as [(pre & chosen & post & st1 & pen & com & _ & _ & Ht & _)|(st1 & pen & Hd & -> & ->)].
  - apply apply_one_terminal in Ht as (b & w & Ht). cbn in Hn. congruence.
  - by rewrite (dropped_queues _ _ _ _ _ _ Hd).
Qed.

(** *** A recovery that misses rounds *)

(** In the freeze of a recovery, with approved work, the window over, no candidate
    applies; the automatic candidate of this very call, if one is due, included. *)
Definition window_over c : Prop :=
  current_state c = Freezing ∧ c_mode c = Recovery ∧ window_elapsed true c = true ∧
  (0 < approved_proposals_count (c_queues c))%N ∧
  let c0 := (maybe_auto_commit_recovery c).1 in
  commits_nothing (finalize_commit_round (c_stewards c0) true true (c_self c0) (c_queues c0, c_mls c0)).2.

(** Between two rounds anything may happen but for the phase, the mode, the count of
    the rounds, the configuration and the loss of approved work. *)
Record keeps_waiting c c' : Prop := {
  kw_state : current_state c' = current_state c;
  kw_mode : c_mode c' = c_mode c;
  kw_rounds : c_recovery_rounds c' = c_recovery_rounds c;
  kw_config : c_config c' = c_config c;
  kw_work : approved_proposals (c_queues c) ⊆ approved_proposals (c_queues c');
}.

Lemma clock_waits now c : keeps_waiting c (tick_clock now c).
Proof. by split. Qed.

Inductive missed_rounds : nat → Conv → Conv → Prop :=
  | missed_none c : missed_rounds 0 c c
  | missed_again k c c1 c2 :
      missed_rounds k c c1 → keeps_waiting c1 c2 → window_over c2 →
      missed_rounds (S k) c (advance_freezing c2).1.

(** The recovery waits for another commit, or is over. *)
Definition retrying c : Prop :=
  c_mode c = Recovery ∧ current_state c = Freezing ∧ started_at (phase_timer (c_timing c)) = Some (timestamp c).
Definition given_up c : Prop :=
  c_mode c = Normal ∧ current_state c = Working ∧ started_at (phase_timer (c_timing c)) = None ∧
  ∃ evs, c_events c = evs ++ [EvRecoveryExhausted; EvPhaseChange Working].

(** What the steps of a missed round leave alone. *)
Definition gist c :=
  (current_state c, c_mode c, c_recovery_rounds c, c_config c, c_stewards c, approved_proposals (c_queues c)).
#[local] Instance gist_still g : Still (λ c, gist c = g).
Proof. split; try done. intros q c H _ _ _ <-. unfold gist. cbn. by rewrite H. Qed.

Lemma auto_mint_gist c :
  gist (maybe_auto_commit_recovery c).1 = gist c ∧ (maybe_auto_commit_recovery c).2 = Ok tt ∧
  window_elapsed true (maybe_auto_commit_recovery c).1 = window_elapsed true c.
Proof.
  unfold maybe_auto_commit_recovery, attempt, scatch, sbind, sget. cbn [id].
  destruct (recovery_auto_commit_delay (c_config c)) as [d|]; [|by split_and!].
  destruct (negb _ || _); [by split_and!|]. destruct (mint_frame c) as (q & mls & out & E & Hq).
  destruct (mint_and_broadcast_candidate c) as [c' [r|e]]; cbn in *; subst c';
    unfold gist, sret; cbn; by rewrite Hq.
Qed.

(** The end of a missed round, from [Selection]. *)
Lemma retry_or_exhaust_end c :
  current_state c = Selection →
  let c' := (retry_or_exhaust_recovery c).1 in
  let rounds := u32_wrapping_add (c_recovery_rounds c) 1 in
  let max := recovery_max_rounds (c_config c) in
  (retry_or_exhaust_recovery c).2 = Ok Done ∧ c_recovery_rounds c' = rounds ∧ c_config c' = c_config c ∧
  approved_proposals (c_queues c') = approved_proposals (c_queues c) ∧ c_stewards c' = c_stewards c ∧
  (if negb (max =? 0)%N && (max <=? rounds)%N then given_up c' else c_mode c = Recovery → retrying c').
Proof.
  intros Hs. cbn zeta. unfold retry_or_exhaust_recovery, sbind, emit_event, smodify, sget, sret. cbn.
  assert (∀ d : Conv, c_sm d = c_sm c → reopen_recovery_window d =
    (c_set_timing (set_phase_timer (phase_timer_start (timestamp d) (phase_timer (c_timing d))) (c_timing d))
       (c_set_sm (mk_sm Freezing) d), Ok (Some Freezing))) as Hre.
  { intros d Hd. unfold reopen_recovery_window, sm_reopen_freezing. rewrite Hd. by rewrite decide_True. }
  destruct (negb _ && _); cbn.
  - split_and!; [done..|]. unfold given_up. cbn. split_and!; [done..|]. exists (c_events c). by rewrite <-!app_assoc.
  - rewrite Hre by done. by split_and!.
Qed.

(** A missed round selects, and ends in [retry_or_exhaust_recovery]. *)
Lemma window_over_selects c : window_over c → advance_freezing c = select_round true (maybe_auto_commit_recovery c).1.
Proof.
  intros (Hs & Hm & Hw & _ & _). pose proof (auto_mint_gist c) as (_ & Hok & Hw').
  assert (is_in_recovery_mode c = true) as Hrec by (unfold is_in_recovery_mode; by rewrite Hm).
  unfold advance_freezing. unfold sbind at 1, sget at 1. rewrite bool_decide_true by done. cbn [negb].
  unfold sbind at 1, sget at 1. rewrite Hrec. unfold sbind at 1.
  destruct (maybe_auto_commit_recovery c) as [c0 r0]. cbn [fst snd] in *. subst r0.
  unfold sbind at 1, sget at 1. cbn [id all_candidates_in negb andb]. by rewrite Hw', Hw.
Qed.

Lemma conclude_nothing f c :
  rr_outcome f = NoCandidate → committed_batch f = [] → c_mode c = Recovery →
  ∃ d, conclude_round true true f c = retry_or_exhaust_recovery d ∧ gist d = gist c.
Proof.
  intros Ho Hb Hm. unfold conclude_round. rewrite Ho, Hb.
  set (scoring := if bool_decide (rr_score_ops f = []) then _ else _).
  assert (preserves (λ d, gist d = gist c) scoring) as Hk by (subst scoring; quiet).
  assert ((scoring c).2 = Ok tt) as Hr.
  { subst scoring. case_bool_decide; [done|]. unfold scatch. by destruct (apply_score_ops _ c) as [? [?|?]]. }
  exists (scoring c).1. split; [|by apply Hk]. unfold sbind at 1. destruct (scoring c) as [d r]. cbn in Hr. by subst r.
Qed.

(** What [select_round] does with what the finalized round says. *)
Definition after_finalize (r : res CommitRoundResult) : conv DispatchOutcome :=
  match r with
  | Ok f => conclude_round true true f
  | Err e => emit_event (EvError "commit_round_finalize" (error_to_string e)) ;! recover_from_finalize_error
  end.

Lemma missed_selection c :
  current_state c = Freezing → c_mode c = Recovery → (0 < approved_proposals_count (c_queues c))%N →
  commits_nothing (finalize_commit_round (c_stewards c) true true (c_self c) (c_queues c, c_mls c)).2 →
  ∃ d, select_round true c = retry_or_exhaust_recovery d ∧ current_state d = Selection ∧ c_mode d = Recovery ∧
    c_recovery_rounds d = c_recovery_rounds c ∧ c_config d = c_config c ∧ c_stewards d = c_stewards c ∧
    approved_proposals (c_queues d) = approved_proposals (c_queues c).
Proof.
  intros Hs Hm Hp Hn. destruct (finalize_commit_round _ _ _ _ _) as [[q mls] r] eqn:Ef. cbn [snd] in Hn.
  destruct (nothing_committed _ _ _ _ _ _ _ Ef Hn) as [Hq Hb]. cbn [fst] in Hq.
  set (s1 := (emit_event (EvPhaseChange Selection) (start_selection (edit_timing (set_progress None) c).1).1).1).
  set (s2 := c_set_mls mls (c_set_queues q s1)).
  assert (gist s2 = (Selection, Recovery, c_recovery_rounds c, c_config c, c_stewards c, approved_proposals (c_queues c))) as Hg
    by (unfold gist; cbn; by rewrite Hm, Hq).
  assert (conv_finalize_commit_round true (c_self s1) s1 = (s2, r)) as Ec.
  { unfold conv_finalize_commit_round, sbind at 1, sget. cbn [id]. unfold on_round.
    assert (is_in_recovery_mode s1 = true) as -> by (unfold is_in_recovery_mode; cbn; by rewrite Hm).
    change (finalize_commit_round (c_stewards s1) true true (c_self s1) (c_queues s1, c_mls s1)) with
      (finalize_commit_round (c_stewards c) true true (c_self c) (c_queues c, c_mls c)). by rewrite Ef. }
  assert (select_round true c = after_finalize r s2) as ->.
  { unfold select_round. match goal with |- (edit_timing (set_progress None) ;! (let! e := start_selection in
      let! h := sget ?f in emit_event (EvPhaseChange e) ;! @?k h)) c = _ => change (k (f c) s1 = after_finalize r s2) end.
    cbv beta. rewrite (proj2 (N.ltb_lt _ _) Hp). unfold sbind at 1, sget. cbn [id orb]. unfold scatch. rewrite Ec. by destruct r. }
  assert (∃ d, after_finalize r s2 = retry_or_exhaust_recovery d ∧ gist d = gist s2) as (d & -> & Hd).
  { destruct r as [f|e]; [by apply conclude_nothing|].
    exists (emit_event (EvError "commit_round_finalize" (error_to_string e)) s2).1. split; [|done].
    unfold after_finalize, sbind, recover_from_finalize_error. unfold emit_event at 1, smodify. unfold sbind, sget. cbn.
    unfold is_in_recovery_mode. cbn. by rewrite Hm. }
  exists d. split; [done|]. rewrite Hg in Hd. unfold gist in Hd. by injection Hd as -> -> -> -> -> ->.
Qed.

Lemma missed_round_end c :
  window_over c →
  let c' := (advance_freezing c).1 in
  let rounds := u32_wrapping_add (c_recovery_rounds c) 1 in
  let max := recovery_max_rounds (c_config c) in
  (advance_freezing c).2 = Ok Done ∧ c_recovery_rounds c' = rounds ∧ c_config c' = c_config c ∧
  approved_proposals (c_queues c') = approved_proposals (c_queues c) ∧ c_stewards c' = c_stewards c ∧
  (if negb (max =? 0)%N && (max <=? rounds)%N then given_up c' else retrying c').
Proof.
  intros Hw. cbn zeta. rewrite (window_over_selects c Hw). destruct Hw as (Hs & Hm & _ & Hp & Hn).
  destruct (auto_mint_gist c) as [Hg _]. cbn zeta in Hn. set (c0 := (maybe_auto_commit_recovery c).1) in *.
  unfold gist in Hg. injection Hg as E1 E2 E3 E4 E5 E6.
  destruct (missed_selection c0) as (d & -> & Hd & Em & Er & Ec & Es & Ea); [congruence..| |done|].
  { unfold approved_proposals_count in *. by rewrite E6. }
  destruct (retry_or_exhaust_end d Hd) as (R1 & R2 & R3 & R4 & R5 & R6). cbn zeta in R6.
  rewrite Ec, E4, Er, E3 in R6. rewrite R1, R2, R3, R4, R5. split_and!; try congruence.
  destruct (negb _ && _); auto.
Qed.

(** C31: a recovery that brings no commit is retried, and ends. A missed round is a
    freeze of the recovery whose window is over, with approved work, where no
    candidate applies or the round fails on our own side, the automatic candidate
    included. The poll's step itself never fails, and it keeps the approved work and
    the steward list. While the limit of rounds is not
    reached, or when there is none, it opens the window again: the conversation is
    back in [Freezing], still in recovery, with the window running from now. The round
    that reaches the limit ends the recovery: normal mode, [Working], no deadline, and
    the integrator is told that it is exhausted. So with a limit no more rounds than
    that can be missed, whatever else the conversation does between them as long as it
    stays in the freeze of this recovery and loses no approved work. *)
Theorem missed_recovery_ends k c ck :
  missed_rounds k c ck → c_recovery_rounds c = 0%N → (recovery_max_rounds (c_config c) ≤ u32_max)%N →
  let max := recovery_max_rounds (c_config c) in
  (max = 0%N ∨ N.of_nat k ≤ max)%N ∧
  approved_proposals (c_queues c) ⊆ approved_proposals (c_queues ck) ∧
  (k ≠ 0 → if bool_decide (max = N.of_nat k) then given_up ck else retrying ck) ∧
  (∀ d, window_over d → (advance_freezing d).2 = Ok Done ∧
     approved_proposals (c_queues (advance_freezing d).1) = approved_proposals (c_queues d) ∧
     c_stewards (advance_freezing d).1 = c_stewards d).
Proof.
  intros H H0 Hmax. cbn zeta.
  cut (c_config ck = c_config c ∧
    (recovery_max_rounds (c_config c) = 0 ∨ N.of_nat k ≤ recovery_max_rounds (c_config c) ∧ c_recovery_rounds ck = N.of_nat k)%N ∧
    approved_proposals (c_queues c) ⊆ approved_proposals (c_queues ck) ∧
    (k ≠ 0 → if bool_decide (recovery_max_rounds (c_config c) = N.of_nat k) then given_up ck else retrying ck)).
  { intros (_ & Hk & Ha & He). split_and!; [naive_solver|done..|].
    intros d Hd. pose proof (missed_round_end d Hd). naive_solver. }
  induction H as [c|k c c1 c2 H IH [Ks Km Kr Kc Kw] Hw]; [split_and!; [done|right; lia|done|done]|].
  destruct (IH H0 Hmax) as (Hc & Hk & Ha & He).
  destruct (missed_round_end c2 Hw) as (_ & Er & Ec & Ea & _ & Hend). cbn zeta in Hend.
  rewrite Kc, Hc in Ec, Hend. rewrite Kr in Er, Hend.
  set (max := recovery_max_rounds (c_config c)) in *. unfold u32_wrapping_add in *.
  assert (max = 0 ∨ N.of_nat k < max ∧ c_recovery_rounds c1 = N.of_nat k)%N as Hlt.
  { destruct Hk as [Hk|[Hk Hr]]; [by left|]. destruct (N.eq_dec max 0%N); [by left|]. right. split; [|done].
    destruct (N.eq_dec max (N.of_nat k)) as [E|]; [|lia]. rewrite bool_decide_true in He by done.
    destruct He as [Hm _]; [lia|]. destruct Hw as (_ & Hm2 & _). congruence. }
  split; [done|]. rewrite Ea. split_and!; [|by etrans|].
  - destruct Hlt as [|[Hlt Hr]]; [by left|right]. rewrite Er, Hr, N.mod_small by (unfold u32_max in *; lia). lia.
  - intros _. destruct Hlt as [E|[Hlt Hr]].
    { rewrite bool_decide_false by lia. rewrite E in Hend. exact Hend. }
    rewrite Hr, N.mod_small in Hend by (unfold u32_max in *; lia).
    rewrite (proj2 (N.eqb_neq _ _)) in Hend by lia. cbn [negb andb] in Hend.
    destruct (N.leb_spec max (N.of_nat k + 1)); [rewrite bool_decide_true by lia|rewrite bool_decide_false by lia]; exact Hend.
Qed.
End retries.

(** ** At concrete inputs *)

#[local] Existing Instances example_hash toy_mls canonical_hash_iter toy_consensus toy_texts toy_codec.

(** The room in the freeze of a recovery of two rounds, with a change approved and
    nobody to commit it, and its state when the second window is over too. *)
Definition recovering_room : Room :=
  let d := config_default in
  tick_clock (duration_from_secs 2000) (c_set_config (mk_config (commit_batch_window d) (freeze_duration d) (retry_window d)
    (backup_takeover_window d) (proposal_expiration d) (consensus_timeout d) (voting_delay d) (pending_update_max_epochs d)
    (max_reelection_attempts d) (liveness_criteria_yes d) (max_consensus_sessions d) (commit_batch_max d)
    (dedup_window d) None 2 (steward_list_config d)) recovery_room).
Definition retried_room : Room := tick_clock (duration_from_secs 3000) (advance_freezing recovering_room).1.

Lemma missed_recovery_ends_witness :
  retrying (advance_freezing recovering_room).1 ∧ given_up (advance_freezing retried_room).1 ∧
  approved_proposals (c_queues recovering_room) ⊆ approved_proposals (c_queues (advance_freezing retried_room).1).
Proof.
  assert (window_over recovering_room) as W1 by (split_and!; by vm_compute).
  assert (window_over retried_room) as W2 by (split_and!; by vm_compute).
  assert (∀ c : Room, keeps_waiting c c) as Hid by by split.
  pose proof (missed_again 0 _ _ _ (missed_none recovering_room) (Hid _) W1) as H1.
  pose proof (clock_waits (duration_from_secs 3000) (advance_freezing recovering_room).1) as Ht.
  pose proof (missed_again 1 _ _ _ H1 Ht W2) as H2.
  assert (c_recovery_rounds recovering_room = 0%N) as H0 by (by vm_compute).
  assert ((recovery_max_rounds (c_config recovering_room) ≤ u32_max)%N) as Hm by (by vm_compute).
  destruct (missed_recovery_ends 1 _ _ H1 H0 Hm) as (_ & _ & He1 & _).
  destruct (missed_recovery_ends 2 _ _ H2 H0 Hm) as (_ & Ha & He2 & _).
  split; [apply He1; lia|]. split; [apply He2; lia|exact Ha].
Defined.
