(* ===== verification/Succession.v ===== *)
(** * The steward list after a commit

    What the housekeeping after a merged commit makes of the steward list, and that
    members that agreed on the list before a commit agree on it after. *)

From S2P Require Import Prelude Time Machine Protos StewardList Mls Toy Buffer Queues Scoring CommitRound ApplyResult Config Display Conversation Room Voting Steward HandleOutcome Inbound Messaging Poll Quiet.

Section succession.
Context {HS : Hash} {OM : OpenMls} {CS : ConsensusLib} {CD : Codec} {CT : ConsensusTexts} {HI : HashIter}.
Context {St : Type} `{!PeerScoreStorage St}.
Abbreviation Conv := (Conversation St).
Abbreviation conv := (method Conv).
Implicit Types (c : Conv).

(** ** The list the housekeeping leaves *)

Definition settled_now c : list bytes := settled_members (c_queues c) (members_of c) (mls_epoch c).

(** A list that is not exhausted stays; an exhausted one is replaced by the one
    generated for this epoch, unless there are more candidates than it may hold or
    nobody to put on it. *)
Definition next_list c : option StewardList :=
  let s := c_stewards c in
  if negb (is_exhausted s (mls_epoch c)) || election_required s (len (settled_now c)) then svc_list s else
  match generate (mls_epoch c) (svc_conversation_id s) (settled_now c)
    (compute_list_size (svc_config s) (len (settled_now c))) (svc_config s) 0 with
  | Ok l => Some l
  | Err _ => svc_list s
  end.
Definition with_list (l : option StewardList) (s : StewardListService) : StewardListService :=
  match l with Some l => svc_set_list l s | None => s end.

Lemma with_same_list s : with_list (svc_list s) s = s.
Proof. by destruct s as [[]]. Qed.

Lemma next_list_none c : next_list c = None → svc_list (c_stewards c) = None.
Proof. unfold next_list. by repeat case_match. Qed.

(** What the list is computed from; the steps before the reconciliation leave it. *)
Record list_inputs c0 c : Prop := {
  li_stewards : c_stewards c = c_stewards c0;
  li_mls : c_mls c = c_mls c0;
  li_joins : member_join_epoch (c_queues c) = member_join_epoch (c_queues c0);
}.
#[local] Instance list_inputs_still c0 : Still (list_inputs c0).
Proof. split; intros *; [by intros []..|by intros _ []|]. intros _ Hj _ _ [E1 E2 E3]. split; cbn; congruence. Qed.
#[export] Instance stewards_quiet s : Quiet (λ c, c_stewards c = s).
Proof. repeat split; by intros. Qed.

Lemma settled_same c0 c :
  members_of c = members_of c0 → mls_epoch c = mls_epoch c0 →
  member_join_epoch (c_queues c) = member_join_epoch (c_queues c0) → settled_now c = settled_now c0.
Proof.
  intros Hm He Hj. unfold settled_now, settled_members. rewrite Hm, He.
  apply filterb_ext. intros m _. unfold is_settled. by rewrite Hj.
Qed.

Lemma inputs_next c0 c : list_inputs c0 c → next_list c = next_list c0.
Proof.
  intros [E1 E2 E3]. unfold next_list. rewrite (settled_same c0 c), E1 by (try done; unfold members_of, mls_epoch; by rewrite E2).
  unfold mls_epoch. by rewrite E2.
Qed.

(** Whatever it returns, the reconciliation changes the list alone. *)
Lemma reconcile_eq c : (reconcile_steward_list c).1 = c_set_stewards (with_list (next_list c) (c_stewards c)) c.
Proof.
  unfold reconcile_steward_list, next_list. fold (settled_now c). unfold sbind at 1, sget. cbn [id].
  assert (c_set_stewards (c_stewards c) c = c) as Hid by by destruct c.
  destruct (is_exhausted _ _); cbn [negb orb]; [|by rewrite with_same_list].
  destruct (election_required _ _); [by rewrite with_same_list|].
  unfold sbind, on_stewards, szoom, install_list. change (settled_members (c_queues c) (members_of c) (mls_epoch c)) with (settled_now c).
  destruct (generate _ _ _ _ _ _); [done|]. by rewrite with_same_list.
Qed.

Lemma housekeeping_stewards c : c_stewards (steward_list_housekeeping c).1 = with_list (next_list c) (c_stewards c).
Proof.
  unfold steward_list_housekeeping, sbind at 1. pose proof (reconcile_eq c) as E.
  destruct (reconcile_steward_list c) as [c1 [r|e]]; cbn in E; subst c1; [|done].
  set (s := with_list _ _).
  assert (preserves (λ c, c_stewards c = s)
    (if bool_decide (r = NeedsElection) then attempt (initiate_steward_election false) else sret tt)) as Hp by quiet.
  by apply Hp.
Qed.

(** Back to work, before the housekeeping proper. *)
Definition resumed c : Conv :=
  (emit_event (EvPhaseChange Working)
    (start_working (edit_timing (set_recovered false) (edit_stewards reset_retry c).1).1).1).1.

Lemma updated_eq c :
  on_conversation_updated c =
    (reconcile_membership_after_commit ;! steward_list_housekeeping ;! process_buffered_updates ;! maybe_close_recovery_window)
      (resumed c).
Proof. done. Qed.

(** The whole of [on_conversation_updated], for the list: the retry round is back to
    zero and the list is the next one, whatever fails after the scores are updated. *)
Lemma updated_stewards c :
  is_ok (reconcile_membership_after_commit (resumed c)).2 = true →
  c_stewards (on_conversation_updated c).1 = with_list (next_list c) (reset_retry (c_stewards c)).
Proof.
  intros Hok. rewrite updated_eq. unfold sbind at 1.
  assert (list_inputs (resumed c) (reconcile_membership_after_commit (resumed c)).1) as Hin
    by (apply (membership_still (list_inputs (resumed c))); by split).
  destruct (reconcile_membership_after_commit (resumed c)) as [c1 [[]|e]]; [|done]. cbn [fst] in Hin. clear Hok.
  assert (next_list c1 = next_list c) as Hn by (by rewrite (inputs_next _ _ Hin)).
  pose proof (housekeeping_stewards c1) as E. rewrite Hn, (li_stewards _ _ Hin) in E. change (c_stewards (resumed c)) with (reset_retry (c_stewards c)) in E.
  unfold sbind at 1. destruct (steward_list_housekeeping c1) as [c2 [[]|e]]; cbn [fst] in E; [|done].
  rewrite <-E. set (s := c_stewards c2).
  assert (preserves (λ c, c_stewards c = s) (process_buffered_updates ;! maybe_close_recovery_window)) as Hp by quiet.
  by apply Hp.
Qed.

Lemma updated_list c c1 :
  on_conversation_updated c = (c1, Ok tt) →
  svc_list (c_stewards c1) = next_list c ∧ next_election_round (c_stewards c1) = 0%N.
Proof.
  intros H. pose proof (updated_stewards c) as E. rewrite H in E. cbn [fst] in E.
  rewrite E; last first.
  { rewrite updated_eq in H. unfold sbind at 1 in H.
    by destruct (reconcile_membership_after_commit (resumed c)) as [c2 [[]|e]]. }
  split; [|by destruct (next_list c)]. pose proof (next_list_none c) as Hn. destruct (next_list c); [done|by apply Hn].
Qed.

(** A failing score storage ends the housekeeping before the list is looked at: the
    member works on with the list it had, exhausted or not. *)
Lemma storage_failure_keeps_list c e :
  (reconcile_membership_after_commit (resumed c)).2 = Err e →
  (on_conversation_updated c).2 = Err e ∧ current_state (on_conversation_updated c).1 = Working ∧
  svc_list (c_stewards (on_conversation_updated c).1) = svc_list (c_stewards c).
Proof.
  intros He. rewrite updated_eq. set (P := λ c1, current_state c1 = Working ∧ svc_list (c_stewards c1) = svc_list (c_stewards c)).
  assert (Still P) as HP by (split; intros *; by intros).
  assert (P (reconcile_membership_after_commit (resumed c)).1) as HPc.
  { apply (membership_still P). split; reflexivity. }
  rewrite (sbind_err _ _ _ e) by done. done.
Qed.

(** ** Members that agree stay in agreement *)

(** What two members have to agree on: the list, its bounds and salt, the group, and
    who of its members has joined in this very epoch. *)
Record agree c c' : Prop := {
  ag_list : svc_list (c_stewards c) = svc_list (c_stewards c');
  ag_config : svc_config (c_stewards c) = svc_config (c_stewards c');
  ag_salt : svc_conversation_id (c_stewards c) = svc_conversation_id (c_stewards c');
  ag_epoch : mls_epoch c = mls_epoch c';
  ag_members : members_of c ≡ₚ members_of c';
  ag_settled : ∀ m, m ∈ members_of c → is_settled (c_queues c) m (mls_epoch c) = is_settled (c_queues c') m (mls_epoch c');
}.

Lemma agree_settled c c' : agree c c' → settled_now c ≡ₚ settled_now c'.
Proof.
  intros [_ _ _ _ Hm Hs]. unfold settled_now, settled_members.
  rewrite (filterb_ext _ (λ m, is_settled (c_queues c') m (mls_epoch c')) (members_of c)) by (intros m Hin; by apply Hs).
  by apply filterb_perm.
Qed.

Lemma agree_next c c' : agree c c' → next_list c = next_list c'.
Proof.
  intros H. pose proof (agree_settled _ _ H) as Hp. destruct H as [Hl Hc Hi He _ _].
  unfold next_list, is_exhausted, election_required. rewrite Hl, Hc, Hi, He, (len_perm _ _ Hp).
  by rewrite (generate_order_independent _ _ _ _ _ _ _ Hp).
Qed.

(** C17: members that agreed on the stewards before a commit agree on them after it.
    Two members with the same list, bounds and salt, in the same group after the
    merge, with the same members settled, end the housekeeping of the commit with the
    same list and retry round, and so name the same epoch steward and backup in every
    later epoch. The list is the one before while it is not exhausted, or while there
    are more candidates than it may hold and an election is to decide; otherwise it
    is the one generated for this epoch from the settled members. The housekeeping
    has to run to its end at both; [storage_failure_keeps_list] is the case in which
    it does not. *)
Theorem commit_keeps_agreement c c' c1 c1' :
  agree c c' → on_conversation_updated c = (c1, Ok tt) → on_conversation_updated c' = (c1', Ok tt) →
  svc_list (c_stewards c1) = svc_list (c_stewards c1') ∧ svc_list (c_stewards c1) = next_list c ∧
  next_election_round (c_stewards c1) = 0%N ∧ next_election_round (c_stewards c1') = 0%N ∧
  ∀ epoch eligible, epoch_and_backup (c_stewards c1) epoch eligible = epoch_and_backup (c_stewards c1') epoch eligible.
Proof.
  intros Ha (E1 & R1)%updated_list (E2 & R2)%updated_list.
  assert (svc_list (c_stewards c1) = svc_list (c_stewards c1')) as E by (rewrite E1, E2; by apply agree_next).
  split_and!; [done..|]. intros epoch eligible. unfold epoch_and_backup. by rewrite E.
Qed.
End succession.

(** ** At a concrete input *)

#[local] Existing Instances example_hash toy_mls canonical_hash_iter toy_consensus toy_texts toy_codec.

(** The room as each of its members sees it once its epoch is past the end of the list. *)
Definition late_room (own : N) : Room :=
  conversation_new "g" (queues_new "g" 8)
    (mk_mls (OM := toy_mls) "g" (mk_toy {[ 0%N := [x0a]; 1%N := [x0b] ]} 9 own [] None) None)
    room_scores room_stewards (mk_engine ∅ 7) (mk_sm Selection) config_default (duration_from_secs 1000)
    (member_id_of own) [xaa].

Lemma commit_keeps_agreement_witness :
  ∃ c1 c1' : Room, svc_list (c_stewards c1) = svc_list (c_stewards c1') ∧
    sl_election_epoch <$> svc_list (c_stewards c1) = Some 9%N.
Proof.
  destruct (on_conversation_updated (late_room 0)) as [c1 r1] eqn:E1.
  destruct (on_conversation_updated (late_room 1)) as [c1' r1'] eqn:E1'.
  assert (r1 = Ok tt) as -> by (change r1 with (c1, r1).2; rewrite <-E1; by vm_compute).
  assert (r1' = Ok tt) as -> by (change r1' with (c1', r1').2; rewrite <-E1'; by vm_compute).
  destruct (commit_keeps_agreement (late_room 0) (late_room 1) c1 c1') as (El & En & _); [by split|exact E1|exact E1'|].
  exists c1, c1'. split; [exact El|]. rewrite En. by vm_compute.
Defined.
