(* ===== verification/InStep.v ===== *)
(** * Two members stay in step

    [in_step]: two conversations hold one group and agree on the work, the stewards and
    the mode; [in_step_from k] lets them remember the joins of the last epochs
    differently, as long as they agree on who is settled [k] epochs on. This file shows that nothing that happens to both takes them apart: a
    commit round, a decision, and whatever each does by itself in between. *)

From S2P Require Import Prelude Time Machine Protos StewardList Mls Toy Buffer Queues Scoring CommitRound ApplyResult Config Display Conversation Room Voting Steward HandleOutcome Inbound Messaging Poll Quiet Candidate Agreement Merge Succession.

Section in_step.
Context {HS : Hash} {OM : OpenMls} {OL : OpenMlsLaws} {PR : OpenMlsPeers} {PL : OpenMlsPeersLaws}.
Context {MR : OpenMlsMerge} {ML : OpenMlsMergeLaws}.
Context {CS : ConsensusLib} {CD : Codec} {CT : ConsensusTexts} {HI : HashIter}.
Context {St : Type} `{!PeerScoreStorage St}.
Abbreviation Conv := (Conversation St).
Abbreviation conv := (method Conv).
Implicit Types (c : Conv).

(** ** What a member does by itself *)

(** Between [c0] and [c] the member changed nothing the others depend on. *)
Record calm c0 c : Prop := {
  cm_approved : approved_proposals (c_queues c) = approved_proposals (c_queues c0);
  cm_urgent : urgent_commit_target (c_queues c) = urgent_commit_target (c_queues c0);
  cm_joins : member_join_epoch (c_queues c) = member_join_epoch (c_queues c0);
  cm_id : c_id c = c_id c0;
  cm_mode : c_mode c = c_mode c0;
  cm_rounds : c_recovery_rounds c = c_recovery_rounds c0;
  cm_limit : recovery_max_rounds (c_config c) = recovery_max_rounds (c_config c0);
  cm_slot : pending_staged_commit (c_mls c) = pending_staged_commit (c_mls c0);
  cm_public : same_public (mls_group (c_mls c0)) (mls_group (c_mls c));
  cm_peers : ∀ i j g, peers i j g (mls_group (c_mls c0)) → peers i j g (mls_group (c_mls c));
}.

Lemma calm_refl c : calm c c.
Proof. by repeat split. Qed.
Lemma calm_trans c0 c1 c2 : calm c0 c1 → calm c1 c2 → calm c0 c2.
Proof.
  intros [? ? ? ? ? ? ? ? [? ?] ?] [? ? ? ? ? ? ? ? [? ?] ?]. split; [congruence..|split; congruence|auto].
Qed.

Lemma build_group msg s :
  mls_group (build_message msg s).1 = (create_message (encode_app_message msg) (mls_group s)).1 ∧
  pending_staged_commit (build_message msg s).1 = pending_staged_commit s.
Proof. unfold build_message, sbind, on_group. by destruct (create_message _ _) as [g [m|e]]. Qed.

#[export] Instance calm_quiet c0 : QuietStewards (calm c0).
Proof.
  split; [split; [split|..]|]; intros *; cbn; try (intros []; by split).
  - by intros _ [].
  - intros ? ? _ ? []. split; cbn; congruence || done.
  - intros H. eapply calm_trans; [exact H|]. destruct (build_group msg (c_mls c)) as [Hg Hs].
    split; cbn; try done; rewrite Hg; [apply message_public|]. intros i j g. apply peers_message.
Qed.
Lemma calm_event c0 ev c : calm c0 c → calm c0 (emit_event ev c).1.
Proof. by intros []. Qed.
#[export] Instance calm_phase c0 : AnyPhase (calm c0).
Proof. intros sm c []. by split. Qed.

(** ... the stewards included. *)
Definition calm_list (c0 : Conv) (s : StewardListService) c : Prop := calm c0 c ∧ c_stewards c = s.
#[export] Instance calm_list_quiet c0 s : Quiet (calm_list c0 s).
Proof.
  split; [split|..]; intros *; cbn; unfold calm_list.
  - intros [H ?]. split; [by apply still_timing|done].
  - intros [H ?]. split; [by apply still_scoring|done].
  - intros ? [H ?]. split; [by apply still_event|done].
  - intros ? ? ? ? [H ?]. split; [by apply still_queues|done].
  - intros [H ?]. split; [by apply quiet_engine|done].
  - intros [H ?]. split; [by apply quiet_bus|done].
  - intros [H ?]. split; [by apply quiet_message|done].
  - intros [H ?]. split; [by apply quiet_outbound|done].
Qed.
#[export] Instance calm_list_phase c0 s : AnyPhase (calm_list c0 s).
Proof. intros sm c [H ?]. split; [by apply any_phase|done]. Qed.

Lemma calm_list_refl c : calm_list c (c_stewards c) c.
Proof. split; [apply calm_refl|done]. Qed.

(** ** In step *)

(** ... as to who is settled, from [k] epochs on; as to the rounds of a recovery, while
    there is one. *)
Record in_step_from (k i j : N) c1 c2 : Prop := {
  is_together : together_from k i j (c_queues c1, c_mls c1) (c_queues c2, c_mls c2);
  is_stewards : c_stewards c1 = c_stewards c2;
  is_id : c_id c1 = c_id c2;
  is_mode : c_mode c1 = c_mode c2;
  is_rounds : is_in_recovery_mode c1 = true → c_recovery_rounds c1 = c_recovery_rounds c2;
  is_limit : recovery_max_rounds (c_config c1) = recovery_max_rounds (c_config c2);
}.

Abbreviation in_step := (in_step_from 0).

Lemma in_step_epoch k i j c1 c2 : in_step_from k i j c1 c2 → mls_epoch c1 = mls_epoch c2.
Proof. intros [[[Hg _] _ _] _ _ _ _ _]. by eapply peers_epoch. Qed.
Lemma in_step_members k i j c1 c2 : in_step_from k i j c1 c2 → members_of c1 = members_of c2.
Proof. intros [Ht _ _ _ _ _]. by apply together_members in Ht. Qed.

(** What each does by itself leaves them in step. *)
Lemma in_step_calm k i j c1 c2 c1' c2' :
  in_step_from k i j c1 c2 → calm c1 c1' → calm c2 c2' → c_stewards c1' = c_stewards c2' → in_step_from k i j c1' c2'.
Proof.
  intros [[[Hg Hs] Hi [Ha Hk Hu Hse]] _ Hid Hm Hr Hl] [A1 U1 J1 I1 M1 R1 C1 S1 P1 G1] [A2 U2 J2 I2 M2 R2 C2 S2 P2 G2] Hst. cbn in *.
  split; [split; [split|..|split]|congruence..| |congruence]; cbn.
  8: { unfold is_in_recovery_mode in *. rewrite M1, R1, R2. done. }
  - by apply G2, peers_sym, G1, peers_sym.
  - by rewrite S1, S2.
  - congruence.
  - by rewrite A1, A2.
  - by rewrite A1.
  - congruence.
  - rewrite (same_public_members _ _ P1). destruct P1 as [_ ->]. intros m e Hin He. unfold is_settled.
    rewrite J1, J2. by apply Hse.
Qed.

Lemma in_step_agree i j c1 c2 : in_step i j c1 c2 → agree c1 c2.
Proof.
  intros H. pose proof (in_step_epoch _ _ _ _ _ H) as He. pose proof (in_step_members _ _ _ _ _ H) as Hm.
  destruct H as [[_ _ [_ _ _ Hse]] Hs _ _ _ _]. cbn in Hse.
  split; [by rewrite Hs..|done|by rewrite Hm|]. intros m Hin. rewrite <-He. apply Hse; [done|]. by unfold mls_epoch.
Qed.

(** ** The end of a round *)

(** Landed: back to work with the next list. *)
Definition updated_list_of c : StewardListService := with_list (next_list c) (reset_retry (c_stewards c)).

Lemma calm_next c0 c : calm c0 c → c_stewards c = c_stewards c0 → next_list c = next_list c0.
Proof.
  intros [_ _ J _ _ _ _ _ P _] Hs. unfold next_list.
  assert (mls_epoch c = mls_epoch c0) as He by (unfold mls_epoch; by destruct P).
  rewrite (settled_same c0 c), Hs, He; [done|by apply same_public_members|done..].
Qed.

(** A list generated for this epoch is in use. *)
Lemma generated_in_use e cid ids cfg r l :
  generate e cid ids (compute_list_size cfg (len ids)) cfg r = Ok l → (len ids ≤ sn_max cfg)%N → sl_is_exhausted l e = false.
Proof.
  rewrite generate_eq. intros Hg Hm. assert (ids ≠ []) as Hne by (by intros ->).
  assert (l = mk_sl (take (N.to_nat (compute_list_size cfg (len ids))) (sort_by (steward_cmp e r cid) ids)) cfg e r) as ->.
  { destruct ids as [|x ids']; [done|]. destruct (is_valid_size _ _ _); [|done]. by injection Hg. }
  unfold sl_is_exhausted. cbn. rewrite N.ltb_irrefl, N.sub_diag, len_take, (len_perm _ _ (sort_by_perm _ _)).
  apply N.leb_gt. rewrite <-len_nil_iff in Hne. unfold compute_list_size, size_bounds.
  destruct (N.ltb_spec (len ids) (sn_min cfg)); cbn; lia.
Qed.

(** Reconciling twice is reconciling once. *)
Lemma next_list_again c :
  next_list (c_set_stewards (with_list (next_list c) (c_stewards c)) c) = next_list c.
Proof.
  assert (next_list (c_set_stewards (with_list (svc_list (c_stewards c)) (c_stewards c)) c) = next_list c) as Hid.
  { rewrite with_same_list. by destruct c. }
  unfold next_list at 2 3. destruct (_ || _) eqn:Ex; [rewrite Hid; unfold next_list; by rewrite Ex|].
  destruct (generate _ _ _ _ _ _) as [l|e] eqn:Hg; [|rewrite Hid; unfold next_list; by rewrite Ex, Hg].
  apply orb_false_iff in Ex as [_ Er]. unfold election_required in Er. apply N.ltb_ge in Er.
  unfold next_list. cbn [c_stewards c_set_stewards with_list]. unfold is_exhausted. cbn [svc_list svc_set_list].
  change (mls_epoch (c_set_stewards _ c)) with (mls_epoch c). by rewrite (generated_in_use _ _ _ _ _ _ Hg).
Qed.

Context `{!ScoreWritesSucceed St}.

Lemma writes_total {A} (m : method (PeerScoringService St) A) :
  never_fails m → never_fails (S := Conv) (on_scoring m).
Proof. intros Hm c. unfold on_scoring, szoom. specialize (Hm (c_scoring c)). by destruct (m (c_scoring c)). Qed.
Lemma membership_total : never_fails (S := Conv) reconcile_membership_after_commit.
Proof.
  unfold reconcile_membership_after_commit. apply never_fails_bind; [done|]. intros delta.
  apply never_fails_bind; [apply never_fails_for|].
  { intros m. apply writes_total. intros s. unfold remove_member, storage_write.
    pose proof (ps_remove_succeeds (member_id_of (mid_leaf m)) (sc_storage s)) as H.
    destruct (ps_remove _ _) as [st [[]|e]]; done. }
  intros _. apply never_fails_bind; [apply never_fails_for|].
  { intros m. apply writes_total. intros s. unfold add_member, storage_write.
    pose proof (ps_set_succeeds (member_id_of (leaf_index m)) (default_score (sc_config s)) (sc_storage s)) as H.
    destruct (ps_set _ _ _) as [st [[]|e]]; done. }
  intros _ c. unfold sbind, sget, on_queues. destruct (expire_pending_updates _ _ _) as [q l]. by case_match.
Qed.

Lemma updated_ends c : calm c (on_conversation_updated c).1 ∧ c_stewards (on_conversation_updated c).1 = updated_list_of c.
Proof.
  split; [|apply updated_stewards, membership_total]. rewrite updated_eq.
  match goal with |- calm c (?m (resumed c)).1 => assert (preserves (calm c) m) as Hp by quiet end.
  apply Hp. by repeat split.
Qed.

Lemma deliver_ends w c :
  calm c (deliver_welcome w c).1 ∧ c_stewards (deliver_welcome w c).1 = with_list (next_list c) (c_stewards c) ∧
  is_ok (deliver_welcome w c).2 = true.
Proof.
  split; [apply (deliver_quiet (calm c)), calm_refl|]. unfold deliver_welcome, sbind, scatch, sret.
  pose proof (reconcile_eq c) as E. destruct (reconcile_steward_list c) as [c1 [r|e]]; cbn in E; subst c1; [|done].
  set (c1 := c_set_stewards _ c).
  pose proof (sync_payload_quiet (λ c, c_stewards c = c_stewards c1) c1 eq_refl) as Hs.
  by destruct (build_conversation_sync_payload c1) as [c2 [sync|e]].
Qed.

Lemma calm_normal (rec : bool) c c' :
  calm c c' → calm (if rec then c_set_mode Normal c else c) (if rec then c_set_mode Normal c' else c').
Proof. by destruct rec; [intros []; split|]. Qed.

Lemma with_list_reset l s : with_list l (reset_retry (with_list l s)) = with_list l (reset_retry s).
Proof. by destruct l. Qed.

Lemma scored_ends (ops : list ScoreOp) c :
  let m : conv unit := if bool_decide (ops = []) then sret tt else
    scatch (apply_score_ops ops) (λ r, match r with
      | Ok _ => sret tt
      | Err e => emit_event (EvError "apply_commit_round_score_ops" (error_to_string e)) end) in
  calm_list c (c_stewards c) (m c).1 ∧ is_ok (m c).2 = true.
Proof.
  cbn zeta. case_bool_decide; [split; [apply calm_list_refl|done]|]. split.
  - match goal with |- calm_list c _ (?m c).1 => assert (preserves (calm_list c (c_stewards c)) m) as Hp by quiet end.
    apply Hp, calm_list_refl.
  - unfold scatch. by destruct (apply_score_ops ops c) as [? [?|?]].
Qed.

(** A landed commit: the mode is normal again after a recovery, the list the next one. *)
Lemma conclude_applied (rec has : bool) r w c :
  rr_outcome r = Applied ConversationUpdated w →
  calm (if rec then c_set_mode Normal c else c) (conclude_round rec has r c).1 ∧
  c_stewards (conclude_round rec has r c).1 = updated_list_of c ∧ (conclude_round rec has r c).2 = Ok Done.
Proof.
  intros Hr. unfold conclude_round. destruct (scored_ends (rr_score_ops r) c) as [H1 E1]. cbn zeta in H1, E1.
  rewrite sbind_seq by exact E1. match goal with |- calm _ (_ ?x).1 ∧ _ => set (c1 := x) in * end. clearbody c1. clear E1.
  rewrite sbind_seq by by case_bool_decide. match goal with |- calm _ (_ ?x).1 ∧ _ => set (c2 := x) end.
  assert (calm_list c (c_stewards c) c2) as [H2 S2].
  { subst c2. case_bool_decide; [done|]. split; [by apply calm_event, H1|by destruct H1]. }
  clearbody c2. clear c1 H1. rewrite Hr. unfold applied.
  rewrite sbind_seq by by destruct rec. match goal with |- calm _ (_ ?x).1 ∧ _ => set (c3 := x) end.
  assert (c3 = if rec then c_set_mode Normal c2 else c2) as E3 by by destruct rec.
  assert (calm (if rec then c_set_mode Normal c else c) c3) as H3 by (rewrite E3; by apply calm_normal).
  assert (c_stewards c3 = c_stewards c) as S3 by (rewrite E3; by destruct rec).
  assert (next_list c3 = next_list c) as N3.
  { rewrite (calm_next _ _ H3) by (rewrite S3; by destruct rec). by destruct rec. }
  clearbody c3. clear E3 H2 S2.
  assert (∃ c4, calm c3 c4 ∧ with_list (next_list c4) (reset_retry (c_stewards c4)) = updated_list_of c ∧
    (match w with Some w => deliver_welcome w | None => sret tt end) c3 = (c4, Ok tt)) as (c4 & H4 & S4 & E4).
  { destruct w as [w|].
    - destruct (deliver_ends w c3) as (Hc & Hs & Ho). destruct (deliver_welcome w c3) as [c4 [[]|e]]; [|done].
      exists c4. split_and!; [done| |done]. cbn [fst] in Hc, Hs.
      assert (next_list c4 = next_list c3) as ->.
      { rewrite <-(next_list_again c3). apply calm_next; [by destruct Hc; split|done]. }
      rewrite Hs, N3, S3. apply with_list_reset.
    - exists c3. split_and!; [apply calm_refl| |done]. unfold updated_list_of. by rewrite N3, S3. }
  rewrite (sbind_step _ _ _ _ _ E4). destruct (updated_ends c4) as [H5 S5].
  assert (∃ c5, scatch (dispatch_inbound_result ConversationUpdated)
    (λ r, sret match r with Ok o => o | Err _ => Done end) c4 = (c5, Ok Done) ∧ c5 = (on_conversation_updated c4).1) as (c5 & E5 & Ec5).
  { unfold scatch. cbn [dispatch_inbound_result]. unfold sbind at 1. destruct (on_conversation_updated c4) as [c5 [[]|e]]; eauto. }
  rewrite <-Ec5 in H5, S5. clear Ec5. rewrite E5. cbn [fst snd].
  split_and!; [exact (calm_trans _ _ _ H3 (calm_trans _ _ _ H4 H5))|by rewrite S5|done].
Qed.

(** A missed round: a recovery without work ends, one with work counts the round. *)
Definition missed (rec has : bool) c : Conv :=
  if rec then
    if has then
      let c := c_set_rounds (u32_wrapping_add (c_recovery_rounds c) 1) c in
      let max := recovery_max_rounds (c_config c) in
      if negb (max =? 0)%N && (max <=? c_recovery_rounds c)%N then c_set_mode Normal c else c
    else c_set_mode Normal c
  else c.

Lemma calm_list_mode c0 s c : calm_list c0 s c → calm_list (c_set_mode Normal c0) s (c_set_mode Normal c).
Proof. intros [[] ?]. by split; [split|]. Qed.
Lemma calm_list_round c0 s f : preserves (calm_list c0 s) (edit_queues (λ q, set_round (f q) q)).
Proof. apply preserves_modify. intros c [[] ?]. by split; [split|]. Qed.
#[local] Hint Resolve calm_list_round : quiet.

Lemma conclude_missed (rec has : bool) r c :
  rr_outcome r = NoCandidate →
  calm_list (missed rec has c) (c_stewards c) (conclude_round rec has r c).1.
Proof.
  intros Hr. unfold conclude_round. destruct (scored_ends (rr_score_ops r) c) as [H1 E1]. cbn zeta in H1, E1.
  rewrite sbind_seq by exact E1. match goal with |- calm_list _ _ (_ ?x).1 => set (c1 := x) in * end. clearbody c1. clear E1.
  rewrite sbind_seq by by case_bool_decide. match goal with |- calm_list _ _ (_ ?x).1 => set (c2 := x) end.
  assert (calm_list c (c_stewards c) c2) as H2.
  { subst c2. case_bool_decide; [done|]. split; [by apply calm_event, H1|by destruct H1]. }
  clearbody c2. clear c1 H1. rewrite Hr. unfold no_candidate, missed. destruct rec; [destruct has; cbn [negb]|].
  - unfold retry_or_exhaust_recovery.
    set (n := u32_wrapping_add (c_recovery_rounds c2) 1).
    match goal with |- calm_list _ _ ((smodify _ ;! (let! c := sget id in @?k c)) c2).1 =>
      change (calm_list (missed true true c) (c_stewards c) (k (c_set_rounds n c2) (c_set_rounds n c2)).1) end.
    cbv beta. unfold missed. cbn [c_config c_recovery_rounds c_set_rounds c_set_mode].
    assert (calm_list (c_set_rounds n c) (c_stewards c) (c_set_rounds n c2)) as H3 by (destruct H2 as [[] ?]; by split; [split|]).
    subst n. destruct H2 as [[_ _ _ _ _ Hr2 Hc2 _ _ _] _]. rewrite Hr2, Hc2 in *.
    destruct (_ && _).
    + apply calm_list_mode in H3.
      match goal with |- calm_list ?x ?s (((exit_recovery_mode ;! ?k) ;! ?k2) ?c).1 =>
        change (calm_list x s ((k ;! k2) (c_set_mode Normal c)).1); assert (preserves (calm_list x s) (k ;! k2)) as Hk by quiet end.
      by apply Hk.
    + match goal with |- calm_list ?x ?s (?m ?c).1 => assert (preserves (calm_list x s) m) as Hp end; [|by apply Hp].
      unfold emit_phase_change. quiet.
  - rewrite sbind_seq by done. rewrite sbind_seq by done. unfold resume_working.
    match goal with |- calm_list ?x ?s (?m ?c).1 => assert (preserves (calm_list x s) m) as Hp end; [quiet|].
    apply Hp. by apply (calm_list_mode c), calm_list_round.
  - match goal with |- calm_list ?x ?s (?m ?c).1 => assert (preserves (calm_list x s) m) as Hp end; [|by apply Hp].
    unfold clear_round_and_work. quiet.
Qed.

(** ** The round of both *)

Definition round_state c : RoundState := (c_queues c, c_mls c).
Definition subset_allowed c : bool := is_in_recovery_mode c || allow_subset_candidates (svc_config (c_stewards c)).

(** The MLS engine and the storage let the round end, and the member stays. *)
Definition finishes c (t : RoundState) (r : CommitRoundResult) : Prop :=
  finalize_commit_round (c_stewards c) (is_in_recovery_mode c) (subset_allowed c) (c_self c) (round_state c) = (t, Ok r) ∧
  ∀ w, rr_outcome r ≠ Applied LeaveConversation w.

(** The two hold the same candidates, each by a third member or by one of the two,
    whose own the other does not refuse. *)
Record same_candidates (i j : N) c1 c2 : Prop := {
  sc_distinct : NoDup (commit_hash <$> round_candidates (round_state c1));
  sc_same : public <$> round_candidates (round_state c1) ≡ₚ public <$> round_candidates (round_state c2);
  sc_fair : fair_round i j (c_stewards c1) (is_in_recovery_mode c1) (c_self c1) (c_self c2) (round_state c1) (round_state c2);
  sc_authored : ∀ x1 x2, x1 ∈ round_candidates (round_state c1) → x2 ∈ round_candidates (round_state c2) →
    same_candidate x1 x2 → authored i j (round_state c1) (round_state c2) x1 x2;
}.

Definition selecting c : Conv :=
  (emit_event (EvPhaseChange Selection) (start_selection (edit_timing (set_progress None) c).1).1).1.
Definition after_merge (t : RoundState) c : Conv := c_set_mls t.2 (c_set_queues t.1 c).

Lemma select_finishes c t r :
  finishes c t r →
  select_round (is_in_recovery_mode c) c =
    conclude_round (is_in_recovery_mode c) (0 <? approved_proposals_count (c_queues c))%N r (after_merge t (selecting c)).
Proof.
  intros [H _]. unfold select_round.
  match goal with |- (edit_timing (set_progress None) ;! (let! e := start_selection in let! h := sget ?f in
    emit_event (EvPhaseChange e) ;! @?k h)) c = _ => change (k (f (selecting c)) (selecting c) =
    conclude_round (is_in_recovery_mode c) (f (selecting c)) r (after_merge t (selecting c))) end.
  cbv beta. unfold sbind at 1, sget. cbn [id]. unfold scatch.
  assert (conv_finalize_commit_round (is_in_recovery_mode c || allow_subset_candidates (svc_config (c_stewards (selecting c))))
    (c_self (selecting c)) (selecting c) = (after_merge t (selecting c), Ok r)) as ->; [|done].
  unfold conv_finalize_commit_round, sbind at 1, sget. cbn [id]. unfold on_round.
  change (c_queues (selecting c), c_mls (selecting c)) with (round_state c).
  change (finalize_commit_round _ _ _ _) with
    (finalize_commit_round (c_stewards c) (is_in_recovery_mode c) (subset_allowed c) (c_self c)).
  rewrite H. by destruct t.
Qed.

Lemma in_step_settle k i j c1 c2 c1' c2' s1 s2 :
  in_step_from k i j c1 c2 → calm_list c1 s1 c1' → calm_list c2 s2 c2' → s1 = s2 → in_step_from k i j c1' c2'.
Proof. intros H [H1 E1] [H2 E2] ->. apply (in_step_calm _ _ _ _ _ _ _ H H1 H2). by rewrite E1, E2. Qed.

Lemma in_step_next i j c1 c2 : in_step i j c1 c2 → updated_list_of c1 = updated_list_of c2.
Proof. intros H. unfold updated_list_of. by rewrite (agree_next c1 c2 (in_step_agree _ _ _ _ H)), (is_stewards _ _ _ _ _ H). Qed.

(** Members whose rounds end alike: without a commit they differ as before, with one
    they are in step if they agree on the work after it. *)
Lemma ended_in_step k k' i j c1 c2 t1 t2 r1 r2 :
  in_step_from k i j c1 c2 → finishes c1 t1 r1 → finishes c2 t2 r2 → together_from k' i j t1 t2 → ended_alike r1 r2 →
  rr_outcome r1 = NoCandidate ∨ k' = 0%N →
  in_step_from k' i j (select_round (is_in_recovery_mode c1) c1).1 (select_round (is_in_recovery_mode c2) c2).1.
Proof.
  intros Hi H1 H2 Ht' He Hk. pose proof Hi as [Ht Hs Hid Hm Hr Hl].
  rewrite (select_finishes _ _ _ H1), (select_finishes _ _ _ H2). destruct H1 as [H1 L1], H2 as [H2 L2].
  assert (is_in_recovery_mode c2 = is_in_recovery_mode c1) as Erec by (unfold is_in_recovery_mode; by rewrite Hm).
  rewrite Erec. set (rec := is_in_recovery_mode c1) in *.
  assert (in_step_from k' i j (after_merge t1 (selecting c1)) (after_merge t2 (selecting c2))) as Hi' by (split; [by destruct t1, t2|done..]).
  set (d1 := after_merge t1 (selecting c1)) in *. set (d2 := after_merge t2 (selecting c2)) in *.
  assert ((0 <? approved_proposals_count (c_queues c2))%N = (0 <? approved_proposals_count (c_queues c1))%N) as ->.
  { destruct Ht as [_ _ [Ha _ _ _]]. unfold approved_proposals_count. cbn in Ha. by rewrite (len_perm _ _ Ha). }
  assert (rec = true → c_recovery_rounds d1 = c_recovery_rounds d2) as Hrr by exact (is_rounds _ _ _ _ _ Hi').
  set (has := (0 <? _)%N). clearbody d1 d2 rec has.
  destruct He as [[E1 E2]|(l1 & l2 & w1 & w2 & E1 & E2)].
  - pose proof (conclude_missed rec has r1 d1 E1) as M1. pose proof (conclude_missed rec has r2 d2 E2) as M2.
    eapply in_step_settle; [|exact M1|exact M2|apply (is_stewards _ _ _ _ _ Hi')].
    destruct Hi' as [T S I M R L]. unfold missed. destruct rec; [|by split]. specialize (Hrr eq_refl).
    destruct has; cbn [c_config c_recovery_rounds c_set_rounds]; rewrite ?Hrr, ?L; [|by split].
    destruct (_ && _); by split.
  - destruct Hk as [Hk| ->]; [by rewrite E1 in Hk|].
    destruct l1; [by destruct (L1 w1)|]. destruct l2; [by destruct (L2 w2)|]. cbn [leave_or_update] in *.
    destruct (conclude_applied rec has r1 w1 d1 E1) as (C1 & S1 & _).
    destruct (conclude_applied rec has r2 w2 d2 E2) as (C2 & S2 & _).
    eapply in_step_calm; [|exact C1|exact C2|].
    + destruct Hi' as [T S I M R L]. destruct rec; by split.
    + rewrite S1, S2. by eapply in_step_next.
Qed.

Lemma in_step_later k k' i j c1 c2 : in_step_from k i j c1 c2 → (k ≤ k')%N → in_step_from k' i j c1 c2.
Proof. intros [Ht ? ? ? ? ?] Hk. split; [by eapply together_later|done..]. Qed.

(** Members that differ over [k] epochs differ as before after a round without a
    commit; a commit past those epochs settles everybody. *)
Definition settles (k k' : N) c (t : RoundState) (r : CommitRoundResult) : Prop :=
  (k' = k ∧ (k = 0%N ∨ rr_outcome r = NoCandidate)) ∨
  (k' = 0%N ∧ (k + mls_epoch c ≤ g_epoch (mls_group t.2))%N).

Lemma round_in_step k k' i j c1 c2 t1 t2 r1 r2 :
  in_step_from k i j c1 c2 → settles k k' c1 t1 r1 → same_candidates i j c1 c2 → finishes c1 t1 r1 → finishes c2 t2 r2 →
  in_step_from k' i j (select_round (is_in_recovery_mode c1) c1).1 (select_round (is_in_recovery_mode c2) c2).1.
Proof.
  intros Hi Hk [Hn Hp Hf Hau] H1 H2. pose proof Hi as [Ht Hs _ Hm _ _].
  assert (k ≤ k' ∨ k + g_epoch (mls_group (round_state c1).2) ≤ k' + g_epoch (mls_group t1.2))%N as Hk'
    by (destruct Hk as [[-> _]|[-> ?]]; [by left|by right]).
  assert (together_from k' i j t1 t2 ∧ ended_alike r1 r2) as [Ht' He].
  { destruct H1 as [H1 _], H2 as [H2 _]; unfold subset_allowed, is_in_recovery_mode in *; rewrite <-Hs, <-Hm in H2.
    by destruct (round_together _ _ _ _ _ _ _ _ _ _ _ _ _ _ _ Ht Hk' Hn Hp Hf Hau H1 H2) as (? & _ & ?). }
  eapply (ended_in_step k k'); [done..|]. destruct Hk as [[-> [->|?]]|[-> _]]; eauto.
Qed.
End in_step.
Abbreviation in_step := (in_step_from 0).
