(* ===== verification/Silent.v ===== *)
(** * Stewards that never commit

    An election that is accepted counts as a success whoever it elects: when the elected
    stewards stay silent, the next election of the epoch is the same one again. *)

From S2P Require Import Prelude Time Machine Protos StewardList Mls Toy Buffer Queues Scoring CommitRound ApplyResult Config Display Conversation Room Voting Steward HandleOutcome Inbound Messaging Poll Quiet Agreement Merge Elections Succession InStep.

Section silent.
Context {HS : Hash} {OM : OpenMls} {OL : OpenMlsLaws} {PR : OpenMlsPeers} {PL : OpenMlsPeersLaws}.
Context {MR : OpenMlsMerge} {ML : OpenMlsMergeLaws}.
Context {CS : ConsensusLib} {CD : Codec} {CT : ConsensusTexts} {HI : HashIter}.
Context {St : Type} `{!PeerScoreStorage St}.
Abbreviation Conv := (Conversation St).
Abbreviation conv := (method Conv).
Implicit Types (c d : Conv).

(** Nothing an election is computed from has changed; the approved work may have, and
    with it who is about to be removed. *)
Record same_ballot c c' : Prop := {
  sb_stewards : c_stewards c' = c_stewards c;
  sb_members : members_of c' = members_of c;
  sb_epoch : mls_epoch c' = mls_epoch c;
  sb_joins : member_join_epoch (c_queues c') = member_join_epoch (c_queues c);
}.

Lemma same_ballot_pool c c' e : same_ballot c c' → candidate_pool c' e = candidate_pool c e.
Proof. intros [_ Hm _ Hj]. unfold candidate_pool, is_settled. by rewrite Hm, Hj. Qed.

Lemma calm_ballot c0 s c : calm_list c0 s c → same_ballot (c_set_stewards s c0) c.
Proof.
  intros [[_ _ Hj _ _ _ _ _ [Hm He] _] Hs].
  split; [done| | |done]; unfold members_of, mls_members, mls_epoch; cbn; congruence.
Qed.

(** *** The accepted election *)

(** It is installed, and what follows leaves the ballot alone. *)
Lemma accepted_ballot e c :
  cfg_wf (svc_config (c_stewards c)) → validate_election_list c e = Ok true →
  same_ballot (c_set_stewards (svc_set_list (mk_sl (proposed_stewards e) (svc_config (c_stewards c)) (el_election_epoch e)
    (el_retry_round e)) (c_stewards c)) c) (handle_election_accepted e c).1.
Proof.
  intros Hwf Hv. set (s := svc_set_list _ _). pose proof Hv as Hg. unfold validate_election_list, validate_proposed in Hg.
  eapply (validated_installs_verbatim _ _ _ _ _ (svc_config (c_stewards c))) in Hg; [|done..].
  unfold handle_election_accepted, sbind at 1. rewrite Hv. cbn [negb].
  unfold sbind at 1, on_stewards, szoom, install_list. rewrite Hg. fold s.
  match goal with |- same_ballot _ ((exit_recovery_mode ;! ?k) ?c1).1 =>
    change (same_ballot c1 (k (c_set_mode Normal c1)).1);
    assert (preserves (calm_list (c_set_mode Normal c1) s) k) as Hk end.
  { unfold resume_from_reelection, emit_phase_change, share_conversation_sync. quiet. }
  match goal with |- same_ballot ?c1 (?k ?c2).1 => pose proof (calm_ballot _ _ _ (Hk c2 (calm_list_refl c2))) as [] end.
  by split.
Qed.

(** *** The missed round *)

(** The election the member would propose now: its own, if the pool makes it the
    proposer. *)
Definition reopens (e : StewardElectionProposal) d : conv unit :=
  if has_election_in_flight (c_queues d) then sret tt
  else if bool_decide (responsible_proposer (c_stewards d) (el_retry_round e) (candidate_pool d (mls_epoch d))
      (λ id, negb (has_approved_removal (c_queues d) id)) = Some (c_self d))
  then initiate_proposal (steward_election_request e) CreatorYes
  else sret tt.

Lemma same_election e c d :
  cfg_wf (svc_config (c_stewards c)) → validate_election_list c e = Ok true →
  el_election_epoch e = mls_epoch c → el_retry_round e = next_election_round (c_stewards c) →
  same_ballot (handle_election_accepted e c).1 d →
  initiate_steward_election true d = reopens e d d.
Proof.
  intros Hwf Hv He Hr Hd. pose proof (accepted_ballot e c Hwf Hv) as Ha. set (c1 := (handle_election_accepted e c).1) in *.
  assert (c_stewards d = svc_set_list (mk_sl (proposed_stewards e) (svc_config (c_stewards c)) (el_election_epoch e)
    (el_retry_round e)) (c_stewards c)) as Hs by (rewrite (sb_stewards _ _ Hd), (sb_stewards _ _ Ha); done).
  assert (mls_epoch d = el_election_epoch e) as Hep by (rewrite (sb_epoch _ _ Hd), (sb_epoch _ _ Ha), He; done).
  assert (candidate_pool d (el_election_epoch e) = candidate_pool c (el_election_epoch e)) as Hpool
    by (rewrite (same_ballot_pool _ _ _ Hd), (same_ballot_pool _ _ _ Ha); done).
  unfold validate_election_list, validate_proposed in Hv. rewrite validate_iff_generate in Hv by done.
  destruct (generate _ _ _ _ _ _) as [l|] eqn:Hg; [|done]. injection Hv as Hl%bool_decide_eq_true.
  unfold initiate_steward_election, reopens, sbind at 1, sget. cbn [id]. rewrite Hep.
  destruct (has_election_in_flight _); [done|].
  assert (propose_election (c_stewards d) (el_election_epoch e) (candidate_pool d (el_election_epoch e)) (c_self d)
    (λ id, negb (has_approved_removal (c_queues d) id)) true =
    Ok (if bool_decide (responsible_proposer (c_stewards d) (el_retry_round e) (candidate_pool d (el_election_epoch e))
          (λ id, negb (has_approved_removal (c_queues d) id)) = Some (c_self d))
        then Proposed (proposed_stewards e) (el_election_epoch e) (el_retry_round e)
        else Skip NotResponsibleProposer)) as Hp.
  { rewrite Hpool. unfold propose_election. cbn [negb andb].
    destruct (candidate_pool c (el_election_epoch e)) as [|x0 xs] eqn:Ep; [by rewrite generate_eq in Hg|]. rewrite <-Ep in *.
    assert (next_election_round (c_stewards d) = el_retry_round e) as -> by (by rewrite Hs, Hr).
    destruct (bool_decide _); cbn [negb]; [|done]. rewrite Hs. cbn [svc_config svc_conversation_id svc_set_list].
    rewrite Hg. cbn [result_bind]. by rewrite Hl. }
  cbn [andb]. unfold sbind, slift. rewrite Hp. destruct (bool_decide _); [|done].
  by destruct e.
Qed.

(** Scoring a miss touches the scores and the events. *)
Definition but_scores c d : Prop :=
  c_queues d = c_queues c ∧ c_stewards d = c_stewards c ∧ c_mls d = c_mls c ∧ c_self d = c_self c ∧ c_sm d = c_sm c.
Lemma scores_only c ops : preserves (but_scores c) (apply_score_ops ops).
Proof.
  assert (∀ A (m : method (PeerScoringService St) A), preserves (but_scores c) (on_scoring m)) as Ho
    by (intros A m d Hd; unfold on_scoring, szoom; by destruct (m _)).
  assert (∀ ev, preserves (but_scores c) (emit_event ev)) as He by (intros; by apply preserves_modify).
  unfold apply_score_ops, emit_score_changes. quiet; auto.
Qed.

Lemma missed_reopens c c' :
  no_candidate false true c = (c', Ok Done) →
  ∃ d, current_state d = Reelection ∧ c_queues d = c_queues c ∧ c_stewards d = c_stewards c ∧ c_mls d = c_mls c ∧
    c_self d = c_self c ∧ c' = (attempt (initiate_steward_election true) d).1.
Proof.
  unfold no_candidate. rewrite sbind_ok. intros (c2 & ev & H & Hrest).
  rewrite sbind_ok in H. destruct H as (c1 & ev' & H1 & H). set (c0 := (start_reelection c).1) in *.
  assert (c1 = c0 ∧ ev' = Reelection) as [-> ->] by (subst c0; by injection H1 as <- <-).
  rewrite sbind_ok in H. destruct H as (c1 & target & [= <- <-] & H). rewrite sbind_ok in H. destruct H as (c1 & [] & Hs & [= <- <-]).
  assert (but_scores c0 c1) as Hb.
  { destruct (inactive_steward c0) as [id|]; [|by injection Hs as <-].
    pose proof (scores_only c0 [mk_score_op id CensorshipInactivity] c0) as Hp. rewrite Hs in Hp. by apply Hp. }
  destruct Hb as (B1 & B2 & B3 & B4 & B5).
  exists (emit_event (EvPhaseChange Reelection) c1).1. unfold current_state. cbn. rewrite B1, B2, B3, B4, B5. split_and!; try done.
  unfold sbind at 1 in Hrest. cbn in Hrest. unfold sbind in Hrest.
  rewrite bool_decide_true in Hrest by done. unfold emit_event, smodify in *. cbn in *.
  destruct (attempt (initiate_steward_election true) _) as [c4 [[]|e]]; [|done]. by injection Hrest as <-.
Qed.

(** C32: stewards that never commit are elected again and again. A member installs the
    election that the group accepted, one of its own epoch and retry round. Then, as
    long as no other election is decided and no commit lands, and whatever work is
    approved, the removal of those very stewards included: when the stewards miss the
    commit of the approved work, the responsible proposer opens the same election once
    more, the same stewards in the same order, for the same epoch and the same round,
    and every other member opens none. The miss leaves the silent list installed and the
    retry round where it was. *)
Theorem silent_stewards_elected_again e c c2 c3 :
  cfg_wf (svc_config (c_stewards c)) → validate_election_list c e = Ok true →
  el_election_epoch e = mls_epoch c → el_retry_round e = next_election_round (c_stewards c) →
  same_ballot (handle_election_accepted e c).1 c2 →
  no_candidate false true c2 = (c3, Ok Done) →
  (∃ d, current_state d = Reelection ∧ c_queues d = c_queues c2 ∧ c_stewards d = c_stewards c2 ∧ c_mls d = c_mls c2 ∧
     c_self d = c_self c2 ∧
     c3 = (attempt (
       if has_election_in_flight (c_queues c2) then sret tt
       else if bool_decide (responsible_proposer (c_stewards c2) (el_retry_round e) (candidate_pool c2 (mls_epoch c2))
           (λ id, negb (has_approved_removal (c_queues c2) id)) = Some (c_self c2))
       then initiate_proposal (steward_election_request e) CreatorYes
       else sret tt) d).1) ∧
  svc_list (c_stewards c3) =
    Some (mk_sl (proposed_stewards e) (svc_config (c_stewards c)) (el_election_epoch e) (el_retry_round e)) ∧
  next_election_round (c_stewards c3) = el_retry_round e.
Proof.
  intros Hwf Hv He Hr Hb (d & Hst & Hq & Hs & Hm & Hself & E)%missed_reopens.
  assert (same_ballot (handle_election_accepted e c).1 d) as Hbd.
  { destruct Hb as [B1 B2 B3 B4]. split; unfold members_of, mls_epoch in *; congruence. }
  pose proof (same_election e c d Hwf Hv He Hr Hbd) as Hel.
  assert (c_stewards c3 = c_stewards d) as Hs3.
  { assert (preserves (λ x : Conv, c_stewards x = c_stewards d) (attempt (initiate_steward_election true))) as Hp by quiet.
    rewrite E. by apply Hp. }
  split.
  - exists d. split_and!; try done. rewrite E. unfold attempt, scatch. rewrite Hel. unfold reopens, mls_epoch.
    assert (candidate_pool d (g_epoch (mls_group (c_mls d))) = candidate_pool c2 (g_epoch (mls_group (c_mls d)))) as ->
      by (unfold candidate_pool, members_of; by rewrite Hm, Hq).
    by rewrite Hq, Hs, Hself, Hm.
  - pose proof (accepted_ballot e c Hwf Hv) as Ha. rewrite Hs3, (sb_stewards _ _ Hbd), (sb_stewards _ _ Ha). by split.
Qed.
End silent.

(** ** At a concrete input *)

#[local] Existing Instances example_hash toy_mls toy_laws canonical_hash_iter toy_consensus toy_texts toy_codec
  toy_peers toy_peers_laws.

(** Leaf 1 of the room, waiting for an election of one steward. Leaf 0 is elected, and
    never commits; its own removal is approved. *)
Definition silent_parked : Room :=
  conversation_new "g" (queues_new "g" 8) (view 1) room_scores (set_config (mk_slc 1 1 false) room_stewards)
    (mk_engine ∅ 7) (mk_sm Reelection) config_default (duration_from_secs 1000) (member_id_of 1) [xaa].
Definition silent_election : StewardElectionProposal := mk_election [member_id_of 0] 3 0.
Definition silent_installed : Room := (handle_election_accepted silent_election silent_parked).1.
Definition silent_missing : Room :=
  c_set_queues (insert_approved_proposal 5 (remove_member_request (member_id_of 0)) (c_queues silent_installed)) silent_installed.

Lemma silent_stewards_elected_again_witness :
  ∃ c3 d : Room, no_candidate false true silent_missing = (c3, Ok Done) ∧ current_state d = Reelection ∧
    c3 = (attempt (initiate_proposal (steward_election_request silent_election) CreatorYes) d).1 ∧
    has_election_in_flight (c_queues c3) = true ∧ next_election_round (c_stewards c3) = 0%N.
Proof.
  assert (cfg_wf (svc_config (c_stewards silent_parked))) as Hwf by (by split).
  assert (validate_election_list silent_parked silent_election = Ok true) as Hv by (by vm_compute).
  assert (same_ballot silent_installed silent_missing) as Hb by (clear; split; reflexivity).
  destruct (no_candidate false true silent_missing) as [c3 r] eqn:E.
  pose proof (f_equal snd E) as Hr. vm_compute in Hr. subst r.
  destruct (silent_stewards_elected_again silent_election silent_parked silent_missing c3 Hwf Hv eq_refl eq_refl Hb E)
    as ((d & Hs & _ & _ & _ & _ & Hc) & _ & Hn).
  assert (has_election_in_flight (c_queues c3) = true) as Hf.
  { change c3 with (c3, @Ok ConversationError _ Done).1. rewrite <-E. clear. by vm_compute. }
  exists c3, d. split; [reflexivity|]. split; [exact Hs|]. split; [exact Hc|]. split; [exact Hf|exact Hn].
Defined.
