(* ===== verification/Lone.v ===== *)
(** * A round with one candidate, put up by one of two members

    Two members in step hold one candidate, which the first of them built: its own to
    it, a received one to the other. The author merges it unchecked
    ([apply_local_candidate]), the other only if it makes exactly the voted changes
    ([apply_incoming_candidate]). When it does, both are in step again one epoch on. *)

From S2P Require Import Prelude Time Machine Protos StewardList Mls Toy Buffer Queues Scoring CommitRound ApplyResult Config Display Conversation Room Voting Steward HandleOutcome Inbound Messaging Poll System Quiet Candidate Agreement Merge Wakeup Landing Succession InStep.

(** The commit [a] makes the voted changes and no others. *)
Definition makes_voted {HS : Hash} {OM : OpenMls} (q : ConversationQueues) (a : StagedCommit) : Prop :=
  ∀ act, act ∈ voted_actions q ↔ act ∈ action_projection_from_mls <$> staged_actions a.

Section lone.
Context {HS : Hash} {OM : OpenMls} {OL : OpenMlsLaws} {PR : OpenMlsPeers} {PL : OpenMlsPeersLaws}.
Context {MR : OpenMlsMerge} {ML : OpenMlsMergeLaws}.

Lemma makes_voted_perm q1 q2 a :
  approved_proposals q1 ≡ₚ approved_proposals q2 → makes_voted q1 a ↔ makes_voted q2 a.
Proof. intros Hq. unfold makes_voted. by setoid_rewrite (voted_actions_perm _ _ Hq). Qed.

(** ** The other member reads it *)

(** The action check of the other member is about the author's pending commit. *)
Lemma staged_check i j g1 a c x st s sender sr acts :
  own_candidate_of i g1 c → g_pending_commit g1 = Some a → peers i j g1 (mls_group st.2) →
  stage_candidate (candidate_msg c) x st = (s, Ok (StStaged sender sr acts)) →
  validate_commit_candidate st.1 sender acts x = None ↔ makes_voted st.1 a.
Proof.
  destruct st as [q mls]. intros Hc Ha Hg (_ & _ & Hst)%stage_candidate_staged.
  destruct (hears_commit_staged _ _ _ _ _ _ _ _ _ Hc Hg Hst) as [_ (a' & b & Ha' & _ & Hab & ->)].
  rewrite Ha in Ha'. injection Ha' as <-. by rewrite <-(staged_actions_same _ _ Hab), validate_none_iff.
Qed.

(** It drops another commit, whether or not it can read it. *)
Lemma other_refused i j sl x c g1 a st t o :
  own_candidate_of i g1 c → g_pending_commit g1 = Some a → peers i j g1 (mls_group st.2) → ¬ makes_voted st.1 a →
  is_local_candidate c = false → apply_one sl c x st = (t, Ok o) →
  ∃ op, o = Drop op ∧ dropped_all sl x [c] st t (option_list op).
Proof.
  intros Hc Ha Hg Hno Hl Hone. pose proof Hone as H. unfold apply_one in H. rewrite Hl in H.
  apply apply_incoming_verdict in H as (s1 & staging & Hst & Hq & Hr).
  assert (∃ p, refusal sl st.1 x staging = Some p) as (p & Hp).
  { destruct staging as [sender sr acts| |v]; cbn; eauto. destruct (check_commit_sender_authorized _ _ _); [eauto|].
    destruct (validate_commit_candidate st.1 sender acts x) as [v|] eqn:Hv; [cbn; eauto|].
    by eapply staged_check in Hv. }
  rewrite Hp in Hr. pose proof (reject_staged_drop _ _ _ _ Hr) as (-> & _). exists p. split; [done|].
  rewrite <-(app_nil_r (option_list p)). econstructor; [exact Hone|constructor].
Qed.

(** It merges the voted changes, when it can read the commit and lets the author make
    one. *)
Lemma voted_merged i j sl x c g1 a st t o s sender sr acts :
  own_candidate_of i g1 c → g_pending_commit g1 = Some a → peers i j g1 (mls_group st.2) → makes_voted st.1 a →
  is_local_candidate c = false → stage_candidate (candidate_msg c) x st = (s, Ok (StStaged sender sr acts)) →
  authorized sl (steward_member_id (candidate_msg c)) x →
  apply_one sl c x st = (t, Ok o) → ∃ out com b, o = Terminal out com b.
Proof.
  intros Hc Ha Hg Hall Hl Hst Hau Hone. unfold apply_one in Hone. rewrite Hl in Hone.
  apply apply_incoming_verdict in Hone as (s1 & staging & Hst' & _ & Hr).
  rewrite Hst in Hst'. injection Hst' as <- <-. cbn [refusal] in Hr.
  assert (steward_member_id (candidate_msg c) = sender) as E by (destruct st; by apply stage_candidate_staged in Hst as (_ & ? & _)).
  rewrite E in Hau. apply check_authorized_iff in Hau. rewrite Hau in Hr.
  eapply staged_check in Hst as Hv; [|done..]. apply Hv in Hall. rewrite Hall in Hr.
  destruct Hr as (out & b & ->). eauto.
Qed.

(** ** The round *)

Context {CS : ConsensusLib} {CD : Codec} {CT : ConsensusTexts} {HI : HashIter}.
Context {St : Type} `{!PeerScoreStorage St, !ScoreWritesSucceed St}.
Implicit Types (c : Conversation St).

(** The round of both holds only the candidate [own] of the first, with its pending
    commit [a], which the second holds as [copy]. *)
Record lone_round (i : N) c1 c2 (own copy : BufferedCommitCandidate) (mls' : MlsService) (d : MembershipDelta)
    (a : StagedCommit) : Prop := {
  lr_own : own_round (subset_allowed c1) c1 own mls' d;
  lr_author : own_candidate_of i (mls_group (c_mls c1)) own;
  lr_commit : g_pending_commit (mls_group (c_mls c1)) = Some a;
  lr_held : round_candidates (round_state c2) = [copy];
  lr_same : same_candidate own copy;
  lr_copy : is_local_candidate copy = false;
}.

(** The other member can read the candidate and lets its author commit. *)
Definition reads_lone c (copy : BufferedCommitCandidate) : Prop :=
  let x := round_context (c_stewards c) (is_in_recovery_mode c) (c_self c) (round_state c) in
  authorized (c_stewards c) (steward_member_id (candidate_msg copy)) x ∧
  ∃ s sender sr acts, stage_candidate (candidate_msg copy) x (taken (round_state c)) = (s, Ok (StStaged sender sr acts)).

Lemma lone_author c own mls' d :
  own_round (subset_allowed c) c own mls' d →
  ∃ t batch ops, finishes c t (mk_round_result (Applied ConversationUpdated (own_welcome own)) ops batch) ∧
    t.2 = mls' ∧ approved_proposals t.1 = [].
Proof.
  intros Hr. destruct (finalize_own _ _ _ _ _ Hr) as (q' & batch & ops & E & Ha & _). exists (q', mls'), batch, ops.
  split; [|done]. split; [|done]. unfold conv_finalize_commit_round, sbind, sget, on_round in E. cbn [id] in E.
  fold (round_state c) in E. destruct (finalize_commit_round _ _ _ _ _) as [[q m] r].
  injection E as Eq Em Er. congruence.
Qed.

Lemma lone_candidates allow c own mls' d :
  own_round allow c own mls' d → round_candidates (round_state c) = [own].
Proof.
  intros Hr. unfold round_candidates, buffer_take, round_state. cbn [fst snd]. rewrite (or_round _ _ _ _ _ Hr).
  unfold mls_epoch. by rewrite N.eqb_refl.
Qed.

Lemma lone_ranked allow c own x y :
  applicable allow c own → n_proposals y = n_proposals own → mls_count x = voted_count c →
  rank_applicable_candidates [y] x allow = [y].
Proof.
  intros Hw Hn Hx. unfold rank_applicable_candidates. rewrite filterb_all; [done|]. intros z ->%list_elem_of_singleton.
  rewrite Hn, Hx. unfold applicable in Hw. destruct allow; [by apply N.leb_le|by apply N.eqb_eq].
Qed.

Lemma author_terminal c own mls' d t r :
  own_round (subset_allowed c) c own mls' d → finishes c t r →
  let x := round_context (c_stewards c) (is_in_recovery_mode c) (c_self c) (round_state c) in
  ∃ com, apply_one (c_stewards c) own x (taken (round_state c)) = (t, Ok (Terminal (rr_outcome r) com (committed_batch r))).
Proof.
  intros Hr [H _] x. rewrite finalize_as_loop, (lone_candidates _ _ _ _ _ Hr) in H. fold x in H.
  rewrite (lone_ranked _ c own) in H; [|apply Hr|done|done].
  cbn [apply_loop] in H. rewrite sbind_ok in H. destruct H as (s & o & Ho & H). destruct o as [out com b|op].
  - injection H as <- <-. by exists com.
  - unfold apply_one in Ho. rewrite (or_local _ _ _ _ _ Hr) in Ho. by apply local_never_dropped in Ho.
Qed.

(** What the other member makes of the round. *)
Lemma lone_other k i j c1 c2 own copy mls' d a t2 r2 :
  in_step_from k i j c1 c2 → lone_round i c1 c2 own copy mls' d a → finishes c2 t2 r2 →
  let x := round_context (c_stewards c2) (is_in_recovery_mode c2) (c_self c2) (round_state c2) in
  ∃ s o, apply_one (c_stewards c2) copy x (taken (round_state c2)) = (s, Ok o) ∧
    match o with
    | Terminal out com b => t2 = s ∧ rr_outcome r2 = out ∧ committed_batch r2 = b
    | Drop op => rr_outcome r2 = NoCandidate ∧ with_mls discard_own_commit s = (t2, Ok tt)
    end.
Proof.
  intros Hi [Hown _ _ Hheld Hsame _] [H2 _] x. rewrite finalize_as_loop, Hheld in H2. fold x in H2.
  assert (subset_allowed c2 = subset_allowed c1) as Hs
    by (unfold subset_allowed, is_in_recovery_mode; by rewrite (is_stewards _ _ _ _ _ Hi), (is_mode _ _ _ _ _ Hi)).
  rewrite Hs, (lone_ranked _ c1 own) in H2; [|apply Hown|unfold n_proposals; by rewrite (proj1 Hsame)|].
  2: { pose proof (is_together _ _ _ _ _ Hi) as [_ _ [Ha _ _ _]]. cbn in Ha. unfold x, round_context, snapshot, voted_count. cbn.
    unfold len, im_values. f_equal. by rewrite (filterb_perm _ _ _ (fmap_Permutation snd _ _ Ha)). }
  cbn [apply_loop] in H2. rewrite sbind_ok in H2. destruct H2 as (s & o & Ho & H2).
  exists s, o. split; [done|]. destruct o as [out com b|op].
  - by injection H2 as <- <-.
  - by apply discard_and_finish_eq in H2 as [-> H2].
Qed.

Lemma select_epoch c0 c : calm c0 c → mls_epoch c = mls_epoch c0 ∧ members_of c = members_of c0.
Proof. intros H. destruct (cm_public _ _ H) as [Hm He]. split; [done|]. unfold members_of, mls_members. by rewrite Hm. Qed.

(** The author works one epoch on, with the approved work done. *)
Lemma author_lands c own mls' d :
  own_round (subset_allowed c) c own mls' d →
  let c' := (select_round (is_in_recovery_mode c) c).1 in
  mls_epoch c' = g_epoch (mls_group mls') ∧ members_of c' = mls_members mls' ∧ approved_proposals (c_queues c') = [].
Proof.
  intros (t & batch & ops & Hf & <- & Hq)%lone_author. cbn zeta. rewrite (select_finishes _ _ _ Hf).
  match goal with |- mls_epoch (conclude_round ?rec ?has ?r ?c).1 = _ ∧ _ =>
    destruct (conclude_applied rec has r (own_welcome own) c eq_refl) as (Hcalm & _ & _) end.
  destruct (select_epoch _ _ Hcalm) as [-> ->]. rewrite (cm_approved _ _ Hcalm). by destruct (is_in_recovery_mode c).
Qed.

Lemma in_step_approved k i j c1 c2 : in_step_from k i j c1 c2 → approved_proposals (c_queues c1) ≡ₚ approved_proposals (c_queues c2).
Proof. intros H. exact (sw_approved _ _ _ _ (tg_work _ _ _ _ _ (is_together _ _ _ _ _ H))). Qed.

(** The voted changes land for both. *)
Lemma lone_in_step k i j c1 c2 own copy mls' d a t2 r2 :
  in_step_from k i j c1 c2 → (k = 0 ∨ k + mls_epoch c1 ≤ g_epoch (mls_group mls'))%N →
  lone_round i c1 c2 own copy mls' d a → makes_voted (c_queues c1) a →
  reads_lone c2 copy → finishes c2 t2 r2 →
  in_step i j (select_round (is_in_recovery_mode c1) c1).1 (select_round (is_in_recovery_mode c2) c2).1.
Proof.
  intros Hi Hk Hl Hv [Hau (s0 & sd & sr & acts & Hst)] H2.
  destruct (lone_other _ _ _ _ _ _ _ _ _ _ _ _ Hi Hl H2) as (s & o & Ho & Hr). cbn zeta in Ho.
  destruct (lone_author _ _ _ _ (lr_own _ _ _ _ _ _ _ _ Hl)) as (t1 & batch & ops & H1 & Et & _).
  pose proof Hl as [Hown Hauth Hp _ Hsame Hloc]. pose proof (is_together _ _ _ _ _ Hi) as Ht.
  pose proof Ht as [[Hg _] _ [Hap _ _ _]]. cbn [round_state fst snd] in Hg, Hap.
  assert (own_candidate_of i (mls_group (c_mls c1)) copy) as Hcopy by (unfold own_candidate_of; by rewrite <-(proj1 Hsame)).
  assert (makes_voted (taken (round_state c2)).1 a) as Hv2 by by apply (makes_voted_perm (c_queues c1)).
  destruct (voted_merged i j _ _ copy _ a (taken (round_state c2)) _ _ _ _ _ _ Hcopy Hp Hg Hv2 Hloc Hst Hau Ho) as (out & com & b & ->).
  destruct Hr as (-> & <- & <-). destruct (author_terminal _ _ _ _ _ _ Hown H1) as (com1 & Ho1). cbn zeta in Ho1.
  rewrite (is_stewards _ _ _ _ _ Hi) in Ho1.
  rewrite <-Et in Hk.
  assert (k ≤ 0 ∨ k + g_epoch (mls_group (taken (round_state c1)).2) ≤ 0 + g_epoch (mls_group t1.2))%N as Hk'
    by (destruct Hk as [->|?]; [by left|by right]).
  assert (together_from k i j (taken (round_state c1)) (taken (round_state c2))) as Ht'
    by (destruct Ht as [? ? []]; split; [done..|by split]).
  assert (authored i j (taken (round_state c1)) (taken (round_state c2)) own copy) as Hw
    by (right; left; split_and!; [apply (or_local _ _ _ _ _ Hown)|done..]).
  pose proof (λ Hx, terminals_together k 0 i j _ _ _ _ _ _ _ _ _ _ _ _ _ _ _ Ht' Hk' Hsame Hw Hx Ho1 Ho) as Hend.
  destruct Hend as (Ht2 & _ & He); [by apply (peers_epoch i j)|].
  by apply (ended_in_step k 0 i j c1 c2 t1 s _ r2 Hi H1 H2 Ht2); right.
Qed.

(** Any other commit lands for its author alone. *)
Lemma lone_stays k i j c1 c2 own copy mls' d a t2 r2 :
  in_step_from k i j c1 c2 → lone_round i c1 c2 own copy mls' d a → ¬ makes_voted (c_queues c1) a → finishes c2 t2 r2 →
  let c' := (select_round (is_in_recovery_mode c2) c2).1 in
  mls_epoch c' = mls_epoch c2 ∧ members_of c' = members_of c2 ∧
  approved_proposals (c_queues c') = approved_proposals (c_queues c2).
Proof.
  intros Hi Hl Hno H2. destruct (lone_other _ _ _ _ _ _ _ _ _ _ _ _ Hi Hl H2) as (s & o & Ho & Hr). cbn zeta in *.
  rewrite (select_finishes _ _ _ H2). destruct H2 as [H2 _]. pose proof Hl as [_ _ Hp _ Hsame Hloc].
  pose proof (is_together _ _ _ _ _ Hi) as [[Hg _] _ [Hap _ _ _]]. cbn [round_state fst snd] in Hg, Hap.
  assert (own_candidate_of i (mls_group (c_mls c1)) copy) as Hcopy
    by (unfold own_candidate_of; rewrite <-(proj1 Hsame); apply Hl).
  assert (¬ makes_voted (taken (round_state c2)).1 a) as Hno2 by (intros H; by apply Hno, (makes_voted_perm _ _ _ Hap)).
  destruct (other_refused i j _ _ copy _ a (taken (round_state c2)) _ _ Hcopy Hp Hg Hno2 Hloc Ho) as (op & -> & Hd).
  destruct Hr as [Ho' Hdis]. apply dropped_keeps in Hd as ([[Hm He] _] & _ & Hq).
  assert (same_public (mls_group (c_mls c2)) (mls_group t2.2) ∧ approved_proposals t2.1 = approved_proposals (c_queues c2)) as [[Hm2 He2] Hq2].
  { destruct s as [q m]. unfold with_mls in Hdis. destruct (discard_own_commit m) as [m' [[]|e]] eqn:E; [|done]. injection Hdis as <-.
    apply discard_own_public in E as [E1 E2]. cbn in *. split; [split; congruence|by rewrite Hq]. }
  match goal with |- mls_epoch (conclude_round ?rec ?has ?r ?c).1 = _ ∧ _ =>
    destruct (conclude_missed rec has r c Ho') as [Hcalm _] end.
  destruct (select_epoch _ _ Hcalm) as [-> ->]. rewrite (cm_approved _ _ Hcalm).
  destruct t2 as [q2 m2]. cbn [fst snd] in *. unfold missed.
  destruct (is_in_recovery_mode c2), (0 <? _)%N; try destruct (_ && _);
    (split; [exact He2|split; [unfold members_of, mls_members; by f_equal|exact Hq2]]).
Qed.
End lone.
