(* ===== verification/Steps.v ===== *)
(** * Two members never fork

    On top of [InStep]: what a member does by itself, what two members read alike,
    what a resolved proposal makes of both. A [life] is what one member goes through,
    alone but for the moments it shares with the other; two members with the same
    moments end in step. *)

From S2P Require Import Prelude Time Machine Protos StewardList Mls Toy Buffer Queues Scoring CommitRound ApplyResult Config Display Conversation Room Voting Steward HandleOutcome Inbound Messaging Poll System Quiet Candidate Agreement Merge Wakeup Landing Succession InStep Lone.

Section steps.
Context {HS : Hash} {OM : OpenMls} {OL : OpenMlsLaws} {PR : OpenMlsPeers} {PL : OpenMlsPeersLaws}.
Context {MR : OpenMlsMerge} {ML : OpenMlsMergeLaws}.
Context {CS : ConsensusLib} {CD : Codec} {CT : ConsensusTexts} {HI : HashIter}.
Context {St : Type} `{!PeerScoreStorage St}.
Abbreviation Conv := (Conversation St).
Abbreviation conv := (method Conv).
Implicit Types (c : Conv).

(** ** Alone *)

(** The engine of a member that only proposes and sends. *)
Record mls_calm (s0 s : MlsService) : Prop := {
  mc_slot : pending_staged_commit s = pending_staged_commit s0;
  mc_public : same_public (mls_group s0) (mls_group s);
  mc_peers : ∀ i j g, peers i j g (mls_group s0) → peers i j g (mls_group s);
}.

Lemma mls_calm_on_group {A} s0 boxed (f : group_call MlsGroup A) :
  (∀ g, same_public g (f g).1) → (∀ i j g0 g, peers i j g0 g → peers i j g0 (f g).1) →
  preserves (mls_calm s0) (on_group boxed f).
Proof.
  intros Hf Hp s [H1 [H2 H3] H4]. unfold on_group. specialize (Hf (mls_group s)) as [H5 H6].
  pose proof (λ i j g0, Hp i j g0 (mls_group s)) as Hp'. destruct (f (mls_group s)) as [g r]. cbn in *.
  split; [done|split; cbn; congruence|cbn; auto].
Qed.

Lemma propose_calm s0 us acc : preserves (mls_calm s0) (propose_updates us acc).
Proof.
  revert acc. induction us as [|u us IH]; intros acc; [apply preserves_ret|]. cbn.
  apply preserves_bind; [|intros b; apply IH]. destruct u as [kp|id]; cbn.
  - apply preserves_bind; [apply preserves_lift|]. intros k.
    apply preserves_bind; [apply mls_calm_on_group; [intros; apply add_public|intros; by apply peers_add]|].
    intros out. apply preserves_bind; [apply preserves_lift|intros; apply preserves_ret].
  - apply preserves_bind; [apply preserves_get|]. intros s. destruct (leaf_index_of id) as [n|]; [|apply preserves_ret].
    case_decide; [|apply preserves_ret].
    apply preserves_bind; [apply mls_calm_on_group; [intros; apply remove_public|intros; by apply peers_remove]|].
    intros out. apply preserves_bind; [apply preserves_lift|intros; apply preserves_ret].
Qed.
Lemma create_commit_calm s0 us : preserves (mls_calm s0) (create_commit_candidate us).
Proof.
  unfold create_commit_candidate. apply preserves_bind; [apply propose_calm|]. intros ps.
  apply preserves_bind; [apply mls_calm_on_group; [intros; apply commit_public|intros; by apply peers_commit]|].
  intros [m w]. apply preserves_bind; [apply preserves_lift|]. intros ?.
  apply preserves_bind; [apply preserves_lift|intros; apply preserves_ret].
Qed.

Section alone.
Variables (c0 : Conv) (s0 : StewardListService).
Abbreviation alone m := (preserves (calm_list c0 s0) m).

Lemma alone_read {A} (f : Conv → result ConversationError A) : alone (λ c, (c, f c)).
Proof. by intros c Hc. Qed.
Lemma alone_pending req e : alone (on_queues (insert_pending_update req e)).
Proof. apply still_on_queues; [apply _|]. intros q. unfold insert_pending_update. by repeat case_match. Qed.
Lemma alone_mls {A} (m : mls_method A) : (∀ s, preserves (mls_calm s) m) → alone (on_mls m).
Proof.
  intros Hm c [Hc Hs]. specialize (Hm (c_mls c) (c_mls c)). unfold on_mls.
  destruct (m (c_mls c)) as [s r]. destruct Hm as [H1 H2 H3]; [by repeat split|].
  split; [|done]. eapply calm_trans; [exact Hc|]. by split.
Qed.
Lemma alone_queues q c :
  approved_proposals q = approved_proposals (c_queues c) → urgent_commit_target q = urgent_commit_target (c_queues c) →
  member_join_epoch q = member_join_epoch (c_queues c) → calm_list c0 s0 c → calm_list c0 s0 (c_set_queues q c).
Proof. intros Ha Hu Hj [[A U J I M R L S P G] Hs]. split; [|done]. split; cbn; congruence || done. Qed.
Lemma alone_set_round f : alone (edit_queues (λ q, set_round (f q) q)).
Proof. apply preserves_modify. intros c. by apply alone_queues. Qed.
Lemma alone_take_timing f : alone (edit_timing f).
Proof. apply still_edit_timing, _. Qed.

#[local] Hint Resolve alone_mls alone_set_round create_commit_calm : quiet.

Lemma alone_mint : alone mint_and_broadcast_candidate.
Proof. unfold mint_and_broadcast_candidate, build_local_candidate. quiet. Qed.
Lemma alone_freeze ev : alone (on_freeze_entered ev).
Proof. pose proof alone_mint. unfold on_freeze_entered. quiet. Qed.
#[local] Hint Resolve alone_mint alone_freeze : quiet.

Lemma alone_engine {A} (m : engine_call Engine A) c c' r :
  engine m c = (c', r) → calm_list c0 s0 c → calm_list c0 s0 c'.
Proof.
  intros E Hc. pose proof (quiet_on_engine (calm_list c0 s0) m c Hc) as H. unfold on_engine in H. by rewrite E in H.
Qed.
Lemma alone_leave : alone leave.
Proof.
  unfold leave, initiate_self_leave, submit_self_leave_proposal. quiet.
  intros c Hc. destruct (engine _ c) as [c1 r] eqn:E. apply (alone_engine _ _ _ _ E) in Hc. by repeat case_match.
Qed.
Lemma alone_timeout pid : alone (resolve_on_timeout pid).
Proof.
  unfold resolve_on_timeout. apply preserves_bind; [apply preserves_get|]. intros a. case_match; [apply preserves_ret|].
  intros c Hc. destruct (engine _ c) as [c1 r] eqn:E. by apply (alone_engine _ _ _ _ E) in Hc.
Qed.
Lemma alone_vote pid v : alone (broadcast_vote pid v).
Proof. unfold broadcast_vote. quiet. Qed.
#[local] Hint Resolve alone_leave alone_timeout alone_vote : quiet.

Lemma alone_add kp v : alone (propose_add kp v).
Proof. unfold propose_add. quiet. Qed.
Lemma alone_share : alone share_conversation_sync.
Proof. unfold share_conversation_sync. quiet. Qed.
Lemma alone_auto : alone maybe_auto_commit_recovery.
Proof. unfold maybe_auto_commit_recovery. quiet. Qed.
Lemma alone_receive mls msg : alone (on_queues (receive_commit_candidate mls msg)).
Proof.
  intros c Hc. unfold on_queues. destruct (receive_eq mls msg (c_queues c)) as [[_ ->]|[_ (reason & -> & _)]].
  - destruct (_ =? 0)%N; [|destruct (buffer_add _ _ _ _ _ _ _); by apply alone_queues].
    unfold stash_early_candidate. by destruct (_ || _); apply alone_queues.
  - by apply alone_queues.
Qed.
End alone.

(** The calls of the interface and the drives of a poll that a member makes by itself:
    what it sends, proposes, votes for, and the candidates it builds. *)
Inductive own_call : ∀ A, conv A → Prop :=
  | own_send b : own_call _ (send_message b)
  | own_request_sync : own_call _ request_conversation_sync
  | own_share_sync : own_call _ share_conversation_sync
  | own_add kp : own_call _ (conv_add_member kp)
  | own_sponsor kp : own_call _ (sponsor_member kp)
  | own_remove id : own_call _ (conv_remove_member id)
  | own_propose req v : own_call _ (initiate_proposal req v)
  | own_score_removal target : own_call _ (propose_score_removal target)
  | own_request_recovery : own_call _ request_recovery
  | own_vote pid v : own_call _ (conv_vote pid v)
  | own_leave : own_call _ leave
  | own_commit : own_call _ commit_in_recovery
  | own_resend : own_call _ resend_commit
  | own_deadlines : own_call _ (tick_deadlines 0)
  | own_auto_commit : own_call _ maybe_auto_commit_recovery
  | own_drive_proposals : own_call _ drive_buffered_proposals
  | own_drive_resend : own_call _ drive_sync_resend
  | own_drive_request : own_call _ drive_sync_request
  | own_drive_freeze : own_call _ start_freeze_on_inactivity.

(** A payload in clear: another member's candidate or welcome. *)
Definition in_clear (payload : bytes) : Prop :=
  ∃ m, decode_app_message payload = Ok (mk_app_message (Some m)) ∧
    ((∃ candidate, m = AppCommitCandidate candidate) ∨ ∃ welcome, m = AppMemberWelcome welcome).

(** A poll has no round to select yet. *)
Definition waits c : Prop :=
  current_state c = Freezing →
  let rec := is_in_recovery_mode c in
  let c1 := if rec then (maybe_auto_commit_recovery c).1 else c in
  all_candidates_in rec c1 = false ∧ window_elapsed rec c1 = false.

(** An outcome handled before, or one whose proposal the member cannot read. *)
Definition unheeded c (ev : ConsensusEvent) : Prop :=
  let pid := (outcome_fields ev).1.1 in
  is_consensus_outcome_applied (c_queues c) pid = false →
  ∀ p, get_proposal (c_id c) pid (c_engine c) = Ok p → ∃ e, decode_request (prop_payload p) = Err e.

(** A parked re-election has been silent for its window. *)
Definition retry_due c : bool :=
  bool_decide (current_state c = Reelection) && negb (has_election_in_flight (c_queues c)) &&
  is_some_and (reelection_silence_anchor (c_timing c)) (λ anchor,
    negb (ts_ltb (timestamp c) (ts_add anchor (retry_window (c_config c))))).

#[local] Instance waits_dec c : Decision (waits c).
Proof. unfold waits. apply _. Defined.

Inductive own_step : Conv → Conv → Prop :=
  | own_step_call A (m : conv A) c : own_call A m → own_step c (m c).1
  | own_step_clock c now : (c_now c ≤ now)%N → own_step c (tick_clock now c)
  | own_step_events c : own_step c (drain_events c).1
  | own_step_outbound c : own_step c (drain_outbound c).1
  | own_step_clear sender payload c : in_clear payload → own_step c (process_inbound sender payload c).1
  | own_step_waits c : waits c → own_step c (advance_freezing c).1
  | own_step_silent c : retry_due c = false → own_step c (drive_reelection_retry c).1
  | own_step_takes c ev bus : c_bus c = ev :: bus → own_step c (c_set_bus bus c)
  | own_step_unheeded c ev : unheeded c ev → own_step c (handle_consensus_outcome ev c).1.

#[local] Hint Resolve alone_mint alone_freeze alone_leave alone_timeout alone_vote alone_add alone_share alone_auto alone_receive alone_read alone_pending : quiet.

Lemma own_call_alone c0 s0 A (m : conv A) : own_call A m → preserves (calm_list c0 s0) m.
Proof.
  destruct 1.
  all: unfold send_message, request_conversation_sync, conv_add_member, sponsor_member, conv_remove_member,
    propose_score_removal, conv_vote, commit_in_recovery, resend_commit, tick_deadlines, drain_outcomes,
    drive_buffered_proposals, drain_buffered_updates, drive_sync_resend, drive_sync_request, start_freeze_on_inactivity,
    request_conversation_sync, check_steward_inactivity, cancel_auto_vote.
  all: quiet.
Qed.

Lemma plain_decode payload c0 s0 : in_clear payload → preserves (calm_list c0 s0) (decode_inbound payload).
Proof.
  intros (m & Hd & Hm) c Hc. unfold decode_inbound, on_round, decode_inbound_payload. rewrite Hd.
  destruct Hm as [[msg ->]|[w ->]].
  - unfold sbind, sget, with_queues. cbn [snd]. pose proof (alone_receive c0 s0 (c_mls c) msg c Hc) as H.
    unfold on_queues in H. destruct (receive_commit_candidate _ _ _). by destruct c.
  - destruct (bool_decide (welcome_bytes w = [])); [by destruct c|]. unfold sbind, with_queues, record_welcome_broadcast.
    destruct (bs_insert _ _) as [b fresh]. apply (alone_queues c0 s0 (set_welcomes b (c_queues c))) in Hc; [|done..].
    by destruct fresh, c.
Qed.

(** What a clear payload leads to. *)
Definition clear_result (r : ProcessResult) : Prop :=
  match r with Noop _ | CommitCandidateReceived _ | WelcomeBroadcastReceived _ => True | _ => False end.
Lemma clear_decodes payload st r : in_clear payload → (decode_inbound_payload payload st).2 = Ok r → clear_result r.
Proof.
  intros (m & Hd & Hm). unfold decode_inbound_payload. rewrite Hd. destruct st as [q mls].
  destruct Hm as [[msg ->]|[w ->]]; unfold sbind, sget, with_queues; cbn [fst snd].
  - destruct (receive_eq mls msg q) as [[_ ->]|[_ (reason & -> & _)]]; [|by intros [= <-]].
    destruct (_ =? 0)%N; [by intros [= <-]|]. destruct (buffer_add _ _ _ _ _ _ _) as [b []]; by intros [= <-].
  - destruct (bool_decide (welcome_bytes w = [])); [by intros [= <-]|]. destruct (record_welcome_broadcast _ _) as [q' []]; by intros [= <-].
Qed.

Lemma alone_candidate c0 s0 steward : preserves (calm_list c0 s0) (on_commit_candidate_received steward).
Proof. unfold on_commit_candidate_received. quiet. Qed.
Lemma alone_proposal c0 s0 p : preserves (calm_list c0 s0) (on_incoming_proposal p).
Proof.
  unfold on_incoming_proposal, take_incoming, mirror_incoming, schedule_incoming. quiet.
  unfold submit_incoming. quiet.
  intros c Hc. destruct (engine _ c) as [c1 [[]|e]] eqn:E; apply (alone_engine _ _ _ _ _ _ E) in Hc; [done|].
  match goal with |- calm_list _ _ (?m c1).1 => assert (preserves (calm_list c0 s0) m) as Hm by quiet end. by apply Hm.
Qed.
Lemma alone_forward c0 s0 v : preserves (calm_list c0 s0) (forward_incoming_vote v).
Proof.
  intros c Hc. unfold forward_incoming_vote.
  destruct (engine _ c) as [c1 [[]|e]] eqn:E; apply (alone_engine _ _ _ _ _ _ E) in Hc; [done|]. by destruct e.
Qed.
Lemma alone_request c0 s0 req : preserves (calm_list c0 s0) (handle_incoming_update_request req).
Proof. unfold handle_incoming_update_request. quiet. Qed.
Lemma alone_sync_request c0 s0 r : preserves (calm_list c0 s0) (on_conversation_sync_request r).
Proof. unfold on_conversation_sync_request. quiet. Qed.
#[local] Hint Resolve alone_candidate alone_proposal alone_forward alone_request alone_sync_request : quiet.

(** Handling whatever was decoded, a steward-list synchronisation apart: that one and
    the end of a round are not a member's own. *)
Definition own_result (r : ProcessResult) : Prop :=
  match r with ConversationSyncReceived _ | ConversationUpdated | LeaveConversation => False | _ => True end.
Lemma own_dispatch c0 s0 r : own_result r → preserves (calm_list c0 s0) (dispatch_inbound_result r).
Proof. destruct r; intros Hr; try done; cbn; quiet. Qed.

Lemma unheeded_calm c ev : unheeded c ev → calm_list c (c_stewards c) (handle_consensus_outcome ev c).1.
Proof.
  unfold unheeded, handle_consensus_outcome. destruct (outcome_fields ev) as [[pid approved] ts]. cbn [fst]. intros Hu.
  unfold sbind at 1 2 3, cancel_auto_vote, unregister_consensus_timeout, edit_timing, smodify, sget, id.
  cbn [c_queues c_id c_engine c_set_timing]. destruct (is_consensus_outcome_applied _ _); [by split; [split|]|].
  specialize (Hu eq_refl). unfold sbind at 1, emit_event, smodify. unfold sbind at 1, slift.
  destruct (get_proposal _ _ _) as [p|e]; cbn [result_map_err]; [|by split; [split|]].
  destruct (Hu p eq_refl) as [e He]. unfold sbind at 1. rewrite He. by split; [split|].
Qed.
Lemma silent_calm c : retry_due c = false → calm_list c (c_stewards c) (drive_reelection_retry c).1.
Proof.
  unfold retry_due, drive_reelection_retry, sbind at 1, sget. cbn [id]. intros Hd.
  destruct (bool_decide (current_state c = Reelection)), (has_election_in_flight (c_queues c)); cbn [negb orb andb] in *;
    try by split; [split|].
  destruct (reelection_silence_anchor (c_timing c)) as [anchor|]; [|by split; [split|]]. cbn in Hd.
  apply negb_false_iff in Hd. rewrite Hd. apply calm_list_refl.
Qed.

Lemma own_step_calm c c' : own_step c c' → calm_list c (c_stewards c) c'.
Proof.
  destruct 1 as [A m c Hm|c now Hn|c|c|sender payload c Hp|c Hw|c Hd|c ev bus Hb|c ev Hu];
    [| | | | | |by apply silent_calm|by split; [split|]|by apply unheeded_calm].
  - by apply (own_call_alone _ _ _ _ Hm), calm_list_refl.
  - by split; [split|].
  - by split; [split|].
  - by split; [split|].
  - unfold process_inbound, sbind at 1, sget. destruct (bool_decide _); [apply calm_list_refl|]. cbn [id].
    pose proof (plain_decode payload c (c_stewards c) Hp c (calm_list_refl c)) as Hd. unfold sbind.
    assert (∀ c1 r, decode_inbound payload c = (c1, Ok r) → clear_result r) as Hr.
    { intros c1 r E. apply (clear_decodes payload (c_queues c, c_mls c)); [done|]. unfold decode_inbound, on_round in E.
      destruct (decode_inbound_payload _ _) as [[q s] r']. by injection E as _ ->. }
    destruct (decode_inbound payload c) as [c1 [r|e]]; [|done]. specialize (Hr _ _ eq_refl).
    apply own_dispatch; [by destruct r|done].
  - unfold advance_freezing, sbind at 1, sget. destruct (bool_decide_reflect (current_state c = Freezing)) as [Hf|Hf]; cbn [negb].
    2: { match goal with |- calm_list ?x ?s (?m c).1 => assert (preserves (calm_list x s) m) as Hm by quiet end. apply Hm, calm_list_refl. }
    specialize (Hw Hf) as [Ha Hwin]. cbn zeta in Ha, Hwin. pose proof (calm_list_refl c) as Hc.
    set (rec := is_in_recovery_mode c) in *. set (m := (if rec then maybe_auto_commit_recovery else sret tt) : conv unit).
    assert ((m c).1 = if rec then (maybe_auto_commit_recovery c).1 else c) as Em by (subst m; by destruct rec).
    assert (calm_list c (c_stewards c) (m c).1) as Hm.
    { rewrite Em. destruct rec; [by apply alone_auto|done]. }
    rewrite <-Em in Ha, Hwin. unfold sbind at 1. fold rec m. unfold sbind at 1. destruct (m c) as [c1 [[]|e]]; [|done]. cbn [fst] in *.
    unfold sbind at 1. cbn [id]. rewrite Ha, Hwin. cbn [negb andb].
    match goal with |- calm_list ?x ?s (?k c1).1 => assert (preserves (calm_list x s) k) as Hk end; [|by apply Hk].
    unfold report_progress. quiet.
Qed.

(** ** A resolved proposal *)

Lemma insert_same ms e pid req q1 q2 :
  same_work ms e q1 q2 → same_work ms e (insert_approved_proposal pid req q1) (insert_approved_proposal pid req q2).
Proof. intros [Ha Hk Hu Hs]. split; [by apply im_insert_perm|by apply im_insert_nodup|done..]. Qed.

(** It does the same to the work of both. *)
Lemma applied_same ms e pid approved req q1 q2 :
  same_work ms e q1 q2 →
  same_work ms e (apply_consensus_result pid approved req q1).1 (apply_consensus_result pid approved req q2).1 ∧
  (apply_consensus_result pid approved req q1).2 = (apply_consensus_result pid approved req q2).2.
Proof.
  intros Hw. rewrite !apply_consensus_result_eq. pose proof Hw as [Ha Hk Hu Hs].
  assert (∀ id, has_approved_removal q1 id = has_approved_removal q2 id) as Hr
    by (intros; by apply existsb_perm, (fmap_Permutation snd)).
  assert (already_approved q1 req = already_approved q2 req) as Hal.
  { unfold already_approved, has_approved_invite. case_match; [case_match|]; try done.
    all: unfold is_some_and; case_match; [by apply existsb_perm, (fmap_Permutation snd)|done]. }
  assert (same_work ms e (remove_voting_proposal pid q1) (remove_voting_proposal pid q2)) as H0 by by destruct Hw; split.
  pose proof (insert_same ms e pid req _ _ H0) as H1.
  rewrite Hal. destruct (req_payload req) as [[kp|id|[ev|]|el]|], approved; try (by split); try (by destruct (already_approved q2 req); split).
  rewrite Hr. destruct (is_score_below_threshold ev); [|by split]. destruct (has_approved_removal _ _); [by split|].
  pose proof (insert_same ms e pid (removal_request_for ev) _ _ H0) as []. split; [by split|done].
Qed.

(** The replay adds nothing to the work. *)
Lemma replay_work mls q :
  let q' := replay_early_candidates mls q in
  approved_proposals q' = approved_proposals q ∧ urgent_commit_target q' = urgent_commit_target q ∧
  member_join_epoch q' = member_join_epoch q.
Proof.
  unfold replay_early_candidates, take_early_candidates. generalize (filterb (λ p : N * CommitCandidate, (p.1 =? g_epoch (mls_group mls))%N) (early_candidates q)).*2. intros ms.
  assert (∀ q0, let q' := foldl (λ q m, (receive_commit_candidate mls m q).1) q0 ms in
    approved_proposals q' = approved_proposals q0 ∧ urgent_commit_target q' = urgent_commit_target q0 ∧
    member_join_epoch q' = member_join_epoch q0) as H; [|exact (H (set_early [] q))].
  induction ms as [|m ms IH]; intros q0; [done|]. cbn. destruct (IH (receive_commit_candidate mls m q0).1) as (-> & -> & ->).
  destruct (receive_eq mls m q0) as [[_ ->]|[_ (reason & -> & _)]]; [|done].
  destruct (_ =? 0)%N; [unfold stash_early_candidate; by case_match|]. by destruct (buffer_add _ _ _ _ _ _ _).
Qed.

Lemma taken_in_step k i j c1 c2 pid approved t1 t2 req :
  in_step_from k i j c1 c2 → in_step_from k i j (outcome_taken pid approved t1 req c1) (outcome_taken pid approved t2 req c2).
Proof.
  intros [[Hg Hi Hw] Hs Hid Hm Hr Hl]. split; [|done..]. split; [done..|].
  destruct (applied_same (mls_members (c_mls c1)) (k + g_epoch (mls_group (c_mls c1))) pid approved req
    (mark_consensus_outcome_applied pid (c_queues c1)) (mark_consensus_outcome_applied pid (c_queues c2))) as [[Ha Hk Hu Hse] _];
    [by destruct Hw; split|].
  cbn [fst snd outcome_taken c_queues c_set_queues c_mls c_set_events without_deadlines c_set_timing].
  revert Ha Hk Hu Hse. generalize (apply_consensus_result pid approved req (mark_consensus_outcome_applied pid (c_queues c1))).1
    (apply_consensus_result pid approved req (mark_consensus_outcome_applied pid (c_queues c2))).1. intros q1 q2 Ha Hk Hu Hse.
  destruct (replay_work (c_mls c1) q1) as (A1 & U1 & J1), (replay_work (c_mls c2) q2) as (A2 & U2 & J2).
  split; [by rewrite A1, A2|by rewrite A1|by rewrite U1, U2|]. intros m e Hin He. unfold is_settled. rewrite J1, J2. by apply Hse.
Qed.

(** A head both take, whatever tails of their own follow. *)
Lemma in_step_then {A B} k i j (m1 m2 : conv A) (k1 k2 : A → conv B) c1 c2 :
  in_step_from k i j (m1 c1).1 (m2 c2).1 →
  (∀ c s a, preserves (calm_list c s) (k1 a)) → (∀ c s a, preserves (calm_list c s) (k2 a)) →
  in_step_from k i j (sbind m1 k1 c1).1 (sbind m2 k2 c2).1.
Proof.
  intros H H1 H2. assert (∀ (m : conv A) (k : A → conv B) c, (∀ c s a, preserves (calm_list c s) (k a)) →
    calm_list (m c).1 (c_stewards (m c).1) (sbind m k c).1) as Ht.
  { intros m k0 c Hk. unfold sbind. destruct (m c) as [c' [a|e]]; [|apply calm_list_refl]. apply Hk, calm_list_refl. }
  eapply in_step_settle; [exact H|by apply Ht|by apply Ht|by apply (is_stewards _ _ _ _ _ H)].
Qed.
Lemma in_step_alone {A B} k i j (m1 : conv A) (m2 : conv B) c1 c2 :
  in_step_from k i j c1 c2 → (∀ c s, preserves (calm_list c s) m1) → (∀ c s, preserves (calm_list c s) m2) →
  in_step_from k i j (m1 c1).1 (m2 c2).1.
Proof.
  intros H H1 H2. eapply in_step_settle; [exact H|by apply H1, calm_list_refl|by apply H2, calm_list_refl|].
  by apply (is_stewards _ _ _ _ _ H).
Qed.

(** Both judge a proposed list alike. *)
Lemma validate_election_same k i j c1 c2 e :
  in_step_from k i j c1 c2 → (k + mls_epoch c1 ≤ el_election_epoch e)%N → validate_election_list c1 e = validate_election_list c2 e.
Proof.
  intros H He. unfold validate_election_list. rewrite (is_stewards _ _ _ _ _ H). f_equal.
  unfold candidate_pool. rewrite <-(in_step_members _ _ _ _ _ H). destruct H as [[_ _ [_ _ _ Hse]] _ _ _ _ _]. cbn in Hse.
  apply filterb_ext. intros m Hm. by apply Hse.
Qed.

Lemma install_same k i j c1 c2 e ms n r :
  in_step_from k i j c1 c2 →
  in_step_from k i j ((on_stewards (install_list e ms n r) ;! exit_recovery_mode) c1).1
    ((on_stewards (install_list e ms n r) ;! exit_recovery_mode) c2).1.
Proof.
  intros [Ht Hs Hid Hm Hr Hl]. unfold sbind, on_stewards, szoom, exit_recovery_mode, smodify. rewrite Hs.
  destruct (install_list e ms n r (c_stewards c2)) as [s [l|er]]; by split.
Qed.

Lemma election_in_step k i j c1 c2 e :
  in_step_from k i j c1 c2 → (k + mls_epoch c1 ≤ el_election_epoch e)%N →
  in_step_from k i j (handle_election_accepted e c1).1 (handle_election_accepted e c2).1.
Proof.
  intros H He. unfold handle_election_accepted. pose proof (validate_election_same _ _ _ _ _ _ H He) as E1.
  destruct (validate_election_list c2 e) as [b|er] eqn:E2.
  2: { rewrite (sbind_err _ _ c1 er), (sbind_err _ _ c2 er) by (cbn; congruence). done. }
  rewrite (sbind_step (λ c, (c, validate_election_list c e)) _ c1 c1 b) by (by rewrite E1).
  rewrite (sbind_step (λ c, (c, validate_election_list c e)) _ c2 c2 b) by (by rewrite E2).
  destruct b; cbn [negb]; [|done]. rewrite !(sbind_assoc (on_stewards _)).
  apply in_step_then; [by apply install_same|..]; intros c s []; unfold resume_from_reelection, emit_phase_change; quiet.
Qed.

(** What follows a resolved proposal. *)
Definition stale_election (e : N) (r : ConsensusApplyResult) : Prop :=
  match r with ElectionAccepted el => (el_election_epoch el < e)%N | _ => False end.

Lemma alone_freezing c0 s0 : preserves (calm_list c0 s0) start_freezing_and_emit.
Proof. unfold start_freezing_and_emit, emit_phase_change. quiet. Qed.

Lemma retry_in_step k i j c1 c2 :
  in_step_from k i j c1 c2 → in_step_from k i j (advance_election_retry c1).1 (advance_election_retry c2).1.
Proof.
  intros H. unfold advance_election_retry. apply in_step_then; [|intros c s []; quiet..].
  destruct H as [? Hs ? ? ? ?]. split; try done. cbn. by rewrite Hs.
Qed.

Lemma follow_up_in_step k i j c1 c2 r :
  in_step_from k i j c1 c2 → ¬ stale_election (k + mls_epoch c1) r → in_step_from k i j (follow_up r c1).1 (follow_up r c2).1.
Proof.
  intros H Hst. destruct r; cbn [follow_up stale_election] in *.
  - done.
  - apply election_in_step; [done|lia].
  - by apply retry_in_step.
  - apply in_step_alone; [done|intros; quiet..].
  - apply in_step_then; [|pose proof alone_freezing; intros c s []; quiet..].
    by destruct H; split.
  - apply in_step_alone; [done|intros; unfold refresh_stewards_after_removal; quiet..].
  - apply in_step_alone; [done|intros; unfold refresh_stewards_after_removal; quiet..].
Qed.

(** The outcome is new to the member, which knows what was voted on. *)
Definition resolves c (ev : ConsensusEvent) (pid : N) (approved : bool) (req : ConversationUpdateRequest) : Prop :=
  ∃ ts p, outcome_fields ev = (pid, approved, ts) ∧ is_consensus_outcome_applied (c_queues c) pid = false ∧
    get_proposal (c_id c) pid (c_engine c) = Ok p ∧ decode_request (prop_payload p) = Ok req.

(** An election of an epoch whose pool the members may not remember alike. *)
Definition past_election (epoch : N) (req : ConversationUpdateRequest) : Prop :=
  match req_payload req with Some (StewardElection el) => (el_election_epoch el < epoch)%N | _ => False end.

Lemma result_past e pid approved req q :
  stale_election e (apply_consensus_result pid approved req q).2 → past_election e req.
Proof.
  rewrite apply_consensus_result_eq. unfold past_election.
  repeat (case_match; cbn; try done).
Qed.

Lemma alone_scored c0 s0 pid ops : preserves (calm_list c0 s0) (handle_emergency_scored pid ops).
Proof. unfold handle_emergency_scored, resume_from_reelection, emit_phase_change. quiet. Qed.

Lemma decision_keeps_step k i j c1 c2 ev1 ev2 pid approved req :
  in_step_from k i j c1 c2 → resolves c1 ev1 pid approved req → resolves c2 ev2 pid approved req →
  ¬ past_election (k + mls_epoch c1) req →
  in_step_from k i j (handle_consensus_outcome ev1 c1).1 (handle_consensus_outcome ev2 c2).1.
Proof.
  intros H (t1 & p1 & He1 & Hn1 & Hp1 & Hr1) (t2 & p2 & He2 & Hn2 & Hp2 & Hr2) Hpast.
  rewrite (outcome_eq _ _ _ _ _ _ _ He1 Hn1 Hp1 Hr1), (outcome_eq _ _ _ _ _ _ _ He2 Hn2 Hp2 Hr2).
  pose proof (taken_in_step _ _ _ _ _ pid approved t1 t2 req H) as Ht.
  assert ((apply_consensus_result pid approved req (mark_consensus_outcome_applied pid (c_queues c1))).2 =
    (apply_consensus_result pid approved req (mark_consensus_outcome_applied pid (c_queues c2))).2) as <-.
  { destruct H as [[_ _ Hw] _ _ _ _ _]. eapply applied_same. by destruct Hw; split. }
  pose proof (λ c s, alone_scored c s pid (emergency_score_ops req approved)).
  apply in_step_then; [|intros c s []; quiet..]. apply follow_up_in_step; [done|].
  intros Hs%result_past. done.
Qed.

(** ** A message read by both *)

Lemma not_clear_decode payload st : ¬ in_clear payload → decode_inbound_payload payload st = decode_encrypted payload st.
Proof.
  intros Hn. unfold decode_inbound_payload. destruct (decode_app_message payload) as [[[m|]]|e] eqn:E; [|done..].
  destruct m; try done; destruct Hn; (eexists; split; [exact E|eauto]).
Qed.

(** Reading changes the engine and nothing else, as [decrypt_application_only] does. *)
Lemma decode_mls payload q s :
  decode_encrypted payload (q, s) =
    let s1 := (decrypt_application_only payload s).1 in
    ((q, s1), let? d := result_map_err Mls (decrypt_application_only payload s).2 in
      match d with
      | None => Ok (Noop DecryptIgnored)
      | Some d => let? m := result_map_err MessageErr (decode_app_message (dec_payload d)) in Ok (process_decrypted s1 m (dec_member d))
      end).
Proof.
  unfold decode_encrypted, sbind, with_mls, slift, sget. destruct (decrypt_application_only payload s) as [s1 [[d|]|e]]; [|done..].
  cbn. by destruct (decode_app_message (dec_payload d)).
Qed.

Lemma decrypt_eq payload s :
  let s1 := (decrypt_application_only payload s).1 in
  s1 = s ∨ ∃ pm, parse_protocol_message payload = Ok pm ∧ s1 = set_group (process_message pm (mls_group s)).1 s.
Proof.
  unfold decrypt_application_only, sbind, slift, sget. destruct (parse_protocol_message payload) as [pm|e]; [|by left].
  cbn [id]. destruct (negb _); [by left|]. destruct (negb _); [by left|]. destruct (pm_content_type pm); try by left.
  right. exists pm. split; [done|]. unfold on_group. destruct (process_message pm (mls_group s)) as [g [[[idx|] ct]|e]]; try done.
  cbn. destruct (g_member_at g idx); [|done]. by destruct ct.
Qed.
Lemma decrypt_public payload s :
  let s1 := (decrypt_application_only payload s).1 in
  same_public (mls_group s) (mls_group s1) ∧ pending_staged_commit s1 = pending_staged_commit s.
Proof.
  cbn zeta. destruct (decrypt_eq payload s) as [->|(pm & _ & ->)]; [done|]. split; [apply process_public|done].
Qed.

(** A message neither sent reads the same for both. *)
Lemma decrypt_same i j payload :
  foreign i j payload → related (peer_services i j) eq (decrypt_application_only payload) (decrypt_application_only payload).
Proof.
  intros Hf. unfold decrypt_application_only. apply related_parse; [done|]. intros pm Hi Hj.
  apply (related_bind _ (peer_services i j)); [by apply related_get|]. intros s1 s2 [Hs _].
  rewrite (peers_group_id _ _ _ _ Hs), (peers_epoch _ _ _ _ Hs).
  destruct (negb _); [by apply related_ret|]. destruct (negb _); [by apply related_ret|].
  destruct (pm_content_type pm); try by apply related_ret.
  apply (related_bind _ same_processed); [by apply related_process|].
  intros [sd1 ct1] [sd2 ct2] [Hsd Hct]. cbn in Hsd, Hct. subst sd2. cbn [fst snd]. destruct sd1 as [idx|]; [|by apply related_ret].
  apply (related_bind _ (peer_services i j)); [by apply related_get|]. intros n1 n2 [Hn _].
  rewrite (member_at_same _ _ idx (peers_members _ _ _ _ Hn)).
  apply (related_bind _ eq); [by apply related_lift; destruct (ok_or _ _)|]. intros m ? <-.
  destruct ct1, ct2; try done; try by apply related_ret. subst. by apply related_ret.
Qed.

(** ** In step whatever both read *)

Lemma in_step_read k i j c1 c2 s1 s2 :
  in_step_from k i j c1 c2 → peers i j (mls_group s1) (mls_group s2) →
  same_public (mls_group (c_mls c1)) (mls_group s1) → pending_staged_commit s1 = pending_staged_commit (c_mls c1) →
  pending_staged_commit s2 = pending_staged_commit (c_mls c2) →
  in_step_from k i j (c_set_mls s1 c1) (c_set_mls s2 c2).
Proof.
  intros [[[Hg Hsl] Hi Hw] Hs Hid Hm Hr Hl] Hp Hp1 E1 E2. split; [split|..]; try done.
  - split; [done|]. cbn. by rewrite E1, E2.
  - cbn. by rewrite E1.
  - cbn. rewrite (same_public_members _ _ Hp1). destruct Hp1 as [_ ->]. done.
Qed.

(** Decoding a packet that is not in clear. *)
Lemma decode_eq payload c :
  ¬ in_clear payload →
  decode_inbound payload c =
    (c_set_mls (decrypt_application_only payload (c_mls c)).1 c, (decode_encrypted payload (c_queues c, c_mls c)).2).
Proof.
  intros Hn. unfold decode_inbound, on_round. rewrite not_clear_decode by done. rewrite decode_mls. cbn zeta.
  cbn [snd]. by destruct c.
Qed.
Lemma decode_never c c' payload r : decode_inbound payload c = (c', Ok r) → r ≠ ConversationUpdated ∧ r ≠ LeaveConversation.
Proof.
  unfold decode_inbound, on_round. destruct (decode_inbound_payload payload (c_queues c, c_mls c)) as [[q s] r'] eqn:E.
  intros [= _ ->]. by apply decode_never_finalizes in E.
Qed.

Lemma decode_in_step k i j c1 c2 payload :
  in_step_from k i j c1 c2 → foreign i j payload → ¬ in_clear payload →
  in_step_from k i j (decode_inbound payload c1).1 (decode_inbound payload c2).1 ∧
  result_rel eq (decode_inbound payload c1).2 (decode_inbound payload c2).2.
Proof.
  intros H Hf Hn. rewrite !decode_eq by done. cbn [fst snd]. pose proof (is_together _ _ _ _ _ H) as [Hs _ _].
  destruct (decrypt_same i j payload Hf _ _ Hs) as [[Hg _] Hr]. cbn [fst snd] in Hg, Hr.
  destruct (decrypt_public payload (c_mls c1)) as [P1 E1], (decrypt_public payload (c_mls c2)) as [_ E2].
  split; [by apply in_step_read|]. rewrite !decode_mls. cbn [snd].
  destruct (decrypt_application_only payload (c_mls c1)) as [m1 [d1|e1]], (decrypt_application_only payload (c_mls c2)) as [m2 [d2|e2]];
    try done. cbn [fst snd result_rel] in Hr, Hg. subst d2. cbn. destruct d1 as [d|]; [|done].
  destruct (decode_app_message (dec_payload d)) as [m|e]; [|done]. cbn.
  assert (∀ id, is_member m1 id = is_member m2 id) as Hmem.
  { intros id. unfold is_member. case_match; [|done]. by rewrite (member_at_same _ _ _ (peers_members _ _ _ _ Hg)). }
  unfold process_decrypted. destruct (app_payload m) as [[]|]; try done. by rewrite Hmem.
Qed.

(** A change of the steward list alone. *)
Lemma related_stewards {A} k i j (f : method StewardListService A) :
  related (in_step_from (St := St) k i j) eq (on_stewards f) (on_stewards f).
Proof.
  intros c1 c2 [Ht Hs Hid Hm Hr Hl]. unfold on_stewards, szoom. rewrite Hs.
  by destruct (f (c_stewards c2)) as [s [a|e]].
Qed.

Lemma in_step_bind {A B} k i j (m1 m2 : conv A) (k1 k2 : A → conv B) c1 c2 :
  related (in_step_from k i j) eq m1 m2 →
  (∀ a c1 c2, in_step_from k i j c1 c2 → in_step_from k i j (k1 a c1).1 (k2 a c2).1) →
  in_step_from k i j c1 c2 → in_step_from k i j (sbind m1 k1 c1).1 (sbind m2 k2 c2).1.
Proof.
  intros Hm Hk H. destruct (Hm _ _ H) as [H' Hr]. unfold sbind.
  destruct (m1 c1) as [c1' [a|e]], (m2 c2) as [c2' [b|e']]; try done. cbn in Hr. subst b. by apply Hk.
Qed.

Lemma apply_sync_in_step k i j c1 c2 sync :
  in_step_from k i j c1 c2 →
  in_step_from k i j (apply_conversation_sync_to_entry sync c1).1 (apply_conversation_sync_to_entry sync c2).1.
Proof.
  unfold apply_conversation_sync_to_entry. apply in_step_bind; [by apply related_lift; destruct (slc_new _ _)|].
  intros cfg d1 d2. apply in_step_bind; [apply (related_stewards k i j (smodify _))|].
  intros _ e1 e2. apply in_step_bind; [apply related_stewards|].
  intros _ f1 f2. apply in_step_bind; [apply (related_stewards k i j (smodify _))|].
  intros _ g1 g2 H. apply in_step_alone; [done|..]; intros c s.
  all: repeat (apply preserves_bind; [|intros []]); try (unfold apply_score_snapshot; quiet).
  all: apply preserves_modify; intros c' [[] ?]; split; [|done]; split; cbn; try done; by case_match.
Qed.

Lemma sync_in_step k i j c1 c2 sync :
  in_step_from k i j c1 c2 → in_step_from k i j (on_conversation_sync sync c1).1 (on_conversation_sync sync c2).1.
Proof.
  intros H. unfold on_conversation_sync.
  assert (∀ (k : conv unit) c, sbind (edit_timing (set_resend_anchor None)) (λ _, k) c =
    k (c_set_timing (set_resend_anchor None (c_timing c)) c)) as E by done.
  rewrite !E. set (d1 := c_set_timing _ c1). set (d2 := c_set_timing _ c2).
  assert (in_step_from k i j d1 d2) as Hd by by destruct H; split. clearbody d1 d2. clear E H c1 c2.
  unfold sbind at 1 4, sget. cbn [id].
  assert (keeps_list d1 sync = keeps_list d2 sync) as ->.
  { unfold keeps_list. by rewrite (is_stewards _ _ _ _ _ Hd), (in_step_epoch _ _ _ _ _ Hd). }
  destruct (keeps_list d2 sync); [done|].
  rewrite (is_id _ _ _ _ _ Hd), (in_step_epoch _ _ _ _ _ Hd), (in_step_members _ _ _ _ _ Hd).
  revert Hd. apply in_step_bind; [by apply related_lift; destruct (validate_conversation_sync _ _ _ _)|].
  intros b e1 e2 He. destruct b; cbn [negb]; [|done].
  apply in_step_then; [by apply apply_sync_in_step|intros c s []; quiet..].
Qed.

(** Both handle a packet neither sent. *)
Lemma inbound_in_step k i j c1 c2 sender payload :
  in_step_from k i j c1 c2 → foreign i j payload → ¬ in_clear payload → sender ≠ c_app_id c1 → sender ≠ c_app_id c2 →
  in_step_from k i j (process_inbound sender payload c1).1 (process_inbound sender payload c2).1.
Proof.
  intros H Hf Hn H1 H2. destruct (decode_in_step k i j c1 c2 payload H Hf Hn) as [Hd Hr].
  unfold process_inbound. unfold sbind at 1 3, sget. cbn [id]. rewrite !bool_decide_false by done. unfold sbind.
  pose proof (λ c' r, decode_never c1 c' payload r) as Hnv.
  destruct (decode_inbound payload c1) as [d1 [r|e]], (decode_inbound payload c2) as [d2 [r2|e2]]; try done.
  cbn in Hr, Hd. subst r2. destruct (Hnv _ _ eq_refl) as [N1 N2].
  destruct r as [| | | | | | |sync| | |]; try done; try (apply in_step_alone; [done|by intros; apply own_dispatch..]).
  cbn. unfold sbind. pose proof (sync_in_step k i j d1 d2 sync Hd) as Hs.
  by destruct (on_conversation_sync sync d1) as [? []], (on_conversation_sync sync d2) as [? []].
Qed.

(** ** What one does while the other does nothing *)

(** The packet is not a sync that would replace the list in use. *)
Definition no_new_list c (payload : bytes) : Prop :=
  ∀ c' sync, decode_inbound payload c = (c', Ok (ConversationSyncReceived sync)) → keeps_list c sync = true.

(** The member at leaf [i] acts by itself, or reads what the one at leaf [j] sent. *)
Inductive solo (j : N) : Conv → Conv → Prop :=
  | solo_own c c' : own_step c c' → solo j c c'
  | solo_hears sender payload c :
      ¬ in_clear payload → (∀ pm, parse_protocol_message payload = Ok pm → sent_by j pm) → no_new_list c payload →
      solo j c (process_inbound sender payload c).1.

Lemma same_work_sym ms e q1 q2 : same_work ms e q1 q2 → same_work ms e q2 q1.
Proof.
  intros [Ha Hk Hu Hs]. split; [done| |done|].
  - unfold im_keys in *. by rewrite <-Ha.
  - intros m e' Hm He. symmetry. by apply Hs.
Qed.
Lemma in_step_sym k i j c1 c2 : in_step_from k i j c1 c2 → in_step_from k j i c2 c1.
Proof.
  intros H. pose proof H as [[Hs Hi Hw] ? ? Hm Hr ?]. split; [|done..| |done].
  2: { unfold is_in_recovery_mode in *. rewrite <-Hm. intros E. symmetry. by apply Hr. }
  split.
  - by apply peer_services_sym.
  - by apply (together_idle _ _ _ _ _ (is_together _ _ _ _ _ H)).
  - cbn in *. destruct Hs as [Hg _]. cbn in Hg. unfold mls_members in *.
    rewrite <-(peers_members _ _ _ _ Hg), <-(peers_epoch _ _ _ _ Hg). by apply same_work_sym.
Qed.

Lemma alone_kept c0 s0 c sync :
  keeps_list c sync = true → calm_list c0 s0 c → calm_list c0 s0 (on_conversation_sync sync c).1.
Proof.
  intros Hk Hc. unfold on_conversation_sync.
  change (calm_list c0 s0 ((let! c := sget id in if keeps_list c sync then sret tt else
    let! valid := slift (validate_conversation_sync (c_id c) sync (mls_epoch c) (members_of c)) in
    if negb valid then sret tt else apply_conversation_sync_to_entry sync ;! emit_event EvConversationSyncApplied)
    (c_set_timing (set_resend_anchor None (c_timing c)) c)).1).
  unfold sbind at 1, sget. cbn [id].
  change (keeps_list (c_set_timing _ c) sync) with (keeps_list c sync). rewrite Hk. by apply still_timing.
Qed.

Lemma solo_in_step k i j c1 c2 c1' : in_step_from k i j c1 c2 → solo j c1 c1' → in_step_from k i j c1' c2.
Proof.
  intros H Hsolo. revert H. destruct Hsolo as [c c' Hc%own_step_calm|sender payload c Hn Hsent Hnew]; intros H.
  - eapply in_step_settle; [exact H|exact Hc|apply calm_list_refl|by apply (is_stewards _ _ _ _ _ H)].
  - unfold process_inbound, sbind at 1, sget. cbn [id]. destruct (bool_decide _); [done|]. unfold sbind.
    pose proof (λ c' r, decode_never c c' payload r) as Hnv.
    assert (in_step_from k i j (decode_inbound payload c).1 c2) as Hd.
    { rewrite decode_eq by done. cbn [fst]. pose proof (in_step_read k i j c c2) as Hr.
      destruct (decrypt_public payload (c_mls c)) as [P1 E1].
      replace c2 with (c_set_mls (c_mls c2) c2) by by destruct c2. apply Hr; [done| |done..].
      pose proof (is_together _ _ _ _ _ H) as [[Hg _] _ _]. cbn in Hg.
      destruct (decrypt_eq payload (c_mls c)) as [->|(pm & Hpm & ->)]; [done|]. cbn [mls_group set_group].
      apply peers_sym, hears_message; [by apply peers_sym|by apply Hsent]. }
    unfold no_new_list in Hnew.
    assert (∀ sync, keeps_list (decode_inbound payload c).1 sync = keeps_list c sync) as Hkeep.
    { intros sync. rewrite decode_eq by done. unfold keeps_list. cbn [fst c_stewards c_set_mls].
      destruct (decrypt_public payload (c_mls c)) as [[_ E] _]. unfold mls_epoch. cbn [c_mls c_set_mls]. by rewrite E. }
    destruct (decode_inbound payload c) as [d [r|e]]; [|done]. cbn [fst] in Hd, Hkeep. destruct (Hnv _ _ eq_refl) as [N1 N2].
    assert (∀ d', calm_list d (c_stewards d) d' → in_step_from k i j d' c2) as Hcalm.
    { intros d' Hc. eapply in_step_settle; [exact Hd|exact Hc|apply calm_list_refl|by apply (is_stewards _ _ _ _ _ Hd)]. }
    apply Hcalm. destruct r as [| | | | | | |sync| | |]; try done; try (apply own_dispatch; [done|apply calm_list_refl]).
    specialize (Hnew _ _ eq_refl). rewrite <-Hkeep in Hnew.
    pose proof (alone_kept d (c_stewards d) d sync Hnew (calm_list_refl d)) as Hk. cbn. unfold sbind.
    by destruct (on_conversation_sync sync d) as [? []].
Qed.

Lemma retry_eq c :
  retry_due c = true →
  drive_reelection_retry c = advance_election_retry (c_set_timing (set_silence_anchor None (c_timing c)) c).
Proof.
  unfold retry_due, drive_reelection_retry, sbind at 1, sget. cbn [id]. intros [[Hr He]%andb_true_iff Ha]%andb_true_iff.
  rewrite Hr. apply negb_true_iff in He. rewrite He. cbn [negb orb].
  destruct (reelection_silence_anchor (c_timing c)) as [anchor|]; [|done]. cbn in Ha. apply negb_true_iff in Ha. by rewrite Ha.
Qed.

(** ** What a poll is made of *)

Inductive move : Conv → Conv → Prop :=
  | move_own c c' : own_step c c' → move c c'
  | move_decides c ev pid approved req : resolves c ev pid approved req → move c (handle_consensus_outcome ev c).1
  | move_retries c : retry_due c = true → move c (drive_reelection_retry c).1
  | move_selects c : move c (select_round (is_in_recovery_mode c) c).1.

Lemma outcome_move c ev : move c (handle_consensus_outcome ev c).1.
Proof.
  destruct (outcome_fields ev) as [[pid approved] ts] eqn:Ef.
  destruct (is_consensus_outcome_applied (c_queues c) pid) eqn:Ea.
  { apply move_own, own_step_unheeded. unfold unheeded. rewrite Ef. cbn. by rewrite Ea. }
  destruct (get_proposal (c_id c) pid (c_engine c)) as [p|e] eqn:Ep.
  2: { apply move_own, own_step_unheeded. unfold unheeded. rewrite Ef. cbn. by rewrite Ep. }
  destruct (decode_request (prop_payload p)) as [req|e] eqn:Er.
  - apply (move_decides c ev pid approved req). by exists ts, p.
  - apply move_own, own_step_unheeded. unfold unheeded. rewrite Ef. cbn. rewrite Ep. intros _ ? [= <-]. eauto.
Qed.

Section moves.
Variable c0 : Conv.
Abbreviation moves m := (preserves (rtc move c0) m).

Lemma moves_one {A} (m : conv A) : (∀ c, move c (m c).1) → moves m.
Proof. intros Hm c Hc. eapply rtc_r; [exact Hc|apply Hm]. Qed.
Lemma moves_own {A} (m : conv A) : own_call A m → moves m.
Proof. intros Hm. apply moves_one. intros c. by apply move_own, own_step_call. Qed.

Lemma moves_drain fuel : moves (drain_outcomes fuel).
Proof.
  induction fuel as [|fuel IH]; [apply preserves_ret|]. intros c Hc. destruct (c_bus c) as [|ev bus] eqn:Hb.
  - by rewrite (drain_done (S fuel) c Hb).
  - rewrite (drain_next fuel c ev bus Hb). apply IH. eapply rtc_r; [eapply rtc_r; [exact Hc|]|apply outcome_move].
    by eapply move_own, own_step_takes.
Qed.
Lemma moves_deadlines fuel : moves (tick_deadlines fuel).
Proof.
  assert (∀ c, tick_deadlines fuel c = (tick_deadlines 0 ;! drain_outcomes fuel) c) as E.
  { intros c. unfold tick_deadlines, sbind, edit_timing, smodify, sget. cbn [drain_outcomes].
    destruct (sfor (auto_votes_due c) _ _) as [c1 [[]|]]; [|done]. by destruct (sfor _ _ c1) as [c2 [[]|]]. }
  intros c Hc. rewrite E. revert c Hc.
  apply preserves_bind; [apply moves_own; constructor|]. intros _. apply moves_drain.
Qed.
(** Committing by itself leaves the mode. *)
Lemma auto_commit_mode c : c_mode (maybe_auto_commit_recovery c).1 = c_mode c.
Proof.
  assert (∀ A (m : mls_method A), preserves (λ c', c_mode c' = c_mode c) (on_mls m)) as Hm.
  { intros A m c' H. unfold on_mls. by destruct (m (c_mls c')). }
  assert (Quiet (λ c', c_mode c' = c_mode c)) as Hq by by split.
  assert (preserves (λ c', c_mode c' = c_mode c) maybe_auto_commit_recovery) as H; [|by apply H].
  unfold maybe_auto_commit_recovery, mint_and_broadcast_candidate, build_local_candidate. quiet.
  all: first [apply Hm|by apply preserves_modify].
Qed.
Lemma moves_freezing : moves advance_freezing.
Proof.
  intros c Hc. set (rec := is_in_recovery_mode c).
  destruct (decide (waits c)) as [Hw|Hw]; [eapply rtc_r; [exact Hc|by apply move_own, own_step_waits]|].
  destruct (decide (current_state c = Freezing)) as [Hf|Hf]; [|by destruct Hw].
  unfold advance_freezing, sbind at 1, sget. rewrite bool_decide_true by done. cbn [negb]. unfold sbind at 1. fold rec.
  set (m := (if rec then maybe_auto_commit_recovery else sret tt) : conv unit).
  assert ((m c).1 = if rec then (maybe_auto_commit_recovery c).1 else c) as Em by (subst m; by destruct rec).
  assert (rtc move c0 (m c).1 ∧ c_mode (m c).1 = c_mode c) as [Hm Hmode].
  { rewrite Em. destruct rec; [|done]. split; [|apply auto_commit_mode].
    eapply rtc_r; [exact Hc|]. apply move_own, own_step_call. constructor. }
  assert (negb (all_candidates_in rec (m c).1) && negb (window_elapsed rec (m c).1) = false) as Hsel.
  { apply not_true_iff_false. intros [Ha%negb_true_iff Hwin%negb_true_iff]%andb_true_iff. apply Hw. intros _.
    cbn zeta. fold rec. by rewrite <-Em. }
  unfold sbind at 1. destruct (m c) as [c1 [[]|e]]; [|done]. cbn [fst] in *. unfold sbind at 1. cbn [id]. rewrite Hsel.
  replace rec with (is_in_recovery_mode c1); [by eapply rtc_r, move_selects|].
  subst rec. unfold is_in_recovery_mode. by rewrite Hmode.
Qed.
Lemma moves_retry : moves drive_reelection_retry.
Proof.
  apply moves_one. intros c. destruct (retry_due c) eqn:Hd; [by apply move_retries|by apply move_own, own_step_silent].
Qed.
Lemma moves_attempt (m : conv unit) : moves m → moves (attempt m).
Proof. intros Hm. apply preserves_catch; [done|]. intros. apply preserves_ret. Qed.
Lemma moves_poll fuel : moves (poll fuel).
Proof.
  unfold poll, drive_all. apply preserves_bind; [apply moves_deadlines|]. intros _.
  apply preserves_bind; [apply preserves_catch; [apply moves_freezing|intros; apply preserves_ret]|]. intros b.
  repeat (apply preserves_bind; [first [apply moves_attempt; first [apply moves_retry|apply moves_own; constructor]|apply preserves_get]|intros ?]).
  apply preserves_ret.
Qed.
End moves.

(** ** Together *)

(** What the members at leaves [i] and [j] both go through, each with its own state: a
    message of a third member, a resolved proposal, a re-election retry, the end of a
    round. They agree on who is settled from [k] epochs on before, from [k'] after. *)
Inductive both (i j : N) : N → N → Conv * Conv → Conv * Conv → Prop :=
  | both_hear k sender payload c1 c2 :
      foreign i j payload → ¬ in_clear payload → sender ≠ c_app_id c1 → sender ≠ c_app_id c2 →
      both i j k k (c1, c2) ((process_inbound sender payload c1).1, (process_inbound sender payload c2).1)
  | both_decide k ev1 ev2 pid approved req c1 c2 :
      resolves c1 ev1 pid approved req → resolves c2 ev2 pid approved req → ¬ past_election (k + mls_epoch c1) req →
      both i j k k (c1, c2) ((handle_consensus_outcome ev1 c1).1, (handle_consensus_outcome ev2 c2).1)
  | both_retry k c1 c2 :
      retry_due c1 = true → retry_due c2 = true →
      both i j k k (c1, c2) ((drive_reelection_retry c1).1, (drive_reelection_retry c2).1)
  | both_select k k' t1 t2 r1 r2 c1 c2 :
      settles k k' c1 t1 r1 → same_candidates i j c1 c2 → finishes c1 t1 r1 → finishes c2 t2 r2 →
      both i j k k' (c1, c2)
        ((select_round (is_in_recovery_mode c1) c1).1, (select_round (is_in_recovery_mode c2) c2).1)
  | both_land_left k own copy mls' d a t2 r2 c1 c2 :
      (k = 0 ∨ k + mls_epoch c1 ≤ g_epoch (mls_group mls'))%N →
      lone_round i c1 c2 own copy mls' d a → makes_voted (c_queues c1) a → reads_lone c2 copy → finishes c2 t2 r2 →
      both i j k 0 (c1, c2)
        ((select_round (is_in_recovery_mode c1) c1).1, (select_round (is_in_recovery_mode c2) c2).1)
  | both_land_right k own copy mls' d a t1 r1 c1 c2 :
      (k = 0 ∨ k + mls_epoch c2 ≤ g_epoch (mls_group mls'))%N →
      lone_round j c2 c1 own copy mls' d a → makes_voted (c_queues c2) a → reads_lone c1 copy → finishes c1 t1 r1 →
      both i j k 0 (c1, c2)
        ((select_round (is_in_recovery_mode c1) c1).1, (select_round (is_in_recovery_mode c2) c2).1).

(** The life of a member, by itself but for the moments it shares with the one at leaf
    [j], each with its state before and after. Nothing here waits for the other. *)
Inductive life (j : N) : Conv → list (Conv * Conv) → Conv → Prop :=
  | life_alone c c' : rtc (solo j) c c' → life j c [] c'
  | life_through c s s' moments c' :
      rtc (solo j) c s → life j s' moments c' → life j c ((s, s') :: moments) c'.

(** The moments of two members match, one by one. *)
Inductive shared_moments (i j : N) : N → N → list (Conv * Conv) → list (Conv * Conv) → Prop :=
  | shared_none k : shared_moments i j k k [] []
  | shared_next k k1 k' s1 s1' s2 s2' ms1 ms2 :
      both i j k k1 (s1, s2) (s1', s2') → shared_moments i j k1 k' ms1 ms2 →
      shared_moments i j k k' ((s1, s1') :: ms1) ((s2, s2') :: ms2).

Context `{!ScoreWritesSucceed St}.

Lemma both_in_step i j k k' cs cs' :
  both i j k k' cs cs' → in_step_from k i j cs.1 cs.2 → in_step_from k' i j cs'.1 cs'.2.
Proof.
  intros Hj. destruct Hj as [k sender payload c1 c2 P1 P2 P3 P4|k ev1 ev2 pid approved req c1 c2 P1 P2 P3|
    k c1 c2 H1 H2|k k' t1 t2 r1 r2 c1 c2 Hk Hc H1 H2|k own copy mls' d a t2 r2 c1 c2 Hk P1 P2 P3 P4|
    k own copy mls' d a t1 r1 c1 c2 Hk P1 P2 P3 P4];
    cbn [fst snd]; intros H.
  - by apply inbound_in_step.
  - by eapply decision_keeps_step.
  - rewrite !retry_eq by done. apply retry_in_step. by destruct H; split.
  - by apply (round_in_step k k' i j c1 c2 t1 t2 r1 r2 H Hk Hc H1 H2).
  - by apply (lone_in_step k i j c1 c2 own copy mls' d a t2 r2).
  - apply in_step_sym. apply in_step_sym in H. by apply (lone_in_step k j i c2 c1 own copy mls' d a t1 r1).
Qed.

Lemma apart_in_step k i j c1 c2 c1' c2' :
  rtc (solo j) c1 c1' → rtc (solo i) c2 c2' → in_step_from k i j c1 c2 → in_step_from k i j c1' c2'.
Proof.
  intros H1 H2 Hi. assert (in_step_from k i j c1' c2) as Hi1.
  { clear H2. induction H1 as [|c c' c'' Hs _ IH]; [done|]. by eapply IH, solo_in_step. }
  clear H1 Hi. induction H2 as [|c c' c'' Hs _ IH]; [done|]. apply IH.
  apply in_step_sym. eapply solo_in_step; [by apply in_step_sym|done].
Qed.

Lemma life_in_step k k' i j c1 c2 ms1 ms2 d1 d2 :
  in_step_from k i j c1 c2 → life j c1 ms1 d1 → life i c2 ms2 d2 → shared_moments i j k k' ms1 ms2 →
  in_step_from k' i j d1 d2.
Proof.
  intros Hi H1 H2 Hm. revert c1 c2 Hi H1 H2.
  induction Hm as [k|k k1 k' s1 s1' s2 s2' ms1 ms2 Hb _ IH]; intros c1 c2 Hi H1 H2.
  - inversion H1; subst. inversion H2; subst. by eapply apart_in_step.
  - inversion H1 as [|? ? ? ? ? Hs1 Hl1]; subst. inversion H2 as [|? ? ? ? ? Hs2 Hl2]; subst.
    eapply IH; [|done..]. apply (both_in_step _ _ _ _ _ _ Hb). by eapply apart_in_step.
Qed.

Lemma authority_same s e f g : (∀ x, f x = g x) → epoch_and_backup s e f = epoch_and_backup s e g.
Proof.
  intros H. unfold epoch_and_backup, sl_epoch_and_backup. destruct (svc_list s) as [l|]; [|done].
  rewrite (steward_from_ext _ _ _ f g H). f_equal. destruct (steward_from l e 0 g); [|done]. cbn.
  apply steward_from_ext. intros x. by rewrite H.
Qed.

(** C2: two members never fork. Members of one group that start in step, but for who
    counts as settled in the next [k] epochs, live on their own, each at its pace, and go
    through the same moments in the same order: messages of others, decisions,
    re-election retries, ended rounds. However far one of them is ahead of the other
    meanwhile, once both are past the last moment they hold the same epoch, the same
    members, the same voted work, the same steward list and the same operating mode. So
    they name the same epoch steward and backup. *)
Theorem members_never_fork k k' i j c1 c2 ms1 ms2 d1 d2 :
  in_step_from k i j c1 c2 → life j c1 ms1 d1 → life i c2 ms2 d2 → shared_moments i j k k' ms1 ms2 →
  mls_epoch d1 = mls_epoch d2 ∧ members_of d1 = members_of d2 ∧
  approved_proposals (c_queues d1) ≡ₚ approved_proposals (c_queues d2) ∧
  c_stewards d1 = c_stewards d2 ∧ c_mode d1 = c_mode d2 ∧
  epoch_and_backup (c_stewards d1) (mls_epoch d1) (eligible_of d1) =
    epoch_and_backup (c_stewards d2) (mls_epoch d2) (eligible_of d2).
Proof.
  intros H H1 H2 Hms. pose proof (life_in_step _ _ _ _ _ _ _ _ _ _ H H1 H2 Hms) as Hs. pose proof (in_step_epoch _ _ _ _ _ Hs) as He.
  pose proof (in_step_members _ _ _ _ _ Hs) as Hm. destruct Hs as [[_ _ [Ha _ _ _]] Hst _ Hmo _ _]. cbn in Ha.
  split_and!; [done..|]. rewrite Hst, He. apply authority_same. intros x. unfold eligible_of, steward_eligibility.
  rewrite Hm. f_equal. f_equal. by apply existsb_perm, (fmap_Permutation snd).
Qed.

(** A poll is made of such steps, whatever the fuel of the drain. *)
Lemma poll_is_moves fuel c : rtc move c (poll fuel c).1.
Proof. apply moves_poll. apply rtc_refl. Qed.
End steps.

(** ** At a concrete input *)

#[local] Existing Instances example_hash toy_mls toy_laws canonical_hash_iter toy_consensus toy_texts toy_codec
  toy_peers toy_peers_laws.

(** The members at leaves 0 and 2 of a room of three, once leaf 1 has sent its
    candidate: the invitation it commits is voted on but not decided yet. *)
Definition fork_session : Proposal := mk_proposal "invite" (encode_request (member_invite_request [x0c])) 5 [] [] 3 1 0 2000 true.
Definition fork_room (own : N) : Room :=
  conversation_new "g" (set_early [(3%N, peer_candidate)] (queues_new "g" 8)) (view own) room_scores
    (svc_set_list (mk_sl [member_id_of 0; member_id_of 1] slc_default 3 0) (svc_empty slc_default))
    (mk_engine {[ 5%N := fork_session ]} 7) (mk_sm Working) config_default (duration_from_secs 1000)
    (member_id_of own) [xaa].
Definition fork_decided (own : N) : Room := (handle_consensus_outcome (ConsensusReached 5 true 1000) (fork_room own)).1.
Definition fork_sent (own : N) : Room := (send_message [x68] (fork_decided own)).1.
Definition fork_ended (c : Room) : Room := (select_round (is_in_recovery_mode c) c).1.

Lemma fork_in_step : in_step 0 2 (fork_room 0) (fork_room 2).
Proof. split; [split; [split; [by split_and!|done]|done|split; [done|apply NoDup_nil_2|done..]]|done..]. Qed.

Lemma fork_resolves own : resolves (fork_room own) (ConsensusReached 5 true 1000) 5 true (member_invite_request [x0c]).
Proof. exists 1000%N, fork_session. split_and!; by vm_compute. Qed.

Lemma fork_candidates : round_candidates (round_state (fork_sent 0)) = [peer_buffered] ∧
  round_candidates (round_state (fork_decided 2)) = [peer_buffered].
Proof. split; by vm_compute. Qed.

(** Two members whose round holds the candidate of leaf 1. *)
Lemma peer_same i j (c1 c2 : Room) :
  (∀ k r, foreign i j (k :: x01 :: r)) →
  round_candidates (round_state c1) = [peer_buffered] → round_candidates (round_state c2) = [peer_buffered] →
  same_candidates i j c1 c2.
Proof.
  intros Hij E1 E2.
  assert (is_local_candidate peer_buffered = false ∧ foreign_candidate i j peer_buffered) as [Hl Hf].
  { split; [done|]. split; [intros p Hp; cbn in Hp; apply list_elem_of_singleton in Hp as ->|]; apply Hij. }
  split.
  - rewrite E1. apply (bool_decide_unpack _). by vm_compute.
  - by rewrite E1, E2.
  - intros x1 x2 Hx1 Hx2 Hs. rewrite E1 in Hx1. rewrite E2 in Hx2.
    apply list_elem_of_singleton in Hx1 as ->, Hx2 as ->. split; [done|by left].
  - intros x1 x2 Hx1 Hx2 Hs. rewrite E1 in Hx1. rewrite E2 in Hx2.
    apply list_elem_of_singleton in Hx1 as ->, Hx2 as ->. by left.
Qed.
Lemma fork_same : same_candidates 0 2 (fork_sent 0) (fork_decided 2).
Proof. apply peer_same; [apply view_foreign|apply fork_candidates..]. Qed.

Lemma members_never_fork_witness :
  ∃ d1 d2 : Room, mls_epoch d1 = 4%N ∧ mls_epoch d1 = mls_epoch d2 ∧ members_of d1 = members_of d2.
Proof.
  destruct (finalize_commit_round (c_stewards (fork_sent 0)) (is_in_recovery_mode (fork_sent 0)) (subset_allowed (fork_sent 0))
    (c_self (fork_sent 0)) (round_state (fork_sent 0))) as [t1 o1] eqn:E1.
  destruct (finalize_commit_round (c_stewards (fork_decided 2)) (is_in_recovery_mode (fork_decided 2)) (subset_allowed (fork_decided 2))
    (c_self (fork_decided 2)) (round_state (fork_decided 2))) as [t2 o2] eqn:E2.
  pose proof (f_equal snd E1) as H1. vm_compute in H1. subst o1.
  pose proof (f_equal snd E2) as H2. vm_compute in H2. subst o2.
  destruct (members_never_fork 0 0 0 2 (fork_room 0) (fork_room 2) [(fork_room 0, fork_decided 0); (fork_sent 0, fork_ended (fork_sent 0))]
    [(fork_room 2, fork_decided 2); (fork_decided 2, fork_ended (fork_decided 2))] (fork_ended (fork_sent 0))
    (fork_ended (fork_decided 2)) fork_in_step) as (He & Hm & _).
  - econstructor; [apply rtc_refl|]. econstructor; [|constructor; apply rtc_refl].
    apply rtc_once, solo_own, (own_step_call _ _ _ (own_send [x68])).
  - econstructor; [apply rtc_refl|]. econstructor; [apply rtc_refl|constructor; apply rtc_refl].
  - econstructor; [exact (both_decide 0 2 0 _ _ _ _ _ _ _ (fork_resolves 0) (fork_resolves 2) (λ H, H))|].
    econstructor; [|constructor]. refine (both_select 0 2 0 0 _ _ _ _ _ _ (or_introl (conj eq_refl (or_introl eq_refl))) fork_same (conj E1 _) (conj E2 _)); discriminate.
  - eexists _, _. split; [|split; [exact He|exact Hm]]. by vm_compute.
Defined.
