(* ===== verification/Fork.v ===== *)
(** * One commit, two members: together or apart

    A member merges its own commit without the action check its peers make
    ([apply_local_candidate] against [apply_incoming_candidate]). When the commit makes
    exactly the voted changes, both members of a round that holds nothing else land in
    the same epoch. When it does not, for which a decision that comes late or the batch
    limit is enough where subsets are allowed, its author goes on alone. *)

From S2P Require Import Prelude Time Machine Protos StewardList Mls Toy Buffer Queues Scoring CommitRound ApplyResult Config Display Conversation Room Voting Steward HandleOutcome Inbound Messaging Poll System Quiet Candidate Agreement Merge Wakeup Landing Succession InStep Lone Steps.

Section fork.
Context {HS : Hash} {OM : OpenMls} {OL : OpenMlsLaws} {PR : OpenMlsPeers} {PL : OpenMlsPeersLaws}.
Context {MR : OpenMlsMerge} {ML : OpenMlsMergeLaws}.
Context {CS : ConsensusLib} {CD : Codec} {CT : ConsensusTexts} {HI : HashIter}.
Context {St : Type} `{!PeerScoreStorage St, !ScoreWritesSucceed St}.
Implicit Types (c : Conversation St).

(** Each acts by itself, then both learn a decision. *)
Lemma late_in_step i j c1 c2 c1' c2' ev pid approved req :
  in_step i j c1 c2 → own_step c1 c1' → own_step c2 c2' →
  resolves c1' ev pid approved req → resolves c2' ev pid approved req → ¬ past_election (mls_epoch c1') req →
  in_step i j (handle_consensus_outcome ev c1').1 (handle_consensus_outcome ev c2').1.
Proof.
  intros Hi H1 H2 R1 R2 Hp. apply (both_in_step i j 0 0 (c1', c2') (_, _)); [by eapply both_decide|].
  apply (apart_in_step 0 i j c1 c2); [by apply rtc_once, solo_own..|done].
Qed.

(** C5: the voted commit lands for both. Two members in step end a round whose only
    candidate is one that the first built; its commit makes exactly the voted changes,
    and the other can read it and lets its author commit. Then both move to the epoch
    of that commit, with the members it leaves, no approved work left over, and in step
    again: the same steward list, mode and settled members. *)
Theorem voted_commit_lands i j c1 c2 own copy mls' d a t2 r2 :
  in_step i j c1 c2 → lone_round i c1 c2 own copy mls' d a → makes_voted (c_queues c1) a →
  reads_lone c2 copy → finishes c2 t2 r2 →
  let d1 := (select_round (is_in_recovery_mode c1) c1).1 in
  let d2 := (select_round (is_in_recovery_mode c2) c2).1 in
  in_step i j d1 d2 ∧
  (mls_epoch d1 = g_epoch (mls_group mls') ∧ members_of d1 = mls_members mls' ∧ approved_proposals (c_queues d1) = []) ∧
  (mls_epoch d2 = g_epoch (mls_group mls') ∧ members_of d2 = mls_members mls' ∧ approved_proposals (c_queues d2) = []).
Proof.
  intros Hi Hl Hv Hr H2. pose proof (lone_in_step _ _ _ _ _ _ _ _ _ _ _ _ Hi (or_introl eq_refl) Hl Hv Hr H2) as Hi'.
  destruct (author_lands _ _ _ _ (lr_own _ _ _ _ _ _ _ _ Hl)) as (E1 & E2 & E3). cbn zeta in *.
  split; [done|]. split; [done|]. rewrite <-E1, <-E2. split; [by rewrite (in_step_epoch _ _ _ _ _ Hi')|].
  split; [by rewrite (in_step_members _ _ _ _ _ Hi')|].
  pose proof (in_step_approved _ _ _ _ _ Hi') as Ha. rewrite E3 in Ha. by apply Permutation_nil in Ha.
Qed.

(** C6: any other commit forks the group. Two members in step end such a round, but the
    commit does not make the voted changes: it leaves some out or adds to them. The
    author merges it unchecked, moves to the epoch of its commit and forgets all the
    voted work, what was left out included. The other refuses the very same commit, and
    stays where it was. *)
Theorem unvoted_commit_forks i j c1 c2 own copy mls' d a t2 r2 :
  in_step i j c1 c2 → lone_round i c1 c2 own copy mls' d a → ¬ makes_voted (c_queues c1) a → finishes c2 t2 r2 →
  let d1 := (select_round (is_in_recovery_mode c1) c1).1 in
  let d2 := (select_round (is_in_recovery_mode c2) c2).1 in
  (mls_epoch d1 = g_epoch (mls_group mls') ∧ members_of d1 = mls_members mls' ∧ approved_proposals (c_queues d1) = []) ∧
  (mls_epoch d2 = mls_epoch c2 ∧ members_of d2 = members_of c2 ∧
   approved_proposals (c_queues d2) = approved_proposals (c_queues c2)).
Proof.
  intros Hi Hl Hno H2. split; [apply (author_lands _ _ _ _ (lr_own _ _ _ _ _ _ _ _ Hl))|].
  by apply (lone_stays _ _ _ _ _ _ _ _ _ _ _ _ Hi Hl Hno H2).
Qed.
End fork.

(** ** At a concrete input *)

#[local] Existing Instances example_hash toy_mls toy_laws canonical_hash_iter toy_consensus toy_texts toy_codec
  toy_peers toy_peers_laws.

(** The members at leaves 0 and 2 of a room of three in a recovery: the admission of
    key [0c] is voted on and decided, that of key [0e] not decided yet. *)
Definition rescue_session : Proposal := mk_proposal "invite" (encode_request (member_invite_request [x0e])) 6 [] [] 3 1 0 2000 true.
Definition rescue_room (own : N) : Room :=
  c_set_mode Recovery (conversation_new "g" round_queues (view own) room_scores
    (svc_set_list (mk_sl [member_id_of 0; member_id_of 1] slc_default 3 0) (svc_empty slc_default))
    (mk_engine {[ 6%N := rescue_session ]} 7) (mk_sm Freezing) config_default (duration_from_secs 1000)
    (member_id_of own) [xaa]).

(** Leaf 0 commits what is decided, leaf 2 receives that, then both learn the rest. *)
Definition rescue_candidate : CommitCandidate :=
  mk_candidate (name_bytes round_queues) [[x01; x00; x03; x0c]] [x03; x00; x03; x02; x01; x0c] (member_id_of 0).
Definition rescue_hash : bytes := compute_commit_hash (commit_message rescue_candidate).
Definition rescue_own : BufferedCommitCandidate :=
  mk_buffered rescue_candidate rescue_hash true
    (Some [x05; x00; x03; x04; x02; x02; x0d; x02; x03; x0c; x02; x01; x0b; x02; x00; x0a]) [[x0c]].
Definition rescue_copy : BufferedCommitCandidate := mk_buffered rescue_candidate rescue_hash false None [].
Definition rescue_payload : bytes := encode_app_message (to_app_message (AppCommitCandidate rescue_candidate)).
Definition rescue_late : ConsensusEvent := ConsensusReached 6 true 1000.
Definition rescue_author : Room := (commit_in_recovery (rescue_room 0)).1.
Definition rescue_peer : Room := (process_inbound [xbb] rescue_payload (rescue_room 2)).1.
Definition rescue_left : Room := (handle_consensus_outcome rescue_late rescue_author).1.
Definition rescue_right : Room := (handle_consensus_outcome rescue_late rescue_peer).1.

Lemma rescue_start : in_step 0 2 (rescue_room 0) (rescue_room 2).
Proof.
  split; [split; [split; [by split_and!|done]|done|split; [done|apply (bool_decide_unpack _); by vm_compute|done..]]|done..].
Qed.
Lemma rescue_commits : own_step (rescue_room 0) rescue_author.
Proof. exact (own_step_call _ _ _ own_commit). Qed.
Lemma rescue_receives : own_step (rescue_room 2) rescue_peer.
Proof.
  apply own_step_clear. exists (AppCommitCandidate rescue_candidate). split; [by vm_compute|]. left. by eexists.
Qed.
Lemma rescue_in_step : in_step 0 2 rescue_author rescue_peer ∧ in_step 0 2 rescue_left rescue_right.
Proof.
  split; [exact (apart_in_step _ _ _ _ _ _ _ (rtc_once _ _ (solo_own _ _ _ rescue_commits)) (rtc_once _ _ (solo_own _ _ _ rescue_receives)) rescue_start)|].
  refine (late_in_step 0 2 _ _ _ _ rescue_late 6 true (member_invite_request [x0e]) rescue_start rescue_commits rescue_receives
    _ _ (λ H, H)); exists 1000%N, rescue_session; split_and!; by vm_compute.
Qed.

(** The round of either moment: the candidate is the author's, and alone. *)
Lemma rescue_lone c1 c2 mls' r :
  (c1, c2) ∈ [(rescue_author, rescue_peer); (rescue_left, rescue_right)] →
  merge_own_commit (c_mls c1) = (mls', r) →
  ∃ d, lone_round 0 c1 c2 rescue_own rescue_copy mls' d [ToyAdd [x0c]] ∧ g_epoch (mls_group mls') = 4%N.
Proof.
  intros Hin E.
  assert (r = Ok (mk_delta [mk_member 3 [x0c] [x0c]] []) ∧ g_epoch (mls_group mls') = 4%N) as [-> He].
  { apply list_elem_of_In in Hin as [[= <- <-]|[[= <- <-]|[]]].
    all: split; [change r with (mls', r).2|change mls' with (mls', r).1]; rewrite <-E; by vm_compute. }
  exists (mk_delta [mk_member 3 [x0c] [x0c]] []). split; [|done].
  assert (subset_allowed c1 = true ∧ g_pending_commit (mls_group (c_mls c1)) = Some [ToyAdd [x0c]]) as [Hs Hp]
    by (apply list_elem_of_In in Hin as [[= <- <-]|[[= <- <-]|[]]]; split; by vm_compute).
  split; [rewrite Hs| |exact Hp| |done..].
  - split; [|done| | | |exact E]; apply list_elem_of_In in Hin as [[= <- <-]|[[= <- <-]|[]]]; try by vm_compute.
    all: apply N.leb_le; by vm_compute.
  - split; [intros p pm Hp'; cbn in Hp'; apply list_elem_of_singleton in Hp' as ->; by intros [= <-]|].
    eexists _, _. split_and!; [exact Hp| | |]; cycle 2; [by vm_compute|done..].
  - apply list_elem_of_In in Hin as [[= <- <-]|[[= <- <-]|[]]]; by vm_compute.
Qed.

Lemma rescue_voted : makes_voted (c_queues rescue_author) [ToyAdd [x0c]].
Proof.
  assert (voted_actions (c_queues rescue_author) = [(AkAdd, [x0c])]) as Hv by by vm_compute.
  unfold makes_voted. by rewrite Hv.
Qed.
Lemma rescue_read : reads_lone rescue_peer rescue_copy.
Proof.
  unfold reads_lone. split; [left; by vm_compute|].
  destruct (stage_candidate _ _ _) as [s r] eqn:E. pose proof (f_equal snd E) as H. vm_compute in H. subst r. by eexists _, _, _, _.
Qed.
Lemma rescue_partial : ¬ makes_voted (c_queues rescue_left) [ToyAdd [x0c]].
Proof.
  intros H. assert ((AkAdd, [x0e]) ∈ voted_actions (c_queues rescue_left)) as Hin%H by (apply (bool_decide_unpack _); by vm_compute).
  revert Hin. apply (bool_decide_unpack _). by vm_compute.
Qed.

Lemma voted_commit_lands_witness : ∃ d1 d2 : Room, mls_epoch d1 = 4%N ∧ mls_epoch d2 = 4%N ∧ in_step 0 2 d1 d2.
Proof.
  destruct (finalize_commit_round (c_stewards rescue_peer) (is_in_recovery_mode rescue_peer) (subset_allowed rescue_peer)
    (c_self rescue_peer) (round_state rescue_peer)) as [t2 o2] eqn:E2.
  pose proof (f_equal snd E2) as H2. vm_compute in H2. subst o2.
  eassert (finishes rescue_peer t2 _) as Hf by (split; [exact E2|discriminate]).
  destruct (merge_own_commit (c_mls rescue_author)) as [mls' r] eqn:Em.
  destruct (rescue_lone rescue_author rescue_peer mls' r (list_elem_of_here _ _) Em) as (d & Hl & He).
  pose proof (voted_commit_lands 0 2 rescue_author rescue_peer rescue_own rescue_copy mls' d [ToyAdd [x0c]] t2 _
    (proj1 rescue_in_step) Hl rescue_voted rescue_read Hf) as F. cbn zeta in F. destruct F as (Hi & (H1 & _) & H2 & _).
  eexists _, _. split; [exact (eq_trans H1 He)|]. split; [exact (eq_trans H2 He)|exact Hi].
Defined.

Lemma unvoted_commit_forks_witness : ∃ d1 d2 : Room, mls_epoch d1 = 4%N ∧ mls_epoch d2 = 3%N.
Proof.
  destruct (finalize_commit_round (c_stewards rescue_right) (is_in_recovery_mode rescue_right) (subset_allowed rescue_right)
    (c_self rescue_right) (round_state rescue_right)) as [t2 o2] eqn:E2.
  pose proof (f_equal snd E2) as H2. vm_compute in H2. subst o2.
  eassert (finishes rescue_right t2 _) as Hf by (split; [exact E2|discriminate]).
  assert (mls_epoch rescue_right = 3%N) as He2 by by vm_compute.
  destruct (merge_own_commit (c_mls rescue_left)) as [mls' r] eqn:Em.
  destruct (rescue_lone rescue_left rescue_right mls' r (list_elem_of_further _ _ _ (list_elem_of_here _ _)) Em) as (d & Hl & He).
  pose proof (unvoted_commit_forks 0 2 rescue_left rescue_right rescue_own rescue_copy mls' d [ToyAdd [x0c]] t2 _
    (proj2 rescue_in_step) Hl rescue_partial Hf) as F. cbn zeta in F. destruct F as ((H1 & _) & H2 & _).
  eexists _, _. split; [exact (eq_trans H1 He)|exact (eq_trans H2 He2)].
Defined.
