(* ===== verification/Newcomer.v ===== *)
(** * Elections in the epoch of a join

    Which members count for a steward list is read off the epochs at which the commits
    a member merged added them ([member_join_epoch]). A joiner has merged none, and the
    sync it adopts does not tell it: to the joiner everybody is settled, itself
    included, until the next commit. The lists the others elect in between are not the
    ones it computes. *)

From S2P Require Import Prelude Time Machine Protos StewardList Mls Toy Buffer Queues Scoring CommitRound ApplyResult Config Display Conversation Room Voting Steward HandleOutcome Inbound Messaging Poll Construct System Quiet Candidate Agreement Merge Elections Joining Wakeup Landing Succession InStep Steps.

Section newcomer.
Context {HS : Hash} {OM : OpenMls} {CS : ConsensusLib} {CD : Codec} {CT : ConsensusTexts} {HI : HashIter}.
Context {St : Type} `{!PeerScoreStorage St}.
Abbreviation Conv := (Conversation St).
Abbreviation conv := (method Conv).
Implicit Types (c : Conv).

(** No commit has added anybody yet. *)
Definition blank c : Prop := member_join_epoch (c_queues c) = ∅.

#[local] Instance blank_quiet : QuietStewards blank.
Proof. split; [split; [split|..]|]; unfold blank; intros *; cbn; congruence || done. Qed.
#[local] Instance blank_phase : AnyPhase blank.
Proof. by intros sm c. Qed.

Lemma blank_mls {A} (m : mls_method A) : preserves blank (on_mls m).
Proof. intros c Hc. unfold on_mls. by destruct (m (c_mls c)). Qed.
Lemma blank_edit f : (∀ q, member_join_epoch (f q) = member_join_epoch q) → preserves blank (edit_queues f).
Proof. intros Hf. apply preserves_modify. intros c Hc. unfold blank in *. cbn. by rewrite Hf. Qed.
Lemma blank_queues {A} (f : ConversationQueues → ConversationQueues * A) :
  (∀ q, member_join_epoch (f q).1 = member_join_epoch q) → preserves blank (on_queues f).
Proof. intros Hf c Hc. unfold on_queues. specialize (Hf (c_queues c)). destruct (f (c_queues c)). unfold blank in *. cbn in *. congruence. Qed.
Lemma blank_modify (f : Conv → Conv) : (∀ c, c_queues (f c) = c_queues c) → preserves blank (smodify f : conv unit).
Proof. intros Hf. apply preserves_modify. intros c Hc. unfold blank. by rewrite Hf. Qed.
Lemma blank_read {A} (f : Conv → result ConversationError A) : preserves blank (λ c, (c, f c)).
Proof. by intros c Hc. Qed.

Lemma receive_joins mls msg q : member_join_epoch (receive_commit_candidate mls msg q).1 = member_join_epoch q.
Proof.
  destruct (receive_eq mls msg q) as [[_ ->]|[_ (reason & -> & _)]]; [|done].
  destruct (_ =? 0)%N; [unfold stash_early_candidate; by case_match|]. by destruct (buffer_add _ _ _ _ _ _ _).
Qed.

#[local] Hint Resolve blank_mls blank_read : quiet.
#[local] Hint Extern 5 (preserves blank (smodify _)) => (by apply blank_modify) : quiet.
#[local] Hint Extern 5 (preserves blank (edit_queues _)) => (by apply blank_edit) : quiet.

Lemma blank_engine {A} (m : engine_call Engine A) c c' r : engine m c = (c', r) → blank c → blank c'.
Proof. intros E Hc. pose proof (quiet_on_engine blank m c Hc) as H. unfold on_engine in H. by rewrite E in H. Qed.

Lemma blank_decode payload : preserves blank (decode_inbound payload).
Proof.
  intros c Hc. unfold decode_inbound, on_round.
  assert ((decode_inbound_payload payload (c_queues c, c_mls c)).1.1 = (decode_inbound_payload payload (c_queues c, c_mls c)).1.1) as _ by done.
  assert (member_join_epoch (decode_inbound_payload payload (c_queues c, c_mls c)).1.1 = member_join_epoch (c_queues c)) as H.
  { unfold decode_inbound_payload.
    assert (member_join_epoch (decode_encrypted payload (c_queues c, c_mls c)).1.1 = member_join_epoch (c_queues c)) as He
      by by rewrite decode_mls.
    destruct (decode_app_message payload) as [[[m|]]|e]; [|done..]. destruct m; try done.
    - unfold sbind, sget, with_queues. cbn [fst snd]. pose proof (receive_joins (c_mls c) candidate (c_queues c)) as Hr.
      by destruct (receive_commit_candidate _ _ _).
    - case_bool_decide; [done|]. unfold sbind, with_queues, record_welcome_broadcast. by destruct (bs_insert _ _) as [b []]. }
  destruct (decode_inbound_payload _ _) as [[q s] r]. unfold blank in *. cbn in *. congruence.
Qed.
Lemma blank_mint : preserves blank mint_and_broadcast_candidate.
Proof. unfold mint_and_broadcast_candidate, build_local_candidate. quiet. Qed.
Lemma blank_freeze ev : preserves blank (on_freeze_entered ev).
Proof. pose proof blank_mint. unfold on_freeze_entered. quiet. Qed.
#[local] Hint Resolve blank_decode blank_mint blank_freeze : quiet.
Lemma blank_leave : preserves blank leave.
Proof.
  unfold leave, initiate_self_leave, submit_self_leave_proposal. quiet.
  intros c Hc. destruct (engine _ c) as [c1 r] eqn:E. apply (blank_engine _ _ _ _ E) in Hc. by repeat case_match.
Qed.
Lemma blank_timeout pid : preserves blank (resolve_on_timeout pid).
Proof.
  unfold resolve_on_timeout. apply preserves_bind; [apply preserves_get|]. intros a. case_match; [apply preserves_ret|].
  intros c Hc. destruct (engine _ c) as [c1 r] eqn:E. by apply (blank_engine _ _ _ _ E) in Hc.
Qed.
Lemma blank_vote pid v : preserves blank (broadcast_vote pid v).
Proof. unfold broadcast_vote. quiet. Qed.
#[local] Hint Resolve blank_leave blank_timeout blank_vote : quiet.
Lemma blank_pending req e : preserves blank (on_queues (insert_pending_update req e)).
Proof. apply blank_queues. intros q. unfold insert_pending_update. by repeat case_match. Qed.
#[local] Hint Resolve blank_pending : quiet.
Lemma blank_add kp v : preserves blank (propose_add kp v).
Proof. unfold propose_add. quiet. Qed.
Lemma blank_share : preserves blank share_conversation_sync.
Proof. unfold share_conversation_sync. quiet. Qed.
Lemma blank_proposal p : preserves blank (on_incoming_proposal p).
Proof.
  unfold on_incoming_proposal, take_incoming, mirror_incoming, schedule_incoming. quiet.
  unfold submit_incoming. quiet.
  intros c Hc. destruct (engine _ c) as [c1 [[]|e]] eqn:E; apply (blank_engine _ _ _ _ E) in Hc; [done|].
  match goal with |- blank (?m c1).1 => assert (preserves blank m) as Hm by quiet end. by apply Hm.
Qed.
Lemma blank_forward v : preserves blank (forward_incoming_vote v).
Proof.
  intros c Hc. unfold forward_incoming_vote.
  destruct (engine _ c) as [c1 [[]|e]] eqn:E; apply (blank_engine _ _ _ _ E) in Hc; [done|]. by destruct e.
Qed.
#[local] Hint Resolve blank_add blank_share blank_proposal blank_forward : quiet.
Lemma blank_dispatch r : preserves blank (dispatch_inbound_result r).
Proof.
  unfold dispatch_inbound_result, on_conversation_updated, prepare_self_leave, handle_incoming_update_request,
    on_commit_candidate_received, on_conversation_sync, apply_conversation_sync_to_entry, on_conversation_sync_request,
    cancel_all_auto_votes. quiet.
Qed.
#[local] Hint Resolve blank_dispatch : quiet.

Lemma blank_call A (m : conv A) : call A m → preserves blank m.
Proof.
  destruct 1.
  all: unfold process_inbound, apply_welcome_sync, send_message, request_conversation_sync, conv_add_member, sponsor_member,
    conv_remove_member, propose_score_removal, conv_vote, enter_recovery_mode, exit_recovery_mode, commit_in_recovery, resend_commit,
    handle_incoming_update_request, cancel_auto_vote.
  all: quiet.
Qed.
Lemma blank_drive A (m : conv A) : own_call A m → preserves blank m.
Proof.
  destruct 1.
  all: unfold send_message, request_conversation_sync, conv_add_member, sponsor_member, conv_remove_member,
    propose_score_removal, conv_vote, commit_in_recovery, resend_commit, tick_deadlines, drain_outcomes,
    drive_buffered_proposals, drain_buffered_updates, drive_sync_resend, drive_sync_request, start_freeze_on_inactivity,
    request_conversation_sync, check_steward_inactivity, cancel_auto_vote, maybe_auto_commit_recovery, handle_incoming_update_request.
  all: quiet.
Qed.
Lemma blank_retry : preserves blank drive_reelection_retry.
Proof. unfold drive_reelection_retry, advance_election_retry. quiet. Qed.
Lemma apply_joins pid approved req q :
  member_join_epoch (apply_consensus_result pid approved req q).1 = member_join_epoch q.
Proof. rewrite apply_consensus_result_eq. cbn zeta. by repeat case_match. Qed.
Lemma blank_apply pid approved req : preserves blank (on_queues (apply_consensus_result pid approved req)).
Proof. apply blank_queues, apply_joins. Qed.
Lemma blank_replay : preserves blank conv_replay_early_candidates.
Proof.
  apply preserves_modify. intros c Hc. destruct (replay_work (c_mls c) (c_queues c)) as (_ & _ & E).
  unfold blank. cbn -[replay_early_candidates]. cbn zeta in E. by rewrite E.
Qed.
#[local] Hint Resolve blank_apply blank_replay : quiet.
Lemma blank_election el : preserves blank (handle_election_accepted el).
Proof. unfold handle_election_accepted, exit_recovery_mode, resume_from_reelection, emit_phase_change. quiet. Qed.
#[local] Hint Resolve blank_election : quiet.
Lemma blank_decision ev : preserves blank (handle_consensus_outcome ev).
Proof.
  unfold handle_consensus_outcome, follow_up, handle_emergency_scored, resume_from_reelection, emit_phase_change,
    advance_election_retry, enter_recovery_mode, start_freezing_and_emit, refresh_stewards_after_removal,
    cancel_auto_vote, unregister_consensus_timeout, emit_phase_change. quiet.
Qed.
#[local] Hint Resolve blank_decision blank_retry : quiet.
Lemma blank_drain fuel : preserves blank (drain_outcomes fuel).
Proof.
  induction fuel as [|fuel IH]; [apply preserves_ret|]. cbn. apply preserves_bind.
  { intros c Hc. unfold try_recv. by destruct (c_bus c). }
  intros [ev|]; [|apply preserves_ret]. quiet.
Qed.
Lemma blank_deadlines fuel : preserves blank (tick_deadlines fuel).
Proof. pose proof (blank_drain fuel). unfold tick_deadlines. quiet. Qed.
Lemma blank_drives b : preserves blank (drive_all b).
Proof.
  unfold drive_all, drive_buffered_proposals, drain_buffered_updates, drive_sync_resend, drive_sync_request,
    start_freeze_on_inactivity, request_conversation_sync, check_steward_inactivity. quiet.
Qed.
Lemma blank_selects c t r :
  finishes c t r → rr_outcome r = NoCandidate → blank c → blank (select_round (is_in_recovery_mode c) c).1.
Proof.
  intros H Hr Hc. rewrite (select_finishes _ _ _ H). destruct H as [H _].
  rewrite finalize_as_loop in H.
  assert (blank (after_merge t (selecting c))) as Ht.
  { apply apply_loop_ok in H as [(pre & ch & post & s1 & pen & com & _ & _ & H & _)|(s1 & pen & Hd & _ & Hq)].
    - apply terminal_merges in H as (d & _ & _ & l & w & H). by rewrite Hr in H.
    - assert (s1.1 = (taken (round_state c)).1) as E.
      { clear Hq. induction Hd as [|? ? ? ? ? ? ? Ha _ IH]; [done|]. rewrite IH. by eapply apply_one_drop. }
      unfold blank. cbn. by rewrite Hq, E. }
  unfold conclude_round. rewrite Hr. unfold no_candidate, retry_or_exhaust_recovery, exit_recovery_mode, resume_working,
    emit_phase_change, clear_round_and_work.
  match goal with |- blank (?m _).1 => assert (preserves blank m) as Hm by quiet end. by apply Hm.
Qed.

Lemma blank_waits c : waits c → blank c → blank (advance_freezing c).1.
Proof.
  intros Hw Hc. unfold advance_freezing, sbind at 1, sget.
  destruct (bool_decide_reflect (current_state c = Freezing)) as [Hf|Hf]; cbn [negb].
  2: { match goal with |- blank (?m c).1 => assert (preserves blank m) as Hm by quiet end. by apply Hm. }
  specialize (Hw Hf) as [Ha Hwin]. cbn zeta in Ha, Hwin. set (rec := is_in_recovery_mode c) in *.
  set (m := (if rec then maybe_auto_commit_recovery else sret tt) : conv unit).
  assert ((m c).1 = if rec then (maybe_auto_commit_recovery c).1 else c) as Em by (subst m; by destruct rec).
  assert (blank (m c).1) as Hm by (rewrite Em; destruct rec; [by apply (blank_drive _ _ own_auto_commit)|done]).
  rewrite <-Em in Ha, Hwin. unfold sbind at 1. fold rec m. unfold sbind at 1. destruct (m c) as [c1 [[]|e]]; [|done]. cbn [fst] in *.
  unfold sbind at 1. cbn [id]. rewrite Ha, Hwin. cbn [negb andb].
  match goal with |- blank (?k c1).1 => assert (preserves blank k) as Hk by (unfold report_progress; quiet) end. by apply Hk.
Qed.

(** *** From the join to the next commit *)

(** Whatever a conversation goes through until a commit lands: calls, packets, decisions,
    the parts of a poll, and rounds that miss. *)
Inductive until_commit : Conv → Conv → Prop :=
  | uc_call A (m : conv A) c : call A m → until_commit c (m c).1
  | uc_commit A (m : conv A) c : own_call A m → until_commit c (m c).1
  | uc_clock now c : (c_now c ≤ now)%N → until_commit c (tick_clock now c)
  | uc_events c : until_commit c (drain_events c).1
  | uc_outbound c : until_commit c (drain_outbound c).1
  | uc_deadlines fuel c : until_commit c (tick_deadlines fuel c).1
  | uc_waits c : waits c → until_commit c (advance_freezing c).1
  | uc_misses t r c :
      finishes c t r → rr_outcome r = NoCandidate → until_commit c (select_round (is_in_recovery_mode c) c).1
  | uc_drives leaving c : until_commit c (drive_all leaving c).1.

Lemma until_commit_blank c c' : until_commit c c' → blank c → blank c'.
Proof.
  destruct 1 as [A m c Hm|A m c Hm|now c _|c|c|fuel c|c Hw|t r c H Hr|leaving c]; intros Hc.
  - by apply (blank_call _ _ Hm).
  - by apply (blank_drive _ _ Hm).
  - done.
  - done.
  - done.
  - by apply blank_deadlines.
  - by apply blank_waits.
  - by eapply blank_selects.
  - by apply blank_drives.
Qed.


Section join.
Context {SU : OpenMlsSetup}.
Lemma join_blank p welcome sync e scoring now app cfg c :
  join p welcome sync e scoring now app cfg = Ok (Some c) → blank c.
Proof.
  unfold join. destruct (new_from_welcome p welcome) as [[mls|]|]; [|done..]. cbn [result_map_err result_bind].
  destruct (assemble _ _ _ _ _ _ _ _) as [c0|] eqn:Ha; [|done]. cbn [result_bind].
  assert (blank c0) as H0.
  { unfold assemble in Ha. destruct (config_validate cfg); [|done]. cbn in Ha. destruct (validate_config scoring); [|done]. cbn in Ha.
    by injection Ha as <-. }
  assert (preserves blank (on_joined ;! apply_welcome_sync sync)) as Hj by (unfold on_joined, apply_welcome_sync; quiet).
  specialize (Hj c0 H0). destruct ((on_joined ;! apply_welcome_sync sync) c0) as [c1 [[]|]]; [|done]. by intros [= <-].
Qed.
End join.

(** *** What a blank member makes of an election *)

Lemma blank_pool c e : blank c → candidate_pool c e = members_of c.
Proof. intros Hc. unfold candidate_pool. apply filterb_all. intros m _. unfold is_settled. by rewrite Hc. Qed.

Lemma list_size_small cfg n : (n ≤ sn_max cfg)%N → compute_list_size cfg n = n.
Proof. intros Hn. unfold compute_list_size, size_bounds. destruct (_ <? _)%N; cbn; lia. Qed.

Lemma pool_smaller c e m :
  m ∈ members_of c → is_settled (c_queues c) m e = false → (len (candidate_pool c e) < len (members_of c))%N.
Proof.
  intros [l Hl]%elem_of_Permutation Hs. unfold candidate_pool.
  rewrite (len_perm _ _ (filterb_perm _ _ _ Hl)), (len_perm _ _ Hl), filterb_cons, Hs. unfold len. cbn [length].
  pose proof (length_filterb (λ m, is_settled (c_queues c) m e) l). lia.
Qed.

Lemma validate_len proposed e cid ids cfg r :
  validate proposed e cid ids cfg r = Ok true → len proposed = compute_list_size cfg (len ids).
Proof.
  unfold validate. destruct ids as [|i ids]; [done|]. by destruct (N.eqb_spec (len proposed) (compute_list_size cfg (len (i :: ids)))).
Qed.
Lemma validate_other proposed e cid ids cfg r :
  ids ≠ [] → len proposed ≠ compute_list_size cfg (len ids) → validate proposed e cid ids cfg r = Ok false.
Proof. intros Hne Hl. unfold validate. destruct ids; [done|]. by rewrite (proj2 (N.eqb_neq _ _) Hl). Qed.

(** The others put the elected list in place, whatever follows. *)
Lemma election_installs el c :
  cfg_wf (svc_config (c_stewards c)) → validate_election_list c el = Ok true →
  svc_list (c_stewards (handle_election_accepted el c).1) =
    Some (mk_sl (proposed_stewards el) (svc_config (c_stewards c)) (el_election_epoch el) (el_retry_round el)).
Proof.
  intros Hwf Hv. set (l := mk_sl _ _ _ _). assert (Quiet (λ c' : Conv, svc_list (c_stewards c') = Some l)) as Hq by by split.
  assert (AnyPhase (λ c' : Conv, svc_list (c_stewards c') = Some l)) as Hp by by intros sm c'.
  unfold handle_election_accepted, sbind at 1. rewrite Hv. cbn [negb].
  pose proof Hv as Hg. unfold validate_election_list, validate_proposed in Hg.
  eapply (validated_installs_verbatim _ _ _ _ _ (svc_config (c_stewards c))) in Hg; [|done..].
  unfold sbind at 1, on_stewards, szoom, install_list. rewrite Hg.
  match goal with |- _ (c_stewards (?m ?c1).1) = _ =>
    assert (preserves (λ c' : Conv, svc_list (c_stewards c') = Some l) m) as Hm; [|by apply (Hm c1)] end.
  unfold resume_from_reelection, emit_phase_change, exit_recovery_mode, share_conversation_sync. quiet.
Qed.

Section theorem.
Context {SU : OpenMlsSetup}.

(** C15: a newcomer stands alone in an election of the epoch it joined in. Another member
    of the same group, under the same settings, merged the commit that admitted
    somebody, the newcomer for one, and does not count that member for the lists of
    this epoch. The newcomer, until a commit lands, whatever else it goes through, does
    count everybody. As long as the group fits into one list, an election that the
    others accept is invalid to it: they install the elected list, it keeps the one it
    has, and stays in [Reelection] and in the recovery if that is where it was. And as
    long as its own list lasts, no synchronisation makes up for it. *)
Theorem newcomer_misses_election p welcome sync e scoring now app cfg c0 c other m el :
  join p welcome sync e scoring now app cfg = Ok (Some c0) → rtc until_commit c0 c →
  members_of c = members_of other → svc_conversation_id (c_stewards c) = svc_conversation_id (c_stewards other) →
  svc_config (c_stewards c) = svc_config (c_stewards other) → cfg_wf (svc_config (c_stewards other)) →
  m ∈ members_of other → is_settled (c_queues other) m (el_election_epoch el) = false →
  (len (members_of other) ≤ sn_max (svc_config (c_stewards other)))%N →
  validate_election_list other el = Ok true →
  svc_list (c_stewards (handle_election_accepted el other).1) =
    Some (mk_sl (proposed_stewards el) (svc_config (c_stewards other)) (el_election_epoch el) (el_retry_round el)) ∧
  validate_election_list c el = Ok false ∧ handle_election_accepted el c = (c, Ok tt) ∧
  (svc_list (c_stewards c) ≠ None → is_exhausted (c_stewards c) (mls_epoch c) = false →
   ∀ shared, c_stewards (on_conversation_sync shared c).1 = c_stewards c).
Proof.
  intros Hj Hs Hms Hid Hcfg Hwf Hm Hset Hsmall Hv. assert (blank c) as Hb.
  { apply join_blank in Hj. clear -Hj Hs. induction Hs as [|c c1 c2 Hs _ IH]; [done|]. by eapply IH, until_commit_blank. }
  split; [by apply election_installs|]. assert (validate_election_list c el = Ok false) as Hf.
  { pose proof (pool_smaller _ _ _ Hm Hset) as Hlt. apply validate_len in Hv. unfold validate_election_list, validate_proposed.
    rewrite (blank_pool _ _ Hb), Hms. apply validate_other; [by intros E; rewrite E in Hm; apply elem_of_nil in Hm|].
    rewrite Hv, Hcfg, !list_size_small by lia. lia. }
  split; [done|]. split; [unfold handle_election_accepted, sbind at 1; by rewrite Hf|].
  intros Hl Hx shared. rewrite on_sync_eq. unfold keeps_list, svc_election_epoch, is_some_and. rewrite Hx.
  by destruct (svc_list (c_stewards c)).
Qed.
End theorem.
End newcomer.

(** ** At a concrete input *)

#[local] Existing Instances example_hash toy_mls canonical_hash_iter toy_consensus toy_texts toy_codec.

(** Leaf 0 has merged the commit that took leaf 1 in at epoch 4; leaf 1 joins with the
    list of epoch 3 and sends a message; the first elects itself. *)
Definition enlarged_group : ToyGroup := mk_toy {[ 0%N := [x0a]; 1%N := [x0b] ]} 4 0 [] None.
Definition newcomer_join : res (option Room) :=
  join (St := InMemoryPeerScoreStorage) [x0b] (x05 :: x00 :: x03 :: toy_welcome enlarged_group) [x04; x00; x04; x34] (mk_engine ∅ 7) no_scores 0 [xbb] config_default.
Definition newcomer_room : Room := match newcomer_join with Ok (Some c) => (send_message [x68] c).1 | _ => room end.
Definition welcoming_room : Room :=
  conversation_new "g" (set_joins {[ member_id_of 1 := 4%N ]} (queues_new "g" 8)) (mk_mls (OM := toy_mls) "g" enlarged_group None)
    room_scores (set_config (mk_slc 1 2 false) room_stewards) (mk_engine ∅ 7) (mk_sm Reelection) config_default 0 (member_id_of 0) [xaa].
Definition sole_election : StewardElectionProposal := mk_election [member_id_of 0] 4 1.

Lemma newcomer_misses_election_witness :
  svc_list (c_stewards (handle_election_accepted sole_election welcoming_room).1)
    = Some (mk_sl [member_id_of 0] (mk_slc 1 2 false) 4 1) ∧
  handle_election_accepted sole_election newcomer_room = (newcomer_room, Ok tt) ∧
  ∀ shared, c_stewards (on_conversation_sync shared newcomer_room).1 = c_stewards newcomer_room.
Proof.
  assert (∃ c0, newcomer_join = Ok (Some c0)) as [c0 E].
  { assert (match newcomer_join with Ok (Some _) => true | _ => false end = true) as H by by vm_compute.
    destruct newcomer_join as [[c0|]|]; [by exists c0|done..]. }
  assert (newcomer_room = (send_message [x68] c0).1) as Hr by (unfold newcomer_room; by rewrite E).
  destruct (newcomer_misses_election _ _ _ _ _ _ _ _ c0 newcomer_room welcoming_room (member_id_of 1) sole_election E)
    as (H1 & _ & H2 & H3).
  - rewrite Hr. apply rtc_once, (uc_call _ _ c0 (call_send_message [x68])).
  - by vm_compute.
  - by vm_compute.
  - by vm_compute.
  - clear E Hr. split; by vm_compute.
  - apply (bool_decide_unpack _). by vm_compute.
  - by vm_compute.
  - by vm_compute.
  - by vm_compute.
  - split; [exact H1|]. split; [exact H2|]. apply H3; [|by vm_compute].
    intros Hn. apply (f_equal (λ l, bool_decide (l = None))) in Hn. by vm_compute in Hn.
Defined.
