(* ===== verification/Arrival.v ===== *)
(** * A joiner is in step with whoever let it in

    What [join] makes of a welcome and of a member's sync: a conversation without work,
    with the member's steward list and settings. The two remember different joins, the
    joiner none, so they are in step from the next epoch on, and [Steps] takes over. *)

From S2P Require Import Prelude Time Machine Protos StewardList Mls Toy Buffer Queues Scoring CommitRound ApplyResult Config Display Conversation Room Voting Steward HandleOutcome Inbound Messaging Poll Construct Invariant System Quiet Candidate Agreement Merge Elections Joining Wakeup Landing Succession InStep Lone Steps.

Section arrival.
Context {HS : Hash} {OM : OpenMls} {SU : OpenMlsSetup} {PR : OpenMlsPeers} {MR : OpenMlsMerge}.
Context {OL : OpenMlsLaws} {PL : OpenMlsPeersLaws} {ML : OpenMlsMergeLaws}.
Context {CS : ConsensusLib} {CD : Codec} {CT : ConsensusTexts} {HI : HashIter}.
Context {St : Type} `{!PeerScoreStorage St, !ScoreWritesSucceed St}.
Abbreviation Conv := (Conversation St).
Abbreviation conv := (method Conv).
Implicit Types (c : Conv).

(** ** What a joiner goes through *)

(** The group of the welcome once the joiner has announced itself. *)
Definition announced (mls : MlsService) : MlsService :=
  (build_message (to_app_message (AppMembershipChange (mls_conversation_id mls)
    (be_bytes 4 (g_own_leaf_index (mls_group mls))) type_membership_change_add)) mls).1.

(** The bytes that came with the welcome are [sync] to the joiner. *)
Definition reads_sync (cfg : ConversationConfig) (mls : MlsService) (payload : bytes) (sync : ConversationSync) : Prop :=
  payload ≠ [] ∧
  (decode_inbound_payload payload (queues_new (mls_conversation_id mls) (dedup_window cfg), announced mls)).2 =
    Ok (ConversationSyncReceived sync).

Lemma sync_calm sync c0 : preserves (calm c0) (on_conversation_sync sync).
Proof.
  unfold on_conversation_sync, apply_conversation_sync_to_entry, apply_score_snapshot. quiet.
  all: apply preserves_modify; intros c []; by split.
Qed.

Lemma joined_parts c c' :
  on_joined c = (c', Ok tt) →
  calm_list c (c_stewards c) c' ∧ c_queues c' = c_queues c ∧
  c_mls c' = (build_message (to_app_message (AppMembershipChange (c_id c) (c_self c) type_membership_change_add)) (c_mls c)).1.
Proof.
  intros H. assert (preserves (calm_list c (c_stewards c)) on_joined) as Hq. { unfold on_joined. quiet. by intros x Hx. }
  specialize (Hq c (calm_list_refl c)). rewrite H in Hq. split; [done|]. clear Hq.
  unfold on_joined, sbind at 1, sget in H. cbn [id] in H. unfold sbind at 1, on_mls in H.
  destruct (build_message _ (c_mls c)) as [mls [payload|e]]; [|done]. cbn [result_map_err fst] in *.
  revert H. set (P := λ c' : Conv, c_queues c' = c_queues c ∧ c_mls c' = mls).
  assert (∀ b, preserves P (broadcast b)) as Hb by (intros; by apply preserves_modify).
  assert (∀ A (m : method (PeerScoringService St) A), preserves P (on_scoring m)) as Ho
    by (intros A m x Hx; unfold on_scoring, szoom; by destruct (m _)).
  match goal with |- ?m ?c1 = _ → _ => assert (preserves P m) as Hm end.
  { unfold sync_scoring_members. apply preserves_bind; [done|]. intros _. apply preserves_bind; [by intros x Hx|]. intros. quiet. }
  intros H. specialize (Hm (c_set_mls mls c) (conj eq_refl eq_refl)). by rewrite H in Hm.
Qed.

Lemma join_synced p welcome payload e scoring now app cfg mls sync c :
  join p welcome payload e scoring now app cfg = Ok (Some c) → new_from_welcome p welcome = Ok (Some mls) →
  reads_sync cfg mls payload sync →
  ∃ c0 c1 s1, assemble (mls_conversation_id mls) mls scoring e now app cfg false = Ok c0 ∧ calm_list c0 (c_stewards c0) c1 ∧
    pending_staged_commit s1 = pending_staged_commit (c_mls c0) ∧ on_conversation_sync sync (c_set_mls s1 c1) = (c, Ok tt).
Proof.
  intros Hj Hw [Hne Hr]. unfold join in Hj. rewrite Hw in Hj. cbn [result_map_err result_bind] in Hj.
  destruct (assemble _ _ _ _ _ _ _ _) as [c0|] eqn:Ha; [|done]. cbn [result_bind] in Hj.
  destruct ((on_joined ;! apply_welcome_sync payload) c0) as [c' [[]|]] eqn:Hs; [|done]. injection Hj as <-.
  rewrite sbind_ok in Hs. destruct Hs as (c1 & [] & Hc1 & Hs). apply joined_parts in Hc1 as (Hcalm & Hq & Hm).
  assert (c_queues c0 = queues_new (mls_conversation_id mls) (dedup_window cfg) ∧ c_mls c0 = mls ∧
    c_id c0 = mls_conversation_id mls ∧ c_self c0 = be_bytes 4 (g_own_leaf_index (mls_group mls))) as (Q0 & M0 & I0 & S0).
  { unfold assemble in Ha. destruct (config_validate cfg); [|done]. cbn in Ha. destruct (validate_config scoring); [|done]. cbn in Ha.
    by injection Ha as <-. }
  rewrite Q0 in Hq. rewrite M0, I0, S0 in Hm. fold (announced mls) in Hm. rewrite <-Hq, <-Hm in Hr.
  assert (¬ in_clear payload) as Hn by (intros Hc; exact (clear_decodes _ _ _ Hc Hr)).
  exists c0, c1, (decrypt_application_only payload (c_mls c1)).1. split; [done|]. split; [done|].
  destruct (decrypt_public payload (c_mls c1)) as [_ Hp]. split.
  { rewrite Hp, M0, Hm. unfold announced. apply build_group. }
  unfold apply_welcome_sync in Hs. rewrite bool_decide_false in Hs by done. rewrite sbind_ok in Hs. destruct Hs as (c2 & r & Hd & Hs).
  rewrite decode_eq in Hd by done. rewrite not_clear_decode in Hr by done. injection Hd as <- Hd. rewrite Hr in Hd. injection Hd as <-.
  rewrite sbind_ok in Hs. destruct Hs as (c3 & o & Hs & [= ->]). cbn [dispatch_inbound_result] in Hs.
  rewrite sbind_ok in Hs. destruct Hs as (c4 & [] & Hs & [= -> _]). exact Hs.
Qed.
(** A joiner before any sync. *)
Lemma assembled id mls scoring e now app cfg c :
  assemble id mls scoring e now app cfg false = Ok c →
  c_id c = id ∧ c_mls c = mls ∧ approved_proposals (c_queues c) = [] ∧ urgent_commit_target (c_queues c) = None ∧
  member_join_epoch (c_queues c) = ∅ ∧ is_in_recovery_mode c = false ∧ recovery_max_rounds (c_config c) = recovery_max_rounds cfg ∧
  c_stewards c = mk_svc None (steward_list_config cfg) (String.list_byte_of_string id) 0 (max_reelection_attempts cfg).
Proof.
  unfold assemble. destruct (config_validate cfg); [|done]. cbn. destruct (validate_config scoring); [|done]. cbn. by intros [= <-].
Qed.

(** ** The member that lets it in *)

(** It has no work and no recovery under way, and a list for its settings. *)
Record at_rest c (l : StewardList) : Prop := {
  ar_approved : approved_proposals (c_queues c) = [];
  ar_urgent : urgent_commit_target (c_queues c) = None;
  ar_idle : pending_staged_commit (c_mls c) = None;
  ar_mode : c_mode c = Normal;
  ar_joins : ∀ m epoch, m ∈ members_of c → member_join_epoch (c_queues c) !! m = Some epoch → (epoch ≤ mls_epoch c)%N;
  ar_list : svc_list (c_stewards c) = Some l;
  ar_current : list_current c l;
  ar_epoch : (sl_election_epoch l ≤ mls_epoch c)%N;
  ar_bounds : sl_config l = svc_config (c_stewards c);
  ar_size : (sn_max (sl_config l) ≤ u32_max)%N;
  ar_salt : svc_conversation_id (c_stewards c) = String.list_byte_of_string (c_id c);
  ar_round : next_election_round (c_stewards c) = 0%N;
}.

Lemma synced_bounds c scores l : at_rest c l → synced_config (conversation_sync_of c scores l) = svc_config (c_stewards c).
Proof.
  intros [_ _ _ _ _ _ [[Hlo Hhi] _] _ Hb Hsz _ _]. unfold synced_config. cbn [sync_sn_min sync_sn_max sync_allow_subset_candidates conversation_sync_of].
  unfold as_u32. unfold u32_max in *. rewrite !N.mod_small by lia. rewrite Hb. by destruct (svc_config (c_stewards c)).
Qed.

(** The joiner ends with the holder's stewards. *)
Lemma synced_stewards holder scores l c c' :
  at_rest holder l →
  c_id c = c_id holder → members_of c = members_of holder → mls_epoch c = mls_epoch holder →
  svc_list (c_stewards c) = None → svc_conversation_id (c_stewards c) = String.list_byte_of_string (c_id c) →
  next_election_round (c_stewards c) = 0%N →
  on_conversation_sync (conversation_sync_of holder scores l) c = (c', Ok tt) → svc_list (c_stewards c') ≠ None →
  c_stewards c' = c_stewards holder.
Proof.
  intros Hrest Hid Hm He Hl Hsalt Hround H Had. pose proof (synced_bounds holder scores l Hrest) as Hcfg.
  destruct Hrest as [_ _ _ _ _ Hlist Hcur Hle Hb Hsz Hhs Hhr].
  rewrite on_sync_eq in H. unfold keeps_list, svc_election_epoch in H. rewrite Hl in H. cbn [fmap option_fmap option_map is_some_and] in H.
  destruct (validate_conversation_sync _ _ _ _) as [[]|] eqn:Hv; [|by simplify_eq|done].
  rewrite sbind_ok in H. destruct H as (c1 & [] & Ha & E%smodify_ok). subst c'.
  apply apply_sync_ok in Ha as (Hst & _); [|by apply validate_sync_iff|done]. cbn [c_stewards c_set_events c_set_timing] in *.
  assert (c_stewards holder = mk_svc (Some (mk_sl (sl_members l) (svc_config (c_stewards holder)) (sl_election_epoch l) (sl_retry_round l)))
    (svc_config (c_stewards holder)) (String.list_byte_of_string (c_id holder)) 0 (max_retries (c_stewards holder))) as E.
  { rewrite <-Hb at 1. replace (mk_sl _ _ _ _) with l by by destruct l. rewrite <-Hlist, <-Hhs, <-Hhr. by destruct (c_stewards holder). }
  rewrite Hst, Hcfg, Hround, Hsalt, Hid. etransitivity; [|symmetry; exact E]. done.
Qed.
Lemma welcomed_idle p welcome mls : new_from_welcome p welcome = Ok (Some mls) → pending_staged_commit mls = None.
Proof.
  unfold new_from_welcome. destruct (mls_message_in welcome); [|done]. cbn. destruct (extract_welcome _); [|done].
  destruct (staged_welcome_new _ _) as [sw|[]]; [|done..]. destruct (into_group _ _); [|done]. cbn. by intros [= <-].
Qed.

Lemma arrival_in_step i j p welcome payload e scoring now app cfg mls holder scores l c :
  join p welcome payload e scoring now app cfg = Ok (Some c) → new_from_welcome p welcome = Ok (Some mls) →
  reads_sync cfg mls payload (conversation_sync_of holder scores l) → at_rest holder l →
  svc_list (c_stewards c) ≠ None →
  mls_conversation_id mls = c_id holder → recovery_max_rounds cfg = recovery_max_rounds (c_config holder) →
  peers i j (mls_group (c_mls c)) (mls_group (c_mls holder)) →
  in_step_from 1 i j c holder.
Proof.
  intros Hj Hw Hr Hrest Had Hid Hlim Hp.
  destruct (join_synced _ _ _ _ _ _ _ _ _ _ _ Hj Hw Hr) as (c0 & c1 & s1 & Ha & [K1 Hst] & Hs1 & Hsync).
  apply assembled in Ha as (I0 & M0 & A0 & U0 & J0 & R0 & L0 & S0).
  pose proof (sync_calm (conversation_sync_of holder scores l) _ _ (calm_refl (c_set_mls s1 c1))) as K2.
  rewrite Hsync in K2. cbn [fst] in K2. destruct (cm_public _ _ K2) as [Hm2 He2].
  assert (members_of (c_set_mls s1 c1) = members_of holder) as Hm.
  { unfold members_of, mls_members. cbn in *. by rewrite <-(peers_members _ _ _ _ Hp), Hm2. }
  assert (mls_epoch (c_set_mls s1 c1) = mls_epoch holder) as He.
  { unfold mls_epoch. cbn in *. by rewrite <-(peers_epoch _ _ _ _ Hp), He2. }
  rewrite S0 in Hst. assert (c_stewards c = c_stewards holder) as Hstew.
  { apply (synced_stewards holder scores l (c_set_mls s1 c1) c); try done; cbn [c_id c_stewards c_set_mls]; rewrite ?Hst; try done.
    - rewrite (cm_id _ _ K1). congruence.
    - by rewrite (cm_id _ _ K1), I0. }
  destruct K1 as [A1 U1 J1 I1 O1 _ L1 _ _ _], K2 as [A2 U2 J2 I2 O2 _ L2 P2 _ _]. cbn in *.
  destruct Hrest as [RA RU RI RM RJ _ _ _ _ _ _ _].
  assert (pending_staged_commit (c_mls c) = None) as Hidle by (rewrite P2, Hs1, M0; by eapply welcomed_idle).
  assert (approved_proposals (c_queues c) = []) as Happ by congruence.
  assert (member_join_epoch (c_queues c) = ∅) as Hjoin by congruence.
  split; [split; cbn|..].
  - split; [done|]. by rewrite RI, Hidle.
  - done.
  - split; [by rewrite Happ, RA|rewrite Happ; by apply NoDup_nil_2|congruence|].
    intros m epoch Hin Hle. unfold is_settled. rewrite Hjoin, lookup_empty.
    unfold mls_members in Hin. rewrite (peers_members _ _ _ _ Hp) in Hin. rewrite (peers_epoch _ _ _ _ Hp) in Hle.
    destruct (member_join_epoch (c_queues holder) !! m) as [je|] eqn:Ej; [|done].
    symmetry. apply N.ltb_lt. specialize (RJ m je Hin Ej). unfold mls_epoch in RJ. lia.
  - done.
  - congruence.
  - unfold is_in_recovery_mode in R0. apply bool_decide_eq_false in R0. rewrite RM. destruct (c_mode c); congruence.
  - unfold is_in_recovery_mode in *. apply bool_decide_eq_false in R0. intros H%bool_decide_eq_true. congruence.
  - congruence.
Qed.

(** C3: whoever joins a conversation never forks from the member that let it in. That
    member is at rest: it has no approved work, urgent target or staged commit, no
    recovery and no failed election behind it; its steward list is the one it would
    generate, not newer than its epoch and under its own settings, and it counts no
    join as later than its epoch. A member that opens a welcome of the same conversation, reads
    that member's sync with it and adopts the list, is configured with the same limit of recovery
    rounds, and is in the same group, has the holder's stewards. From there, each
    living on its own and both going through the same moments, over score storages
    that take every write, the two hold the same epoch, members, approved work, steward
    list and mode. They may count differently for a list of the current epoch who has
    settled in; once they have landed a commit together they agree on that for the
    next epochs too. *)
Theorem joiner_never_forks i j p welcome payload e scoring now app cfg mls holder scores l c k' ms1 ms2 d1 d2 :
  join p welcome payload e scoring now app cfg = Ok (Some c) → new_from_welcome p welcome = Ok (Some mls) →
  reads_sync cfg mls payload (conversation_sync_of holder scores l) → at_rest holder l →
  svc_list (c_stewards c) ≠ None →
  mls_conversation_id mls = c_id holder → recovery_max_rounds cfg = recovery_max_rounds (c_config holder) →
  peers i j (mls_group (c_mls c)) (mls_group (c_mls holder)) →
  life j c ms1 d1 → life i holder ms2 d2 → shared_moments i j 1 k' ms1 ms2 →
  c_stewards c = c_stewards holder ∧
  mls_epoch d1 = mls_epoch d2 ∧ members_of d1 = members_of d2 ∧
  approved_proposals (c_queues d1) ≡ₚ approved_proposals (c_queues d2) ∧
  c_stewards d1 = c_stewards d2 ∧ c_mode d1 = c_mode d2 ∧
  ∀ m epoch, m ∈ members_of d1 → (k' + mls_epoch d1 ≤ epoch)%N →
    is_settled (c_queues d1) m epoch = is_settled (c_queues d2) m epoch.
Proof.
  intros Hj Hw Hr Hrest Had Hid Hlim Hp H1 H2 Hsh.
  pose proof (arrival_in_step _ _ _ _ _ _ _ _ _ _ _ _ _ _ _ Hj Hw Hr Hrest Had Hid Hlim Hp) as Hs.
  split; [apply (is_stewards _ _ _ _ _ Hs)|]. pose proof (life_in_step _ _ _ _ _ _ _ _ _ _ Hs H1 H2 Hsh) as Hd.
  split; [by eapply in_step_epoch|]. split; [by eapply in_step_members|]. destruct Hd as [[_ _ [Ha _ _ Hse]] Hst _ Hmo _ _].
  by split_and!.
Qed.
End arrival.

(** ** At a concrete input *)

#[local] Existing Instances example_hash toy_mls toy_laws canonical_hash_iter toy_consensus toy_texts toy_codec
  toy_peers toy_peers_laws.

(** Leaf 2 joins the room of three at the epoch of the list, over an engine that knows
    of the invitation under vote; it receives the candidate of leaf 1. *)
Definition arrival_engine : ToyEngine := mk_engine {[ 5%N := fork_session ]} 7.
Definition arrival_sync : bytes := [x04; x00; x03] ++ toy_encode_app (to_app_message (AppConversationSync (toy_sync_of [member_id_of 2]))).
Definition arrival_join : res (option Room) :=
  join (St := InMemoryPeerScoreStorage) [x0d] (x05 :: x00 :: x03 :: toy_welcome (mls_group (view 0))) arrival_sync arrival_engine
    no_scores (duration_from_secs 1000) [xbb] config_default.
Definition arrived : Room := match arrival_join with Ok (Some c) => c | _ => room end.
Definition arrival_candidate : bytes := toy_encode_app (to_app_message (AppCommitCandidate peer_candidate)).
Definition arrival_heard : Room := (process_inbound [xaa] arrival_candidate arrived).1.

(** Leaf 0 counts leaf 2 as new. *)
Definition arrival_list : StewardList := mk_sl [member_id_of 0; member_id_of 1] (mk_slc 1 2 false) 3 0.
Definition arrival_holder : Room :=
  conversation_new "g" (set_early [(3%N, peer_candidate)] (set_joins {[ member_id_of 2 := 3%N ]} (queues_new "g" 8))) (view 0) room_scores
    (mk_svc (Some arrival_list) (mk_slc 1 2 false) [x67] 0 2) arrival_engine (mk_sm Working) config_default
    (duration_from_secs 1000) (member_id_of 0) [xaa].
Definition arrival_decided (c : Room) : Room := (handle_consensus_outcome (ConsensusReached 5 true 1000) c).1.

Lemma arrival_rest : at_rest arrival_holder arrival_list.
Proof.
  split; try done; try by vm_compute.
  intros m epoch _. cbn [arrival_holder conversation_new c_queues set_early set_joins member_join_epoch].
  intros [_ <-]%lookup_singleton_Some. by vm_compute.
Qed.

Lemma arrival_clear : in_clear arrival_candidate.
Proof. eexists. split; [by vm_compute|]. left. by eexists. Qed.
Lemma arrival_resolves c :
  c_engine c = arrival_engine → is_consensus_outcome_applied (c_queues c) 5 = false →
  resolves (c : Room) (ConsensusReached 5 true 1000) 5 true (member_invite_request [x0c]).
Proof. intros He Ho. exists 1000%N, fork_session. split_and!; [done|done| |by vm_compute]. rewrite He. by vm_compute. Qed.

Lemma arrival_same : same_candidates 2 0 (arrival_decided arrival_heard) (arrival_decided arrival_holder).
Proof. apply peer_same; [|by vm_compute..]. intros k r pm Hpm. by destruct (view_foreign k r pm Hpm). Qed.

Lemma joiner_never_forks_witness :
  ∃ d1 d2 : Room, c_stewards arrived = c_stewards arrival_holder ∧ mls_epoch d2 = 4%N ∧ mls_epoch d1 = mls_epoch d2 ∧
    members_of d1 = members_of d2.
Proof.
  assert (∃ c, arrival_join = Ok (Some c)) as [c E].
  { assert (match arrival_join with Ok (Some _) => true | _ => false end = true) as H by by vm_compute.
    destruct arrival_join as [[c|]|]; [by exists c|done..]. }
  assert (c = arrived) as -> by (unfold arrived; by rewrite E).
  destruct (finalize_commit_round (c_stewards (arrival_decided arrival_heard)) (is_in_recovery_mode (arrival_decided arrival_heard))
    (subset_allowed (arrival_decided arrival_heard)) (c_self (arrival_decided arrival_heard))
    (round_state (arrival_decided arrival_heard))) as [t1 o1] eqn:E1.
  destruct (finalize_commit_round (c_stewards (arrival_decided arrival_holder)) (is_in_recovery_mode (arrival_decided arrival_holder))
    (subset_allowed (arrival_decided arrival_holder)) (c_self (arrival_decided arrival_holder))
    (round_state (arrival_decided arrival_holder))) as [t2 o2] eqn:E2.
  assert (g_epoch (mls_group t1.2) = 4%N) as Ht by (change t1 with (t1, o1).1; rewrite <-E1; clear; by vm_compute).
  pose proof (f_equal snd E1) as H1. vm_compute in H1. subst o1.
  pose proof (f_equal snd E2) as H2. vm_compute in H2. subst o2.
  assert (∀ r, settles 1 0 (arrival_decided arrival_heard) t1 r) as Hset.
  { intros r. right. split; [reflexivity|]. rewrite Ht. clear. by vm_compute. }
  destruct (joiner_never_forks 2 0 _ _ _ _ _ _ _ _ (view 2) arrival_holder [] arrival_list arrived 0
    [(arrival_heard, arrival_decided arrival_heard); (arrival_decided arrival_heard, fork_ended (arrival_decided arrival_heard))]
    [(arrival_holder, arrival_decided arrival_holder); (arrival_decided arrival_holder, fork_ended (arrival_decided arrival_holder))]
    (fork_ended (arrival_decided arrival_heard)) (fork_ended (arrival_decided arrival_holder)) E) as (Hs & He & Hm & _).
  - clear. reflexivity.
  - clear. split; [done|reflexivity].
  - exact arrival_rest.
  - clear. by vm_compute.
  - done.
  - done.
  - clear. split_and!; reflexivity.
  - econstructor; [apply rtc_once, solo_own, own_step_clear, arrival_clear|].
    econstructor; [apply rtc_refl|constructor; apply rtc_refl].
  - econstructor; [apply rtc_refl|]. econstructor; [apply rtc_refl|constructor; apply rtc_refl].
  - econstructor.
    { apply (both_decide 2 0 1 _ _ 5 true (member_invite_request [x0c])); [..|by intros []]; apply arrival_resolves; clear; by vm_compute. }
    econstructor; [|constructor]. refine (both_select 2 0 1 0 t1 t2 _ _ (arrival_decided arrival_heard) (arrival_decided arrival_holder)
      (Hset _) arrival_same (conj E1 _) (conj E2 _)); discriminate.
  - eexists _, _. split; [exact Hs|]. split; [|split; [exact He|exact Hm]]. clear. by vm_compute.
Defined.
