(* ===== verification/Interleave.v ===== *)
(** * Decisions and candidates in any order

    A candidate may arrive before the decision that gives it work: it is stashed and
    replayed when the decision lands. This file shows that the stash makes the order
    of the two kinds of event irrelevant. An [event] is a resolved proposal or a
    peer's candidate, handled as [handle_consensus_outcome] and
    [receive_commit_candidate] handle it. *)

From S2P Require Import Prelude Time Machine Protos StewardList Mls Toy Buffer Queues Scoring CommitRound ApplyResult Config Display Conversation Room Voting Steward Inbound HandleOutcome.

Section interleave.
Context {HS : Hash} {OM : OpenMls} (mls : MlsService).
Implicit Types (q : ConversationQueues) (m : CommitCandidate).

Abbreviation epoch := (g_epoch (mls_group mls)).
Abbreviation cap := (len (mls_members mls)).

Inductive event :=
  | Decided (pid : N) (approved : bool) (req : ConversationUpdateRequest)
  | Arrived (m : CommitCandidate).

Definition arrive m q : ConversationQueues := (receive_commit_candidate mls m q).1.
(** The decision alone, and with the replay that follows it. *)
Definition apply_decision (pid : N) (approved : bool) (req : ConversationUpdateRequest) q : ConversationQueues :=
  (apply_consensus_result pid approved req (mark_consensus_outcome_applied pid q)).1.
Definition decide_on (pid : N) (approved : bool) (req : ConversationUpdateRequest) q : ConversationQueues :=
  replay_early_candidates mls (apply_decision pid approved req q).
Definition handle q (ev : event) : ConversationQueues :=
  match ev with
  | Decided pid approved req => decide_on pid approved req q
  | Arrived m => arrive m q
  end.

Definition decision_of (ev : event) : option (N * bool * ConversationUpdateRequest) :=
  match ev with Decided pid approved req => Some (pid, approved, req) | Arrived _ => None end.
Definition candidate_of (ev : event) : option CommitCandidate :=
  match ev with Decided _ _ _ => None | Arrived m => Some m end.

(** ** Receiving, case by case *)

(** The stash of the current epoch. *)
Definition stashed q : list (N * CommitCandidate) :=
  filterb (λ p : N * CommitCandidate, (p.1 =? epoch)%N) (early_candidates q).
Definition repeats (s : list (N * CommitCandidate)) m : Prop :=
  commit_message m ∈ (λ p : N * CommitCandidate, commit_message p.2) <$> s ∨ (cap ≤ len s)%N.
#[local] Instance repeats_dec s m : Decision (repeats s m).
Proof. unfold repeats. apply _. Qed.
Definition stash s m : list (N * CommitCandidate) := if decide (repeats s m) then s else s ++ [(epoch, m)].
Definition collect (b : CommitRoundBuffer) m : CommitRoundBuffer := (buffer_add m false None [] epoch cap b).1.

Lemma stash_eq m q : stash_early_candidate epoch m cap q = set_early (stash (stashed q) m) q.
Proof.
  unfold stash_early_candidate, stash. fold (stashed q).
  assert ((existsb (λ p : N * CommitCandidate, bool_decide (commit_message p.2 = commit_message m)) (stashed q)
    || (cap <=? len (stashed q))%N) = true ↔ repeats (stashed q) m) as Hx.
  { unfold repeats. rewrite orb_true_iff, existsb_elem, N.leb_le, list_elem_of_fmap.
    setoid_rewrite bool_decide_eq_true. split; (intros [(p & ? & ?)|?]; [left; exists p; naive_solver|by right]). }
  destruct (_ || _); case_decide; naive_solver.
Qed.

Lemma arrive_eq m q :
  (well_formed_candidate q m ∧
   arrive m q = if decide (approved_proposals q = []) then set_early (stash (stashed q) m) q
                else set_round (collect (commit_round q) m) q) ∨
  (¬ well_formed_candidate q m ∧ arrive m q = q).
Proof.
  unfold arrive. destruct (receive_eq mls m q) as [[Hw ->]|[Hw (reason & -> & _)]]; [left|by right].
  split; [done|]. rewrite stash_eq. unfold approved_proposals_count.
  destruct (N.eqb_spec (len (approved_proposals q)) 0) as [E|E]; rewrite len_nil_iff in E; case_decide; try done.
  unfold collect. by destruct (buffer_add _ _ _ _ _ _ _).
Qed.

(** A candidate is well formed whatever the approved changes, the stash and the round. *)
Lemma well_formed_same q q' m :
  committed_batch_hashes q' = committed_batch_hashes q → well_formed_candidate q m ↔ well_formed_candidate q' m.
Proof. intros H. unfold well_formed_candidate, has_committed_hash. by rewrite H. Qed.

Lemma arrive_committed m q : committed_batch_hashes (arrive m q) = committed_batch_hashes q.
Proof. destruct (arrive_eq m q) as [[_ ->]|[_ ->]]; [|done]. by case_decide. Qed.
Lemma arrive_approved m q : approved_proposals (arrive m q) = approved_proposals q.
Proof. destruct (arrive_eq m q) as [[_ ->]|[_ ->]]; [|done]. by case_decide. Qed.

#[local] Instance well_formed_dec q m : Decision (well_formed_candidate q m).
Proof.
  unfold well_formed_candidate.
  assert (Decision (∀ p, p ∈ mls_proposals m → inspect_message_kind p = Ok MkProposal)).
  { destruct (decide (Forall (λ p, inspect_message_kind p = Ok MkProposal) (mls_proposals m))) as [H|H];
      rewrite Forall_forall in H; [by left|by right]. }
  apply _.
Defined.

Definition receive_all (ms : list CommitCandidate) q : ConversationQueues := foldl (λ q m, arrive m q) q ms.
Definition run (evs : list event) q : ConversationQueues := foldl handle q evs.
(** The candidates that pass the wire checks. *)
Definition well_formed_of q (ms : list CommitCandidate) : list CommitCandidate := filter (well_formed_candidate q) ms.

Lemma well_formed_of_same q q' ms :
  committed_batch_hashes q' = committed_batch_hashes q → well_formed_of q' ms = well_formed_of q ms.
Proof. intros H. apply list_filter_iff. intros m. symmetry. by apply well_formed_same. Qed.

Definition at_epoch (S : list (N * CommitCandidate)) : Prop := ∀ p, p ∈ S → p.1 = epoch.

Lemma stashed_early S q : at_epoch S → stashed (set_early S q) = S.
Proof. intros HS'. apply filterb_all. intros p Hp. apply N.eqb_eq. by apply HS'. Qed.
Lemma stash_at_epoch S m : at_epoch S → at_epoch (stash S m).
Proof. unfold stash, at_epoch. case_decide; [done|]. set_solver. Qed.
Lemma stash_all_at_epoch ms S : at_epoch S → at_epoch (foldl stash S ms).
Proof. revert S. induction ms as [|m ms IH]; [done|]. intros S HS'. by apply IH, stash_at_epoch. Qed.

(** With nothing approved candidates fill the stash; with approved work, the round. *)
Lemma receive_all_early ms S q :
  approved_proposals q = [] → at_epoch S →
  receive_all ms (set_early S q) = set_early (foldl stash S (well_formed_of q ms)) q.
Proof.
  intros Ha. revert S. induction ms as [|m ms IH]; intros S HS'; [done|].
  unfold well_formed_of. rewrite filter_cons. cbn [receive_all foldl].
  destruct (arrive_eq m (set_early S q)) as [[Hw E]|[Hw E]];
    rewrite (well_formed_same _ q) in Hw by done; case_decide; try done; rewrite E.
  - rewrite decide_True, stashed_early by done. cbn [foldl]. apply IH, stash_at_epoch, HS'.
  - by apply IH.
Qed.

Lemma receive_all_round ms b q :
  approved_proposals q ≠ [] →
  receive_all ms (set_round b q) = set_round (foldl collect b (well_formed_of q ms)) q.
Proof.
  intros Ha. revert b. induction ms as [|m ms IH]; intros b; [done|].
  unfold well_formed_of. rewrite filter_cons. cbn [receive_all foldl].
  destruct (arrive_eq m (set_round b q)) as [[Hw E]|[Hw E]];
    rewrite (well_formed_same _ q) in Hw by done; case_decide; try done; rewrite E.
  - rewrite decide_True by done. cbn [foldl]. apply IH.
  - by apply IH.
Qed.

Lemma set_early_same q : early_candidates q = [] → set_early [] q = q.
Proof. by destruct q; cbn; intros ->. Qed.

Lemma receive_all_stashes ms q :
  approved_proposals q = [] → early_candidates q = [] →
  receive_all ms q = set_early (foldl stash [] (well_formed_of q ms)) q.
Proof.
  intros Ha He. rewrite <-(set_early_same q) at 1 by done. apply receive_all_early; [done|]. intros ?; set_solver.
Qed.
Lemma receive_all_collects ms q :
  approved_proposals q ≠ [] →
  receive_all ms q = set_round (foldl collect (commit_round q) (well_formed_of q ms)) q.
Proof. intros Ha. rewrite <-receive_all_round by done. by destruct q. Qed.

(** ** The decision alone *)

Lemma apply_set_early pid a req S q :
  apply_decision pid a req (set_early S q) = set_early S (apply_decision pid a req q).
Proof.
  unfold apply_decision. rewrite !apply_consensus_result_eq.
  change (already_approved (mark_consensus_outcome_applied pid (set_early S q)) req)
    with (already_approved (mark_consensus_outcome_applied pid q) req).
  change (has_approved_removal (mark_consensus_outcome_applied pid (set_early S q)))
    with (has_approved_removal (mark_consensus_outcome_applied pid q)).
  by repeat case_match.
Qed.

Lemma apply_set_round pid a req b q :
  apply_decision pid a req (set_round b q) = set_round b (apply_decision pid a req q).
Proof.
  unfold apply_decision. rewrite !apply_consensus_result_eq.
  change (already_approved (mark_consensus_outcome_applied pid (set_round b q)) req)
    with (already_approved (mark_consensus_outcome_applied pid q) req).
  change (has_approved_removal (mark_consensus_outcome_applied pid (set_round b q)))
    with (has_approved_removal (mark_consensus_outcome_applied pid q)).
  by repeat case_match.
Qed.

(** It leaves the stash, the round and the committed hashes, and never empties the
    approved work. *)
Lemma apply_keeps pid a req q :
  let q' := apply_decision pid a req q in
  early_candidates q' = early_candidates q ∧ commit_round q' = commit_round q ∧
  committed_batch_hashes q' = committed_batch_hashes q ∧
  (approved_proposals q ≠ [] → approved_proposals q' ≠ []).
Proof.
  cbn zeta. unfold apply_decision. rewrite apply_consensus_result_eq.
  assert (∀ k v (m : list (N * ConversationUpdateRequest)), im_insert k v m ≠ []) as Hi.
  { intros k v m E. pose proof (im_insert_elem k v m) as H. rewrite E in H. set_solver. }
  repeat case_match; cbn; split_and!; auto.
Qed.

(** ** The stash replayed *)

Lemma foldl_snoc {A B} (f : A → B → A) l x a : foldl f a (l ++ [x]) = f (foldl f a l) x.
Proof. by rewrite foldl_app. Qed.

(** What the stash holds came in, once, and within the cap. *)
Lemma stash_all_spec ms :
  let S := foldl stash [] ms in
  S.*2 ⊆ ms ∧ NoDup (commit_message <$> S.*2) ∧ (len S ≤ cap)%N.
Proof.
  cbn zeta. induction ms as [|m ms (Hs & Hn & Hc)] using rev_ind; [split_and!; [done|by apply NoDup_nil_2|apply N.le_0_l]|].
  rewrite foldl_snoc. generalize dependent (foldl stash [] ms). intros S Hs Hn Hc.
  unfold stash. case_decide as Hr; [split_and!; [set_solver|done..]|].
  unfold repeats in Hr. rewrite <-list_fmap_compose in *. split_and!.
  - rewrite fmap_app. cbn. set_solver.
  - rewrite fmap_app. apply NoDup_app. split_and!; [done| |apply NoDup_singleton]. cbn. set_solver.
  - unfold len in *. rewrite length_app. cbn. lia.
Qed.

Lemma restash S :
  NoDup (commit_message <$> S.*2) → (len S ≤ cap)%N → at_epoch S → foldl stash [] S.*2 = S.
Proof.
  induction S as [|[e m] S IH] using rev_ind; intros Hn Hc He; [done|].
  rewrite !fmap_app in *. apply NoDup_app in Hn as (Hn & Hd & _).
  unfold len in *. rewrite length_app in Hc. cbn in *.
  rewrite foldl_snoc, IH by first [done|lia|intros p Hp; apply He; set_solver].
  unfold stash. rewrite decide_False; [do 3 f_equal; symmetry; apply (He (e, m)); set_solver|].
  unfold repeats, len. rewrite <-list_fmap_compose in *. intros [H|H]; [set_solver|lia].
Qed.

(** ** The round, filled from the stash *)

Abbreviation hash m := (compute_commit_hash (commit_message m)).
Definition has_or_full (b : CommitRoundBuffer) m : Prop :=
  hash m ∈ commit_hash <$> candidates b ∨ (cap ≤ len (candidates b))%N.

Lemma collect_absorbed b m : buf_epoch b = epoch → has_or_full b m → collect b m = b.
Proof.
  intros He Hm. unfold collect, buffer_add. rewrite He, N.eqb_refl.
  destruct (existsb _ _) eqn:Hx; [done|]. destruct (N.leb_spec cap (len (candidates b))); [done|].
  destruct Hm as [(c & Hc & Hin)%list_elem_of_fmap|]; [|lia].
  rewrite existsb_not_elem in Hx. apply Hx in Hin. by bool_simpl.
Qed.

Lemma collect_has b m : buf_epoch (collect b m) = epoch ∧ has_or_full (collect b m) m.
Proof.
  unfold collect, buffer_add. set (b0 := if (buf_epoch b =? epoch)%N then b else mk_buffer epoch []).
  assert (buf_epoch b0 = epoch) as He by (unfold b0; by destruct (N.eqb_spec (buf_epoch b) epoch)).
  destruct (existsb _ _) eqn:Hx; [|destruct (N.leb_spec cap (len (candidates b0)))]; split; try done.
  - left. apply existsb_elem in Hx as (c & Hc & E%bool_decide_eq_true). cbn. rewrite <-E. by apply list_elem_of_fmap_2.
  - by right.
  - left. cbn. rewrite fmap_app. cbn. set_solver.
Qed.

Lemma collect_mono b m m' : buf_epoch b = epoch → has_or_full b m' → has_or_full (collect b m) m'.
Proof.
  intros He Hm. unfold collect, buffer_add. rewrite He, N.eqb_refl. do 2 (case_match; [done|]).
  unfold has_or_full, len in *. cbn. rewrite fmap_app, length_app. destruct Hm; [left; set_solver|right; lia].
Qed.

(** The first candidate moves the round to the group's epoch; from then on every
    candidate received is in it, unless it is full. *)
Lemma collect_all ms b :
  ms ≠ [] → let b' := foldl collect b ms in buf_epoch b' = epoch ∧ ∀ m, m ∈ ms → has_or_full b' m.
Proof.
  cbn zeta. induction ms as [|m ms IH] using rev_ind; [done|]. intros _. rewrite foldl_snoc.
  destruct (collect_has (foldl collect b ms) m) as [He Hm]. split; [done|].
  intros m' [Hin| ->%list_elem_of_singleton]%elem_of_app; [|done].
  destruct IH as [He' IH]; [by destruct ms; [set_solver|]|]. apply collect_mono; auto.
Qed.

Definition collision_free (ms : list CommitCandidate) : Prop :=
  ∀ m1 m2, m1 ∈ ms → m2 ∈ ms → hash m1 = hash m2 → commit_message m1 = commit_message m2.

(** As many distinct hashes as the round may hold fill it. *)
Lemma hashes_fill b (S : list CommitCandidate) :
  collision_free S → NoDup (commit_message <$> S) → (cap ≤ len S)%N →
  (∀ m, m ∈ S → has_or_full b m) → (cap ≤ len (candidates b))%N.
Proof.
  intros Hcf Hn Hc Hb. destruct (decide (cap ≤ len (candidates b))%N) as [|Hlt]; [done|].
  assert (NoDup ((λ m, hash m) <$> S)) as Hnh.
  { clear Hc Hb. induction S as [|m S IH]; [by apply NoDup_nil_2|]. cbn in *.
    inversion Hn as [|? ? Hni Hn']; subst. constructor; [|apply IH; [|done]; intros ? ? ? ?; apply Hcf; set_solver].
    intros (m' & Hh & Hm')%list_elem_of_fmap. destruct Hni. rewrite (Hcf m m') by (try done; set_solver).
    by apply list_elem_of_fmap_2. }
  assert (length ((λ m, hash m) <$> S) ≤ length (commit_hash <$> candidates b)) as Hl.
  { apply submseteq_length, NoDup_submseteq; [done|]. intros h (m & -> & Hm)%list_elem_of_fmap.
    by destruct (Hb m Hm). }
  rewrite !length_fmap in Hl. unfold len in *. lia.
Qed.

Lemma replay_stash ms b :
  (0 < cap)%N → collision_free ms → foldl collect b (foldl stash [] ms).*2 = foldl collect b ms.
Proof.
  intros Hcap. induction ms as [|m ms IH] using rev_ind; [done|]. intros Hcf.
  assert (collision_free ms) as Hcf' by (intros ? ? ? ?; apply Hcf; set_solver).
  rewrite !foldl_snoc. destruct (stash_all_spec ms) as (Hs & Hn & _). specialize (IH Hcf').
  generalize dependent (foldl stash [] ms). intros S IH Hs Hn. unfold stash. case_decide as Hr.
  - rewrite IH, collect_absorbed; [done|..].
    + apply collect_all. intros ->. destruct S as [|p S]; [|cbn in Hs; set_solver].
      destruct Hr as [Hr|Hr]; [set_solver|unfold len in *; cbn in *; lia].
    + assert (∀ m', m' ∈ S.*2 → ms ≠ []) as Hne by (intros m' Hm'%Hs ->; by apply not_elem_of_nil in Hm').
      destruct Hr as [Hr|Hr].
      * apply list_elem_of_fmap in Hr as (p & Hm & Hm'%(list_elem_of_fmap_2 snd)).
        destruct (collect_all ms b) as [_ Hall]; [by eapply Hne|].
        unfold has_or_full. rewrite Hm. apply Hall, Hs, Hm'.
      * right. apply (hashes_fill _ S.*2); [intros ? ? ? ?; apply Hcf'; by apply Hs|done|unfold len in *; by rewrite length_fmap|].
        intros m' Hm'. apply (collect_all ms b); [by eapply Hne|by apply Hs].
  - by rewrite fmap_app, foldl_app, IH.
Qed.

Lemma list_filter_all {A} (P : A → Prop) `{∀ x, Decision (P x)} l : Forall P l → filter P l = l.
Proof. induction 1 as [|x l Hx Hl IH]; [done|]. by rewrite filter_cons, decide_True, IH. Qed.

(** ** Commuting *)

Lemma replay_early S q :
  at_epoch S → replay_early_candidates mls (set_early S q) = receive_all S.*2 (set_early [] q).
Proof.
  intros HS'. unfold replay_early_candidates, take_early_candidates. fold (stashed (set_early S q)).
  by rewrite stashed_early.
Qed.

(** With nothing stashed a decision replays nothing. *)
Lemma decide_empty pid a req q :
  early_candidates q = [] → decide_on pid a req q = apply_decision pid a req q.
Proof.
  intros He. unfold decide_on. destruct (apply_keeps pid a req q) as (E & _). rewrite He in E.
  rewrite <-(set_early_same (apply_decision pid a req q)) at 1 by done.
  rewrite replay_early by (intros ?; set_solver). by apply set_early_same.
Qed.

(** A decision moves before the candidates that came ahead of it. *)
Lemma decide_first pid a req ms q :
  (0 < cap)%N → early_candidates q = [] → collision_free ms →
  decide_on pid a req (receive_all ms q) = receive_all ms (decide_on pid a req q).
Proof.
  intros Hcap He Hcf. rewrite (decide_empty _ _ _ q He).
  destruct (apply_keeps pid a req q) as (He' & Hcr & Hh & Hna). rewrite He in He'.
  assert (at_epoch []) as Hnil by (intros ?; set_solver).
  assert (collision_free (well_formed_of q ms)) as Hcf'.
  { intros m1 m2 [_ H1]%list_elem_of_filter [_ H2]%list_elem_of_filter. by apply Hcf. }
  assert (well_formed_of (apply_decision pid a req q) ms = well_formed_of q ms) as Hwf by by apply well_formed_of_same.
  destruct (decide (approved_proposals q = [])) as [Ha|Ha].
  - rewrite receive_all_stashes by done. destruct (stash_all_spec (well_formed_of q ms)) as (Hs & Hn & Hc).
    pose proof (stash_all_at_epoch (well_formed_of q ms) [] Hnil) as HS'.
    pose proof (replay_stash (well_formed_of q ms) (commit_round (apply_decision pid a req q)) Hcap Hcf') as Hr.
    remember (foldl stash [] (well_formed_of q ms)) as S eqn:HS0.
    unfold decide_on. rewrite apply_set_early, replay_early, set_early_same by done.
    assert (well_formed_of (apply_decision pid a req q) S.*2 = S.*2) as HwfS.
    { rewrite (well_formed_of_same q) by done. apply list_filter_all, Forall_forall. intros m Hm.
      apply Hs in Hm. by apply list_elem_of_filter in Hm as [? _]. }
    destruct (decide (approved_proposals (apply_decision pid a req q) = [])) as [Ha'|Ha'].
    + by rewrite !receive_all_stashes, HwfS, Hwf, restash, <-HS0.
    + by rewrite !receive_all_collects, HwfS, Hwf, Hr.
  - rewrite receive_all_collects, decide_empty, apply_set_round, receive_all_collects by auto.
    by rewrite Hwf, Hcr.
Qed.

Definition decide_all (ds : list (N * bool * ConversationUpdateRequest)) q : ConversationQueues :=
  foldl (λ q d, decide_on d.1.1 d.1.2 d.2 q) q ds.

Lemma decide_all_early ds q : early_candidates q = [] → early_candidates (decide_all ds q) = [].
Proof.
  revert q. induction ds as [|[[pid a] req] ds IH]; intros q He; [done|]. cbn. apply IH.
  change (early_candidates (decide_on pid a req q) = []). rewrite decide_empty by done. by destruct (apply_keeps pid a req q) as (-> & _).
Qed.

Lemma receive_all_snoc ms m q : receive_all (ms ++ [m]) q = arrive m (receive_all ms q).
Proof. unfold receive_all. by rewrite foldl_snoc. Qed.
Lemma decide_all_snoc ds pid a req q : decide_all (ds ++ [(pid, a, req)]) q = decide_on pid a req (decide_all ds q).
Proof. unfold decide_all. by rewrite foldl_snoc. Qed.
Lemma run_snoc evs ev q : run (evs ++ [ev]) q = handle (run evs q) ev.
Proof. apply foldl_snoc. Qed.

(** Every run is its decisions, then its candidates. *)
Lemma run_canonical evs q :
  (0 < cap)%N → early_candidates q = [] → collision_free (omap candidate_of evs) →
  run evs q = receive_all (omap candidate_of evs) (decide_all (omap decision_of evs) q).
Proof.
  intros Hcap He. induction evs as [|ev evs IH] using rev_ind; [done|].
  rewrite run_snoc, !omap_app. intros Hcf.
  rewrite IH by (intros ? ? ? ?; apply Hcf; set_solver). destruct ev as [pid a req|m].
  - change (omap decision_of [Decided pid a req]) with [(pid, a, req)].
    change (omap candidate_of [Decided pid a req]) with (@nil CommitCandidate) in *.
    rewrite decide_all_snoc, app_nil_r in *. apply decide_first; [done|by apply decide_all_early|done].
  - change (omap candidate_of [Arrived m]) with [m]. change (omap decision_of [Arrived m]) with (@nil (N * bool * ConversationUpdateRequest)).
    by rewrite receive_all_snoc, app_nil_r.
Qed.

(** ** Candidates of an earlier epoch *)

(** A decision drops what was stashed in an earlier epoch, as does the next stash. *)
Definition fresh q : ConversationQueues := set_early (stashed q) q.

Lemma fresh_stashed q : stashed (fresh q) = stashed q.
Proof. apply stashed_early. intros p Hp. unfold stashed in Hp. apply elem_of_filterb in Hp as [?%N.eqb_eq _]. done. Qed.
Lemma decide_fresh pid a req q : decide_on pid a req (fresh q) = decide_on pid a req q.
Proof.
  unfold decide_on, fresh. rewrite apply_set_early. destruct (apply_keeps pid a req q) as (E & _).
  unfold replay_early_candidates, take_early_candidates.
  fold (stashed (set_early (stashed q) (apply_decision pid a req q))) (stashed (apply_decision pid a req q)).
  assert (stashed (apply_decision pid a req q) = stashed q) as -> by (unfold stashed; by rewrite E).
  change (stashed (set_early (stashed q) (apply_decision pid a req q))) with (stashed (fresh q)).
  by rewrite fresh_stashed.
Qed.
Lemma arrive_fresh m q : arrive m (fresh q) = fresh (arrive m q).
Proof.
  destruct (arrive_eq m q) as [[Hw E]|[Hw E]], (arrive_eq m (fresh q)) as [[Hw' E']|[Hw' E']];
    rewrite (well_formed_same _ q) in Hw' by done; try done; rewrite E, E'; [|done].
  change (approved_proposals (fresh q)) with (approved_proposals q). rewrite fresh_stashed.
  clear E E'. case_decide; [|done]. unfold fresh. rewrite stashed_early; [done|]. apply stash_at_epoch.
  intros p Hp. by apply elem_of_filterb in Hp as [?%N.eqb_eq _].
Qed.

Lemma run_fresh evs q : omap decision_of evs ≠ [] → run evs (fresh q) = run evs q.
Proof.
  revert q. induction evs as [|[pid a req|m] evs IH]; intros q Hd; [done|..]; unfold run; cbn [foldl handle].
  - by rewrite decide_fresh.
  - rewrite arrive_fresh. by apply IH.
Qed.

Lemma only_candidates evs : omap decision_of evs = [] → evs = Arrived <$> omap candidate_of evs.
Proof. induction evs as [|[pid a req|m] evs IH]; [done..|]. intros Hd. cbn. f_equal. by apply IH. Qed.

(** C22: the order in which decisions and candidates arrive does not matter. Two
    members that handle the same decisions in the same order, and receive the same
    candidates in the same order, end with the same queues however the two are
    interleaved: a candidate that runs ahead of the decision that gives it work is
    stashed, and the replay puts it where it would have gone after the decision,
    whatever the cap and whatever was buffered. Members start with nothing stashed
    for the epoch, and two different candidates are taken to have different hashes. *)
Theorem interleaving_irrelevant evs1 evs2 q :
  stashed q = [] → (0 < cap)%N → collision_free (omap candidate_of evs1) →
  omap decision_of evs1 = omap decision_of evs2 → omap candidate_of evs1 = omap candidate_of evs2 →
  run evs1 q = run evs2 q.
Proof.
  intros Hs Hcap Hcf Hd Hc. destruct (decide (omap decision_of evs1 = [])) as [Hn|Hn].
  - rewrite (only_candidates evs1), (only_candidates evs2), Hc by congruence. done.
  - rewrite <-(run_fresh evs1), <-(run_fresh evs2) by congruence.
    rewrite !run_canonical by (try done; by rewrite <-Hc). by rewrite Hd, Hc.
Qed.
End interleave.

(** ** Where the handlers do this *)

Section linked.
Context {HS : Hash} {OM : OpenMls} {CS : ConsensusLib} {CD : Codec} {CT : ConsensusTexts} {HI : HashIter}.
Context {St : Type} `{!PeerScoreStorage St}.
Implicit Types (c : Conversation St).

(** A resolved proposal reaches the follow-up with the queues [decide_on] computes. *)
Lemma outcome_decides event pid approved ts proposal req c :
  outcome_fields event = (pid, approved, ts) → is_consensus_outcome_applied (c_queues c) pid = false →
  get_proposal (c_id c) pid (c_engine c) = Ok proposal → decode_request (prop_payload proposal) = Ok req →
  ∃ c1 r, c_queues c1 = decide_on (c_mls c) pid approved req (c_queues c) ∧
    handle_consensus_outcome event c =
      (follow_up r ;!
       let score_ops := emergency_score_ops req approved in
       (if bool_decide (score_ops = []) then sret tt else handle_emergency_scored pid score_ops) ;!
       on_engine (remove_session (c_id c) pid)) c1.
Proof.
  intros He Hn Hp Hr. rewrite (outcome_eq _ _ _ _ _ _ _ He Hn Hp Hr). eexists _, _. by split; [|reflexivity].
Qed.

(** A peer's candidate leaves the queues [arrive] computes. *)
Lemma candidate_arrives payload m q mls :
  decode_app_message payload = Ok (mk_app_message (Some (AppCommitCandidate m))) →
  (decode_inbound_payload payload (q, mls)).1 = (arrive mls m q, mls).
Proof.
  intros Hd. unfold decode_inbound_payload. rewrite Hd. unfold sbind, sget, with_queues. cbn [fst snd].
  unfold arrive. by destruct (receive_commit_candidate mls m q).
Qed.
End linked.

(** ** At a concrete input *)

#[local] Existing Instances example_hash toy_mls.

(** The decision that admits [0c], between a peer's candidate and a copy of it, or
    ahead of both: the candidate is buffered once. *)
Definition decision : event := Decided 5 true (member_invite_request [x0c]).

Lemma interleaving_irrelevant_witness :
  let late := run toy_service [Arrived peer_candidate; decision; Arrived peer_candidate] (queues_new "g" 8) in
  let early := run toy_service [decision; Arrived peer_candidate; Arrived peer_candidate] (queues_new "g" 8) in
  candidate_count (commit_round late) = 1%N ∧ late = early.
Proof.
  cbn zeta. split; [by vm_compute|].
  apply interleaving_irrelevant; [done|by vm_compute| |done|done].
  intros m1 m2 H1 H2 _. set_solver.
Defined.
