(* ===== verification/Conform.v ===== *)
(** * Conformance tests

    The unit tests of the crate, run on the model: a test function is a boolean, its
    assertions in conjunction, and each tests module of the crate has a lemma that all
    of its tests hold, by computation. An [unwrap] or [expect] that would panic is
    [false]. This file has the vocabulary; the tests follow in [ConformSteward],
    [ConformScoring], [ConformQueues], [ConformRound], [ConformBasics] and
    [ConformHandle]. *)

From S2P Require Import Prelude Protos StewardList.

Definition unwrap {E A} (r : result E A) (k : A → bool) : bool :=
  match r with Ok a => k a | Err _ => false end.
Definition unwrap_some {A} (o : option A) (k : A → bool) : bool :=
  match o with Some a => k a | None => false end.
Definition run {S E A} (p : S * result E A) (k : S → A → bool) : bool :=
  match p.2 with Ok a => k p.1 a | Err _ => false end.
Definition is_err {E A} (r : result E A) : bool := negb (is_ok r).
Definition is_none {A} (o : option A) : bool := match o with None => true | Some _ => false end.
Definition is_some {A} (o : option A) : bool := negb (is_none o).
(** [assert_eq!], [assert_ne!]. *)
Notation "a ≟ b" := (bool_decide (a = b)) (at level 70, no associativity).
Notation "a ≠? b" := (negb (bool_decide (a = b))) (at level 70, no associativity).
Definition all_of (tests : list bool) : bool := forallb id tests.

(** [b"..."]. *)
Definition ascii (s : string) : bytes := String.list_byte_of_string s.
(** [v.swap(0, 1)]. *)
Definition swap01 {A} (l : list A) : list A := match l with a :: b :: l => b :: a :: l | _ => l end.
(** [windows(2)]. *)
Definition pairs {A} (l : list A) : list (A * A) := zip l (tail l).

(** The crate takes its hash from the [sha2] crate. Its tests only need digests that
    scatter: four bytes of a multiply-and-shift mix, stirred at the end. *)
Definition mix (acc : N) (b : byte) : N :=
  let x := N.lxor acc (Byte.to_N b) in
  let y := N.land (x * 16777619 + 1013904223)%N 4294967295 in
  N.lxor y (N.shiftr y 15).
Definition test_hash : Hash :=
  {| sha256 := λ bs, be_bytes 4 (foldl mix 2166136261%N (bs ++ [x01; x02; x03; x04])) |}.
