(* ===== verification/ConformSteward.v ===== *)
(** * The tests of [src/steward_list/]

    The [tests] modules of [list.rs] and [service.rs]. *)

From S2P Require Import Prelude Protos StewardList Conform.

#[local] Existing Instance test_hash.
#[local] Open Scope N_scope.

Definition member (i : N) : bytes := replicate 20%nat (byte_of_N i).
Definition members (ids : list N) : list bytes := member <$> ids.
Definition all (_ : bytes) : bool := true.

(** ** [list.rs] *)

Definition test_config_validation : bool :=
  unwrap (slc_new 2 5) (λ config,
    is_valid_size config 3 10 && is_valid_size config 2 10 && is_valid_size config 5 10 &&
    negb (is_valid_size config 1 10) && negb (is_valid_size config 6 10) &&
    is_valid_size config 1 1 && negb (is_valid_size config 2 1)).

Definition test_new_rejects_bad_bounds : bool := is_err (slc_new 0 5) && is_err (slc_new 5 3).

Definition test_generate_empty_members : bool :=
  unwrap (slc_new 1 3) (λ config, is_err (generate 0 (ascii "conversation1") [] 1 config 0)).

Definition test_generate_invalid_sn : bool :=
  unwrap (slc_new 2 5) (λ config,
    let mems := members [1; 2; 3; 4; 5] in
    is_err (generate 0 (ascii "conversation1") mems 1 config 0) &&
    is_err (generate 0 (ascii "conversation1") mems 6 config 0)).

Definition test_deterministic_generation : bool :=
  unwrap (slc_new 2 5) (λ config,
    let mems := members [1; 2; 3; 4; 5] in
    unwrap (generate 0 (ascii "test-conversation") mems 3 config 0) (λ list1,
    unwrap (generate 0 (ascii "test-conversation") mems 3 config 0) (λ list2,
      (sl_members list1 ≟ sl_members list2) && (len (sl_members list1) ≟ 3%N)))).

Definition test_different_epoch_shuffles : bool :=
  unwrap (slc_new 5 5) (λ config,
    let mems := members [1; 2; 3; 4; 5] in
    unwrap (generate 0 (ascii "conversation") mems 5 config 0) (λ base,
      existsb (λ e, unwrap (generate e (ascii "conversation") mems 5 config 0) (λ other,
        sl_members other ≠? sl_members base)) (N.of_nat <$> seq 1%nat 9%nat))).

Definition test_different_conversation_shuffles : bool :=
  unwrap (slc_new 5 5) (λ config,
    let mems := members [1; 2; 3; 4; 5] in
    unwrap (generate 0 (ascii "conversation1") mems 5 config 0) (λ base,
    unwrap (generate 0 (ascii "conversation2") mems 5 config 0) (λ other,
      sl_members base ≠? sl_members other))).

Definition test_member_order_does_not_affect_result : bool :=
  unwrap (slc_new 2 5) (λ config,
    let mems_a := members [1; 2; 3; 4; 5] in
    let mems_b := members [5; 3; 1; 4; 2] in
    unwrap (generate 0 (ascii "conversation") mems_a 3 config 0) (λ list_a,
    unwrap (generate 0 (ascii "conversation") mems_b 3 config 0) (λ list_b,
      sl_members list_a ≟ sl_members list_b))).

Definition test_regen_at_sn_max_is_full_membership : bool :=
  unwrap (slc_new 2 5) (λ config,
    let mems := members [1; 2; 3; 4; 5] in
    let sn := compute_list_size config (len mems) in
    (sn ≟ 5%N) &&
    unwrap (generate 7 (ascii "conv") mems sn config 0) (λ list,
      let got : gset bytes := list_to_set (sl_members list) in
      let want : gset bytes := list_to_set mems in
      got ≟ want)).

Definition test_epoch_steward_rotation : bool :=
  unwrap (slc_new 3 3) (λ config,
    let mems := members [1; 2; 3] in
    unwrap (generate 0 (ascii "conversation") mems 3 config 0) (λ list,
    unwrap_some (sl_epoch_steward list 0 all) (λ s0,
    unwrap_some (sl_epoch_steward list 1 all) (λ s1,
    unwrap_some (sl_epoch_steward list 2 all) (λ s2,
      (s0 ≠? s1) && (s1 ≠? s2) && (s0 ≠? s2)))))).

Definition test_backup_is_next_rotation_slot : bool :=
  unwrap (slc_new 3 3) (λ config,
    let mems := members [1; 2; 3] in
    unwrap (generate 0 (ascii "conversation") mems 3 config 0) (λ list,
      let order := sl_members list in
      forallb (λ epoch,
        let '(epoch_steward, backup) := sl_epoch_and_backup list (N.of_nat epoch) all in
        (epoch_steward ≟ order !! (epoch mod 3)%nat) && (backup ≟ order !! ((epoch + 1) mod 3)%nat)) (seq 0 3)%nat)).

Definition test_list_exhaustion : bool :=
  unwrap (slc_new 2 3) (λ config,
    let mems := members [1; 2; 3] in
    unwrap (generate 5 (ascii "conversation") mems 3 config 0) (λ list,
      (sl_election_epoch list ≟ 5%N) &&
      negb (sl_is_exhausted list 5) && negb (sl_is_exhausted list 7) &&
      sl_is_exhausted list 8 && sl_is_exhausted list 4 &&
      is_none (sl_epoch_steward list 8 all) && is_none (sl_epoch_and_backup list 8 all).2)).

Definition test_validate_correct_list : bool :=
  unwrap (slc_new 2 3) (λ config,
    let mems := members [1; 2; 3; 4; 5] in
    unwrap (generate 0 (ascii "conversation") mems 3 config 0) (λ list,
    unwrap (validate (sl_members list) 0 (ascii "conversation") mems config 0) id)).

Definition test_validate_tampered_list : bool :=
  unwrap (slc_new 2 3) (λ config,
    let mems := members [1; 2; 3; 4; 5] in
    unwrap (generate 0 (ascii "conversation") mems 3 config 0) (λ list,
    unwrap (validate (swap01 (sl_members list)) 0 (ascii "conversation") mems config 0) negb)).

Definition test_validate_wrong_epoch : bool :=
  unwrap (slc_new 5 5) (λ config,
    let mems := members [1; 2; 3; 4; 5] in
    unwrap (generate 0 (ascii "conversation") mems 5 config 0) (λ list,
    unwrap_some (List.find (λ e, unwrap (generate e (ascii "conversation") mems 5 config 0) (λ o,
        sl_members o ≠? sl_members list)) (N.of_nat <$> seq 1%nat 99%nat)) (λ diff_epoch,
    unwrap (validate (sl_members list) diff_epoch (ascii "conversation") mems config 0) negb))).

Definition test_validate_wrong_members : bool :=
  unwrap (slc_new 5 5) (λ config,
    let mems := members [1; 2; 3; 4; 5] in
    let other_mems := members [1; 2; 3; 4; 6] in
    unwrap (generate 0 (ascii "conversation") mems 5 config 0) (λ list,
    unwrap (validate (sl_members list) 0 (ascii "conversation") other_mems config 0) negb)).

Definition test_single_member : bool :=
  unwrap (slc_new 1 3) (λ config,
    let mems := members [1] in
    unwrap (generate 0 (ascii "conversation") mems 1 config 0) (λ list,
      let '(e, b) := sl_epoch_and_backup list 0 all in
      (len (sl_members list) ≟ 1%N) && is_some e && is_none b && sl_is_exhausted list 1)).

Definition test_epoch_steward_walks_past_ineligible : bool :=
  unwrap (slc_new 3 3) (λ config,
    let mems := members [1; 2; 3] in
    unwrap (generate 0 (ascii "conversation") mems 3 config 0) (λ list,
    unwrap_some (sl_epoch_steward list 0 all) (λ nominal,
      let after := filterb (λ m, m ≠? nominal) mems in
      (sl_epoch_steward list 0 (λ c, existsb (λ m, m ≟ c) mems) ≟ Some nominal) &&
      unwrap_some (sl_epoch_steward list 0 (λ c, existsb (λ m, m ≟ c) after)) (λ live,
        (live ≠? nominal) && existsb (λ m, m ≟ live) after)))).

Definition test_epoch_and_backup_all_ineligible_and_single_survivor : bool :=
  unwrap (slc_new 2 2) (λ config,
    let mems := members [1; 2] in
    unwrap (generate 0 (ascii "conversation") mems 2 config 0) (λ list,
      let '(e, b) := sl_epoch_and_backup list 0 (λ _, false) in
      let survivor := mems !!! 0%nat in
      let '(e', b') := sl_epoch_and_backup list 0 (λ c, c ≟ survivor) in
      is_none e && is_none b && unwrap_some e' (λ e', e' ≟ survivor) && is_none b')).

Definition test_epoch_and_backup_rotates_when_epoch_leaves : bool :=
  unwrap (slc_new 3 3) (λ config,
    let mems := members [1; 2; 3] in
    unwrap (generate 0 (ascii "conversation") mems 3 config 0) (λ list,
    unwrap_some (sl_epoch_steward list 0 all) (λ nominal,
      let '(e, b) := sl_epoch_and_backup list 0 (λ c, c ≠? nominal) in
      unwrap_some e (λ e, unwrap_some b (λ b, (e ≠? b) && (e ≠? nominal) && (b ≠? nominal)))))).

Definition test_epoch_and_backup_matches_nominal_when_all_eligible : bool :=
  unwrap (slc_new 3 3) (λ config,
    let mems := members [1; 2; 3] in
    unwrap (generate 0 (ascii "conversation") mems 3 config 0) (λ list,
      let '(e, b) := sl_epoch_and_backup list 0 all in
      (e ≟ sl_epoch_steward list 0 all) && (b ≟ sl_epoch_steward list 1 all))).

Definition test_sha256_sorting_is_ascending : bool :=
  unwrap (slc_new 5 5) (λ config,
    let mems := members [1; 2; 3; 4; 5] in
    unwrap (generate 0 (ascii "conversation") mems 5 config 0) (λ list,
      let hashes := (λ m, compute_steward_hash 0 0 m (ascii "conversation")) <$> sl_members list in
      forallb (λ w : bytes * bytes, bytes_cmp w.1 w.2 ≟ Lt) (pairs hashes))).

Definition test_validate_rejects_empty_list : bool :=
  unwrap (slc_new 3 5) (λ config,
    let mems := members [1; 2; 3; 4; 5] in
    unwrap (validate [] 0 (ascii "conversation") mems config 0) negb).

Definition validate_rejects_biased_subset_and_wrong_count : bool :=
  let cid := ascii "cid" in
  unwrap (slc_new 1 3) (λ config,
    let mems := members [1; 2; 3; 4; 5] in
    unwrap (generate 0 cid mems 3 config 0) (λ list,
      let correct := sl_members list in
      unwrap (validate correct 0 cid mems config 0) id &&
      unwrap_some (List.find (λ m, negb (contains correct m)) mems) (λ excluded,
        let biased := take (length correct - 1)%nat correct ++ [excluded] in
        unwrap (validate biased 0 cid mems config 0) negb) &&
      unwrap (validate (take 2%nat correct) 0 cid mems config 0) negb)).

Definition test_below_sn_min_uses_all_members : bool :=
  unwrap (slc_new 5 10) (λ config,
    unwrap (generate 0 (ascii "conversation") (members [1; 2; 3]) 3 config 0) (λ list,
      len (sl_members list) ≟ 3%N)).

Definition test_large_conversation_subset_selection : bool :=
  unwrap (slc_new 3 5) (λ config,
    let mems := members (N.of_nat <$> seq 1%nat 20%nat) in
    unwrap (generate 0 (ascii "conversation") mems 5 config 0) (λ list,
      (len (sl_members list) ≟ 5%N) && forallb (contains mems) (sl_members list))).

Definition test_retry_rounds_produce_different_lists : bool :=
  unwrap (slc_new 1 2) (λ config,
    let mems := members [1; 2; 3; 4] in
    unwrap (generate 1 (ascii "conversation") mems 2 config 0) (λ base,
      existsb (λ r, unwrap (generate 1 (ascii "conversation") mems 2 config r) (λ other,
        sl_members other ≠? sl_members base)) (N.of_nat <$> seq 1%nat 9%nat))).

Definition retry_round_seed_persists_independently_of_caller_counter : bool :=
  unwrap (slc_new 2 4) (λ config,
    let mems := members [1; 2; 3; 4] in
    let epoch := 7%N in
    let accepted_round := 2%N in
    unwrap (generate epoch (ascii "conv") mems 4 config accepted_round) (λ list,
    unwrap (generate epoch (ascii "conv") mems 4 config 0) (λ round0,
      (sl_retry_round list ≟ accepted_round) && (sl_members list ≠? sl_members round0) &&
      unwrap (validate (sl_members list) epoch (ascii "conv") (sl_members list) config accepted_round) id &&
      unwrap (validate (sl_members list) epoch (ascii "conv") (sl_members list) config 0) negb))).

Lemma list_tests_hold : all_of [
  test_config_validation; test_new_rejects_bad_bounds; test_generate_empty_members; test_generate_invalid_sn;
  test_deterministic_generation; test_different_epoch_shuffles; test_different_conversation_shuffles;
  test_member_order_does_not_affect_result; test_regen_at_sn_max_is_full_membership; test_epoch_steward_rotation;
  test_backup_is_next_rotation_slot; test_list_exhaustion; test_validate_correct_list; test_validate_tampered_list;
  test_validate_wrong_epoch; test_validate_wrong_members; test_single_member;
  test_epoch_steward_walks_past_ineligible; test_epoch_and_backup_all_ineligible_and_single_survivor;
  test_epoch_and_backup_rotates_when_epoch_leaves; test_epoch_and_backup_matches_nominal_when_all_eligible;
  test_sha256_sorting_is_ascending; test_validate_rejects_empty_list; validate_rejects_biased_subset_and_wrong_count;
  test_below_sn_min_uses_all_members; test_large_conversation_subset_selection;
  test_retry_rounds_produce_different_lists; retry_round_seed_persists_independently_of_caller_counter] = true.
Proof. by vm_compute. Qed.

(** ** [service.rs] *)

Definition config : res StewardListConfig := slc_new 1 5.
(** A service with [mems] installed at epoch 0. *)
Definition installed (cfg : res StewardListConfig) (mems : list bytes) (sn : N) (k : StewardListService → bool) : bool :=
  unwrap cfg (λ cfg, run (install_list 0 mems sn 0 (svc_empty cfg)) (λ p _, k p)).

Definition empty_service_has_no_list : bool :=
  unwrap config (λ config,
    let p := svc_empty config in
    is_none (svc_list p) && negb (is_steward p (member 1)) && negb (is_exhausted p 0) &&
    (epoch_steward p 0 all ≟ None) && (svc_election_epoch p ≟ None)).

Definition install_sets_current_list : bool :=
  installed config (members [1; 2; 3]) 3 (λ p,
    unwrap_some (svc_list p) (λ l, len (sl_members l) ≟ 3) && (svc_election_epoch p ≟ Some 0)).

Definition epoch_steward_filters_by_eligibility : bool :=
  let mems := members [1; 2; 3] in
  installed config mems 3 (λ p,
    unwrap_some (epoch_steward p 0 all) (λ nominal,
    unwrap_some (epoch_steward p 0 (λ c, c ≠? nominal)) (λ next,
      (next ≠? nominal) && existsb (λ m, m ≟ next) mems))).

Definition epoch_and_backup_distinct_when_two_eligible : bool :=
  installed (slc_new 3 3) (members [1; 2; 3]) 3 (λ p,
    let '(e, b) := epoch_and_backup p 0 all in
    unwrap_some e (λ e, unwrap_some b (λ b, e ≠? b))).

Definition backup_is_none_when_only_one_eligible : bool :=
  let mems := members [1; 2; 3] in
  installed config mems 3 (λ p,
    let survivor := mems !!! 0%nat in
    let '(e, b) := epoch_and_backup p 0 (λ c, c ≟ survivor) in
    unwrap_some e (λ e, e ≟ survivor) && is_none b).

Definition bump_retry_increments_round_past_max : bool :=
  unwrap config (λ config,
    let p := bump_retry (set_max_retries 1 (svc_empty config)) in
    let p' := bump_retry p in
    (next_election_round p ≟ 1) && (next_election_round p <=? max_retries p) &&
    (next_election_round p' ≟ 2) && (max_retries p' <? next_election_round p')).

Definition reset_retry_clears_round : bool :=
  unwrap config (λ config,
    let p := bump_retry (bump_retry (svc_empty config)) in
    (next_election_round p ≟ 2) && (next_election_round (reset_retry p) ≟ 0)).

Definition validate_proposed_against_self_derived_list : bool :=
  let mems := members [1; 2; 3] in
  installed config mems 3 (λ p, unwrap_some (svc_list p) (λ l,
    unwrap (validate_proposed p (sl_members l) 0 mems 0) id)).

Definition validate_proposed_rejects_tampered_order : bool :=
  let mems := members [1; 2; 3] in
  installed config mems 3 (λ p, unwrap_some (svc_list p) (λ l,
    unwrap (validate_proposed p (swap01 (sl_members l)) 0 mems 0) negb)).

Definition steward_members_returns_filtered_list : bool :=
  let mems := members [1; 2; 3] in
  installed config mems 3 (λ p,
    let dropped := mems !!! 0%nat in
    let filtered := svc_steward_members p (λ c, c ≠? dropped) in
    (len filtered ≟ 2) && forallb (λ m, m ≠? dropped) filtered).

Definition set_max_retries_updates_threshold : bool :=
  unwrap config (λ config,
    let p := set_max_retries 3 (svc_empty config) in
    let bumped n := Nat.iter n bump_retry p in
    (max_retries p ≟ 3) &&
    forallb (λ n, next_election_round (bumped n) <=? max_retries (bumped n)) [1; 2; 3]%nat &&
    (max_retries (bumped 4%nat) <? next_election_round (bumped 4%nat))).

Definition election_proposer_walks_eligibility : bool :=
  installed (slc_new 3 3) (members [1; 2; 3]) 3 (λ p,
    unwrap_some (election_proposer p all) (λ proposer,
    unwrap_some (election_proposer p (λ c, c ≠? proposer)) (λ next, next ≠? proposer))).

Definition responsible_proposer_round_zero_matches_election_proposer : bool :=
  let mems := members [1; 2; 3] in
  installed (slc_new 3 3) mems 3 (λ p, responsible_proposer p 0 mems all ≟ election_proposer p all).

Definition responsible_proposer_falls_back_past_ineligible_list : bool :=
  installed (slc_new 1 1) (members [9]) 1 (λ p,
    responsible_proposer p 0 (members [3; 2; 9]) (λ c, c ≠? member 9) ≟ Some (member 2)).

Definition responsible_proposer_rotates_by_round : bool :=
  installed (slc_new 1 1) (members [9]) 1 (λ p,
    let pool := members [3; 2; 9] in
    (responsible_proposer p 0 pool all ≟ Some (member 9)) && (responsible_proposer p 1 pool all ≟ Some (member 2)) &&
    (responsible_proposer p 2 pool all ≟ Some (member 3)) && (responsible_proposer p 3 pool all ≟ Some (member 9))).

Definition responsible_proposer_none_when_no_one_eligible : bool :=
  installed (slc_new 1 1) (members [9]) 1 (λ p, responsible_proposer p 0 (members [2]) (λ _, false) ≟ None).

Definition election_required_only_above_sn_max : bool :=
  unwrap (slc_new 2 3) (λ cfg,
    let p := svc_empty cfg in
    negb (election_required p 1) && negb (election_required p 3) && election_required p 4).

Definition snapshot_restore_round_trips_list_and_retry : bool :=
  unwrap config (λ config,
    run (install_list 0 (members [1; 2; 3]) 3 0 (set_conversation_id (ascii "conv") (svc_empty config))) (λ p _,
      let p := bump_retry p in
      unwrap (svc_snapshot p) (λ snap,
        let restored := svc_restore snap (set_conversation_id (ascii "conv") (svc_empty config)) in
        unwrap_some (svc_list restored) (λ l, unwrap_some (svc_list p) (λ l', sl_members l ≟ sl_members l')) &&
        (svc_election_epoch restored ≟ Some 0) && (next_election_round restored ≟ 1)))).

Definition snapshot_of_empty_service_errors : bool :=
  unwrap config (λ config, is_err (svc_snapshot (svc_empty config))).

Lemma service_tests_hold : all_of [
  empty_service_has_no_list; install_sets_current_list; epoch_steward_filters_by_eligibility;
  epoch_and_backup_distinct_when_two_eligible; backup_is_none_when_only_one_eligible;
  bump_retry_increments_round_past_max; reset_retry_clears_round; validate_proposed_against_self_derived_list;
  validate_proposed_rejects_tampered_order; steward_members_returns_filtered_list; set_max_retries_updates_threshold;
  election_proposer_walks_eligibility; responsible_proposer_round_zero_matches_election_proposer;
  responsible_proposer_falls_back_past_ineligible_list; responsible_proposer_rotates_by_round;
  responsible_proposer_none_when_no_one_eligible; election_required_only_above_sn_max;
  snapshot_restore_round_trips_list_and_retry; snapshot_of_empty_service_errors] = true.
Proof. by vm_compute. Qed.
