(* ===== verification/ConformScoring.v ===== *)
(** * The tests of [src/peer_scoring/] and [src/defaults.rs]

    The [tests] modules of [service.rs], [helpers.rs], [types.rs] and [defaults.rs],
    with the failing storage of [src/test_fixtures.rs]. *)

From S2P Require Import Prelude Protos StewardList Scoring Conform.

#[local] Existing Instance canonical_hash_iter.
#[local] Open Scope Z_scope.

Definition alice : bytes := ascii "alice".
Definition bob : bytes := ascii "bob".
Definition carol : bytes := ascii "carol".
Abbreviation Svc := (PeerScoringService InMemoryPeerScoreStorage).

(** ** [service.rs] *)

Definition no_members : InMemoryPeerScoreStorage := mk_in_memory ∅.
Definition make_service : Svc :=
  scoring_new no_members
    {[ EmergencyNoCreator := -50; EmergencyYesCreator := 20; BrokenCommit := -50; SuccessfulCommit := 10;
       MisbehavingCommit := -30 ]} (mk_scoring_config 100 0).

Definition op (member : bytes) (event : ScoreEvent) : ScoreOp := mk_score_op member event.

(** The last change a single op reported. *)
Definition svc_apply_one {St} `{!PeerScoreStorage St} (o : ScoreOp) : method (PeerScoringService St) (option ScoreChange) :=
  let! changes := apply_ops [o] in sret (last changes).

Definition scores_at {St} `{!PeerScoreStorage St} (s : PeerScoringService St) (id : bytes) (want : option Z) : bool :=
  unwrap (score_for s id) (λ got, got ≟ want).

Definition apply_ops_reports_the_net_result_not_the_low_water_mark : bool :=
  run ((add_member alice ;! apply_ops [op alice BrokenCommit; op alice EmergencyYesCreator]) make_service) (λ svc changes,
    (changes ≟ [mk_score_change alice 100 70]) && scores_at svc alice (Some 70)).

Definition apply_ops_is_silent_when_a_batch_nets_to_zero : bool :=
  run ((add_member alice ;! apply_ops [op alice BrokenCommit; op alice EmergencyNoCreator])
    (scoring_new no_members {[ BrokenCommit := -50; EmergencyNoCreator := 50 ]} scoring_config_default)) (λ svc changes,
    (changes ≟ []) && scores_at svc alice (Some 100)).

Definition apply_ops_reports_once_per_member_in_first_touch_order : bool :=
  run ((add_member alice ;! add_member bob ;!
        apply_ops [op bob BrokenCommit; op alice BrokenCommit; op bob BrokenCommit]) make_service) (λ svc changes,
    let reported := (λ c, (ch_member_id c, ch_previous c, ch_score c)) <$> changes in
    reported ≟ [(bob, 100, 0); (alice, 100, 50)]).

Definition untracked_member_reports_nothing : bool :=
  let ghost := ascii "ghost" in
  run (svc_apply_one (op ghost BrokenCommit) make_service) (λ svc change, is_none change && scores_at svc ghost None).

Definition apply_snapshot_reports_divergence_from_the_default : bool :=
  run (apply_snapshot (mk_score_snapshot [(alice, -10); (bob, 40)]) make_service) (λ _ changes,
    changes ≟ [mk_score_change alice 100 (-10); mk_score_change bob 100 40]).

Definition apply_snapshot_is_silent_on_a_resend : bool :=
  let snapshot := mk_score_snapshot [(alice, -10)] in
  run (apply_snapshot snapshot make_service) (λ svc changes,
    (len changes ≟ 1%N) && run (apply_snapshot snapshot svc) (λ _ changes, changes ≟ [])).

Definition add_member_gets_default_score : bool :=
  run (add_member alice make_service) (λ svc _,
    scores_at svc alice (Some 100) &&
    unwrap (score_for svc alice) (λ score, unwrap_some score (λ score, threshold (sc_config svc) <? score))).

Definition unknown_member_returns_none : bool := scores_at make_service (ascii "unknown") None.

Definition remove_member_clears_score : bool :=
  run ((add_member alice ;! remove_member alice) make_service) (λ svc _, scores_at svc alice None).

Definition apply_event_decreases_score : bool :=
  run ((add_member alice ;! svc_apply_one (op alice EmergencyNoCreator)) make_service) (λ svc _,
    scores_at svc alice (Some 50)).

Definition multiple_events_accumulate : bool :=
  run ((add_member alice ;!
        sfor [EmergencyNoCreator; MisbehavingCommit; SuccessfulCommit] (λ event,
          let! _ := svc_apply_one (op alice event) in sret tt)) make_service) (λ svc _, scores_at svc alice (Some 30)).

Definition apply_ops_applies_every_op : bool :=
  let ops := [op alice BrokenCommit; op alice BrokenCommit; op bob BrokenCommit; op bob BrokenCommit] in
  run ((add_member alice ;! add_member bob ;! apply_ops ops) make_service) (λ svc _,
    scores_at svc alice (Some 0) && scores_at svc bob (Some 0)).

Definition snapshot_includes_only_diverged_scores : bool :=
  run ((add_member alice ;! add_member bob ;! add_member (ascii "charlie") ;!
        svc_apply_one (op alice SuccessfulCommit)) make_service) (λ svc _,
    unwrap (scoring_snapshot svc) (λ snap, ((diverged snap).*1 ≟ [alice]) && ((diverged snap).*2 ≟ [110]))).

Definition apply_snapshot_sets_absolute_scores : bool :=
  run ((add_member alice ;! add_member bob ;! apply_snapshot (mk_score_snapshot [(alice, -10); (bob, 50)])) make_service)
    (λ svc _, scores_at svc alice (Some (-10)) && scores_at svc bob (Some 50)).

Definition apply_snapshot_auto_tracks_unknown_member : bool :=
  let newcomer := ascii "newcomer" in
  run (apply_snapshot (mk_score_snapshot [(newcomer, -10)]) make_service) (λ svc _, scores_at svc newcomer (Some (-10))).

Definition adopting_a_default_rebases_members_left_on_the_old_one : bool :=
  run ((add_member alice ;! add_member bob ;! apply_ops [op bob BrokenCommit] ;! set_default_score 80) make_service)
    (λ svc _, scores_at svc alice (Some 80) && scores_at svc bob (Some 50) && (default_score (sc_config svc) ≟ 80)).

Definition adopting_an_unchanged_default_is_a_noop : bool :=
  run ((add_member alice ;! set_default_score 100) make_service) (λ svc _, scores_at svc alice (Some 100)).

(** [sort] of pairs: by id, then by score. *)
Definition sorted_scores (l : list (bytes * Z)) : list (bytes * Z) :=
  sort_by (cmp_lex (cmp_on fst bytes_cmp) (cmp_on snd Z.compare)) l.
Definition same_tables (s1 s2 : Svc) : bool :=
  unwrap (all_members_with_scores s1) (λ sent, unwrap (all_members_with_scores s2) (λ got,
    sorted_scores got ≟ sorted_scores sent)).

Definition adopt_then_snapshot_reproduces_the_senders_table : bool :=
  run ((add_member alice ;! add_member bob ;! apply_ops [op bob BrokenCommit])
    (scoring_new no_members default_score_deltas (mk_scoring_config 80 0))) (λ sender _,
  unwrap (scoring_snapshot sender) (λ wire,
    negb (existsb (λ e : bytes * Z, e.1 ≟ alice) (diverged wire)) &&
    run ((add_member alice ;! add_member bob ;! set_default_score 80 ;! apply_snapshot wire) make_service) (λ joiner _,
      same_tables sender joiner))).

Definition validate_config_rejects_a_non_positive_default : bool :=
  is_err (validate_config (scoring_new no_members default_score_deltas (mk_scoring_config 0 0))).

(** *** The failing storage of [test_fixtures.rs] *)

Record FailingPeerScoreStorage := mk_failing {
  fps_scores : gmap bytes Z; fail_after : option N; fail_reads : bool; writes : N;
}.
Definition failing_default : FailingPeerScoreStorage := mk_failing ∅ None false 0.
Definition failing_after (n : N) : FailingPeerScoreStorage := mk_failing ∅ (Some n) false 0.
Definition always_failing : FailingPeerScoreStorage := mk_failing ∅ (Some 0%N) true 0.
Definition allow_further (n : N) (s : FailingPeerScoreStorage) : FailingPeerScoreStorage :=
  mk_failing (fps_scores s) (Some (writes s + n)%N) (fail_reads s) (writes s).
Definition score_storage_failure : ext_error := "peer-score storage write failed"%string.

#[export] Instance failing_storage : PeerScoreStorage FailingPeerScoreStorage := {|
  ps_get id s := if fail_reads s then Err score_storage_failure else Ok (fps_scores s !! id);
  ps_set id score s :=
    if match fail_after s with Some n => (n <=? writes s)%N | None => false end
    then (s, Err score_storage_failure)
    else (mk_failing (<[id := score]> (fps_scores s)) (fail_after s) (fail_reads s) (writes s + 1), Ok tt);
  ps_remove id s := (mk_failing (delete id (fps_scores s)) (fail_after s) (fail_reads s) (writes s), Ok tt);
  ps_all_scores s := if fail_reads s then Err score_storage_failure else Ok (hash_iter (fps_scores s));
|}.

(** It is a storage like any other. *)
#[export] Program Instance failing_laws : PeerScoreStorageLaws FailingPeerScoreStorage := {|
  contents := fps_scores;
|}.
Solve All Obligations with (intros; unfold ps_get, ps_set, ps_remove, ps_all_scores, failing_storage in *; repeat case_match;
  simplify_eq/=; try done; apply hash_iter_perm).

Definition score_storage_error {A} (r : res A) : bool := match r with Err (ScoreStorage _) => true | _ => false end.

Definition storage_failure_propagates : bool :=
  run (add_member alice (scoring_new (failing_after 1) default_score_deltas scoring_config_default)) (λ svc _,
    score_storage_error (apply_ops [op alice BrokenCommit] svc).2).

Definition storage_failure_mid_batch_keeps_what_landed : bool :=
  run ((add_member alice ;! add_member bob) (scoring_new failing_default default_score_deltas scoring_config_default))
    (λ svc _,
      let svc := set_storage (allow_further 1 (sc_storage svc)) svc in
      let '(svc, r) := apply_ops [op alice BrokenCommit; op bob BrokenCommit] svc in
      score_storage_error r && scores_at svc alice (Some 50) && scores_at svc bob (Some 100)).

Definition snapshot_round_trips_through_apply_snapshot : bool :=
  let three := sfor [alice; bob; carol] add_member in
  run ((three ;! apply_ops [op alice BrokenCommit; op carol SuccessfulCommit]) make_service) (λ sender _,
  unwrap (scoring_snapshot sender) (λ wire,
    negb (existsb (λ e : bytes * Z, e.1 ≟ bob) (diverged wire)) &&
    run ((three ;! apply_snapshot wire) make_service) (λ joiner _, same_tables sender joiner))).

Definition score_saturates_no_underflow : bool :=
  run ((apply_snapshot (mk_score_snapshot [(alice, i64_min)]) ;! svc_apply_one (op alice BrokenCommit))
    (scoring_new no_members {[ BrokenCommit := i64_min ]} scoring_config_default)) (λ svc _,
    scores_at svc alice (Some i64_min)).

Definition empty_batch_is_a_noop : bool :=
  run ((add_member alice ;! apply_ops []) make_service) (λ svc changes, (changes ≟ []) && scores_at svc alice (Some 100)).

Definition score_saturates_no_overflow : bool :=
  run ((add_member alice ;! svc_apply_one (op alice SuccessfulCommit))
    (scoring_new no_members {[ SuccessfulCommit := i64_max ]} (mk_scoring_config i64_max 0))) (λ svc _,
    scores_at svc alice (Some i64_max)).

Definition an_omitted_event_keeps_its_default_delta : bool :=
  run ((add_member alice ;! svc_apply_one (op alice EmergencyNoCreator))
    (scoring_new no_members {[ EmergencyNoCreator := -50 ]} scoring_config_default)) (λ svc _,
    scores_at svc alice (Some 50) &&
    run (svc_apply_one (op alice SuccessfulCommit) svc) (λ svc _, scores_at svc alice (Some 60))).

Lemma scoring_service_tests_hold : all_of [
  apply_ops_reports_the_net_result_not_the_low_water_mark; apply_ops_is_silent_when_a_batch_nets_to_zero;
  apply_ops_reports_once_per_member_in_first_touch_order; untracked_member_reports_nothing;
  apply_snapshot_reports_divergence_from_the_default; apply_snapshot_is_silent_on_a_resend;
  add_member_gets_default_score; unknown_member_returns_none; remove_member_clears_score; apply_event_decreases_score;
  multiple_events_accumulate; apply_ops_applies_every_op; snapshot_includes_only_diverged_scores;
  apply_snapshot_sets_absolute_scores; apply_snapshot_auto_tracks_unknown_member;
  adopting_a_default_rebases_members_left_on_the_old_one; adopting_an_unchanged_default_is_a_noop;
  adopt_then_snapshot_reproduces_the_senders_table; validate_config_rejects_a_non_positive_default;
  storage_failure_propagates; storage_failure_mid_batch_keeps_what_landed;
  snapshot_round_trips_through_apply_snapshot; score_saturates_no_underflow; empty_batch_is_a_noop;
  score_saturates_no_overflow; an_omitted_event_keeps_its_default_delta] = true.
Proof. by vm_compute. Qed.

(** ** [helpers.rs] *)

Definition ecp_request (violation_type : Z) (target creator : bytes) : ConversationUpdateRequest :=
  mk_request (Some (EmergencyCriteria (Some (mk_evidence violation_type target [] 0 creator)))).

Definition diff_reports_additions_and_removals_together : bool :=
  let diff := scoring_member_diff [alice; ascii "gone"] [alice; ascii "newcomer"] in
  (to_add diff ≟ [ascii "newcomer"]) && (to_remove diff ≟ [ascii "gone"]).

Definition diff_of_matching_sets_is_empty : bool :=
  let diff := scoring_member_diff [alice; bob] [alice; bob] in
  (to_add diff ≟ []) && (to_remove diff ≟ []).

Definition diff_handles_empty_sides : bool :=
  let bootstrap := scoring_member_diff [] [alice] in
  let emptied := scoring_member_diff [alice] [] in
  (to_add bootstrap ≟ [alice]) && (to_remove bootstrap ≟ []) && (to_add emptied ≟ []) && (to_remove emptied ≟ [alice]).

Definition non_emergency_request_scores_nobody : bool :=
  let req := mk_request (Some (RemoveMember [xaa])) in
  (emergency_score_ops req true ≟ []) && (emergency_score_ops req false ≟ []).

Definition evidenceless_emergency_scores_nobody : bool :=
  let req := mk_request (Some (EmergencyCriteria None)) in
  (emergency_score_ops req true ≟ []) && (emergency_score_ops req false ≟ []).

Definition approved_broken_commit_emits_reward_and_target_penalty : bool :=
  let req := ecp_request (violation_as_i32 BrokenCommitV) [xaa] [xbb] in
  emergency_score_ops req true ≟ [op [xbb] EmergencyYesCreator; op [xaa] BrokenCommit].

Definition approved_deadlock_emits_reward_only : bool :=
  let req := ecp_request (violation_as_i32 DeadlockV) [] [xbb] in
  (op_event <$> emergency_score_ops req true) ≟ [EmergencyYesCreator].

Definition approved_unspecified_emits_reward_only : bool :=
  let req := ecp_request 0 [xaa] [xbb] in
  (op_event <$> emergency_score_ops req true) ≟ [EmergencyYesCreator].

Definition rejected_emits_creator_penalty : bool :=
  forallb (λ vt,
    let req := ecp_request (violation_as_i32 vt) [xaa] [xbb] in
    emergency_score_ops req false ≟ [op [xbb] EmergencyNoCreator]) [BrokenCommitV; DeadlockV; ScoreBelowThresholdV].

Lemma helpers_tests_hold : all_of [
  diff_reports_additions_and_removals_together; diff_of_matching_sets_is_empty; diff_handles_empty_sides;
  non_emergency_request_scores_nobody; evidenceless_emergency_scores_nobody;
  approved_broken_commit_emits_reward_and_target_penalty; approved_deadlock_emits_reward_only;
  approved_unspecified_emits_reward_only; rejected_emits_creator_penalty] = true.
Proof. by vm_compute. Qed.

(** ** [types.rs] *)

Definition validate_accepts_any_positive_default : bool :=
  forallb (λ p : Z * Z, is_ok (scoring_config_validate (mk_scoring_config p.1 p.2))) [(100, 0); (1, 0); (i64_max, -50)].
Definition validate_rejects_a_non_positive_default : bool :=
  forallb (λ d, is_err (scoring_config_validate (mk_scoring_config d 0))) [0; -1; i64_min].
Definition validate_rejects_default_not_greater_than_threshold : bool :=
  forallb (λ p : Z * Z, is_err (scoring_config_validate (mk_scoring_config p.1 p.2))) [(1, 1); (5, 10); (0, 0)].
Definition rfc_defaults_validate : bool := is_ok (scoring_config_validate scoring_config_default).

Lemma types_tests_hold : all_of [
  validate_accepts_any_positive_default; validate_rejects_a_non_positive_default;
  validate_rejects_default_not_greater_than_threshold; rfc_defaults_validate] = true.
Proof. by vm_compute. Qed.

(** ** [defaults.rs] *)

Definition in_memory_storage_round_trip : bool :=
  let get s id := unwrap (ps_get id s) in
  get no_members alice (λ r, r ≟ None) &&
  run (ps_set alice 42 no_members) (λ storage _, get storage alice (λ r, r ≟ Some 42) &&
  run (ps_set bob (-3) storage) (λ storage _,
    unwrap (ps_all_scores storage) (λ all, len all ≟ 2%N) &&
  run (ps_remove alice storage) (λ storage _,
    get storage alice (λ r, r ≟ None) && unwrap (ps_all_scores storage) (λ all, len all ≟ 1%N)))).

Lemma defaults_tests_hold : in_memory_storage_round_trip = true.
Proof. by vm_compute. Qed.
