(* ===== verification/ConformQueues.v ===== *)
(** * The tests of the queues and of a resolved proposal's effect

    The [tests] modules of [src/conversation/queues.rs],
    [src/commit_round/buffer.rs] and [src/consensus/apply_result.rs]. *)

From S2P Require Import Prelude Protos StewardList Mls Toy Buffer Queues Scoring ApplyResult Room Conform.

#[local] Existing Instances test_hash toy_mls canonical_hash_iter toy_codec.
#[local] Open Scope N_scope.

Definition member (id : N) : bytes := replicate 20%nat (byte_of_N id).
Definition members (ids : list N) : list bytes := member <$> ids.
Definition approved_ids (q : ConversationQueues) : list N := im_keys (approved_proposals q).
Definition contains_key (q : ConversationQueues) (id : N) : bool := contains (approved_ids q) id.

(** ** [queues.rs] *)

Definition resolved_cache_records_and_evicts_fifo : bool :=
  let cache : BoundedSet N := bs_new 3 in
  let cache := (bs_insert 1 cache).1 in
  let cache := (bs_insert 2 cache).1 in
  let cache := (bs_insert 3 cache).1 in
  bs_contains cache 1 && bs_contains cache 2 && bs_contains cache 3 &&
  let cache := (bs_insert 4 cache).1 in
  negb (bs_contains cache 1) && bs_contains cache 2 && bs_contains cache 3 && bs_contains cache 4.

Definition resolved_cache_dedupes_and_does_not_bump_position : bool :=
  let cache : BoundedSet N := bs_new 3 in
  let cache := (bs_insert 1 cache).1 in
  let cache := (bs_insert 2 cache).1 in
  let cache := (bs_insert 1 cache).1 in
  let cache := (bs_insert 3 cache).1 in
  bs_contains cache 1 && bs_contains cache 2 && bs_contains cache 3 &&
  let cache := (bs_insert 4 cache).1 in
  negb (bs_contains cache 1) && bs_contains cache 2 && bs_contains cache 3 && bs_contains cache 4.

Definition bounded_set_clamps_zero_capacity_so_dedup_still_works : bool :=
  let '(cache, fresh) := bs_insert 1 (bs_new 0 : BoundedSet N) in
  fresh && bs_contains cache 1 && negb (bs_insert 1 cache).2.

Definition mark_consensus_outcome_persists_in_resolved_cache : bool :=
  let conversation := queues_new "g" 10 in
  negb (is_consensus_outcome_applied conversation 42) &&
  is_consensus_outcome_applied (mark_consensus_outcome_applied 42 conversation) 42.

Definition insert_remove_member (target : bytes) (proposal_id : N) (conversation : ConversationQueues) :
    ConversationQueues :=
  insert_approved_proposal proposal_id (remove_member_request target) conversation.

Definition test_reject_all_approved_preserves_all_remove_member : bool :=
  let conversation := queues_new "test-conversation" 10 in
  let ban_id := 0x11112222%N in
  let ecp_id := 0x33334444%N in
  let add_id := 0x55556666%N in
  let conversation := insert_remove_member (member 2) ban_id conversation in
  let conversation := insert_remove_member (member 3) ecp_id conversation in
  let add := member_invite_request (replicate 8%nat x00) in
  let conversation := insert_approved_proposal add_id add conversation in
  (approved_proposals_count conversation ≟ 3%N) &&
  let conversation := reject_all_approved_proposals conversation in
  (approved_proposals_count conversation ≟ 2%N) && contains_key conversation ban_id &&
  contains_key conversation ecp_id && negb (contains_key conversation add_id).

Definition test_approved_proposals_preserve_fifo_across_mutations : bool :=
  let conversation := queues_new "g" 10 in
  let conversation := insert_remove_member (member 2) 500 conversation in
  let conversation := insert_remove_member (member 3) 100 conversation in
  let conversation := insert_remove_member (member 4) 300 conversation in
  (approved_ids conversation ≟ [500; 100; 300]%N) &&
  let conversation := remove_approved_proposal 100 conversation in
  (approved_ids conversation ≟ [500; 300]%N) &&
  let conversation := insert_remove_member (member 2) 500 conversation in
  (approved_ids conversation ≟ [500; 300]%N) &&
  (approved_ids (drain_approved_proposals conversation).1 ≟ []).

Definition test_urgent_commit_target_set_take_clears : bool :=
  let conversation := queues_new "g" 10 in
  is_none (urgent_commit_target conversation) &&
  let target := member 7 in
  let conversation := set_urgent_commit_target target conversation in
  (urgent_commit_target conversation ≟ Some target) &&
  let '(conversation, taken) := take_urgent_commit_target conversation in
  (taken ≟ Some target) && is_none (urgent_commit_target conversation).

Definition test_drop_approved_removals_for_target : bool :=
  let conversation := queues_new "g" 10 in
  let victim := member 7 in
  let bystander := member 9 in
  let conversation := insert_remove_member victim 100 conversation in
  let conversation := insert_remove_member victim 101 conversation in
  let conversation := insert_remove_member bystander 200 conversation in
  (approved_proposals_count conversation ≟ 3%N) &&
  let conversation := drop_approved_removals_for victim conversation in
  (approved_proposals_count conversation ≟ 1%N) && contains_key conversation 200 &&
  negb (contains_key conversation 100) && negb (contains_key conversation 101).

(** The insertion the test asserts, then [k]. *)
Definition buffer_remove_at (target : bytes) (epoch : N) (conversation : ConversationQueues)
    (k : ConversationQueues → bool) : bool :=
  let '(conversation, inserted) := insert_pending_update (remove_member_request target) epoch conversation in
  inserted && k conversation.

Definition test_expire_pending_updates_drops_entries_older_than_max_age : bool :=
  let stale := member 7 in
  let fresh := member 9 in
  buffer_remove_at stale 0 (queues_new "g" 10) (λ conversation,
  buffer_remove_at fresh 4 conversation (λ conversation,
    (pending_update_count conversation ≟ 2%N) &&
    let '(conversation, expired) := expire_pending_updates 5 1 conversation in
    (expired ≟ [stale]) && (pending_update_count conversation ≟ 1%N) &&
    has_pending_update conversation fresh && negb (has_pending_update conversation stale))).

Definition test_expire_pending_updates_max_age_zero_keeps_only_current_epoch : bool :=
  let prior := member 7 in
  let current := member 9 in
  buffer_remove_at prior 4 (queues_new "g" 10) (λ conversation,
  buffer_remove_at current 5 conversation (λ conversation,
    let '(conversation, expired) := expire_pending_updates 5 0 conversation in
    (expired ≟ [prior]) && has_pending_update conversation current &&
    negb (has_pending_update conversation prior))).

Definition score_removal_target_stays_covered_through_its_lifecycle : bool :=
  let conversation := queues_new "removal-no-duplicate" 10 in
  let creator := member 1 in
  let target := member 7 in
  let evidence := with_creator creator (score_below_threshold target 0 0) in
  unwrap (into_update_request evidence) (λ request,
    let proposal_id := 300%N in
    let conversation := track_voting_proposal proposal_id request conversation in
    bool_decide (target ∈ active_proposal_targets conversation) &&
    negb (has_approved_removal conversation target) &&
    let conversation := (apply_consensus_result proposal_id true request conversation).1 in
    has_approved_removal conversation target &&
    bool_decide (target ∈ active_proposal_targets conversation)).

Lemma queues_tests_hold : all_of [
  resolved_cache_records_and_evicts_fifo; resolved_cache_dedupes_and_does_not_bump_position;
  bounded_set_clamps_zero_capacity_so_dedup_still_works; mark_consensus_outcome_persists_in_resolved_cache;
  test_reject_all_approved_preserves_all_remove_member; test_approved_proposals_preserve_fifo_across_mutations;
  test_urgent_commit_target_set_take_clears; test_drop_approved_removals_for_target;
  test_expire_pending_updates_drops_entries_older_than_max_age;
  test_expire_pending_updates_max_age_zero_keeps_only_current_epoch;
  score_removal_target_stays_covered_through_its_lifecycle] = true.
Proof. by vm_compute. Qed.

(** ** [buffer.rs] *)

Definition candidate (commit_byte : byte) : CommitCandidate :=
  mk_candidate (ascii "g") [replicate 8%nat xab] (replicate 32%nat commit_byte) [x01].

Definition local_candidate_bytes_offers_only_our_own_candidate : bool :=
  let buffer := buffer_default in
  is_none (local_candidate_bytes buffer) &&
  let buffer := (buffer_add (candidate x01) false None [] 1 4 buffer).1 in
  is_none (local_candidate_bytes buffer) &&
  let ours := candidate x02 in
  let buffer := (buffer_add ours true None [] 1 4 buffer).1 in
  local_candidate_bytes buffer ≟ Some (encode_app_message (to_app_message (AppCommitCandidate ours))).

Lemma buffer_tests_hold : local_candidate_bytes_offers_only_our_own_candidate = true.
Proof. by vm_compute. Qed.

(** ** [apply_result.rs] *)

Definition election_request (stewards : list bytes) (epoch : N) : ConversationUpdateRequest :=
  steward_election_request (mk_election stewards epoch 0).

Definition election_yes_returns_outcome_and_clears_voting : bool :=
  unwrap (slc_new 2 5) (λ config,
    let conversation := queues_new "test-conversation" 10 in
    let mems := members [1; 2; 3; 4; 5] in
    let sn := N.min (len mems) (sn_max config) in
    unwrap (generate 10 (ascii "test-conversation") mems sn config 0) (λ list,
      let request := election_request (sl_members list) 10 in
      let proposal_id := 42%N in
      let conversation := track_voting_proposal proposal_id request conversation in
      let '(conversation, result) := apply_consensus_result proposal_id true request conversation in
      match result with
      | ElectionAccepted outcome =>
          (el_election_epoch outcome ≟ 10%N) && (len (proposed_stewards outcome) ≟ 5%N) &&
          (approved_proposals_count conversation ≟ 0%N) && negb (is_voting conversation proposal_id)
      | _ => false
      end)).

Definition election_no_returns_election_rejected : bool :=
  let conversation := queues_new "test-conversation" 10 in
  let request := election_request [member 1; member 2] 10 in
  let proposal_id := 43%N in
  let conversation := track_voting_proposal proposal_id request conversation in
  let '(conversation, result) := apply_consensus_result proposal_id false request conversation in
  match result with ElectionRejected => true | _ => false end &&
  (approved_proposals_count conversation ≟ 0%N).

Definition remove_request (target : bytes) : ConversationUpdateRequest := remove_member_request target.

Definition removal_deduped_when_target_already_pending : bool :=
  let conversation := queues_new "test-conversation" 10 in
  let target := member 7 in
  let first_id := 10%N in
  let '(conversation, first_result) := apply_consensus_result first_id true (remove_request target) conversation in
  match first_result with QueuedRemoval _ => true | _ => false end &&
  (approved_proposals_count conversation ≟ 1%N) &&
  let second_id := 11%N in
  let '(conversation, result) := apply_consensus_result second_id true (remove_request target) conversation in
  match result with NoAction => true | _ => false end &&
  (approved_proposals_count conversation ≟ 1%N) &&
  contains_key conversation first_id && negb (contains_key conversation second_id).

Definition removal_dedup_clears_voting_entry : bool :=
  let conversation := queues_new "test-conversation" 10 in
  let target := member 7 in
  let pending_id := 20%N in
  let conversation := insert_approved_proposal pending_id (remove_request target) conversation in
  let dup_id := 21%N in
  let dup_request := remove_request target in
  let conversation := track_voting_proposal dup_id dup_request conversation in
  let '(conversation, result) := apply_consensus_result dup_id true dup_request conversation in
  match result with NoAction => true | _ => false end &&
  (approved_proposals_count conversation ≟ 1%N) && contains_key conversation pending_id &&
  negb (is_voting conversation dup_id).

(** A request the test unwraps. *)
Definition score_below_threshold_request (target creator : bytes) : res ConversationUpdateRequest :=
  into_update_request (with_creator creator (score_below_threshold target 0 (-10))).

Definition ecp_score_below_threshold_yes_returns_urgent_removal : bool :=
  let conversation := queues_new "urgent-yes" 10 in
  let target := member 7 in
  unwrap (score_below_threshold_request target (member 1)) (λ request,
    let '(conversation, result) := apply_consensus_result 100 true request conversation in
    match result with UrgentRemoval out_target => out_target ≟ target | _ => false end &&
    (urgent_commit_target conversation ≟ Some target) &&
    (approved_proposals_count conversation ≟ 1%N)).

Definition deadlock_request (creator : bytes) : res ConversationUpdateRequest :=
  into_update_request (with_creator creator (deadlock 0)).

Definition ecp_deadlock_yes_returns_recovery_mode_opened : bool :=
  let conversation := queues_new "deadlock-yes" 10 in
  unwrap (deadlock_request (member 1)) (λ request,
    let '(conversation, result) := apply_consensus_result 200 true request conversation in
    match result with RecoveryModeOpened => true | _ => false end &&
    (approved_proposals_count conversation ≟ 0%N) && is_none (urgent_commit_target conversation)).

Definition rejected_emergency_leaves_no_trace : bool :=
  forallb (λ '(name, request),
    unwrap request (λ request,
      let conversation := queues_new name 10 in
      let '(conversation, result) := apply_consensus_result 201 false request conversation in
      match result with NoAction => true | _ => false end &&
      is_none (urgent_commit_target conversation) && (approved_proposals_count conversation ≟ 0%N)))
    [("deadlock-no"%string, deadlock_request (member 1));
     ("score-below-threshold-no"%string, score_below_threshold_request (member 7) (member 1))].

Definition regular_remove_member_enqueues_without_score_ops : bool :=
  let conversation := queues_new "regular-yes" 10 in
  let target := member 7 in
  let request := remove_request target in
  let proposal_id := 70%N in
  let conversation := track_voting_proposal proposal_id request conversation in
  let conversation := (apply_consensus_result proposal_id true request conversation).1 in
  (emergency_score_ops request true ≟ []) && (approved_proposals_count conversation ≟ 1%N).

Definition regular_emergency_yes_does_not_queue_remove_member : bool :=
  let conversation := queues_new "no-transform" 10 in
  let creator := member 1 in
  let target := member 7 in
  unwrap (into_update_request (with_creator creator (broken_commit target 0 []))) (λ request,
    let proposal_id := 300%N in
    let conversation := track_voting_proposal proposal_id request conversation in
    let conversation := (apply_consensus_result proposal_id true request conversation).1 in
    approved_proposals_count conversation ≟ 0%N).

Lemma apply_result_tests_hold : all_of [
  election_yes_returns_outcome_and_clears_voting; election_no_returns_election_rejected;
  removal_deduped_when_target_already_pending; removal_dedup_clears_voting_entry;
  ecp_score_below_threshold_yes_returns_urgent_removal; ecp_deadlock_yes_returns_recovery_mode_opened;
  rejected_emergency_leaves_no_trace; regular_remove_member_enqueues_without_score_ops;
  regular_emergency_yes_does_not_queue_remove_member] = true.
Proof. by vm_compute. Qed.
