(* ===== verification/ConformRound.v ===== *)
(** * The tests of the commit round and of the MLS service

    The [tests] modules of [src/commit_round/validate.rs] and [apply.rs], and the
    [service_tests] of [src/mls_crypto/service.rs] over [toy_mls], whose one group is
    called ["g"] and in which a member's credential is its signature key. *)

From S2P Require Import Prelude Protos StewardList Mls Toy Buffer Queues CommitRound Conform.

#[local] Existing Instances test_hash toy_mls toy_setup.
#[local] Open Scope N_scope.

(** ** [test_fixtures.rs] *)

Definition make_creator_mls (member_id : bytes) : result MlsError MlsService :=
  new_as_creator "g" [] member_id tt.
(** A list that cannot be installed leaves none: the [expect] fails before. *)
Definition steward_service_member : res StewardListService :=
  let? config := slc_new 1 5 in Ok (svc_empty config).
Definition steward_service_steward (member_id : bytes) : res StewardListService :=
  let? config := slc_new 1 5 in
  let '(service, r) := install_list 0 [member_id] 1 0 (svc_empty config) in
  let? _ := r in Ok service.

(** ** [validate.rs] *)

Definition ctx_at (epoch : N) (recovery : bool) : RoundContext := mk_ctx 1 false epoch recovery None.

Definition bytes20 (b : byte) : bytes := replicate 20%nat b.

(** The service, alice and bob; the assertion that the list is exhausted is the tests'. *)
Definition list_over_two_epochs (k : StewardListService → bytes → bytes → bool) : bool :=
  unwrap (slc_new 2 2) (λ config,
    let alice := bytes20 x01 in
    let bob := bytes20 x02 in
    run (install_list 0 [alice; bob] 2 0 (svc_empty config)) (λ sl _,
      is_exhausted sl 2 && k sl alice bob)).

Definition exhausted_list_still_gates_on_membership : bool :=
  list_over_two_epochs (λ sl alice _,
    let carol := bytes20 x03 in
    let ctx := ctx_at 2 false in
    is_none (check_commit_sender_authorized sl alice ctx) &&
    is_some (check_commit_sender_authorized sl carol ctx)).

Definition recovery_mode_authorizes_any_sender : bool :=
  list_over_two_epochs (λ sl _ _,
    is_none (check_commit_sender_authorized sl (bytes20 x09) (ctx_at 2 true))).

Definition sort_by_priority (candidates : list BufferedCommitCandidate) (es : option bytes) :
    list BufferedCommitCandidate := sort_by (compare_candidate_priority es) candidates.
Definition hash (b : byte) : CommitHash := compute_commit_hash (replicate 32%nat b).
Definition make_candidate (steward : bytes) (actions_count : nat) (h : CommitHash) : BufferedCommitCandidate :=
  mk_buffered (Protos.mk_candidate (ascii "test-conversation") (replicate actions_count (replicate 10%nat xff))
    (replicate 32%nat x00) steward) h false None [].
Definition stewards_of (l : list BufferedCommitCandidate) : list bytes :=
  (λ c, steward_member_id (candidate_msg c)) <$> l.

Definition more_actions_beats_epoch_steward : bool :=
  let epoch_id := [x01] in
  let other_id := [x03] in
  let candidates := [make_candidate epoch_id 3 (hash xaa); make_candidate other_id 5 (hash xbb)] in
  unwrap_some (head (sort_by_priority candidates (Some epoch_id))) (λ c,
    (steward_member_id (candidate_msg c) ≟ other_id) && (len (mls_proposals (candidate_msg c)) ≟ 5%N)).

Definition epoch_steward_wins_tier_on_equal_action_count : bool :=
  let epoch_id := [x01] in
  let other_id := [x02] in
  let candidates := [make_candidate other_id 3 (hash xaa); make_candidate epoch_id 3 (hash xbb)] in
  head (stewards_of (sort_by_priority candidates (Some epoch_id))) ≟ Some epoch_id.

Definition lexicographic_member_id_tiebreak_when_tier_equal : bool :=
  let epoch_id := [x01] in
  let other_a := [x05] in
  let other_b := [x03] in
  let candidates := [make_candidate other_a 3 (hash xaa); make_candidate other_b 3 (hash xbb)] in
  head (stewards_of (sort_by_priority candidates (Some epoch_id))) ≟ Some other_b.

Definition commit_hash_as_final_tiebreak : bool :=
  let id := [x05] in
  let candidates := [make_candidate id 3 (hash xcc); make_candidate id 3 (hash xaa)] in
  let '(h_aa, h_cc) := (hash xaa, hash xcc) in
  let expected_winner := match bytes_cmp h_aa h_cc with Gt => h_cc | _ => h_aa end in
  (commit_hash <$> head (sort_by_priority candidates (Some [x01]))) ≟ Some expected_winner.

Definition no_steward_list_flattens_tier_and_falls_through_to_member_id : bool :=
  let id_a := [x05] in
  let id_b := [x03] in
  let candidates := [make_candidate id_a 3 (hash xaa); make_candidate id_b 3 (hash xbb)] in
  head (stewards_of (sort_by_priority candidates None)) ≟ Some id_b.

Definition full_priority_order_actions_first_then_tier_then_member_id : bool :=
  let epoch_id := [x01] in
  let other_a := [x03] in
  let other_b := [x04] in
  let candidates := [make_candidate other_b 5 (hash x11); make_candidate other_a 3 (hash x22);
    make_candidate epoch_id 3 (hash x44)] in
  stewards_of (sort_by_priority candidates (Some epoch_id)) ≟ [other_b; epoch_id; other_a].

Lemma validate_tests_hold : all_of [
  exhausted_list_still_gates_on_membership; recovery_mode_authorizes_any_sender;
  more_actions_beats_epoch_steward; epoch_steward_wins_tier_on_equal_action_count;
  lexicographic_member_id_tiebreak_when_tier_equal; commit_hash_as_final_tiebreak;
  no_steward_list_flattens_tier_and_falls_through_to_member_id;
  full_priority_order_actions_first_then_tier_then_member_id] = true.
Proof. by vm_compute. Qed.

(** ** [apply.rs] *)

Definition mls_epoch_of (mls : MlsService) : N := g_epoch (mls_group mls).
Definition has_member (mls : MlsService) (name : bytes) : bool :=
  existsb (λ m, credential m ≟ name) (g_members (mls_group mls)).

Definition local_candidate_applies_after_a_higher_priority_remote_fails : bool :=
  unwrap (make_creator_mls (ascii "alice")) (λ mls,
    let alice := ascii "alice" in
    unwrap (steward_service_steward alice) (λ steward,
    let bob_kp := ascii "bob" in
    run (create_commit_candidate [CommitAdd bob_kp] mls) (λ mls artifacts,
      let local := mk_buffered (Protos.mk_candidate (ascii "test-conversation") (art_proposals artifacts)
          (art_commit artifacts) alice)
        (compute_commit_hash (art_commit artifacts)) true (art_welcome artifacts) [ascii "bob"] in
      let garbage := replicate 64%nat xff in
      let failing_remote := mk_buffered (Protos.mk_candidate (ascii "test-conversation") [] garbage alice)
        (compute_commit_hash garbage) false None [] in
      let epoch_before := mls_epoch_of mls in
      let conversation := queues_new "test-conversation" 10 in
      let ctx := mk_ctx 1 false epoch_before false (Some alice) in
      run (apply_in_priority_order steward [failing_remote; local] ctx alice (conversation, mls))
        (λ '(_, mls) result,
          match rr_outcome result with Applied _ _ => true | NoCandidate => false end &&
          (mls_epoch_of mls ≟ (epoch_before + 1)%N) && has_member mls (ascii "bob"))))).

Lemma apply_tests_hold : local_candidate_applies_after_a_higher_priority_remote_fails = true.
Proof. by vm_compute. Qed.

(** ** [mls_crypto/service.rs] *)

(** The key package of a member, whose provider then holds its key. *)
Definition fresh_key_package (member_id : bytes) : bytes := member_id.

Definition failed_remote_stage_preserves_own_pending_commit : bool :=
  unwrap (make_creator_mls (ascii "alice")) (λ mls,
  let bob_kp := fresh_key_package (ascii "bob") in
  run (create_commit_candidate [CommitAdd bob_kp] mls) (λ mls _,
    let epoch_before := mls_epoch_of mls in
    let '(mls, staged) := stage_remote_commit [] (replicate 64%nat xff) mls in
    match staged with Ok ScAborted | Err _ => true | _ => false end &&
    run (merge_own_commit mls) (λ mls _, mls_epoch_of mls ≟ (epoch_before + 1)%N))).

(** Alice has added bob and both are at the same epoch. *)
Definition synced (k : MlsService → MlsService → N → bool) : bool :=
  unwrap (make_creator_mls (ascii "alice")) (λ alice,
  let bob_kp := fresh_key_package (ascii "bob") in
  run (create_commit_candidate [CommitAdd bob_kp] alice) (λ alice artifacts,
  run (merge_own_commit alice) (λ alice _,
  unwrap_some (art_welcome artifacts) (λ welcome,
  unwrap (new_from_welcome (ascii "bob") welcome) (λ joined,
  unwrap_some joined (λ bob,
    let synced_epoch := mls_epoch_of alice in
    (synced_epoch ≟ mls_epoch_of bob) && k alice bob synced_epoch)))))).

(** Bob has a candidate that adds carol, alice a pending one that adds dave. *)
Definition both_pending (k : MlsService → CommitArtifacts → N → bool) : bool :=
  synced (λ alice bob synced_epoch,
    run (create_commit_candidate [CommitAdd (fresh_key_package (ascii "carol"))] bob) (λ _ bob_artifacts,
    run (create_commit_candidate [CommitAdd (fresh_key_package (ascii "dave"))] alice) (λ alice _,
      k alice bob_artifacts synced_epoch))).

Definition own_commit_survives_staging_then_rejecting_a_valid_remote : bool :=
  both_pending (λ alice bob_artifacts synced_epoch,
    run (stage_remote_commit (art_proposals bob_artifacts) (art_commit bob_artifacts) alice) (λ alice staged,
    match staged with ScStaged _ _ _ => true | _ => false end &&
    run (discard_staged_commit alice) (λ alice _,
    run (merge_own_commit alice) (λ alice _, mls_epoch_of alice ≟ (synced_epoch + 1)%N)))).

Definition discard_own_then_merge_remote_applies_remote_and_clears_own : bool :=
  both_pending (λ alice bob_artifacts synced_epoch,
    run (stage_remote_commit (art_proposals bob_artifacts) (art_commit bob_artifacts) alice) (λ alice _,
    run (discard_own_commit alice) (λ alice _,
    run (merge_staged_commit alice) (λ alice _,
      (mls_epoch_of alice ≟ (synced_epoch + 1)%N) && has_member alice (ascii "carol") &&
      negb (has_member alice (ascii "dave")))))).

Definition seated (mls : MlsService) (leaf : N) (name : bytes) : bool :=
  existsb (λ m, (leaf_index m ≟ leaf) && (credential m ≟ name)) (g_members (mls_group mls)).

Definition add_and_merge (name : bytes) (mls : MlsService) (k : MlsService → bool) : bool :=
  run (create_commit_candidate [CommitAdd (fresh_key_package name)] mls) (λ mls _,
  run (merge_own_commit mls) (λ mls _, k mls)).

Definition merge_delta_flags_a_reused_leaf_as_removed_and_added : bool :=
  unwrap (make_creator_mls (ascii "alice")) (λ alice,
  add_and_merge (ascii "bob") alice (λ alice,
  add_and_merge (ascii "carol") alice (λ alice,
    let bob_leaf := 1%N in
    seated alice bob_leaf (ascii "bob") &&
    let dave_kp := fresh_key_package (ascii "dave") in
    run (create_commit_candidate [CommitRemove (member_id_of bob_leaf); CommitAdd dave_kp] alice) (λ alice _,
    run (merge_own_commit alice) (λ alice delta,
      seated alice bob_leaf (ascii "dave") && negb (has_member alice (ascii "bob")) &&
      existsb (λ id, mid_leaf id ≟ bob_leaf) (delta_removed delta) &&
      existsb (λ m, (leaf_index m ≟ bob_leaf) && (credential m ≟ ascii "dave")) (delta_added delta)))))).

Lemma mls_service_tests_hold : all_of [
  failed_remote_stage_preserves_own_pending_commit; own_commit_survives_staging_then_rejecting_a_valid_remote;
  discard_own_then_merge_remote_applies_remote_and_clears_own;
  merge_delta_flags_a_reused_leaf_as_removed_and_added] = true.
Proof. by vm_compute. Qed.
