(* ===== verification/ConformBasics.v ===== *)
(** * The tests of the small components

    The [tests] modules of [src/conversation/state_machine.rs],
    [src/wall_clock.rs], [src/phase_timer.rs], [src/proposal_kind.rs],
    [src/mls_crypto/member_id.rs] and [src/conversation/config.rs], and the two of
    [src/conversation/inbound.rs]. *)

From S2P Require Import Prelude Time Machine Protos StewardList Mls Toy Queues Scoring Config Room Inbound Conform.

#[local] Existing Instances test_hash toy_mls toy_codec.
#[local] Open Scope N_scope.

(** ** [state_machine.rs] *)

Definition new_as_member_starts_working : bool := sm_state sm_new_as_member ≟ Working.

Definition named_transitions_set_state : bool :=
  let '(sm, started) := sm_start_freezing sm_new_as_member in
  started && (sm_state sm ≟ Freezing) &&
  let sm := sm_start_selection sm in
  (sm_state sm ≟ Selection) &&
  let sm := sm_start_reelection sm in
  (sm_state sm ≟ Reelection) && (sm_state (sm_start_working sm) ≟ Working).

Definition start_freezing_from_working_transitions : bool :=
  let '(sm, started) := sm_start_freezing sm_new_as_member in started && (sm_state sm ≟ Freezing).

Definition start_freezing_from_reelection_transitions : bool :=
  let '(sm, started) := sm_start_freezing (sm_start_reelection sm_new_as_member) in
  started && (sm_state sm ≟ Freezing).

Definition start_freezing_noop_outside_working_reelection : bool :=
  forallb (λ setup : ConversationStateMachine → ConversationStateMachine,
    let sm := setup sm_new_as_member in
    let before := sm_state sm in
    let '(sm, started) := sm_start_freezing sm in
    negb started && (sm_state sm ≟ before)) [λ sm, (sm_start_freezing sm).1; sm_start_selection].

Lemma state_machine_tests_hold : all_of [
  new_as_member_starts_working; named_transitions_set_state; start_freezing_from_working_transitions;
  start_freezing_from_reelection_transitions; start_freezing_noop_outside_working_reelection] = true.
Proof. by vm_compute. Qed.

(** ** [wall_clock.rs] *)

(** A clone shares the atomic, so the clock and its handle are one value. *)
Definition mock_clock_clones_share_time : bool :=
  let clock := mock_clock_advance mock_clock_new (duration_from_secs 5) in
  mock_clock_now clock ≟ duration_from_secs 5.

Definition duration_from_micros (us : N) : Duration := us * 1000.

Definition mock_clock_advance_is_sub_millisecond_exact : bool :=
  let clock := mock_clock_advance mock_clock_new (duration_from_micros 500) in
  let clock := mock_clock_advance clock (duration_from_micros 500) in
  mock_clock_now clock ≟ duration_from_millis 1.

Definition mock_clock_at_reproduces_the_start_exactly : bool :=
  let start := duration_from_secs 1750000000 + 123456 in
  mock_clock_now (mock_clock_at start) ≟ start.

(** [WallClockExt::timestamp]. *)
Definition mock_clock_timestamp (clock : MockClock) : Timestamp := from_duration_since_epoch (mock_clock_now clock).

Definition blanket_timestamp_bridges_now_into_deadline_math : bool :=
  let clock := mock_clock_at (duration_from_secs 7) in
  mock_clock_timestamp clock ≟ from_duration_since_epoch (duration_from_secs 7).

Definition timestamp_ordering_and_arithmetic : bool :=
  let t0 := ts_add (from_duration_since_epoch 0) (duration_from_millis 100) in
  let t1 := ts_add t0 (duration_from_millis 50) in
  ts_ltb t0 t1 && (saturating_duration_since t1 t0 ≟ duration_from_millis 50) &&
  (saturating_duration_since t0 t1 ≟ 0%N).

Definition wire_seconds_truncate_milliseconds : bool :=
  ts_as_secs (from_duration_since_epoch (duration_from_millis 1999)) ≟ 1%N.

Lemma wall_clock_tests_hold : all_of [
  mock_clock_clones_share_time; mock_clock_advance_is_sub_millisecond_exact;
  mock_clock_at_reproduces_the_start_exactly; blanket_timestamp_bridges_now_into_deadline_math;
  timestamp_ordering_and_arithmetic; wire_seconds_truncate_milliseconds] = true.
Proof. by vm_compute. Qed.

(** ** [phase_timer.rs] *)

Definition t (ms : N) : Timestamp := from_duration_since_epoch (duration_from_millis ms).

Definition unset_never_elapsed : bool :=
  negb (elapsed_since_anchor phase_timer_new (t 10000) (duration_from_secs 1)).
Definition fresh_anchor_not_elapsed : bool :=
  let pt := phase_timer_start (t 1000) phase_timer_new in
  negb (elapsed_since_anchor pt (t 1000) (duration_from_secs 60)).
Definition elapsed_when_anchor_old_enough : bool :=
  let pt := phase_timer_start (t 1000) phase_timer_new in
  elapsed_since_anchor pt (t 31000) (duration_from_secs 1).
Definition clear_drops_anchor : bool :=
  let pt := phase_timer_start (t 1000) phase_timer_new in
  is_some (started_at pt) && is_none (started_at (phase_timer_clear pt)).

Lemma phase_timer_tests_hold : all_of [
  unset_never_elapsed; fresh_anchor_not_elapsed; elapsed_when_anchor_old_enough; clear_drops_anchor] = true.
Proof. by vm_compute. Qed.

(** ** [proposal_kind.rs] *)

Definition req (payload : RequestPayload) : ConversationUpdateRequest := mk_request (Some payload).

Definition invite_and_remove_are_commit : bool :=
  (kind_of (req (MemberInvite [])) ≟ KCommit) && (kind_of (req (RemoveMember [])) ≟ KCommit).

Definition emergency_classified : bool :=
  let k := kind_of (req (EmergencyCriteria (Some (broken_commit [] 0 [])))) in
  (k ≟ KEmergency) && is_emergency k && is_governance k && negb (is_mls_producing k).

Definition steward_election_classified : bool :=
  let k := kind_of (req (StewardElection (mk_election [[x01]; [x02]] 5 0))) in
  (k ≟ KStewardElection) && is_steward_election k && is_governance k.

Definition priority_ordering : bool :=
  kind_ltb KStewardElection KEmergency && kind_ltb KCommit KStewardElection && kind_ltb KCommit KEmergency.

Lemma proposal_kind_tests_hold : all_of [
  invite_and_remove_are_commit; emergency_classified; steward_election_classified; priority_ordering] = true.
Proof. by vm_compute. Qed.

(** ** [member_id.rs] *)

Definition round_trips_through_bytes : bool :=
  forallb (λ raw, let b := member_id_of raw in (len b ≟ 4%N) && (leaf_index_of b ≟ Some raw))
    [0; 1; 7; 255; 256; u32_max].
Definition rejects_wrong_width : bool :=
  forallb (λ b, leaf_index_of b ≟ None) [[]; [x01; x02; x03]; [x01; x02; x03; x04; x05]].

Lemma member_id_tests_hold : all_of [round_trips_through_bytes; rejects_wrong_width] = true.
Proof. by vm_compute. Qed.

(** ** [config.rs] *)

(** The default with some durations replaced. *)
Definition with_windows (batch freeze retry backup expiration timeout delay : Duration) (c : ConversationConfig) :
    ConversationConfig :=
  mk_config batch freeze retry backup expiration timeout delay (pending_update_max_epochs c)
    (max_reelection_attempts c) (liveness_criteria_yes c) (max_consensus_sessions c) (commit_batch_max c)
    (dedup_window c) (recovery_auto_commit_delay c) (recovery_max_rounds c) (steward_list_config c).
Definition ms (n : N) : Duration := duration_from_millis n.
Definition secs (n : N) : Duration := duration_from_secs n.
Definition invalid_config (r : res unit) : bool := match r with Err (InvalidConfig _) => true | _ => false end.

Definition timing_config_round_trip : bool :=
  let original := with_windows (ms 100) (ms 200) (ms 300) (ms 600) (ms 400) (ms 500) DEFAULT_VOTING_DELAY
    config_default in
  let timing := timing_config_from original in
  let applied := apply_timing timing config_default in
  (commit_batch_window applied ≟ ms 100) && (freeze_duration applied ≟ ms 200) &&
  (retry_window applied ≟ ms 300) && (proposal_expiration applied ≟ ms 400) &&
  (consensus_timeout applied ≟ ms 500) && (backup_takeover_window applied ≟ ms 600).

Definition apply_timing_ignores_zero_durations : bool :=
  let d := config_default in
  let config := with_windows (secs 60) (freeze_duration d) (retry_window d) (backup_takeover_window d)
    (proposal_expiration d) (secs 30) (voting_delay d) d in
  let config := apply_timing (mk_timing_config 0 250 0 0 0 0) config in
  (consensus_timeout config ≟ secs 30) && (commit_batch_window config ≟ secs 60) &&
  (freeze_duration config ≟ ms 250).

Definition default_config_is_valid : bool := is_ok (config_validate config_default).

Definition millisecond_test_config_is_valid : bool :=
  let d := config_default in
  is_ok (config_validate (with_windows (ms 500) (ms 500) (retry_window d) (backup_takeover_window d) (ms 4000)
    (ms 250) (ms 50) d)).

Definition validate_rejects_voting_delay_not_below_consensus_timeout : bool :=
  let d := config_default in
  invalid_config (config_validate (with_windows (commit_batch_window d) (freeze_duration d) (retry_window d)
    (backup_takeover_window d) (proposal_expiration d) (secs 30) (secs 30) d)).

Definition validate_allows_consensus_timeout_above_commit_batch_window : bool :=
  let d := config_default in
  is_ok (config_validate (with_windows (ms 50) (freeze_duration d) (retry_window d) (backup_takeover_window d)
    (proposal_expiration d) (ms 150) (ms 30) d)).

Definition validate_rejects_zero_freeze_duration : bool :=
  let d := config_default in
  invalid_config (config_validate (with_windows (commit_batch_window d) 0 (retry_window d)
    (backup_takeover_window d) (proposal_expiration d) (consensus_timeout d) (voting_delay d) d)).

Definition validate_rejects_proposal_expiration_not_above_consensus_timeout : bool :=
  let d := config_default in
  invalid_config (config_validate (with_windows (commit_batch_window d) (freeze_duration d) (retry_window d)
    (backup_takeover_window d) (secs 5) (secs 5) (voting_delay d) d)).

Definition with_steward_bounds (min max : N) (c : ConversationConfig) : ConversationConfig :=
  mk_config (commit_batch_window c) (freeze_duration c) (retry_window c) (backup_takeover_window c)
    (proposal_expiration c) (consensus_timeout c) (voting_delay c) (pending_update_max_epochs c)
    (max_reelection_attempts c) (liveness_criteria_yes c) (max_consensus_sessions c) (commit_batch_max c)
    (dedup_window c) (recovery_auto_commit_delay c) (recovery_max_rounds c)
    (mk_slc min max (allow_subset_candidates (steward_list_config c))).

Definition validate_rejects_bad_steward_bounds : bool :=
  invalid_config (config_validate (with_steward_bounds 3 2 config_default)).

Lemma config_tests_hold : all_of [
  timing_config_round_trip; apply_timing_ignores_zero_durations; default_config_is_valid;
  millisecond_test_config_is_valid; validate_rejects_voting_delay_not_below_consensus_timeout;
  validate_allows_consensus_timeout_above_commit_batch_window; validate_rejects_zero_freeze_duration;
  validate_rejects_proposal_expiration_not_above_consensus_timeout; validate_rejects_bad_steward_bounds] = true.
Proof. by vm_compute. Qed.

(** ** [inbound.rs]: fast-path proposals *)

Definition member (id : N) : bytes := replicate 20%nat (byte_of_N id).
Definition remove_payload (member_id : bytes) : bytes := encode_request (remove_member_request member_id).
Definition proposal_for_self_remove (sender : bytes) (expected_voters : N) : Proposal :=
  mk_proposal "test" (remove_payload sender) (self_leave_proposal_id sender) sender [] expected_voters 1 0
    u64_max true.
Definition owned_by (owner : bytes) (p : Proposal) : Proposal :=
  mk_proposal (prop_name p) (prop_payload p) (prop_id p) owner (prop_votes p) (expected_voters_count p)
    (prop_round p) (prop_timestamp p) (expiration_timestamp p) (prop_liveness_criteria_yes p).

Definition fast_path_allows_self_removal_matching_sender : bool :=
  let sender := member 1 in
  authorize_fast_path_proposal (proposal_for_self_remove sender 1) sender.
Definition fast_path_rejects_target_other_than_sender : bool :=
  let sender := member 1 in
  let victim := member 2 in
  negb (authorize_fast_path_proposal (owned_by sender (proposal_for_self_remove victim 1)) sender).
Definition fast_path_rejects_owner_mismatch : bool :=
  let sender := member 1 in
  let imposter := member 3 in
  negb (authorize_fast_path_proposal (owned_by imposter (proposal_for_self_remove sender 1)) sender).
Definition fast_path_rejects_non_remove_payload : bool :=
  let sender := member 1 in
  let p := proposal_for_self_remove sender 1 in
  negb (authorize_fast_path_proposal (mk_proposal (prop_name p) (replicate 8%nat xff) (prop_id p) (proposal_owner p)
    (prop_votes p) (expected_voters_count p) (prop_round p) (prop_timestamp p) (expiration_timestamp p)
    (prop_liveness_criteria_yes p)) sender).
Definition expected_voters_gt_one_bypasses_authz : bool :=
  let sender := member 1 in
  let victim := member 2 in
  authorize_fast_path_proposal (owned_by sender (proposal_for_self_remove victim 5)) sender.

Lemma fast_path_tests_hold : all_of [
  fast_path_allows_self_removal_matching_sender; fast_path_rejects_target_other_than_sender;
  fast_path_rejects_owner_mismatch; fast_path_rejects_non_remove_payload;
  expected_voters_gt_one_bypasses_authz] = true.
Proof. by vm_compute. Qed.

(** ** [inbound.rs]: conversation syncs *)

(** [..nonzero_timing()] with one field zeroed is the list update at its place. *)
Definition timing_of (fields : list N) : TimingConfig :=
  match fields with
  | [batch; freeze; expiration; timeout; retry; backup] => mk_timing_config batch freeze expiration timeout retry backup
  | _ => mk_timing_config 0 0 0 0 0 0
  end.
Definition nonzero_fields : list N := [60000; 30000; 3600000; 30000; 5000; 30000].
Definition nonzero_timing : TimingConfig := timing_of nonzero_fields.

Definition nonzero_timing_passes : bool := is_none (first_zero_timing_field nonzero_timing).

Definition sync_with (stewards : list bytes) (max : N) (unsettled : list bytes) (threshold default : Z) :
    ConversationSync :=
  mk_sync stewards 0 1 max false [] (Some nonzero_timing) 0 1 true threshold 3 unsettled default.
Definition valid_sync_with (threshold : Z) : ConversationSync := sync_with [ascii "alice"] 5 [] threshold 100.

(** [validate_conversation_sync("g", ...).unwrap()] at epoch 0. *)
Definition accepts (sync : ConversationSync) (members : list bytes) (k : bool → bool) : bool :=
  unwrap (validate_conversation_sync "g" sync 0 members) k.

Definition validate_accepts_a_sound_peer_score_pair : bool :=
  accepts (valid_sync_with 0) [ascii "alice"] id.
Definition validate_rejects_a_default_not_above_the_threshold : bool :=
  forallb (λ threshold, accepts (valid_sync_with threshold) [ascii "alice"] negb) [100; 500]%Z.
Definition validate_reads_an_absent_default_as_the_program_default : bool :=
  let sync := sync_with [ascii "alice"] 5 [] 0 0 in
  accepts sync [ascii "alice"] id && (synced_default_peer_score sync ≟ DEFAULT_PEER_SCORE).
Definition validate_rejects_a_negative_default : bool :=
  forallb (λ default, accepts (sync_with [ascii "alice"] 5 [] 0 default) [ascii "alice"] negb) [-1; i64_min]%Z.
Definition validate_verifies_list_against_reconstructed_pool : bool :=
  let members := [ascii "alice"; ascii "bob"] in
  accepts (sync_with [ascii "alice"] 1 [ascii "bob"] 0 100) members id &&
  accepts (sync_with [ascii "bob"] 1 [ascii "bob"] 0 100) members negb.
Definition validate_rejects_unsettled_not_in_members : bool :=
  let members := [ascii "alice"; ascii "bob"] in
  accepts (sync_with [ascii "alice"] 1 [ascii "ghost"] 0 100) members negb.
Definition each_zero_field_is_detected : bool :=
  forallb (λ '(i, name), first_zero_timing_field (timing_of (<[i := 0]> nonzero_fields)) ≟ Some name)
    [(0%nat, "commit_batch_window_ms"%string); (1%nat, "freeze_duration_ms"%string);
     (2%nat, "proposal_expiration_ms"%string); (3%nat, "consensus_timeout_ms"%string);
     (4%nat, "retry_window_ms"%string)].

Lemma sync_tests_hold : all_of [
  nonzero_timing_passes; validate_accepts_a_sound_peer_score_pair;
  validate_rejects_a_default_not_above_the_threshold; validate_reads_an_absent_default_as_the_program_default;
  validate_rejects_a_negative_default; validate_verifies_list_against_reconstructed_pool;
  validate_rejects_unsettled_not_in_members; each_zero_field_is_detected] = true.
Proof. by vm_compute. Qed.
