(* ===== verification/ConformHandle.v ===== *)
(** * The tests of the conversation

    The [tests] module of [src/conversation/handle.rs], on conversations over
    [toy_mls] whose one member created the group. *)

From S2P Require Import Prelude Time Machine Protos StewardList Mls Toy Buffer Queues Scoring CommitRound Config Conversation Room Voting Steward HandleOutcome Inbound Messaging Poll Conform ConformScoring ConformRound.

#[local] Existing Instances test_hash toy_mls toy_setup canonical_hash_iter toy_consensus toy_texts toy_codec.
#[local] Open Scope N_scope.

Section with_storage.
Context {St : Type} `{!PeerScoreStorage St}.
Abbreviation Convo := (Conversation (OM := toy_mls) (CS := toy_consensus) St).

(** ** Building a conversation *)

Definition build_conversation_scored (mls : MlsService) (steward_list : StewardListService)
    (scoring : PeerScoringService St) : Convo :=
  let self_member_id := be_bytes 4 (g_own_leaf_index (mls_group mls)) in
  conversation_new "g" (queues_new "g" 10) mls scoring steward_list (mk_engine ∅ 7) sm_new_as_member config_default 0
    self_member_id (replicate 16%nat x00).

(** [MockClock::advance] on the shared clock. *)
Definition advance (d : Duration) (c : Convo) : Convo :=
  mk_conversation (c_id c) (mock_clock_now (mock_clock_advance (mk_mock_clock (c_now c)) d)) (c_queues c) (c_mls c)
    (c_scoring c) (c_stewards c) (c_engine c) (c_bus c) (c_sm c) (c_config c) (c_mode c) (c_recovery_rounds c)
    (c_timing c) (c_self c) (c_app_id c) (c_events c) (c_outbound c).

(** Assignments to [conversation.config]. *)
Definition set_freeze (d : Duration) (k : ConversationConfig) : ConversationConfig :=
  mk_config (commit_batch_window k) d (retry_window k) (backup_takeover_window k) (proposal_expiration k)
    (consensus_timeout k) (voting_delay k) (pending_update_max_epochs k) (max_reelection_attempts k)
    (liveness_criteria_yes k) (max_consensus_sessions k) (commit_batch_max k) (dedup_window k)
    (recovery_auto_commit_delay k) (recovery_max_rounds k) (steward_list_config k).
Definition set_takeover (d : Duration) (k : ConversationConfig) : ConversationConfig :=
  mk_config (commit_batch_window k) (freeze_duration k) (retry_window k) d (proposal_expiration k)
    (consensus_timeout k) (voting_delay k) (pending_update_max_epochs k) (max_reelection_attempts k)
    (liveness_criteria_yes k) (max_consensus_sessions k) (commit_batch_max k) (dedup_window k)
    (recovery_auto_commit_delay k) (recovery_max_rounds k) (steward_list_config k).
Definition set_recovery (delay : option Duration) (window : Duration) (max_rounds : N) (k : ConversationConfig) :
    ConversationConfig :=
  mk_config (commit_batch_window k) (freeze_duration k) window (backup_takeover_window k) (proposal_expiration k)
    (consensus_timeout k) (voting_delay k) (pending_update_max_epochs k) (max_reelection_attempts k)
    (liveness_criteria_yes k) (max_consensus_sessions k) (commit_batch_max k) (dedup_window k) delay max_rounds
    (steward_list_config k).
Definition edit_config (f : ConversationConfig → ConversationConfig) (c : Convo) : Convo :=
  c_set_config (f (c_config c)) c.

(** [drain_events] and [drain_outbound], for the value and the state after. *)
Definition draining (c : Convo) (k : Convo → list ConversationEvent → list Outbound → bool) : bool :=
  let '(c, events) := drain_events c in
  let '(c, outbound) := drain_outbound c in k c events outbound.
Definition score_changes (events : list ConversationEvent) : list (bytes * Z * Z) :=
  omap (λ e, match e with EvMemberScoreChanged m p s => Some (m, p, s) | _ => None end) events.
Definition errors (events : list ConversationEvent) : list ConversationEvent :=
  filterb (λ e, match e with EvError _ _ => true | _ => false end) events.
Definition exhausted (events : list ConversationEvent) : bool :=
  existsb (λ e, match e with EvRecoveryExhausted => true | _ => false end) events.
Definition fails {S A} (p : S * res A) (k : ConversationError → bool) : bool :=
  match p.2 with Err e => k e | Ok _ => false end.
End with_storage.

Abbreviation TestConversation := (Conversation (OM := toy_mls) (CS := toy_consensus) InMemoryPeerScoreStorage).

Definition zero_scoring : PeerScoringService InMemoryPeerScoreStorage :=
  scoring_new (mk_in_memory ∅) ∅ scoring_config_default.
Definition build_conversation (mls : MlsService) (steward_list : StewardListService) : TestConversation :=
  build_conversation_scored mls steward_list zero_scoring.
Definition make_conversation_with_steward (steward_list : res StewardListService) (k : TestConversation → bool) : bool :=
  unwrap (make_creator_mls (ascii "test-member-id")) (λ mls,
  unwrap steward_list (λ steward_list, k (build_conversation mls steward_list))).
Definition make_conversation_working (k : TestConversation → bool) : bool :=
  make_conversation_with_steward steward_service_member k.
Definition make_steward_conversation (k : TestConversation → bool) : bool :=
  unwrap (make_creator_mls (ascii "test-member-id")) (λ mls,
  unwrap (steward_service_steward (member_id_of (g_own_leaf_index (mls_group mls)))) (λ steward_list,
    k (build_conversation mls steward_list))).
Definition scored {St} `{!PeerScoreStorage St} (scoring : PeerScoringService St)
    (k : Conversation (OM := toy_mls) (CS := toy_consensus) St → bool) : bool :=
  unwrap (make_creator_mls (ascii "test-member-id")) (λ mls,
  unwrap steward_service_member (λ steward_list, k (build_conversation_scored mls steward_list scoring))).
Definition conversation_with_real_deltas (k : TestConversation → bool) : bool :=
  scored (scoring_new (mk_in_memory ∅) default_score_deltas scoring_config_default) k.

(** The emergency both guard tests stage, which makes no MLS action. *)
Definition emergency_request : res ConversationUpdateRequest :=
  into_update_request (with_creator [x01] (broken_commit [xaa] 0 [])).
Definition approve (id : N) (request : ConversationUpdateRequest) (c : TestConversation) : TestConversation :=
  c_set_queues (insert_approved_proposal id request (c_queues c)) c.
Definition seed_approved_work (c : TestConversation) (k : TestConversation → bool) : bool :=
  unwrap emergency_request (λ req, k (approve 1 req c)).
Definition invite_for (key_package_bytes : bytes) : ConversationUpdateRequest := member_invite_request key_package_bytes.
Definition state_is (c : TestConversation) (s : ConversationState) : bool := current_state c ≟ s.

(** ** Scores *)

Definition alice_penalty : ScoreOp := mk_score_op alice CensorshipInactivity.

Definition score_change_emits_an_event_and_proposes_nothing : bool :=
  conversation_with_real_deltas (λ convo,
  run (on_scoring (add_member alice) convo) (λ convo _,
  draining convo (λ convo _ _,
  run (apply_score_ops [alice_penalty; alice_penalty] convo) (λ convo _,
  draining convo (λ _ events outbound,
    (score_changes events ≟ [(alice, 100%Z, 20%Z)]) && (len outbound ≟ 0%N)))))).

Definition a_threshold_crossing_is_derivable_from_one_event : bool :=
  conversation_with_real_deltas (λ convo,
  run (on_scoring (add_member alice) convo) (λ convo _,
    let threshold := score_threshold convo in
    run (apply_score_ops [alice_penalty; alice_penalty] convo) (λ convo _,
    draining convo (λ convo _ _,
    run (apply_score_ops [alice_penalty] convo) (λ convo _,
    draining convo (λ _ events _,
      existsb (λ '(_, previous, score), (threshold <? previous)%Z && (score <=? threshold)%Z)
        (score_changes events))))))).

Definition score_storage_failure_surfaces_and_reports_no_change : bool :=
  scored (scoring_new (failing_after 1) default_score_deltas scoring_config_default) (λ convo,
  run (on_scoring (add_member alice) convo) (λ convo _,
  draining convo (λ convo _ _,
    let p := apply_score_ops [alice_penalty] convo in
    fails p (λ e, match e with ScoreStorage _ => true | _ => false end) &&
    draining p.1 (λ _ events _, score_changes events ≟ [])))).

Definition freeze_entry_surfaces_candidate_build_failure : bool :=
  make_steward_conversation (λ convo,
    let convo := approve 1 (invite_for (replicate 32%nat xaa)) convo in
    run (on_freeze_entered Freezing convo) (λ convo _,
    draining convo (λ _ events _, negb (len (errors events) =? 0)))).

(** ** Inactivity, events and deadlines *)

Definition check_steward_inactivity_first_tick_anchors_and_returns_none : bool :=
  make_conversation_working (λ conversation,
    state_is conversation Working && is_none (started_at (phase_timer (c_timing conversation))) &&
    run (check_steward_inactivity 1 (duration_from_secs 10) conversation) (λ conversation result,
      is_none result && is_some (started_at (phase_timer (c_timing conversation))) && state_is conversation Working &&
      run (check_steward_inactivity 1 (duration_from_secs 10) conversation) (λ _ result, is_none result))).

Definition check_steward_inactivity_noop_without_approved_work : bool :=
  make_conversation_working (λ conversation,
    run (check_steward_inactivity 0 (duration_from_secs 10) conversation) (λ conversation result,
      is_none result && is_none (started_at (phase_timer (c_timing conversation))))).

Definition emit_event_then_drain_returns_insertion_order_and_clears_buffer : bool :=
  make_conversation_working (λ conversation,
    run ((emit_event (EvPhaseChange Working) ;! emit_event EvLeaving) conversation) (λ conversation _,
    draining conversation (λ conversation drained _,
      match drained with [EvPhaseChange Working; EvLeaving] => true | _ => false end &&
      draining conversation (λ _ drained _, len drained ≟ 0%N)))).

Definition validate_election_list_recomputes_from_local_members : bool :=
  make_conversation_working (λ conversation,
    let epoch := g_epoch (mls_group (c_mls conversation)) in
    let honest := mk_election [c_self conversation] epoch 0 in
    let forged := mk_election [ascii "not-a-member"] epoch 0 in
    unwrap (validate_election_list conversation honest) id &&
    unwrap (validate_election_list conversation forged) negb).

Definition auto_votes (c : TestConversation) : gmap N AutoVoteEntry := pending_auto_votes (c_timing c).
Definition timeouts (c : TestConversation) : gmap N Timestamp := pending_consensus_timeouts (c_timing c).

Definition register_auto_vote_replaces_existing_entry : bool :=
  make_conversation_working (λ conversation,
    run (register_auto_vote 7 (duration_from_secs 10) true conversation) (λ conversation _,
    unwrap_some (auto_votes conversation !! 7%N) (λ first,
    run (register_auto_vote 7 (duration_from_secs 20) false conversation) (λ conversation _,
      (size (auto_votes conversation) ≟ 1%nat) &&
      unwrap_some (auto_votes conversation !! 7%N) (λ entry,
        negb (av_vote entry) && ts_ltb (fire_at first) (fire_at entry)))))).

Definition cancel_auto_vote_removes_only_the_targeted_proposal : bool :=
  make_conversation_working (λ conversation,
    run ((register_auto_vote 1 (duration_from_secs 5) true ;! register_auto_vote 2 (duration_from_secs 5) false ;!
          register_auto_vote 3 (duration_from_secs 5) true ;! cancel_auto_vote 2) conversation) (λ conversation _,
      is_some (auto_votes conversation !! 1%N) && is_none (auto_votes conversation !! 2%N) &&
      is_some (auto_votes conversation !! 3%N) &&
      run (cancel_all_auto_votes conversation) (λ conversation _, size (auto_votes conversation) ≟ 0%nat))).

Definition register_then_unregister_consensus_timeout : bool :=
  make_conversation_working (λ conversation,
    run (register_consensus_timeout 42 (duration_from_secs 30) conversation) (λ conversation _,
      (timeouts conversation !! 42%N ≟ Some (ts_add (timestamp conversation) (duration_from_secs 30))) &&
      run (unregister_consensus_timeout 42 conversation) (λ conversation _,
        is_none (timeouts conversation !! 42%N) &&
        run (unregister_consensus_timeout 999 conversation) (λ _ _, true)))).

Definition next_wakeup_in_reports_the_earliest_deadline : bool :=
  make_conversation_working (λ conversation,
    is_none (next_wakeup_in conversation) &&
    run ((register_consensus_timeout 1 (duration_from_secs 30) ;!
          register_auto_vote 2 (duration_from_secs 10) true) conversation) (λ conversation _,
      (next_wakeup_in conversation ≟ Some (duration_from_secs 10)) &&
      let conversation := edit_config (set_freeze (duration_from_secs 5)) conversation in
      run (start_freezing conversation) (λ conversation _,
        (next_wakeup_in conversation ≟ Some (duration_from_secs 5)) &&
        (next_wakeup_in (advance (duration_from_secs 6) conversation) ≟ Some 0%N)))).

Definition next_wakeup_in_covers_the_pull_side_sync_request : bool :=
  make_conversation_working (λ conversation,
    is_none (next_wakeup_in conversation) &&
    let conversation := edit_config (set_takeover (duration_from_secs 4)) conversation in
    let now := timestamp conversation in
    run (edit_timing (set_request_anchor (Some now)) conversation) (λ conversation _,
      next_wakeup_in conversation ≟ Some (duration_from_secs 4))).

Lemma conversation_tests_hold : all_of [
  score_change_emits_an_event_and_proposes_nothing; a_threshold_crossing_is_derivable_from_one_event;
  score_storage_failure_surfaces_and_reports_no_change; freeze_entry_surfaces_candidate_build_failure;
  check_steward_inactivity_first_tick_anchors_and_returns_none; check_steward_inactivity_noop_without_approved_work;
  emit_event_then_drain_returns_insertion_order_and_clears_buffer;
  validate_election_list_recomputes_from_local_members; register_auto_vote_replaces_existing_entry;
  cancel_auto_vote_removes_only_the_targeted_proposal; register_then_unregister_consensus_timeout;
  next_wakeup_in_reports_the_earliest_deadline; next_wakeup_in_covers_the_pull_side_sync_request] = true.
Proof. by vm_compute. Qed.

(** ** Guards of the local candidate *)

Definition me : bytes := ascii "me".

Definition build_local_candidate_errors_for_non_steward_outside_recovery : bool :=
  make_conversation_with_steward steward_service_member (λ conversation,
    fails (build_local_candidate me conversation) (λ e, match e with NotASteward => true | _ => false end)).

Definition build_local_candidate_errors_when_no_approved_proposals : bool :=
  make_conversation_with_steward (steward_service_steward me) (λ conversation,
    fails (build_local_candidate me conversation) (λ e, match e with NoProposals => true | _ => false end)).

Definition build_local_candidate_errors_on_emergency_in_approved_queue : bool :=
  make_conversation_with_steward (steward_service_steward me) (λ conversation,
  unwrap emergency_request (λ emergency,
    fails (build_local_candidate me (approve 50 emergency conversation))
      (λ e, match e with UnexpectedNonMlsProposals proposal_ids => proposal_ids ≟ [50]%N | _ => false end))).

Definition commit_in_recovery_errors_outside_recovery : bool :=
  make_conversation_with_steward steward_service_member (λ conversation,
    fails (commit_in_recovery conversation) (λ e, match e with NotInRecovery => true | _ => false end)).

Definition commit_in_recovery_relaxes_the_steward_gate : bool :=
  make_conversation_with_steward steward_service_member (λ conversation,
  run (enter_recovery_mode conversation) (λ conversation _,
    fails (commit_in_recovery conversation) (λ e, match e with NoProposals => true | _ => false end))).

Definition resend_commit_rebroadcasts_the_held_candidate : bool :=
  make_steward_conversation (λ conversation,
  run (resend_commit conversation) (λ conversation resent,
    negb resent &&
    draining conversation (λ conversation _ outbound,
      (len outbound ≟ 0%N) &&
      let candidate := mk_candidate (ascii "g") [replicate 8%nat x01] (replicate 32%nat x02) (c_self conversation) in
      let epoch := g_epoch (mls_group (c_mls conversation)) in
      let round := (buffer_add candidate true None [] epoch 4 (commit_round (c_queues conversation))).1 in
      let conversation := c_set_queues (set_round round (c_queues conversation)) conversation in
      run (resend_commit conversation) (λ conversation resent,
        resent &&
        draining conversation (λ conversation _ out,
          (len out ≟ 1%N) &&
          ((out_payload <$> head out) ≟ Some (encode_app_message (to_app_message (AppCommitCandidate candidate)))) &&
          run (resend_commit conversation) (λ conversation resent,
            resent && draining conversation (λ _ _ out, len out ≟ 1%N))))))).

Definition merged_commit_reaches_working_even_if_scoring_storage_fails : bool :=
  scored (scoring_new always_failing ∅ scoring_config_default) (λ conversation,
  run (start_selection conversation) (λ conversation _,
    current_state (dispatch_inbound_result ConversationUpdated conversation).1 ≟ Working)).

Lemma candidate_tests_hold : all_of [
  build_local_candidate_errors_for_non_steward_outside_recovery;
  build_local_candidate_errors_when_no_approved_proposals;
  build_local_candidate_errors_on_emergency_in_approved_queue; commit_in_recovery_errors_outside_recovery;
  commit_in_recovery_relaxes_the_steward_gate; resend_commit_rebroadcasts_the_held_candidate;
  merged_commit_reaches_working_even_if_scoring_storage_fails] = true.
Proof. by vm_compute. Qed.

(** ** Recovery *)

(** One poll; a non-empty bus is drained within the fuel. *)
Definition polled (c : TestConversation) (k : TestConversation → bool) : bool :=
  run (poll 4 c) (λ c _, k c).
(** A conversation in recovery, its collection window open since now. *)
Definition in_recovery_window (delay : option Duration) (max_rounds : option N) (k : TestConversation → bool) : bool :=
  make_conversation_with_steward steward_service_member (λ conversation,
    let max_rounds := default (recovery_max_rounds (c_config conversation)) max_rounds in
    let conversation := edit_config (set_recovery delay 0 max_rounds) conversation in
    run (enter_recovery_mode conversation) (λ conversation _,
    run (start_freezing conversation) (λ conversation _,
      let anchor := timestamp conversation in
      run (edit_timing (λ t, set_phase_timer (phase_timer_start anchor (phase_timer t)) t) conversation)
        (λ conversation _, k conversation)))).

Definition recovery_auto_commit_waits_out_the_grace : bool :=
  in_recovery_window (Some (duration_from_secs 3600)) None (λ conversation,
  seed_approved_work conversation (λ conversation,
  polled conversation (λ conversation,
    negb (has_local_candidate (commit_round (c_queues conversation))) && is_in_recovery_mode conversation))).

Definition is_deadlock_proposer_true_for_sole_steward : bool :=
  make_steward_conversation (λ conversation, is_deadlock_proposer conversation).

Definition request_recovery_is_noop_while_in_recovery : bool :=
  make_steward_conversation (λ conversation,
  run ((enter_recovery_mode ;! request_recovery) conversation) (λ conversation _,
  draining conversation (λ _ _ outbound, len outbound ≟ 0%N))).

Definition recovery_with_empty_queue_exits_without_spinning : bool :=
  in_recovery_window (Some 0%N) (Some 0%N) (λ conversation,
  polled conversation (λ conversation,
    negb (is_in_recovery_mode conversation) && state_is conversation Working &&
    draining conversation (λ _ events _, negb (exhausted events)))).

(** A round that stays in recovery and reopens the window. *)
Definition reopened (c : TestConversation) (k : TestConversation → bool) : bool :=
  polled c (λ c, is_in_recovery_mode c && state_is c Freezing && k c).
(** The round that gives up. *)
Definition stopped (c : TestConversation) : bool :=
  polled c (λ c, negb (is_in_recovery_mode c) && state_is c Working && draining c (λ _ events _, exhausted events)).

Definition recovery_retries_across_rounds_until_stop_line : bool :=
  in_recovery_window None (Some 3%N) (λ conversation,
  seed_approved_work conversation (λ conversation,
  reopened conversation (λ conversation, reopened conversation stopped))).

Definition recovery_retries_forever_when_max_rounds_zero : bool :=
  in_recovery_window None (Some 0%N) (λ conversation,
  seed_approved_work conversation (λ conversation,
    let round k c := reopened c (λ c, draining c (λ c events _, negb (exhausted events) && k c)) in
    Nat.iter 5 round (λ _, true) conversation)).

Definition recovery_exhausts_after_max_rounds : bool :=
  in_recovery_window None (Some 1%N) (λ conversation, seed_approved_work conversation stopped).

Lemma recovery_tests_hold : all_of [
  recovery_auto_commit_waits_out_the_grace; is_deadlock_proposer_true_for_sole_steward;
  request_recovery_is_noop_while_in_recovery; recovery_with_empty_queue_exits_without_spinning;
  recovery_retries_across_rounds_until_stop_line; recovery_retries_forever_when_max_rounds_zero;
  recovery_exhausts_after_max_rounds] = true.
Proof. by vm_compute. Qed.

(** ** Conversation syncs *)

(** The number of packets a call leaves to send. *)
Definition sends (m : method TestConversation unit) (n : N) (conversation : TestConversation) : bool :=
  run (m conversation) (λ conversation _, draining conversation (λ _ _ outbound, len outbound ≟ n)).
Definition joiner : bytes := ascii "joiner".
Definition takeover_unarmed (c : TestConversation) : bool := is_none (sync_resend_anchor (c_timing c)).

Definition epoch_steward_answers_sync_request : bool :=
  make_steward_conversation (sends (on_conversation_sync_request joiner) 1).
Definition non_epoch_steward_ignores_sync_request : bool :=
  make_conversation_with_steward steward_service_member (sends (on_conversation_sync_request joiner) 0).
Definition share_conversation_sync_is_noop_without_list : bool :=
  make_conversation_with_steward steward_service_member (sends share_conversation_sync 0).
Definition request_conversation_sync_broadcasts_a_request : bool :=
  make_conversation_with_steward steward_service_member (sends request_conversation_sync 1).

Definition epoch_steward_request_clears_takeover_anchor : bool :=
  make_steward_conversation (λ conversation,
    let now := timestamp conversation in
    run (edit_timing (set_resend_anchor (Some now)) conversation) (λ conversation _,
    run (on_conversation_sync_request joiner conversation) (λ conversation _,
      takeover_unarmed conversation && draining conversation (λ _ _ outbound, len outbound ≟ 1%N)))).
Definition non_steward_request_does_not_arm_takeover : bool :=
  make_conversation_with_steward steward_service_member (λ conversation,
    run (on_conversation_sync_request joiner conversation) (λ conversation _,
      takeover_unarmed conversation && draining conversation (λ _ _ outbound, len outbound ≟ 0%N))).

Lemma resend_tests_hold : all_of [
  epoch_steward_answers_sync_request; non_epoch_steward_ignores_sync_request;
  share_conversation_sync_is_noop_without_list; request_conversation_sync_broadcasts_a_request;
  epoch_steward_request_clears_takeover_anchor; non_steward_request_does_not_arm_takeover] = true.
Proof. by vm_compute. Qed.
