(* ===== verification/ConformProtocol.v ===== *)
(** * The integration tests on messaging, votes and the commit freeze

    [protocol_messaging.rs], [protocol_consensus.rs], [protocol_clock_skew.rs] and
    [protocol_freeze.rs]: each test with its assertions in the order of the source, over
    the harness of [Harness]. A key stands for the wallet it would derive. *)

From S2P Require Import Prelude Time Machine Protos StewardList Mls Buffer Queues Scoring CommitRound ApplyResult Config Display Conversation Toy Room Voting Steward HandleOutcome Inbound Messaging Poll Construct System Net Harness.

#[local] Existing Instances example_hash net_mls net_setup net_consensus net_codec toy_texts canonical_hash_iter.

Definition ALICE : byte := x0a.
Definition BOB : byte := x0b.
Definition CHARLIE : byte := x0c.
Definition DAVE : byte := x0d.
Definition ERIN : byte := x0e.
Definition FRANK : byte := x0f.

Definition ms (n : N) : Duration := duration_from_millis n.
Definition secs (n : N) : Duration := duration_from_secs n.
(** [StewardListConfig::new(a, b).unwrap()]. *)
Definition stewards (a b : N) : StewardListConfig := default slc_default (result_ok (slc_new a b)).
Definition with_windows (batch freeze retry backup expiration timeout delay : Duration) (auto : option Duration) : ConversationConfig :=
  let d := config_default in
  mk_config batch freeze retry backup expiration timeout delay (pending_update_max_epochs d) (max_reelection_attempts d)
    (liveness_criteria_yes d) (max_consensus_sessions d) (commit_batch_max d) (dedup_window d) auto (recovery_max_rounds d)
    (steward_list_config d).
(** [fast_config] but for the windows given. *)
Definition fast_with (freeze retry backup : Duration) (auto : option Duration) : ConversationConfig :=
  let f := fast_config in
  with_windows (commit_batch_window f) freeze retry backup (proposal_expiration f) (consensus_timeout f) (voting_delay f) auto.
Definition auto_default : option Duration := recovery_auto_commit_delay config_default.

Definition find_steward (p : bool) (skip : list nat) (h : Harness) : option nat :=
  find_member (λ i, negb (bool_decide (i ∈ skip)) && holds i (λ m, Bool.eqb (tm_is_steward m) p) h) h.
Definition find_epoch_steward (skip : list nat) (h : Harness) : option nat :=
  find_member (λ i, negb (bool_decide (i ∈ skip)) && holds i tm_is_epoch_steward h) h.
Definition other_than (skip : list nat) (h : Harness) : option nat := find_member (λ i, negb (bool_decide (i ∈ skip))) h.
Definition has_members (i : nat) (n : N) : Harness → bool := holds i (λ m, member_count m =? n)%N.
Definition at_epoch (i : nat) (n : N) : Harness → bool := holds i (λ m, tm_epoch m =? n)%N.
Definition working (i : nat) : Harness → bool := holds i is_working.

Section tests.
Local Open Scope N_scope.

(** ** [protocol_messaging.rs] *)

Definition hello : bytes := String.list_byte_of_string "Hello from alice".

Definition chat_message_delivered_to_peer : option unit :=
  h ← bootstrap [ALICE; BOB] "chat" fast_config (stewards 1 5);
  assert (all_working h && epochs_agree h && membership_agrees h);;
  assert (at_epoch 0 1 h && holds 1 (saw_phase Working) h);;
  h ← act 0 (send_message hello) h;
  h ← process_until (holds 1 (got_chat hello)) h;
  alice ← member 0 h; bob ← member 1 h; chat ← head (received bob);
  assert (bool_decide (chat.1 = hello) && bool_decide (signature_key chat.2 = signing_pubkey alice));;
  assert (negb (got_chat hello alice)).

Definition received_chat_sender_signature_key_resolves_to_the_signer : option unit :=
  h ← bootstrap [ALICE; BOB; CHARLIE] "sig-key" fast_config (stewards 1 5);
  assert (all_working h && converged h);;
  h ← act 0 (send_message hello) h;
  h ← process_until (λ h, holds 1 (got_chat hello) h && holds 2 (got_chat hello) h) h;
  alice ← member 0 h; bob ← member 1 h; charlie ← member 2 h;
  b ← head (received bob); c ← head (received charlie);
  assert (bool_decide (signature_key b.2 = signing_pubkey alice) && bool_decide (signature_key c.2 = signing_pubkey alice)).

Definition signing_keys_agree_across_the_group : option unit :=
  h ← bootstrap [ALICE; BOB; CHARLIE] "sig-key-all" fast_config (stewards 1 5);
  assert (all_working h && membership_agrees h);;
  assert (forallb (λ s, forallb (λ v, bool_decide (signing_pubkey s ∈ member_keys v)) (members h)) (members h));;
  assert (holds 0 (λ m, negb (bool_decide (String.list_byte_of_string "stranger-not-in-group" ∈ member_keys m))) h).

(** ** [protocol_consensus.rs] *)

Definition manual_vote_config : ConversationConfig :=
  let d := config_default in
  with_windows (secs 2) (ms 20) (retry_window d) (backup_takeover_window d) (secs 60) (secs 5) (ms 300) auto_default.

Definition peer_vote_no_blocks_the_commit : option unit :=
  h ← bootstrap [ALICE; BOB] "nc" manual_vote_config (stewards 1 5);
  assert (at_epoch 0 1 h);;
  h ← remove 0 1 h;
  h ← process_until (holds 1 (λ m, bool_decide (is_Some (pending_vote_request m)))) h;
  bob ← member 1 h; pid ← pending_vote_request bob;
  h ← act 1 (conv_vote pid false) h;
  h ← process_until (holds 1 (λ m, bool_decide (consensus_outcome pid m = Some false))) h;
  let h := process_times 6 (ms 40) h in
  assert (at_epoch 0 1 h && epochs_agree h && has_members 0 2 h && holds 1 (λ m, negb (saw_leaving m)) h).

(** ** [protocol_clock_skew.rs] *)

Definition skew_config : ConversationConfig :=
  let d := config_default in
  with_windows (secs 2) (ms 20) (retry_window d) (backup_takeover_window d) (secs 2) (ms 500) (ms 300) auto_default.
Definition asked_to_vote : TestMember → bool := λ m, bool_decide (is_Some (pending_vote_request m)).

Definition lockstep_peer_surfaces_the_vote_request : option unit :=
  h ← bootstrap [ALICE; BOB] "skew-control" skew_config (stewards 1 5);
  assert (negb (holds 1 asked_to_vote h));;
  h ← remove 0 1 h;
  process_until (holds 1 asked_to_vote) h;; Some tt.

Definition proposal_arriving_past_expiration_is_dropped_by_skewed_peer : option unit :=
  h ← bootstrap [ALICE; BOB] "skew-late" skew_config (stewards 1 5);
  alice ← member 0 h;
  let h := update 1 (tm_advance (secs 3)) h in
  h ← remove 0 1 h;
  let h := process_times 30 (ms 50) h in
  assert (holds 1 saw_expired_proposal h && negb (holds 1 asked_to_vote h));;
  assert (at_epoch 0 (tm_epoch alice) h && epochs_agree h && has_members 0 2 h && negb (holds 1 saw_leaving h)).

(** ** [protocol_freeze.rs] *)

Fixpoint is_subsequence (haystack needle : list ConversationState) : bool :=
  match needle, haystack with
  | [], _ => true
  | _, [] => false
  | n :: needle', x :: haystack => if bool_decide (x = n) then is_subsequence haystack needle' else is_subsequence haystack needle
  end.

Definition freeze_cycle_emits_phases_in_order : option unit :=
  h ← bootstrap [ALICE; BOB] "c3" fast_config (stewards 1 5);
  alice ← member 0 h;
  let baseline := length (tm_events alice) in
  h ← remove 0 1 h;
  h ← process_until (λ h, has_members 0 1 h && working 0 h) h;
  alice ← member 0 h;
  assert (is_subsequence (phases_of (drop baseline (tm_events alice))) [Freezing; Selection; Working] && (1 <=? commits_applied alice)).

Definition silent_steward_drives_observer_to_reelection : option unit :=
  h ← bootstrap [ALICE; BOB] "b2" fast_config (stewards 1 1);
  let steward := if holds 0 tm_is_steward h then 0%nat else 1%nat in
  let observer := (1 - steward)%nat in
  h ← remove observer steward h;
  h ← process_until (holds observer (λ m, 0 <? approved_count m)) h;
  process_until (holds observer (λ m, bool_decide (tm_state m = Some Reelection))) (mute (N.of_nat steward) h);; Some tt.

Definition deadlock_by_alice (epoch : N) : option ConversationUpdateRequest :=
  result_ok (into_update_request (with_creator (String.list_byte_of_string "alice-creator") (deadlock epoch))).

Definition deadlock_ecp_force_freezes_the_group : option unit :=
  h ← bootstrap [ALICE; BOB] "b5" fast_config (stewards 2 2);
  alice ← member 0 h; ecp ← deadlock_by_alice (tm_epoch alice);
  h ← act 0 (initiate_proposal ecp CreatorYes) h;
  process_until (λ h, holds 0 (saw_phase Freezing) h && holds 1 (saw_phase Freezing) h) h;; Some tt.

Definition buffers (i : nat) (n : N) : Harness → bool := holds i (λ m, tm_pending_update_count m =? n).

Definition active_emergency_drops_incoming_lower_priority_proposal : option unit :=
  h ← bootstrap [ALICE; BOB; CHARLIE] "pf1" fast_config (stewards 1 5);
  '(h, _) ← take_outbound 0 h; '(h, _) ← take_outbound 1 h; '(h, _) ← take_outbound 2 h;
  h ← remove 2 0 h; '(h, baseline) ← take_outbound 2 h;
  let h := hand baseline 1 h in
  assert (buffers 1 1 h);;
  alice ← member 0 h; ecp ← deadlock_by_alice (tm_epoch alice);
  h ← act 0 (initiate_proposal ecp CreatorYes) h; '(h, ecp_out) ← take_outbound 0 h;
  let h := hand ecp_out 1 h in
  h ← remove 2 1 h; '(h, frozen) ← take_outbound 2 h;
  assert (buffers 1 1 (hand frozen 1 h)).
End tests.

Lemma messaging_tests_hold : forallb passes [
  chat_message_delivered_to_peer; received_chat_sender_signature_key_resolves_to_the_signer;
  signing_keys_agree_across_the_group] = true.
Proof. vm_compute. reflexivity. Qed.

Lemma vote_tests_hold : forallb passes [
  peer_vote_no_blocks_the_commit; lockstep_peer_surfaces_the_vote_request;
  proposal_arriving_past_expiration_is_dropped_by_skewed_peer] = true.
Proof. vm_compute. reflexivity. Qed.

Lemma freeze_tests_hold : forallb passes [
  freeze_cycle_emits_phases_in_order; silent_steward_drives_observer_to_reelection;
  deadlock_ecp_force_freezes_the_group; active_emergency_drops_incoming_lower_priority_proposal] = true.
Proof. vm_compute. reflexivity. Qed.
