(* ===== verification/ConformMembership.v ===== *)
(** * The integration tests on membership

    [protocol_leave_sync.rs], [protocol_membership.rs] and [protocol_join_lifecycle.rs],
    over the harness of [Harness]. *)

From S2P Require Import Prelude Time Machine Protos StewardList Mls Buffer Queues Scoring CommitRound ApplyResult Config Display Conversation Toy Room Voting Steward HandleOutcome Inbound Messaging Poll Construct System Net Harness ConformProtocol.

#[local] Existing Instances example_hash net_mls net_setup net_consensus net_codec toy_texts canonical_hash_iter.

(** The creator invites each of [js]. *)
Definition found (js : list nat) (h : Harness) : option Harness := foldl (λ h j, h ← h; invite 0 j h) (Some h) js.
(** The founding commit: the creator counts [n] members, who all work. *)
Definition founded (n : nat) (h : Harness) : bool := has_members 0 (N.of_nat n) h && forallb is_working (take n (members h)).
Definition joins (id : bytes) (m : TestMember) : N := len (filterb (λ k, bool_decide (k = id)) (committed_adds m)).

Section tests.
Local Open Scope N_scope.

(** ** [protocol_leave_sync.rs] *)

Definition double_self_leave_does_not_re_propose : option unit :=
  h ← start [ALICE] "c4" config_default (stewards 1 5);
  '(h, _) ← take_outbound 0 h;
  h ← act 0 leave h; '(h, first) ← take_outbound 0 h;
  assert (0 <? len first);;
  h ← act 0 leave h; '(h, second) ← take_outbound 0 h;
  assert (len second =? 0).

Definition roles_of : TestMember → list (MemberId * MemberRole) := asks [] member_roles.
Definition scores_of : TestMember → option (list (MemberId * Z)) := asks None (λ c, result_ok (member_scores c)).

Definition second_conversation_sync_is_a_no_op : option unit :=
  h ← bootstrap [ALICE; BOB] "c2" fast_config (stewards 1 3);
  bob ← member 1 h; sync ← tm_last_sync bob; alice ← member 0 h;
  '(h, _) ← take_outbound 1 h;
  let h := update 1 (deliver_raw (test_app_id alice) sync) h in
  '(h, out) ← take_outbound 1 h; after ← member 1 h;
  assert (len out =? 0);;
  assert (bool_decide (roles_of bob = roles_of after) && bool_decide (is_Some (scores_of after) ∧ scores_of bob = scores_of after)).

(** ** [protocol_membership.rs] *)

Definition three_members_join_and_converge : option unit :=
  h ← bootstrap [ALICE; BOB; CHARLIE] "grp" fast_config (stewards 1 5);
  assert (all_working h && epochs_agree h && membership_agrees h && has_members 0 3 h);;
  assert (holds 1 (saw_phase Working) h && holds 2 (saw_phase Working) h).

Definition removed_member_observes_leaving_and_group_shrinks : option unit :=
  h ← bootstrap [ALICE; BOB; CHARLIE] "rm" fast_config (stewards 1 2);
  target ← find_steward false [] h; steward ← find_steward true [target] h;
  h ← remove steward target h;
  h ← process_until (has_members steward 2) h;
  assert (holds target saw_leaving h && has_members steward 2 h).

Definition any_member_can_drive_a_score_removal_through_consensus : option unit :=
  h ← bootstrap [ALICE; BOB; CHARLIE] "sbt" fast_config (stewards 1 2);
  proposer ← find_steward false [] h;
  target ← find_member (λ i, negb (Nat.eqb i proposer) && negb (holds i tm_is_epoch_steward h)) h;
  t ← member target h;
  h ← act proposer (propose_score_removal (asks [] member_id_bytes t)) h;
  h ← process_until (has_members proposer 2) h;
  assert (holds target saw_leaving h).

Definition welcome_fans_out_to_every_member_with_a_single_minter : option unit :=
  h ← start [ALICE; BOB; CHARLIE] "wb" fast_config (stewards 1 5);
  '(h, bob_announcement) ← announce 1 h;
  h ← process_until (working 1) (deliver_key_package_all bob_announcement h);
  alice ← member 0 h; bob ← member 1 h;
  let alice_base := length (welcome_readys alice) in
  let bob_base := length (welcome_readys bob) in
  h ← invite 1 2 h;
  h ← process_until (λ h, working 2 h && has_members 0 3 h) h;
  alice ← member 0 h; bob ← member 1 h;
  match drop alice_base (welcome_readys alice), drop bob_base (welcome_readys bob) with
  | [(w, a)], [(v, b)] =>
      assert (xorb a b && bool_decide (welcome_bytes w = welcome_bytes v) && epochs_agree h && membership_agrees h)
  | _, _ => None
  end.

Definition non_steward_add_member_costs_exactly_one_proposal : option unit :=
  h ← start [ALICE; BOB; CHARLIE; DAVE; ERIN] "one-prop" fast_config (stewards 1 5);
  h ← found [1; 2; 3]%nat h;
  h ← process_until (founded 4) h;
  assert (negb (holds 1 tm_is_steward h));;
  h ← invite 1 4 h;
  h ← process_until (working 4) h;
  erin ← member 4 h; alice ← member 0 h;
  assert (forallb (λ m, len (observed_invite_proposals (signing_pubkey erin) m) =? 1) (take 4 (members h)));;
  assert (joins (signing_pubkey erin) alice =? 1).

Definition invitation_racing_a_sponsored_join_admits_the_member_once : option unit :=
  h ← start [ALICE; BOB; CHARLIE; DAVE; ERIN] "race" fast_config (stewards 1 5);
  h ← found [1; 2; 3]%nat h;
  h ← process_until (founded 4) h;
  before ← member 0 h;
  '(h, invited) ← mint 4 h; '(h, announced) ← announce 4 h;
  h ← act 1 (conv_add_member invited) (update 0 (deliver_key_package announced) h);
  h ← process_until (working 4) h;
  erin ← member 4 h; alice ← member 0 h;
  assert ((joins (signing_pubkey erin) alice =? 1) && has_members 0 5 h && (tm_epoch before <? tm_epoch alice));;
  assert (epochs_agree h && membership_agrees h && converged h).

Definition repeated_add_for_one_joiner_opens_one_proposal : option unit :=
  h ← start [ALICE; BOB; CHARLIE; DAVE; ERIN] "double-add" fast_config (stewards 1 5);
  h ← found [1; 2; 3]%nat h;
  h ← process_until (founded 4) h;
  '(h, a) ← mint 4 h; '(h, b) ← mint 4 h;
  h ← act 0 (conv_add_member a) h; h ← act 0 (conv_add_member b) h;
  h ← process_until (working 4) h;
  erin ← member 4 h; alice ← member 0 h;
  assert ((len (observed_invite_proposals (signing_pubkey erin) alice) =? 1) && (joins (signing_pubkey erin) alice =? 1)).

Definition refused_as_member {A} (r : result ConversationError A) : bool := match r with Err AlreadyMember => true | _ => false end.

Definition adding_a_member_already_in_the_group_is_refused : option unit :=
  h ← bootstrap [ALICE; BOB; CHARLIE] "dup-add" fast_config (stewards 1 2);
  '(h, bob_kp) ← mint 1 h; '(h, r) ← try_act 0 (conv_add_member bob_kp) h;
  assert (refused_as_member r);;
  '(h, own_kp) ← mint 0 h; '(h, r) ← try_act 0 (conv_add_member own_kp) h;
  assert (refused_as_member r);;
  let h := process (ms 500) h in
  assert (has_members 0 3 h && converged h).

(** ** [protocol_join_lifecycle.rs] *)

Definition evicted_member_rejoins_at_a_later_epoch : option unit :=
  h ← bootstrap [ALICE; BOB; CHARLIE] "rejoin" fast_config (stewards 1 2);
  target ← find_steward false [] h; steward ← find_steward true [target] h;
  before ← member steward h;
  h ← remove steward target h;
  h ← process_until (has_members steward 2) h;
  '(h, announcement) ← announce target (update target (rejoin fast_config) h);
  h ← process_until (λ h, working target h && has_members steward 3 h) (deliver_key_package_all announcement h);
  t ← member target h; s ← member steward h;
  assert ((tm_epoch before <? tm_epoch t) && bool_decide (signing_pubkey t ∈ member_keys s)).

Definition bootstrap_joiner_reports_sync_applied : option unit :=
  h ← bootstrap [ALICE; BOB] "sync-applied" fast_config (stewards 1 5);
  joiner ← member 1 h;
  assert (existsb (λ e, match e with EvConversationSyncApplied => true | _ => false end) (tm_events joiner));;
  assert (negb (existsb (λ e, match e with EvConversationSyncMissing => true | _ => false end) (tm_events joiner))).

(** The backup window of [fast_config] shortened to a tenth of a second. *)
Definition takeover_config : ConversationConfig :=
  let f := fast_config in fast_with (freeze_duration f) (retry_window f) (ms 100) auto_default.
(** Three members, the last of whom is then evicted. *)
Definition evict_third (id : string) : option Harness :=
  h ← bootstrap [ALICE; BOB; CHARLIE] id takeover_config (stewards 1 5);
  h ← remove 0 2 h;
  process_until (has_members 0 2) h.

Definition backup_steward_resends_sync_when_epoch_steward_silent : option unit :=
  h ← evict_third "sync-takeover";
  epoch_steward ← find_epoch_steward [2]%nat h; backup ← other_than [2%nat; epoch_steward] h;
  '(h, _) ← take_outbound epoch_steward h;
  h ← act epoch_steward request_conversation_sync h;
  '(h, request) ← take_outbound epoch_steward h;
  '(h, _) ← take_outbound backup (hand request backup h);
  '(h, early) ← take_outbound backup (update backup tm_poll h);
  assert (len early =? 0);;
  '(h, late) ← take_outbound backup (update backup (λ m, tm_poll (tm_advance (ms 100 + ms 50) m)) h);
  assert (len late =? 1).
End tests.

Lemma leave_sync_tests_hold : forallb passes
  [double_self_leave_does_not_re_propose; second_conversation_sync_is_a_no_op] = true.
Proof. vm_compute. reflexivity. Qed.

Lemma membership_tests_hold : forallb passes [
  three_members_join_and_converge; removed_member_observes_leaving_and_group_shrinks;
  any_member_can_drive_a_score_removal_through_consensus; welcome_fans_out_to_every_member_with_a_single_minter;
  non_steward_add_member_costs_exactly_one_proposal; invitation_racing_a_sponsored_join_admits_the_member_once;
  repeated_add_for_one_joiner_opens_one_proposal; adding_a_member_already_in_the_group_is_refused] = true.
Proof. vm_compute. reflexivity. Qed.

Lemma join_lifecycle_tests_hold : forallb passes [
  evicted_member_rejoins_at_a_later_epoch; bootstrap_joiner_reports_sync_applied;
  backup_steward_resends_sync_when_epoch_steward_silent] = true.
Proof. vm_compute. reflexivity. Qed.
