(* ===== verification/ConformGroup.v ===== *)
(** * The integration tests on founding, growth and recovery

    [protocol_steward.rs], [protocol_recovery.rs], [founding_group.rs],
    [protocol_join_scale.rs] and [standalone_construction.rs], over the harness of
    [Harness]. The two tests of [protocol_recovery.rs] the source ignores are written
    too: what makes the source ignore them shows in the model. *)

From S2P Require Import Prelude Time Machine Protos StewardList Mls Buffer Queues Scoring CommitRound ApplyResult Config Display Conversation Toy Room Voting Steward HandleOutcome Inbound Messaging Poll Construct System Net Harness ConformProtocol ConformMembership.

#[local] Existing Instances example_hash net_mls net_setup net_consensus net_codec toy_texts canonical_hash_iter.

(** A key no wallet of the tests has. *)
Definition STRANGER : byte := x99.

Section tests.
Local Open Scope N_scope.

(** ** [protocol_steward.rs] *)

Definition steward_auto_commits_approved_work_on_inactivity : option unit :=
  h ← bootstrap [ALICE; BOB] "b1" fast_config (stewards 1 5);
  assert (holds 0 tm_is_steward h && at_epoch 0 1 h);;
  h ← remove 0 1 h;
  h ← process_until (has_members 0 1) h;
  assert (at_epoch 0 2 h && holds 1 saw_leaving h).

Definition drive_past_deadlines (h : Harness) : Harness := process_times 15 (ms 40) h.
Definition assert_no_election_storm (h : Harness) : option unit :=
  assert (all_working h && epochs_agree h && holds 0 tm_is_steward h && forallb (λ m, retry_round m =? 0) (members h)).

Definition small_group_reconciles_locally_without_election : option unit :=
  h ← bootstrap [ALICE; BOB] "sg" fast_config (stewards 1 3);
  assert_no_election_storm (drive_past_deadlines h).
Definition over_sn_max_but_unsettled_members_do_not_elect : option unit :=
  h ← bootstrap [ALICE; BOB; CHARLIE] "lg" fast_config (stewards 1 2);
  assert_no_election_storm (drive_past_deadlines h).

Definition backup_steward_proposes_buffered_joiner_when_epoch_steward_silent : option unit :=
  h ← evict_third "bk";
  epoch_steward ← find_epoch_steward [2]%nat h; backup ← other_than [2%nat; epoch_steward] h;
  '(h, announcement) ← announce 2 (update 2 (rejoin takeover_config) h);
  h ← process_until (λ h, has_members backup 3 h && has_members 2 3 h) (update backup (deliver_key_package announcement) h);
  Some tt.

(** ** [protocol_recovery.rs] *)

(** Three members and their only steward, muted, whose removal the first of the two
    others proposes, who also asks for recovery. *)
Definition recovering (id : string) (auto : option Duration) : option (Harness * nat * nat) :=
  let f := fast_config in
  h ← bootstrap [ALICE; BOB; CHARLIE] id (fast_with (freeze_duration f) (ms 50) (backup_takeover_window f) auto) (stewards 1 1);
  let h := process_times 5 (ms 40) h in
  steward ← find_epoch_steward [] h; a ← other_than [steward] h; b ← other_than [steward; a] h;
  h ← remove a steward (mute (N.of_nat steward) h); h ← act a request_recovery h;
  Some (h, a, b).
Definition saw_recovery (m : TestMember) : bool :=
  existsb (λ e, match e with EvRecoveryModeOpened => true | _ => false end) (tm_events m).

Definition recovery_auto_mint_converges_on_one_commit : option unit :=
  '(h, a, b) ← recovering "rc" (Some 0);
  h ← process_until (λ h, has_members a 2 h && has_members b 2 h) h;
  ma ← member a h; mb ← member b h;
  assert ((tm_epoch ma =? tm_epoch mb) && bool_decide (member_keys ma = member_keys mb) && is_working ma && is_working mb);;
  assert (forallb (λ m, saw_recovery m && saw_phase Working m) [ma; mb]).

Definition manual_only_recovery_does_not_auto_commit : option unit :=
  '(h, a, _) ← recovering "rn" None;
  let h := process_times 12 (ms 40) h in
  assert (has_members a 3 h && holds a (asks false is_in_recovery_mode) h).

(** Ignored by the source. Up to where Alice goes silent with Charlie's add approved. *)
Definition sole_steward_offline : option Harness :=
  let f := fast_config in
  let config := with_windows (secs 20) (freeze_duration f) (ms 100) (backup_takeover_window f) (proposal_expiration f)
    (consensus_timeout f) (voting_delay f) auto_default in
  h ← start [ALICE; BOB; CHARLIE] "sole" config (stewards 1 1);
  '(h, bob) ← announce 1 h;
  h ← process_until (working 1) (deliver_key_package_all bob h);
  '(h, charlie) ← announce 2 h;
  h ← process_until (holds 1 (λ m, approved_count m =? 1)) (deliver_key_package_all charlie h);
  Some (mute 0 h).
Definition sole_steward_offline_recovers_and_commits_approved_add : option unit :=
  h ← sole_steward_offline;
  h ← process_until (λ h, has_members 1 3 h && working 2 h) h;
  bob ← member 1 h; charlie ← member 2 h;
  assert (saw_phase Reelection bob && (tm_epoch bob =? tm_epoch charlie)).

(** Ignored by the source. The two who stay online once the steward and the member the
    authority falls to are silent. *)
Definition two_silent : option (Harness * nat * nat) :=
  let f := fast_config in
  h ← bootstrap [ALICE; BOB; CHARLIE; DAVE] "silent" (fast_with (freeze_duration f) (ms 50) (backup_takeover_window f) auto_default) (stewards 1 1);
  let h := process_times 5 (ms 40) h in
  steward ← find_epoch_steward [] h;
  let id i := asks [] member_id_bytes (default (member_join x00 f (stewards 1 1)) (member i h)) in
  match sort_by (λ a b, bytes_cmp (id a) (id b)) (filterb (λ i, negb (Nat.eqb i steward)) (seq 0 4)) with
  | [silent; a; b] => h ← remove a steward (mute (N.of_nat silent) (mute (N.of_nat steward) h)); Some (h, a, b)
  | _ => None
  end.
Definition silent_election_proposer_hands_authority_to_next_member : option unit :=
  '(h, a, b) ← two_silent;
  h ← process_until (λ h, forallb (λ i, has_members i 3 h && working i h) [a; b]) h;
  ma ← member a h; mb ← member b h;
  assert ((saw_phase Reelection ma || saw_phase Reelection mb) && (tm_epoch ma =? tm_epoch mb)).

(** The rounds of steward elections a member has proposed. *)
Definition proposed_rounds (m : TestMember) : list (list bytes * N) :=
  omap (λ e, match e with
    | EvOwnProposalSubmitted _ (mk_request (Some (StewardElection el))) => Some (proposed_stewards el, el_retry_round el)
    | _ => None end) (tm_events m).

(** ** [founding_group.rs] *)

Definition measurable_commit_window : ConversationConfig :=
  let d := config_default in
  with_windows (secs 2) (ms 20) (retry_window d) (backup_takeover_window d) (secs 10) (ms 150) (ms 30) auto_default.

(** The virtual time it took as well. *)
Definition drive_for (budget : Duration) (predicate : Harness → bool) (h : Harness) : option (Harness * Duration) :=
  '(h, n) ← process_for (N.to_nat (budget / STEP)) predicate h; Some (h, N.of_nat n * STEP).

Definition founding_adds_batch_into_one_commit_after_one_inactivity_window : option unit :=
  let config := measurable_commit_window in
  h ← start [ALICE; BOB; CHARLIE; DAVE] "found" config (stewards 1 5);
  h ← found [1; 2; 3]%nat h;
  assert (at_epoch 0 0 h && has_members 0 1 h);;
  '(h, landed_at) ← drive_for (secs 10) (holds 0 (λ m, commits_applied m =? 1)) h;
  assert (commit_batch_window config <=? landed_at);;
  alice ← member 0 h;
  assert (match welcome_readys alice with [(w, _)] => len (joiner_identities w) =? 3 | _ => false end);;
  '(h, _) ← drive_for (secs 10) all_working h;
  assert (at_epoch 0 1 h && has_members 0 4 h && holds 0 (λ m, commits_applied m =? 1) h);;
  assert (epochs_agree h && membership_agrees h).

Definition initial_members_are_not_stewards_in_the_epoch_they_arrive : option unit :=
  h ← start [ALICE; BOB; CHARLIE; DAVE] "settle" fast_config (stewards 1 5);
  h ← found [1; 2; 3]%nat h;
  '(h, _) ← drive_for (secs 10) (λ h, all_working h && has_members 0 4 h) h;
  assert (at_epoch 0 1 h && holds 0 tm_is_epoch_steward h);;
  assert (forallb (λ m, negb (tm_is_steward m)) (tail (members h))).

Definition silent_initial_members_are_counted_as_voters_on_the_next_add : option unit :=
  h ← start [ALICE; BOB; CHARLIE; DAVE; ERIN; FRANK] "ghost" fast_config (stewards 1 5);
  h ← found [1; 2; 3; 4]%nat (foldl (λ h i, update i withhold_welcome h) h [1; 2; 3; 4]%nat);
  '(h, _) ← drive_for (secs 10) (has_members 0 5) h;
  assert (forallb (λ i, negb (working i h)) [1; 2; 3; 4]%nat && holds 0 tm_is_epoch_steward h);;
  h ← invite 0 5 h;
  '(h, _) ← drive_for (secs 10) (λ h, working 5 h || holds 0 (λ m, 1 <? tm_epoch m) h) h;
  assert (working 5 h && has_members 0 6 h).

Definition a_single_silent_initial_member_and_the_next_add : option unit :=
  h ← start [ALICE; BOB; CHARLIE] "pair" fast_config (stewards 1 5);
  h ← invite 0 1 (update 1 withhold_welcome h);
  '(h, _) ← drive_for (secs 10) (has_members 0 2) h;
  assert (negb (working 1 h));;
  h ← invite 0 2 h;
  let h := process_times (N.to_nat (secs 3 / STEP)) STEP h in
  assert (has_members 0 2 h && negb (working 2 h)).

Definition survivors_recover_when_the_sole_steward_is_partitioned : option unit :=
  h ← start [ALICE; BOB; CHARLIE; DAVE; ERIN] "offline" fast_config (stewards 1 5);
  h ← found [1; 2; 3]%nat h;
  '(h, _) ← drive_for (secs 10) (founded 4) h;
  assert (at_epoch 0 1 h && holds 0 tm_is_epoch_steward h && converged h);;
  h ← invite 1 4 (mute 0 h);
  '(h, _) ← drive_for (secs 25) (has_members 1 5) h;
  assert (holds 1 (λ m, 1 <? tm_epoch m) h && working 4 h);;
  let h := process_times 40 STEP (unmute 0 h) in
  assert (epochs_agree h && membership_agrees h && negb (converged h)).

(** ** [protocol_join_scale.rs] *)

Definition one_at_a_time_growth_past_election_keeps_group_converged : option unit :=
  let f := fast_config in
  h ← start [ALICE; BOB; CHARLIE; DAVE; ERIN; FRANK; x10; x11; x12; x13; x14] "scale"
    (fast_with (ms 500) (retry_window f) (backup_takeover_window f) auto_default) (stewards 1 2);
  h ← foldl (λ h k, h ← h; h ← invite 0 k h;
      h ← process_until (λ h, working k h && has_members 0 (N.of_nat k + 1) h) h;
      let h := process_times 30 STEP h in assert (converged h);; Some h) (Some h) (seq 1 10);
  assert (has_members 0 11 h && membership_agrees h).

(** ** [standalone_construction.rs] *)

(** A wallet, the signature key made for it, and a clock. *)
Record Integrator := mk_integrator { ig_wallet : byte; ig_signer : byte; ig_clock : Duration }.
Definition with_key (key : byte) : Integrator := mk_integrator key key 0.
Definition ig_advance (d : Duration) (i : Integrator) : Integrator := mk_integrator (ig_wallet i) (ig_signer i) (ig_clock i + d).
Definition ig_key_package (i : Integrator) : bytes := [ig_signer i; x00].
Definition ig_create (i : Integrator) (id : string) (config : ConversationConfig) (initial : list Integrator) : option NetConv :=
  result_ok (create (St := InMemoryPeerScoreStorage) id [ig_signer i] [ig_signer i] tt (engine_of (ig_wallet i)) make_scoring
    (ig_clock i) [ig_wallet i] config (ig_key_package <$> initial)).
Definition ig_join (i : Integrator) (w : MemberWelcome) (config : ConversationConfig) : option (option NetConv) :=
  result_ok (join (St := InMemoryPeerScoreStorage) [ig_signer i] (welcome_bytes w) (conversation_sync_bytes w) (engine_of (ig_wallet i))
    make_scoring (ig_clock i) [ig_wallet i] config).
Definition mls_count (c : NetConv) : N := len (g_members (conv_mls_group c)).
Definition stands (id : string) (members epoch : N) (c : NetConv) : bool :=
  bool_decide (conv_id c = id) && bool_decide (current_state c = Working) && (mls_count c =? members) && ((epoch_and_retry c).1 =? epoch).
Definition minted_locally (events : list ConversationEvent) : list MemberWelcome :=
  omap (λ e, match e with EvWelcomeReady w true => Some w | _ => None end) events.

Definition create_builds_a_working_steward_session_without_user : option unit :=
  c ← ig_create (with_key ALICE) "standalone" config_default [];
  assert (bool_decide (current_state c = Working) && conv_is_steward c && ((epoch_and_retry c).1 =? 0));;
  let '(_, events) := drain_events c in
  assert (existsb (λ e, match e with EvPhaseChange Working => true | _ => false end) events).

(** Rounds of thirty milliseconds, until one yields a welcome. *)
Fixpoint drive_creator (fuel : nat) (alice bob : Integrator) (c : NetConv) : option (Integrator * MemberWelcome) :=
  match fuel with
  | O => None
  | S fuel =>
      let alice := ig_advance (ms 30) alice in
      let bob := ig_advance (ms 30) bob in
      let '(c, _) := poll DRAIN (tick_clock (ig_clock alice) c) in
      let '(c, events) := drain_events c in
      match last (minted_locally events) with Some w => Some (bob, w) | None => drive_creator fuel alice bob c end
  end.

Definition join_completes_in_one_call : option unit :=
  let alice := with_key ALICE in
  let bob := with_key BOB in
  c ← ig_create alice "standalone-welcome" fast_config [];
  let '(c, r) := conv_add_member (ig_key_package bob) c in
  _ ← result_ok r; '(bob, w) ← drive_creator 40 alice bob c;
  bystander ← ig_join (mk_integrator ALICE STRANGER 0) w fast_config;
  assert (negb (is_some_and bystander (λ _, true)));;
  joined ← ig_join bob w fast_config; joined ← joined;
  assert (stands "standalone-welcome" 2 1 joined).

(** The creator, its one welcome and those who opened it. *)
Definition genesis (id : string) (slc : StewardListConfig) (friends : list byte) : option (NetConv * MemberWelcome * list NetConv) :=
  let config := with_stewards slc fast_config in
  c ← ig_create (with_key ALICE) id config (with_key <$> friends);
  let '(c, events) := drain_events c in
  w ← head (minted_locally events);
  joined ← mapM (λ k, j ← ig_join (with_key k) w config; j) friends;
  Some (c, w, joined).

Definition create_with_members_seeds_initial_members_at_genesis : option unit :=
  '(c, w, joined) ← genesis "genesis" (stewards 1 5) [BOB; CHARLIE];
  assert (stands "genesis" 3 1 c && conv_is_steward c && (len (joiner_identities w) =? 2));;
  assert (forallb (λ j, stands "genesis" 3 1 j && conv_is_steward j) joined).

Definition create_with_members_founds_a_subset_steward_group : option unit :=
  '(c, w, joined) ← genesis "genesis-subset" (stewards 1 2) [BOB; CHARLIE; DAVE];
  assert (((epoch_and_retry c).1 =? 1) && (len (joiner_identities w) =? 3));;
  assert (forallb (λ j, mls_count j =? 4) (c :: joined) && (len (filterb conv_is_steward (c :: joined)) =? 2)).
End tests.

Lemma steward_protocol_tests_hold : forallb passes [
  steward_auto_commits_approved_work_on_inactivity; small_group_reconciles_locally_without_election;
  over_sn_max_but_unsettled_members_do_not_elect; backup_steward_proposes_buffered_joiner_when_epoch_steward_silent] = true.
Proof. vm_compute. reflexivity. Qed.

Lemma recovery_protocol_tests_hold : forallb passes
  [recovery_auto_mint_converges_on_one_commit; manual_only_recovery_does_not_auto_commit] = true.
Proof. vm_compute. reflexivity. Qed.

Lemma founding_tests_hold : forallb passes [
  founding_adds_batch_into_one_commit_after_one_inactivity_window;
  initial_members_are_not_stewards_in_the_epoch_they_arrive;
  silent_initial_members_are_counted_as_voters_on_the_next_add;
  a_single_silent_initial_member_and_the_next_add;
  survivors_recover_when_the_sole_steward_is_partitioned] = true.
Proof. vm_compute. reflexivity. Qed.

Lemma scale_test_holds : passes one_at_a_time_growth_past_election_keeps_group_converged = true.
Proof. vm_compute. reflexivity. Qed.

Lemma standalone_tests_hold : forallb passes [
  create_builds_a_working_steward_session_without_user; join_completes_in_one_call;
  create_with_members_seeds_initial_members_at_genesis; create_with_members_founds_a_subset_steward_group] = true.
Proof. vm_compute. reflexivity. Qed.

(** The first ignored test fails as the source expects: in thirty seconds Bob, alone
    with a silent steward, never adds Charlie. *)
Lemma sole_steward_stays_stuck :
  (passes (h ← sole_steward_offline; Some tt) &&
   negb (passes sole_steward_offline_recovers_and_commits_approved_add))%bool = true.
Proof. vm_compute. reflexivity. Qed.

(** So does the second, for the reason its note gives: every election the online
    proposer opens elects the same silent steward at the same round, [1]. *)
Lemma silent_steward_is_reelected : passes (
  '(h, a, b) ← two_silent;
  let h := process_times 100 STEP h in
  p ← member a h; s ← member 0 h;
  assert (is_muted 0 h && has_members a 4 h && (10 <? len (proposed_rounds p))%N &&
          forallb (λ r, bool_decide (r = ([asks [] member_id_bytes s], 1%N))) (proposed_rounds p))) = true.
Proof. vm_compute. reflexivity. Qed.
Lemma silent_election_stays_stuck : negb (passes silent_election_proposer_hands_authority_to_next_member) = true.
Proof. vm_compute. reflexivity. Qed.
